(* ===== verification/_CoqProject ===== *)
-Q . S2P
Prelude.v
Marshall.v
MarshallSpec.v
MarshallThms.v
RpcStubs.v
RpcStubsSpec.v
RpcServer.v
RpcServerSpec.v
RpcServerThms.v
RpcClient.v
RpcClientSpec.v
Connection.v
ConnectionSpec.v
RpcSystem.v
RpcThms.v
RpcNetwork.v
RpcTest.v
Listener.v
ListenerSpec.v
ListenerInv.v
ListenerSteps.v
ListenerThms.v
Fifo.v
FifoSpec.v
ThrPool.v
ThrPoolThms.v
Poll.v
PollSpec.v
PollThms.v
LockServers.v
Threads.v
LockClient.v
LockSystem.v
LockRpc.v
LockTester.v
Protocols.v
Extent.v
ExtentSpec.v
LockExtent.v
Directory.v
DirectorySpec.v
YfsClient.v
Fuse.v
YfsSpec.v
YfsFs.v
YfsThms.v
FuseThms.v
FuseMain.v
YfsExamples.v
ExtentRpc.v
YfsRpc.v
YfsShared.v
Posix.v
LabTester.v
LabTesterSpec.v
LabTesterConc.v
LabTesterThms.v
LabTesterTwo.v
LabTesterExamples.v
Paxos.v
PaxosThms.v
Group.v
GroupThms.v
GroupExamples.v
GroupRpc.v
