(* ===== verification/Prelude.v ===== *)
(** * YFS: a verification development

    The repository holds a small distributed file system and the services it is
    built from: an RPC library with at-most-once delivery ([src/rpc]), lock
    servers and a caching lock client, an extent (block) server with a caching
    client, a file system client with its FUSE front end, and the membership
    layer (Paxos log and acceptor, views, replica bookkeeping).  This library
    models that code as executable Rocq functions, one definition per function
    of the source, and proves what makes each part correct.

    ** How the code is modelled

    - A function that can fail an assertion, exit, or meet undefined behaviour
      returns [res]: [Ret], [Abort] or [Undef] (this file).  Machine integers are
      [Z] with the wrap-around written out ([u32], [s32], ...); strings and
      buffers are lists of bytes ([str]); [std::map] and object graphs are stdpp's
      [gmap].
    - What the program does not decide is an argument: what a system call, the
      clock, [random()] or a remote node answers, and what uninitialised memory
      holds ([junk], the class [Allocator]).
    - Code that blocks is cut at its waits; threads are labelled step relations,
      with [reachable] and [reachable_invariant] of this file for rule induction.
    - Files that model code have the code's name; files ending in [Spec], [Inv],
      [Steps], [Thms], [System], [Network], [Fs], [Conc], [Two] or [Examples] hold
      proofs; properties carry an id [C1 .. C40].

    ** The RPC library

    - [Marshall]: [marshall.h] and the operators of [rpc.cc], over the growing
      buffer and its bounds checks.  The class [Marshal] is what a type needs to
      be an argument; [MarshalSpec] is its contract (writing appends the encoding,
      reading gives the value back, a truncated encoding is noticed), which every
      instance meets ([MarshallSpec]).  [MarshallThms]: round trip (C11),
      truncation (C12), and the wrap-around in [rawbytes].
    - [RpcStubs], [RpcStubsSpec]: the [call] and [reg] templates of [rpc.h].
    - [RpcServer]: [rpcs], in particular [dispatch] and the reply window; reply
      buffers live in an explicit heap and connections have reference counts.
      [RpcServerSpec] has the invariant of the server under all interleavings of
      requests and finishing handlers; [RpcServerThms]: at most once (C1),
      duplicates (C2), memory safety (C3).
    - [RpcClient], [RpcClientSpec]: [rpcc], its acknowledgement window and the
      retransmission loop of [call1].  [RpcThms]: exact acknowledgements (C7),
      termination in nine turns (C22), and that requests are honest.
    - [Connection], [ConnectionSpec]: framing in [connection.cc], for every way the
      system cuts up reads and writes (C4, C5).
    - [RpcSystem]: stub, client, server and handler composed over a network that
      delivers: a call is the method (C6), and afterwards client and server are
      [linked] again, so that calls make up sessions; [bind] opens one.
    - [RpcNetwork]: a client and a server with other clients, over a network that
      loses, repeats, delays and reorders: what a call returns was executed exactly
      once (C10).
    - [RpcTest]: the library's test [rpctest.cc], with two clients on one server,
      passes (C27).
    - [Listener], [ListenerSpec], [ListenerInv], [ListenerSteps], [ListenerThms]: the
      lifetime of connections.  [tcpsconn] accepts them and collects the dead ones,
      [rpcs] and its jobs hold counted references, [decref] deletes; objects live in
      a store with the open descriptors.  The threads are an executable [turn]: the
      listener stops between any two calls on a connection, [send] and [closeconn]
      between setting [dead_] and deregistering, a job at every lock it takes (the
      two sections under [conss_m_] are single turns).  Reference counts are exact
      and nothing is used after deletion (C37).
    - [Fifo], [FifoSpec], [ThrPool], [ThrPoolThms]: the bounded queue (C38) and the
      thread pool that runs requests (C39), with condition variables, signals and
      spurious wake-ups.
    - [Poll], [PollSpec], [PollThms]: [PollMgr] against the interface [AioSpec],
      which [SelectAIO] and [EPollAIO] implement; [SelectAIO] is exact (C32) and
      [block_remove_fd] quiet (C40).

    ** Locks

    - [LockServers]: [lock_server.cc] and [lock_server_cache.cc]; [LockClient]:
      [lock_client_cache.cc], [acquire] cut at its waits.
    - [LockSystem]: all clients and the server as one step relation, RPCs being
      answered (a failing RPC is a finding).  Mutual exclusion (C13), no waiter is
      forgotten (C14), progress (C15).
    - [LockRpc]: [lock_client.cc] over RPC to the plain [lock_server.cc] (C16).
    - [LockTester]: the threads of [lock_tester.cc] over the service: its checks
      never fail (C20).

    ** Files

    - [Extent], [ExtentSpec]: extent server and caching client; coherence under any
      discipline of single owners.  [LockExtent]: the caching lock protocol is such
      a discipline, so files are coherent under it (C17).
    - [Directory], [DirectorySpec]: the text of directories and its scans.
    - [YfsClient]: [yfs_client.cc] over any [ExtentStore]; [YfsSpec] is the abstract
      file system and [YfsFs], [YfsThms] the refinement (C18), the lock discipline
      (C19), exact lookups and the inum round trip.
    - [Fuse], [FuseThms]: the handlers of [fuse.cc] (C23, C24) and the types
      they report (C21); libfuse's directory-entry functions are parameters.
    - [ExtentRpc]: [extent_client.cc] over RPC to the server [extent_smain.cc]
      starts; it does what [Extent] does with the methods called directly (C28).
    - [YfsRpc]: the file system over that store, with locks revoked between
      requests: the refinement of C18 end to end (C8).
    - [YfsShared]: several processes, each with a file system client, a lock client
      and an extent cache, on one lock server and one extent server.  The store of
      the serving process fetches a lock that is held elsewhere by the steps of the
      protocol (revoke, flush, release, retry), and the session is that of a single
      abstract file system (C9).  The interface of the store ([ExtentLaws] of
      [YfsSpec]) therefore has the events the store allows, which the lock
      discipline of the client (C19) stays within.
    - [FuseMain]: [main] of [fuse.cc], the table of operations and the calls of the
      FUSE library.

    ** The file system testers

    - [Posix]: programs of system calls, what POSIX promises them ([posix], and
      [Conforms] for a kernel that keeps it), and a rely-guarantee logic for two
      processes.
    - [LabTester]: [test-lab-3-b.c] and [test-lab-3-c.c].  [LabTesterSpec] has what
      each function does to the files that are the process's own, [LabTesterConc]
      the two tests in which processes share files, [LabTesterThms] and
      [LabTesterTwo] that the testers pass on every conforming file system in every
      interleaving (C34 and [lab_3_c_passes]), [LabTesterExamples] a file system in
      memory on which they run.
    - [Threads]: [method_thread.h], which runs what it is given exactly once; the
      demos [pthreadCondition.c] and [lock_demo.cc].

    ** Membership

    - [Protocols]: the structures of [paxos_protocol.h] and [rsm_protocol.h].
    - [Paxos], [PaxosThms]: [log.cc] and [paxos.cc].  Replay (C25), recovery (C26),
      stability of decisions, transfer of a log, intersecting majorities
      for any phases (C29), ballots (C30).  The prepare and accept phases are left
      unfilled in the source and modelled as they are.
    - [Group], [GroupThms], [GroupExamples]: [handle.cc] (C31), [config.cc] and
      [rsm.cc]: primaries (C33), view changes.
    - [GroupRpc]: what [paxos.cc], [config.cc] and [rsm.cc] register with their RPC
      servers, the start of a node by [lock_smain.cc], joining (C35) and heartbeats
      (C36) as remote calls, and the test client.

    ** Fuel

    Recursion that is not structural has fuel that is shown or chosen to suffice:
    [dec_digits] gets 20 digits for a 64-bit and 10 for a 32-bit number, the scan of
    [lookup] one more than the length of the buffer, [logread_loop] and
    [members_loop] the length of their input (every turn reads a character),
    [carry] the whole seconds in its nanoseconds (a turn takes one off), and [call1_loop] the list of
    what it observes, nine elements of which are enough (C22).  A
    run of a tester that forks ([par]) is bounded in the number of calls; the
    theorem says that some bound is enough for every schedule (C34).

    ** Not modelled

    The socket calls that set up a listener; [slock.h], [jsl_log], [gettime.cc],
    [tprintf.h] (wrappers of pthreads, logging, a clock shim); [mapListTester.cc],
    which prints containers; the reading of options.
    That the FUSE front end and the Linux kernel above it conform to [posix] is not
    shown: the testers' theorem is about the testers.  The
    calls of the caching lock client and server are steps of [LockSystem] and not
    carried over RPC: the program that would serve them is compiled without them.
    Sessions over RPC ([RpcSystem] and its clients) run one call at a time on an
    undisturbed network; the disturbed one is [RpcNetwork]'s.  Reference
    counts are unbounded: an [int] would overflow only with 2^31 queued jobs. *)

From stdpp Require Export prelude gmap strings list numbers sorting.
From Stdlib Require Export ZArith Lia Ascii.

Set Default Goal Selector "!".
Open Scope Z_scope.

(** ** Outcomes of C++ code

    [Ret a]: the code returns [a].  [Abort]: a [VERIFY]/[assert] fails or the
    code calls [exit].  [Undef]: undefined behaviour (an access outside a
    buffer, signed overflow, a null dereference). *)
Inductive res (A : Type) : Type :=
  | Ret (a : A)
  | Abort
  | Undef.
Arguments Ret {A} a.
Arguments Abort {A}.
Arguments Undef {A}.

#[global] Instance res_ret : MRet res := fun A a => Ret a.
#[global] Instance res_bind : MBind res := fun A B f r =>
  match r with Ret a => f a | Abort => Abort | Undef => Undef end.

(** [VERIFY(b)] and [assert(b)]. *)
Definition VERIFY (b : bool) : res unit := if b then Ret tt else Abort.

(** A C++ operation that is undefined unless [b] holds. *)
Definition defined (b : bool) : res unit := if b then Ret tt else Undef.

Lemma res_bind_ret {A B} (a : A) (f : A -> res B) : mbind f (Ret a) = f a.
Proof. reflexivity. Qed.

Lemma res_bind_Ret_inv {A B} (r : res A) (f : A -> res B) b :
  mbind f r = Ret b -> exists a, r = Ret a /\ f a = Ret b.
Proof. destruct r; simpl; [eauto | discriminate | discriminate]. Qed.

Lemma VERIFY_true b : b = true -> VERIFY b = Ret tt.
Proof. by intros ->. Qed.

Lemma defined_true b : b = true -> defined b = Ret tt.
Proof. by intros ->. Qed.

(** ** Machine integers *)

Abbreviation two8 := 256 (only parsing).
Abbreviation two16 := 65536 (only parsing).
Abbreviation two31 := 2147483648 (only parsing).
Abbreviation two32 := 4294967296 (only parsing).
Abbreviation two63 := 9223372036854775808 (only parsing).
Abbreviation two64 := 18446744073709551616 (only parsing).

(** Conversions to the unsigned and signed types of each width. *)
Definition u8 (z : Z) : Z := z mod two8.
Definition u16 (z : Z) : Z := z mod two16.
Definition u32 (z : Z) : Z := z mod two32.
Definition u64 (z : Z) : Z := z mod two64.
Definition s8 (z : Z) : Z := (z + 128) mod two8 - 128.
Definition s16 (z : Z) : Z := (z + 32768) mod two16 - 32768.
Definition s32 (z : Z) : Z := (z + two31) mod two32 - two31.

(** Signed 32-bit arithmetic: the result is undefined outside the range. *)
Definition int_chk (z : Z) : res Z :=
  if bool_decide (- two31 <= z < two31) then Ret z else Undef.

Lemma int_chk_ok z : - two31 <= z < two31 -> int_chk z = Ret z.
Proof. intros H. unfold int_chk. by rewrite bool_decide_eq_true_2. Qed.

Lemma u32_small z : 0 <= z < two32 -> u32 z = z.
Proof. apply Z.mod_small. Qed.
Lemma u64_small z : 0 <= z < two64 -> u64 z = z.
Proof. apply Z.mod_small. Qed.
Lemma u32_range z : 0 <= u32 z < two32.
Proof. by apply Z.mod_pos_bound. Qed.
Lemma s32_small z : - two31 <= z < two31 -> s32 z = z.
Proof. intros. unfold s32. rewrite Z.mod_small; lia. Qed.
Lemma s32_u32 z : s32 (u32 z) = s32 z.
Proof. unfold s32, u32. by rewrite Zplus_mod_idemp_l. Qed.
Lemma u32_s32 z : u32 (s32 z) = u32 z.
Proof.
  unfold s32, u32. rewrite Zminus_mod_idemp_l. f_equal. lia.
Qed.

(** Bit operations as arithmetic: the masks and shifts of the wire format. *)
Lemma lor_disjoint a b n : 0 <= n -> a mod 2 ^ n = 0 -> 0 <= b < 2 ^ n -> Z.lor a b = a + b.
Proof.
  intros Hn Ha Hb.
  assert (Z.land a b = 0) as H.
  { apply Z.bits_inj'. intros i Hi. rewrite Z.land_spec, Z.bits_0.
    destruct (decide (i < n)).
    - rewrite <- (Z.mod_pow2_bits_low a n i), Ha, Z.bits_0 by lia. done.
    - rewrite <- (Z.mod_small b (2 ^ n)) by lia.
      rewrite (Z.mod_pow2_bits_high b n i) by lia. apply andb_false_r. }
  by rewrite Z.add_nocarry_lxor, Z.lxor_lor.
Qed.

Lemma land_ff z : Z.land z 255 = z mod 256.
Proof. apply (Z.land_ones z 8). lia. Qed.

Lemma shiftr_div z n : 0 <= n -> Z.shiftr z n = z / 2 ^ n.
Proof. apply Z.shiftr_div_pow2. Qed.

Lemma shiftl_mul z n : 0 <= n -> Z.shiftl z n = z * 2 ^ n.
Proof. apply Z.shiftl_mul_pow2. Qed.

(** ** Bytes and strings

    A [char] of a buffer or of a [std::string] is an [ascii]; a [std::string]
    is the list of its bytes. *)
Abbreviation str := (list ascii).

Definition Z_of_byte (c : ascii) : Z := Z.of_N (N_of_ascii c).
Definition byte_of_Z (z : Z) : ascii := ascii_of_N (Z.to_N (u8 z)).

(** Literals: [S! "abc"]. *)
Definition str_of (s : string) : str := String.list_ascii_of_string s.
Notation "'S!' s" := (str_of s) (at level 9, s at level 0, only parsing).

Lemma Z_of_byte_range c : 0 <= Z_of_byte c < two8.
Proof. unfold Z_of_byte. pose proof (N_ascii_bounded c). lia. Qed.

Lemma Z_of_byte_of_Z z : Z_of_byte (byte_of_Z z) = u8 z.
Proof.
  unfold Z_of_byte, byte_of_Z. assert (0 <= u8 z < two8) by (by apply Z.mod_pos_bound).
  rewrite N_ascii_embedding; lia.
Qed.

Lemma byte_of_Z_of_byte c : byte_of_Z (Z_of_byte c) = c.
Proof.
  unfold byte_of_Z, Z_of_byte, u8.
  pose proof (N_ascii_bounded c). rewrite Z.mod_small by lia.
  rewrite N2Z.id. apply ascii_N_embedding.
Qed.

(** [std::string::operator<]: lexicographic order on unsigned bytes. *)
Fixpoint str_ltb (a b : str) : bool :=
  match a, b with
  | _, [] => false
  | [], _ :: _ => true
  | x :: a', y :: b' =>
      (Z_of_byte x <? Z_of_byte y) || ((Z_of_byte x =? Z_of_byte y) && str_ltb a' b')
  end.
Definition str_gtb (a b : str) : bool := str_ltb b a.
Definition str_geb (a b : str) : bool := negb (str_ltb a b).
Definition str_eqb (a b : str) : bool := bool_decide (a = b).

Lemma Z_of_byte_inj a b : Z_of_byte a = Z_of_byte b -> a = b.
Proof.
  intros H. rewrite <- (byte_of_Z_of_byte a), <- (byte_of_Z_of_byte b). by rewrite H.
Qed.

Lemma str_ltb_irrefl a : str_ltb a a = false.
Proof.
  induction a as [|x a IH]; simpl; [done|].
  by rewrite Z.ltb_irrefl, Z.eqb_refl, IH.
Qed.

Lemma str_ltb_trans a b c : str_ltb a b = true -> str_ltb b c = true -> str_ltb a c = true.
Proof.
  revert b c. induction a as [|x a IH]; intros [|y b] [|z c]; simpl; try done.
  rewrite !orb_true_iff, !andb_true_iff, !Z.ltb_lt, !Z.eqb_eq.
  intros [?|[? ?]] [?|[? ?]]; [left; lia | left; lia | left; lia | right; split; [lia|eauto]].
Qed.

Lemma str_ltb_total a b : str_ltb a b = false -> str_ltb b a = false -> a = b.
Proof.
  revert b. induction a as [|x a IH]; intros [|y b]; simpl; try done.
  rewrite !orb_false_iff, !andb_false_iff, !Z.ltb_ge, !Z.eqb_neq.
  intros [? [?|?]] [? [?|?]]; [lia | lia | lia |].
  f_equal; [apply Z_of_byte_inj; lia | eauto].
Qed.

(** ** Lists *)

Lemma elem_take {A} k (l : list A) x : x ∈ take k l -> x ∈ l.
Proof. intros H. rewrite <- (take_drop k l). apply elem_of_app. by left. Qed.

Lemma elem_drop {A} k (l : list A) x : x ∈ drop k l -> x ∈ l.
Proof. intros H. rewrite <- (take_drop k l). apply elem_of_app. by right. Qed.

Lemma filter_ext_in {A} (P Q : A -> Prop) `{!forall x, Decision (P x)} `{!forall x, Decision (Q x)} (l : list A) :
  (forall x, x ∈ l -> P x <-> Q x) -> filter P l = filter Q l.
Proof.
  induction l as [|x l IH]; intros HPQ; [done|]. rewrite !filter_cons, IH by (intros y Hy; apply HPQ; by right).
  destruct (HPQ x) as [H1 H2]; [by left|]. do 2 case_decide; tauto.
Qed.

(** ** Counting occurrences in a list *)
Section count.
Context {A : Type} `{EqDecision A}.
Implicit Types (p q : A) (l : list A).

Definition count p l : Z := Z.of_nat (length (filter (fun q => q = p) l)).

Lemma count_cons p q l : count p (q :: l) = count p l + (if decide (q = p) then 1 else 0).
Proof. unfold count. rewrite filter_cons. case_decide; simpl; lia. Qed.

Lemma count_app p l1 l2 : count p (l1 ++ l2) = count p l1 + count p l2.
Proof. unfold count. rewrite filter_app, length_app. lia. Qed.

Lemma count_zero p l : count p l = 0 -> p ∉ l.
Proof.
  unfold count. intros H Hin. assert (p ∈ filter (fun q => q = p) l) as H1 by (by apply list_elem_of_filter).
  destruct (filter _ l); [by apply not_elem_of_nil in H1|simpl in H; lia].
Qed.

Lemma count_fresh p l : p ∉ l -> count p l = 0.
Proof.
  intros Hn. unfold count. destruct (filter (fun q => q = p) l) as [|q f] eqn:E; [done|].
  assert (q ∈ filter (fun q => q = p) l) as Hq by (rewrite E; constructor).
  apply list_elem_of_filter in Hq as [-> Hq]. done.
Qed.

Lemma count_nonneg p l : 0 <= count p l.
Proof. unfold count. lia. Qed.

Lemma count_pos p l : 0 < count p l <-> p ∈ l.
Proof.
  split.
  - intros H. destruct (decide (p ∈ l)) as [|Hn]; [done|]. rewrite (count_fresh p l Hn) in H. lia.
  - intros H. pose proof (count_nonneg p l). destruct (decide (count p l = 0)) as [E|]; [|lia].
    by apply count_zero in E.
Qed.

Lemma count_perm p l1 l2 : l1 ≡ₚ l2 -> count p l1 = count p l2.
Proof. intros H. unfold count. by rewrite H. Qed.
End count.

(** ** Counting entries of a map *)
Section map_count.
Context {A : Type}.
Implicit Types (P : A -> bool) (m : gmap Z A).

Definition map_count P m : Z := Z.of_nat (size (filter (fun x => P x.2 = true) m)).

Lemma map_count_nonneg P m : 0 <= map_count P m.
Proof. unfold map_count. lia. Qed.

Lemma map_count_fresh P m t x : m !! t = None -> map_count P (<[t := x]> m) = Z.b2z (P x) + map_count P m.
Proof.
  intros H. unfold map_count. destruct (P x) eqn:E.
  - rewrite map_filter_insert_True by done.
    rewrite map_size_insert_None; [simpl; lia|]. apply map_lookup_filter_None. by left.
  - rewrite map_filter_insert_not'; [simpl; lia|simpl; congruence|]. intros y Hy. congruence.
Qed.

Lemma map_count_delete P m t x : m !! t = Some x -> map_count P m = Z.b2z (P x) + map_count P (delete t m).
Proof.
  intros H. rewrite <- (insert_id m t x) at 1 by done. rewrite <- insert_delete_eq.
  apply map_count_fresh. by rewrite lookup_delete_eq.
Qed.

Lemma map_count_insert P m t x y : m !! t = Some x ->
  map_count P (<[t := y]> m) = Z.b2z (P y) - Z.b2z (P x) + map_count P m.
Proof.
  intros H. rewrite <- insert_delete_eq, map_count_fresh by (by rewrite lookup_delete_eq).
  rewrite (map_count_delete P m t x H). lia.
Qed.

Lemma map_count_pos P m : 0 < map_count P m -> exists t x, m !! t = Some x /\ P x = true.
Proof.
  unfold map_count. intros H. destruct (decide (filter (fun x => P x.2 = true) m = ∅)) as [E|E].
  { rewrite E, map_size_empty in H. lia. }
  apply map_choose in E as (t & x & E). apply map_lookup_filter_Some in E as [E HP]. eauto.
Qed.

Lemma map_count_some P m t x : m !! t = Some x -> P x = true -> 0 < map_count P m.
Proof.
  intros H HP. rewrite (map_count_delete P m t x H), HP. pose proof (map_count_nonneg P (delete t m)). simpl. lia.
Qed.

Lemma map_count_nobody P m : (forall t x, m !! t = Some x -> P x = false) -> map_count P m = 0.
Proof.
  intros Hn. destruct (decide (0 < map_count P m)) as [H|H].
  - apply map_count_pos in H as (t & x & Hx & HP). by rewrite (Hn t x Hx) in HP.
  - pose proof (map_count_nonneg P m). lia.
Qed.

Lemma map_count_all P m : (forall t x, m !! t = Some x -> P x = true) -> map_count P m = Z.of_nat (size m).
Proof.
  intros H. unfold map_count. do 2 f_equal. apply map_filter_id. intros i x Hx. by eapply H.
Qed.

Lemma map_count_full P m : map_count P m = Z.of_nat (size m) -> forall t x, m !! t = Some x -> P x = true.
Proof.
  unfold map_count. intros H t x Hx. assert (filter (fun x => P x.2 = true) m = m) as E.
  { apply map_subseteq_size_eq; [apply map_filter_subseteq|lia]. }
  rewrite <- E in Hx. by apply map_lookup_filter_Some in Hx as [_ ?].
Qed.

Lemma map_count_empty P : map_count P ∅ = 0.
Proof. unfold map_count. by rewrite map_filter_empty, map_size_empty. Qed.
End map_count.

(** ** State machines

    Reachability of a labelled step relation, and its induction principle in
    the form the components use: an invariant that holds initially and that
    every step preserves holds of every reachable state. *)
Section machine.
Context {S E : Type} (init : S -> Prop) (step : S -> E -> S -> Prop).

Inductive reachable : list E -> S -> Prop :=
  | reach_init s : init s -> reachable [] s
  | reach_step tr s e s' : reachable tr s -> step s e s' -> reachable (tr ++ [e]) s'.

Lemma reachable_invariant (I : list E -> S -> Prop) :
  (forall s, init s -> I [] s) ->
  (forall tr s e s', I tr s -> step s e s' -> I (tr ++ [e]) s') ->
  forall tr s, reachable tr s -> I tr s.
Proof. intros Hi Hs tr s H. induction H; eauto. Qed.

(** A run given by its labels and the states it goes through. *)
Fixpoint runs (s : S) (l : list (E * S)) : Prop :=
  match l with [] => True | (e, s') :: l => step s e s' /\ runs s' l end.

Lemma reachable_runs tr s l : reachable tr s -> runs s l -> reachable (tr ++ l.*1) (default s (last l.*2)).
Proof.
  revert tr s. induction l as [|[e s'] l IH]; intros tr s Hr; [by rewrite app_nil_r|].
  intros [Hs Hl]. specialize (IH _ _ (reach_step _ _ _ _ Hr Hs) Hl). cbn [fmap list_fmap fst snd].
  rewrite <- app_assoc in IH. rewrite last_cons. by destruct (last l.*2).
Qed.
End machine.

(** ** Automation *)

Create HintDb yfs.
#[export] Hint Resolve u32_range Z_of_byte_range elem_take elem_drop : yfs.
Create Rewrite HintDb yfs.
#[export] Hint Rewrite @res_bind_ret Z_of_byte_of_Z byte_of_Z_of_byte u32_s32 s32_u32 : yfs.

(** Reduce binds of known results, and nothing else. *)
Ltac rsimpl := cbn [mbind res_bind].

(** Step through a monadic computation that is known to return. *)
Ltac res_inv :=
  repeat match goal with
  | H : mbind _ _ = Ret _ |- _ =>
      let x := fresh "x" in let E := fresh "E" in
      apply res_bind_Ret_inv in H as (x & E & H)
  | H : Ret _ = Ret _ |- _ => injection H as H
  | H : Abort = Ret _ |- _ => discriminate H
  | H : Undef = Ret _ |- _ => discriminate H
  | H : defined ?b = Ret _ |- _ =>
      let E := fresh "E" in destruct b eqn:E; [clear H | discriminate H]
  | H : VERIFY ?b = Ret _ |- _ =>
      let E := fresh "E" in destruct b eqn:E; [clear H | discriminate H]
  end.

(** Turn boolean tests of the code into propositions. *)
Ltac bool_prop :=
  repeat match goal with
  | H : (_ && _) = true |- _ => apply andb_true_iff in H as [? ?]
  | H : (_ || _) = false |- _ => apply orb_false_iff in H as [? ?]
  | H : negb _ = true |- _ => apply negb_true_iff in H
  | H : negb _ = false |- _ => apply negb_false_iff in H
  | H : (_ <? _) = true |- _ => apply Z.ltb_lt in H
  | H : (_ <? _) = false |- _ => apply Z.ltb_ge in H
  | H : (_ <=? _) = true |- _ => apply Z.leb_le in H
  | H : (_ <=? _) = false |- _ => apply Z.leb_gt in H
  | H : (_ =? _) = true |- _ => apply Z.eqb_eq in H
  | H : (_ =? _) = false |- _ => apply Z.eqb_neq in H
  | H : bool_decide _ = true |- _ => apply bool_decide_eq_true in H
  | H : bool_decide _ = false |- _ => apply bool_decide_eq_false in H
  end.
