(* ===== verification/Marshall.v ===== *)
(** * Marshalling: [rpc/marshall.h] and the [marshall]/[unmarshall] part of [rpc/rpc.cc]

    The write side is a growing buffer ([marshall]), the read side a cursor over
    a received buffer ([unmarshall]).  Buffers are lists of bytes, sizes and
    cursors are 32-bit [int]s; an access outside the allocation and a signed
    overflow are [Undef].  [Marshal] is the interface [operator<<]/[operator>>]
    give each type, [MarshalSpec] its contract. *)

From S2P Require Import Prelude.

(** What [malloc] and [realloc] leave in fresh memory is unspecified: a parameter
    of the model, the byte found at each index. *)
Class Allocator := junk : nat -> ascii.

Definition fresh `{Allocator} (from len : nat) : str := junk <$> seq from len.

(** [realloc(b, n)]: keeps the first [n] bytes, the rest is fresh. *)
Definition realloc `{Allocator} (b : str) (n : Z) : str :=
  take (Z.to_nat n) b ++ fresh (length b) (Z.to_nat n - length b).

(** ** Constants and headers *)

(** [lang/algorithm.h], [static_max]. *)
Definition static_max (A B : Z) : Z := if B <? A then A else B.

Record req_header := ReqHeader {
  rq_xid : Z; rq_proc : Z; rq_clt_nonce : Z; rq_srv_nonce : Z; rq_xid_rep : Z }.

Record reply_header := ReplyHeader { rp_xid : Z; rp_ret : Z }.

(** Sizes of the structs of five and two 4-byte fields, and of [rpc_sz_t]. *)
Definition sizeof_req_header : Z := 20.
Definition sizeof_reply_header : Z := 8.
Definition sizeof_rpc_sz_t : Z := 4.
Definition DEFAULT_RPC_SZ : Z := 1024.

(** [RPC_CHECKSUMMING] is not defined in this build. *)
Definition RPC_HEADER_SZ : Z :=
  static_max sizeof_req_header sizeof_reply_header + sizeof_rpc_sz_t.

(** ** class marshall *)

Record marshall := Marshall { m_buf : option str; m_capa : Z; m_ind : Z }.

Definition set_m_ind (m : marshall) (i : Z) : marshall := Marshall (m_buf m) (m_capa m) i.

(** Dereferencing a [char] pointer: [NULL] is undefined. *)
Definition deref {A} (b : option A) : res A :=
  match b with Some b => Ret b | None => Undef end.

(** [VERIFY (_buf != NULL)]. *)
Definition VERIFY_buf (b : option str) : res str :=
  match b with Some b => Ret b | None => Abort end.

Section marshall_ops.
Context `{Allocator}.

Definition marshall_new : marshall :=
  Marshall (Some (fresh 0 (Z.to_nat DEFAULT_RPC_SZ))) DEFAULT_RPC_SZ RPC_HEADER_SZ.

(** [marshall::rawbyte]: doubles the buffer when the cursor is at its end. *)
Definition m_rawbyte (m : marshall) (x : Z) : res marshall :=
  m ← (if m_capa m <=? m_ind m then
         capa ← int_chk (m_capa m * 2);
         b ← VERIFY_buf (m_buf m);
         Ret (Marshall (Some (realloc b capa)) capa (m_ind m))
       else Ret m);
  b ← deref (m_buf m);
  _ ← defined ((0 <=? m_ind m) && (m_ind m <? Z.of_nat (length b)));
  ind ← int_chk (m_ind m + 1);
  Ret (Marshall (Some (<[Z.to_nat (m_ind m) := byte_of_Z x]> b)) (m_capa m) ind).

(** [marshall::rawbytes(p, n)]. *)
Definition m_rawbytes (m : marshall) (p : str) (n : Z) : res marshall :=
  total ← int_chk (m_ind m + n);
  m ← (if m_capa m <? total then
         capa ← (if n <? m_capa m then int_chk (2 * m_capa m) else int_chk (m_capa m + n));
         b ← VERIFY_buf (m_buf m);
         Ret (Marshall (Some (realloc b capa)) capa (m_ind m))
       else Ret m);
  b ← deref (m_buf m);
  _ ← defined ((0 <=? n) && (0 <=? m_ind m) && (n <=? Z.of_nat (length p)) &&
               (m_ind m + n <=? Z.of_nat (length b)));
  Ret (Marshall
         (Some (take (Z.to_nat (m_ind m)) b ++ take (Z.to_nat n) p ++
                drop (Z.to_nat (m_ind m + n)) b))
         (m_capa m) total).

(** [get_content] / [str]: the bytes after the header. *)
Definition get_content (m : marshall) : res str :=
  b ← deref (m_buf m);
  _ ← defined ((RPC_HEADER_SZ <=? m_ind m) && (m_ind m <=? Z.of_nat (length b)));
  Ret (drop (Z.to_nat RPC_HEADER_SZ) (take (Z.to_nat (m_ind m)) b)).

(** [take_buf]: the buffer and its length move to the caller. *)
Definition m_take_buf (m : marshall) : option str * Z * marshall :=
  (m_buf m, m_ind m, Marshall None (m_capa m) 0).

(** [marshall::pack]: four bytes, most significant first. *)
Definition pack (m : marshall) (x : Z) : res marshall :=
  m ← m_rawbyte m (Z.land (Z.shiftr x 24) 255);
  m ← m_rawbyte m (Z.land (Z.shiftr x 16) 255);
  m ← m_rawbyte m (Z.land (Z.shiftr x 8) 255);
  m_rawbyte m (Z.land x 255).

Definition pack_req_header (m : marshall) (h : req_header) : res marshall :=
  let saved_sz := m_ind m in
  let m := set_m_ind m sizeof_rpc_sz_t in
  m ← pack m (rq_xid h);
  m ← pack m (rq_proc h);
  m ← pack m (s32 (rq_clt_nonce h));
  m ← pack m (s32 (rq_srv_nonce h));
  m ← pack m (rq_xid_rep h);
  Ret (set_m_ind m saved_sz).

Definition pack_reply_header (m : marshall) (h : reply_header) : res marshall :=
  let saved_sz := m_ind m in
  let m := set_m_ind m sizeof_rpc_sz_t in
  m ← pack m (rp_xid h);
  m ← pack m (rp_ret h);
  Ret (set_m_ind m saved_sz).

(** *** [operator<<] of the basic types *)

Definition put_bool (m : marshall) (x : bool) : res marshall := m_rawbyte m (Z.b2z x).
Definition put_uchar (m : marshall) (x : Z) : res marshall := m_rawbyte m x.
Definition put_char (m : marshall) (x : Z) : res marshall := put_uchar m (u8 x).

Definition put_ushort (m : marshall) (x : Z) : res marshall :=
  m ← m_rawbyte m (Z.land (Z.shiftr x 8) 255);
  m_rawbyte m (Z.land x 255).
Definition put_short (m : marshall) (x : Z) : res marshall := put_ushort m (u16 x).

Definition put_uint (m : marshall) (x : Z) : res marshall :=
  m ← m_rawbyte m (Z.land (Z.shiftr x 24) 255);
  m ← m_rawbyte m (Z.land (Z.shiftr x 16) 255);
  m ← m_rawbyte m (Z.land (Z.shiftr x 8) 255);
  m_rawbyte m (Z.land x 255).
Definition put_int (m : marshall) (x : Z) : res marshall := put_uint m (u32 x).

Definition put_string (m : marshall) (s : str) : res marshall :=
  m ← put_uint m (u32 (Z.of_nat (length s)));
  m_rawbytes m s (s32 (Z.of_nat (length s))).

Definition put_ull (m : marshall) (x : Z) : res marshall :=
  m ← put_uint m (u32 (Z.shiftr x 32));
  put_uint m (u32 x).

End marshall_ops.

(** ** class unmarshall *)

Record unmarshall := Unmarshall { u_buf : option str; u_sz : Z; u_ind : Z; u_ok : bool }.

Definition set_u_ind (u : unmarshall) (i : Z) : unmarshall :=
  Unmarshall (u_buf u) (u_sz u) i (u_ok u).
Definition set_u_ok (u : unmarshall) (b : bool) : unmarshall :=
  Unmarshall (u_buf u) (u_sz u) (u_ind u) b.

(** The three constructors. *)
Definition unmarshall_new : unmarshall := Unmarshall None 0 0 false.
Definition unmarshall_buf (b : option str) (sz : Z) : unmarshall := Unmarshall b sz 0 true.

(** [take_content]: a buffer with an unset header, then the string. *)
Definition take_content `{Allocator} (s : str) : unmarshall :=
  Unmarshall (Some (fresh 0 (Z.to_nat RPC_HEADER_SZ) ++ s))
    (Z.of_nat (length s) + RPC_HEADER_SZ) RPC_HEADER_SZ true.

Definition u_take_buf (u : unmarshall) : option str * Z * unmarshall :=
  (u_buf u, u_sz u, Unmarshall None 0 0 (u_ok u)).

(** [take_in]: steals the buffer of [another], cursor after the header. *)
Definition take_in (u another : unmarshall) : unmarshall * unmarshall :=
  let '(b, sz, another) := u_take_buf another in
  (Unmarshall b sz RPC_HEADER_SZ (RPC_HEADER_SZ <=? sz), another).

Definition okdone (u : unmarshall) : bool := u_ok u && (u_ind u =? u_sz u).

(** [unmarshall::rawbyte]: a [char] (signed here) converted to [unsigned int]. *)
Definition u_rawbyte (u : unmarshall) : res (Z * unmarshall) :=
  if u_sz u <=? u_ind u then Ret (0, set_u_ok u false)
  else
    b ← deref (u_buf u);
    _ ← defined (0 <=? u_ind u);
    match b !! Z.to_nat (u_ind u) with
    | None => Undef
    | Some c => Ret (u32 (s8 (Z_of_byte c)), set_u_ind u (u_ind u + 1))
    end.

(** [unmarshall::rawbytes(ss, n)]; the bound is checked in [unsigned] arithmetic. *)
Definition u_rawbytes (u : unmarshall) (ss : str) (n : Z) : res (str * unmarshall) :=
  if u32 (u_sz u) <? u32 (u32 (u_ind u) + n) then Ret (ss, set_u_ok u false)
  else
    b ← deref (u_buf u);
    _ ← defined ((0 <=? u_ind u) && (u_ind u + n <=? Z.of_nat (length b)));
    let tmps := take (Z.to_nat n) (drop (Z.to_nat (u_ind u)) b) in
    _ ← VERIFY (Z.of_nat (length tmps) =? n);
    Ret (tmps, set_u_ind u (s32 (u32 (u_ind u) + n))).

Definition get_bool (u : unmarshall) : res (bool * unmarshall) :=
  '(x, u) ← u_rawbyte u; Ret (negb (x =? 0), u).
Definition get_uchar (u : unmarshall) : res (Z * unmarshall) :=
  '(x, u) ← u_rawbyte u; Ret (u8 x, u).
Definition get_char (u : unmarshall) : res (Z * unmarshall) :=
  '(x, u) ← u_rawbyte u; Ret (s8 x, u).

Definition get_ushort (u : unmarshall) : res (Z * unmarshall) :=
  '(a, u) ← u_rawbyte u;
  let x := u16 (Z.shiftl (Z.land a 255) 8) in
  '(b, u) ← u_rawbyte u;
  Ret (u16 (Z.lor x (Z.land b 255)), u).

Definition get_short (u : unmarshall) : res (Z * unmarshall) :=
  '(a, u) ← u_rawbyte u;
  let x := s16 (Z.shiftl (Z.land a 255) 8) in
  '(b, u) ← u_rawbyte u;
  Ret (s16 (Z.lor (u32 x) (Z.land b 255)), u).

Definition get_uint (u : unmarshall) : res (Z * unmarshall) :=
  '(a, u) ← u_rawbyte u;
  let x := u32 (Z.shiftl (Z.land a 255) 24) in
  '(b, u) ← u_rawbyte u;
  let x := u32 (Z.lor x (u32 (Z.shiftl (Z.land b 255) 16))) in
  '(c, u) ← u_rawbyte u;
  let x := u32 (Z.lor x (u32 (Z.shiftl (Z.land c 255) 8))) in
  '(d, u) ← u_rawbyte u;
  Ret (u32 (Z.lor x (Z.land d 255)), u).

Definition get_int (u : unmarshall) : res (Z * unmarshall) :=
  '(a, u) ← u_rawbyte u;
  let x := s32 (u32 (Z.shiftl (Z.land a 255) 24)) in
  '(b, u) ← u_rawbyte u;
  let x := s32 (Z.lor (u32 x) (u32 (Z.shiftl (Z.land b 255) 16))) in
  '(c, u) ← u_rawbyte u;
  let x := s32 (Z.lor (u32 x) (u32 (Z.shiftl (Z.land c 255) 8))) in
  '(d, u) ← u_rawbyte u;
  Ret (s32 (Z.lor (u32 x) (Z.land d 255)), u).

(** [unmarshall::unpack] has the body of [operator>>] at [int]. *)
Definition unpack (u : unmarshall) : res (Z * unmarshall) := get_int u.

Definition get_ull (u : unmarshall) : res (Z * unmarshall) :=
  '(h, u) ← get_uint u;
  '(l, u) ← get_uint u;
  Ret (Z.lor l (u64 (Z.shiftl h 32)), u).

Definition get_string (s : str) (u : unmarshall) : res (str * unmarshall) :=
  '(sz, u) ← get_uint u;
  if u_ok u then u_rawbytes u s sz else Ret (s, u).

Definition unpack_req_header (u : unmarshall) : res (req_header * unmarshall) :=
  let u := set_u_ind u sizeof_rpc_sz_t in
  '(xid, u) ← unpack u;
  '(proc, u) ← unpack u;
  '(clt_nonce, u) ← unpack u;
  '(srv_nonce, u) ← unpack u;
  '(xid_rep, u) ← unpack u;
  Ret (ReqHeader xid proc (u32 clt_nonce) (u32 srv_nonce) xid_rep, set_u_ind u RPC_HEADER_SZ).

Definition unpack_reply_header (u : unmarshall) : res (reply_header * unmarshall) :=
  let u := set_u_ind u sizeof_rpc_sz_t in
  '(xid, u) ← unpack u;
  '(ret, u) ← unpack u;
  Ret (ReplyHeader xid ret, set_u_ind u RPC_HEADER_SZ).

(** ** The interface of [operator<<] and [operator>>]

    [get old u] reads into a variable that holds [old]; [dflt] is the value of
    a freshly declared one. *)
Class Marshal `{Allocator} (A : Type) := {
  dflt : A;
  put : marshall -> A -> res marshall;
  get : A -> unmarshall -> res (A * unmarshall) }.

#[export] Instance Marshal_bool `{Allocator} : Marshal bool :=
  {| dflt := false; put := put_bool; get _ := get_bool |}.

(** The C++ integer types share the carrier [Z]: each has its own wrapper. *)
Record uchar := UChar { uchar_val : Z }.
Record schar := SChar { schar_val : Z }.
Record ushort := UShort { ushort_val : Z }.
Record sshort := SShort { sshort_val : Z }.
Record uint := UInt { uint_val : Z }.
Record sint := SInt { sint_val : Z }.
Record ull := ULL { ull_val : Z }.

(** Reading through a wrapper. *)
Definition wrapped {A} (c : Z -> A) (g : unmarshall -> res (Z * unmarshall)) (u : unmarshall)
  : res (A * unmarshall) := '(x, u) ← g u; Ret (c x, u).

#[export] Instance Marshal_uchar `{Allocator} : Marshal uchar :=
  {| dflt := UChar 0; put m x := put_uchar m (uchar_val x); get _ := wrapped UChar get_uchar |}.
#[export] Instance Marshal_schar `{Allocator} : Marshal schar :=
  {| dflt := SChar 0; put m x := put_char m (schar_val x); get _ := wrapped SChar get_char |}.
#[export] Instance Marshal_ushort `{Allocator} : Marshal ushort :=
  {| dflt := UShort 0; put m x := put_ushort m (ushort_val x);
     get _ := wrapped UShort get_ushort |}.
#[export] Instance Marshal_sshort `{Allocator} : Marshal sshort :=
  {| dflt := SShort 0; put m x := put_short m (sshort_val x);
     get _ := wrapped SShort get_short |}.
#[export] Instance Marshal_uint `{Allocator} : Marshal uint :=
  {| dflt := UInt 0; put m x := put_uint m (uint_val x); get _ := wrapped UInt get_uint |}.
#[export] Instance Marshal_sint `{Allocator} : Marshal sint :=
  {| dflt := SInt 0; put m x := put_int m (sint_val x); get _ := wrapped SInt get_int |}.
#[export] Instance Marshal_ull `{Allocator} : Marshal ull :=
  {| dflt := ULL 0; put m x := put_ull m (ull_val x); get _ := wrapped ULL get_ull |}.
#[export] Instance Marshal_string `{Allocator} : Marshal str :=
  {| dflt := []; put := put_string; get := get_string |}.

(** *** [std::vector] *)
Fixpoint put_elems `{Marshal A} (m : marshall) (v : list A) : res marshall :=
  match v with
  | [] => Ret m
  | x :: v => m ← put m x; put_elems m v
  end.

Definition put_vector `{Marshal A} (m : marshall) (v : list A) : res marshall :=
  m ← put_uint m (u32 (Z.of_nat (length v)));
  put_elems m v.

(** The loop reads [n] elements whether or not the stream is still good. *)
Fixpoint get_elems `{Marshal A} (n : nat) (u : unmarshall) : res (list A * unmarshall) :=
  match n with
  | O => Ret ([], u)
  | S n =>
      '(z, u) ← get dflt u;
      '(v, u) ← get_elems n u;
      Ret (z :: v, u)
  end.

Definition get_vector `{Marshal A} (_ : list A) (u : unmarshall) : res (list A * unmarshall) :=
  '(n, u) ← get_uint u;
  get_elems (Z.to_nat n) u.

(** A vector, as a type of its own: [list ascii] is [std::string]. *)
Record vector (A : Type) := Vector { vec : list A }.
Arguments Vector {A} vec.
Arguments vec {A} v.

#[export] Instance Marshal_vector `{Marshal A} : Marshal (vector A) :=
  {| dflt := Vector []; put m v := put_vector m (vec v);
     get old u := '(v, u) ← get_vector (vec old) u; Ret (Vector v, u) |}.

(** *** Sequences [m << a; m << b] *)
#[export] Instance Marshal_pair `{Marshal A, !Marshal B} : Marshal (A * B) :=
  {| dflt := (dflt, dflt);
     put m p := m ← put m p.1; put m p.2;
     get old u := '(a, u) ← get old.1 u; '(b, u) ← get old.2 u; Ret (a, b, u) |}.

(** *** [std::map]: a list of bindings in increasing key order *)
Class KeyOrder (A : Type) := {
  key_ltb : A -> A -> bool;
  key_ltb_irrefl a : key_ltb a a = false;
  key_ltb_trans a b c : key_ltb a b = true -> key_ltb b c = true -> key_ltb a c = true;
  key_ltb_total a b : key_ltb a b = false -> key_ltb b a = false -> a = b }.

Record ordmap (A B : Type) := OrdMap { bindings : list (A * B) }.
Arguments OrdMap {A B} bindings.
Arguments bindings {A B} o.

(** [d[a] = b]. *)
Fixpoint map_assign `{KeyOrder A} {B} (a : A) (b : B) (d : list (A * B)) : list (A * B) :=
  match d with
  | [] => [(a, b)]
  | (a', b') :: d' =>
      if key_ltb a a' then (a, b) :: d
      else if key_ltb a' a then (a', b') :: map_assign a b d'
      else (a, b) :: d'
  end.

Definition put_map `{Marshal A, !Marshal B} (m : marshall) (d : list (A * B)) : res marshall :=
  m ← put_uint m (u32 (Z.of_nat (length d)));
  put_elems m d.

Fixpoint get_bindings `{Marshal A, !Marshal B, !KeyOrder A} (n : nat) (d : list (A * B))
    (u : unmarshall) : res (list (A * B) * unmarshall) :=
  match n with
  | O => Ret (d, u)
  | S n =>
      '(a, u) ← get dflt u;
      '(b, u) ← get dflt u;
      get_bindings n (map_assign a b d) u
  end.

Definition get_map `{Marshal A, !Marshal B, !KeyOrder A} (_ : list (A * B)) (u : unmarshall)
  : res (list (A * B) * unmarshall) :=
  '(n, u) ← get_uint u;
  get_bindings (Z.to_nat n) [] u.

#[export] Instance Marshal_map `{Marshal A, !Marshal B, !KeyOrder A} : Marshal (ordmap A B) :=
  {| dflt := OrdMap []; put m d := put_map m (bindings d);
     get old u := '(d, u) ← get_map (bindings old) u; Ret (OrdMap d, u) |}.

(** ** Abstraction

    [m_at m c t]: [c] has been written, [t] is the rest of the allocation.
    [u_rep u ok r]: the flag is [ok] and [r] is still to be read. *)
Definition m_at (m : marshall) (c t : str) : Prop :=
  m_buf m = Some (c ++ t) /\ m_capa m = Z.of_nat (length (c ++ t)) /\
  m_ind m = Z.of_nat (length c) /\ 0 < m_capa m.

Definition m_rep (m : marshall) (c : str) : Prop := exists t, m_at m c t.

Definition u_rep (u : unmarshall) (ok : bool) (r : str) : Prop :=
  exists pre t, u_buf u = Some (pre ++ r ++ t) /\ u_ind u = Z.of_nat (length pre) /\
    u_sz u = Z.of_nat (length pre + length r) /\ u_sz u < two31 /\ u_ok u = ok.

(** Largest message the proofs consider; the capacity then stays an [int]. *)
Definition PDU_LIMIT : Z := 1073741824.

(** Big-endian bytes of an integer. *)
Definition be16 (x : Z) : str := [byte_of_Z (Z.shiftr x 8); byte_of_Z x].
Definition be32 (x : Z) : str :=
  [byte_of_Z (Z.shiftr x 24); byte_of_Z (Z.shiftr x 16); byte_of_Z (Z.shiftr x 8); byte_of_Z x].

Arguments be16 : simpl never.
Arguments be32 : simpl never.

Definition strict_prefix_of (r e : str) : Prop := exists r', r' <> [] /\ e = r ++ r'.

(** What each type's [operator<<] and [operator>>] promise. *)
Class MarshalSpec `{Marshal A} := {
  enc : A -> str;
  valid : A -> Prop;
  put_ok m c a : m_rep m c -> valid a ->
    Z.of_nat (length c + length (enc a)) < PDU_LIMIT ->
    exists m', put m a = Ret m' /\ m_rep m' (c ++ enc a);
  get_ok old u a r : u_rep u true (enc a ++ r) -> valid a ->
    exists u', get old u = Ret (a, u') /\ u_rep u' true r;
  get_truncated old u a r : u_rep u true r -> valid a -> strict_prefix_of r (enc a) ->
    exists x u' r', get old u = Ret (x, u') /\ u_rep u' false r';
  get_failed old u r : u_rep u false r ->
    exists x u' r', get old u = Ret (x, u') /\ u_rep u' false r' }.
Arguments MarshalSpec {_} A {_}.
