(* ===== verification/MarshallSpec.v ===== *)
(** * Contracts of the marshalling operators

    Proofs that every [operator<<]/[operator>>] pair satisfies [MarshalSpec]:
    writing never leaves the buffer, reading back gives the value written, and
    a truncated or already failed stream is reported through [ok()]. *)

From S2P Require Import Prelude Marshall.

#[local] Obligation Tactic := idtac.

(** ** Writing *)

Lemma byte_of_Z_mask x : byte_of_Z (Z.land x 255) = byte_of_Z x.
Proof. unfold byte_of_Z, u8. by rewrite land_ff, Zmod_mod. Qed.

#[export] Hint Rewrite byte_of_Z_mask : yfs.

Section write.
Context `{Allocator}.

Lemma m_at_rep m c t : m_at m c t -> m_rep m c.
Proof. by exists t. Qed.

Lemma length_realloc b n : length (realloc b n) = Z.to_nat n.
Proof. unfold realloc, fresh. rewrite length_app, length_take, length_fmap, length_seq. lia. Qed.

Lemma m_at_grow m c capa :
  m_at m c [] -> Z.of_nat (length c) < capa ->
  m_at (Marshall (Some (realloc c capa)) capa (m_ind m)) c
       (fresh (length c) (Z.to_nat capa - length c)).
Proof.
  intros (Hb & Hc & Hi & Hp) Hlt. unfold m_at; simpl.
  assert (realloc c capa = c ++ fresh (length c) (Z.to_nat capa - length c)) as E.
  { unfold realloc. rewrite take_ge by lia. done. }
  rewrite <- E, length_realloc. split_and!; [done | lia | done | lia].
Qed.

Lemma m_rawbyte_at m c y t x :
  m_at m c (y :: t) -> Z.of_nat (length c) < PDU_LIMIT ->
  exists m', m_rawbyte m x = Ret m' /\ m_at m' (c ++ [byte_of_Z x]) t.
Proof.
  intros (Hb & Hc & Hi & Hp) Hlt. unfold m_rawbyte, PDU_LIMIT in *.
  rewrite length_app in Hc; simpl in Hc.
  rewrite (proj2 (Z.leb_gt _ _)) by lia. simpl.
  rewrite Hb; simpl. rewrite defined_true, int_chk_ok; simpl.
  - eexists; split; [done|]. unfold m_at; simpl.
    rewrite Hi, Nat2Z.id, insert_app_r_alt, Nat.sub_diag by lia. simpl.
    rewrite <- app_assoc, !length_app; simpl. split_and!; [done|lia|lia|lia].
  - lia.
  - rewrite length_app; simpl. apply andb_true_iff. rewrite Z.leb_le, Z.ltb_lt. lia.
Qed.

Lemma m_rawbyte_rep m c x :
  m_rep m c -> Z.of_nat (length c) < PDU_LIMIT ->
  exists m', m_rawbyte m x = Ret m' /\ m_rep m' (c ++ [byte_of_Z x]).
Proof.
  intros [[|y t] Ht] Hlt.
  - pose proof Ht as (Hb & Hc & Hi & Hp). rewrite app_nil_r in Hb, Hc.
    unfold PDU_LIMIT in *.
    pose proof (m_at_grow m c (m_capa m * 2) Ht) as Hg.
    destruct (fresh (length c) (Z.to_nat (m_capa m * 2) - length c)) as [|y t] eqn:E.
    { apply (f_equal length) in E. unfold fresh in E.
      rewrite length_fmap, length_seq in E. simpl in E. lia. }
    destruct (m_rawbyte_at _ c y t x ltac:(apply Hg; lia) Hlt) as (m' & Hm & Hm').
    exists m'. split; [|by eapply m_at_rep]. rewrite <- Hm. unfold m_rawbyte.
    rewrite (proj2 (Z.leb_le (m_capa m) (m_ind m))) by lia.
    rewrite (int_chk_ok (m_capa m * 2)) by lia. simpl. rewrite Hb; simpl.
    by rewrite (proj2 (Z.leb_gt (m_capa m * 2) (m_ind m))) by lia.
  - destruct (m_rawbyte_at m c y t x Ht Hlt) as (m' & ? & ?).
    exists m'; split; [done|]. by eapply m_at_rep.
Qed.

Lemma m_rawbytes_at m c t p :
  m_at m c t -> (length p <= length t)%nat -> Z.of_nat (length c + length p) < PDU_LIMIT ->
  exists m', m_rawbytes m p (Z.of_nat (length p)) = Ret m' /\ m_rep m' (c ++ p).
Proof.
  intros (Hb & Hc & Hi & Hp) Hle Hlt. unfold m_rawbytes, PDU_LIMIT in *.
  rewrite length_app in Hc.
  rewrite (int_chk_ok (m_ind m + _)) by lia. simpl.
  rewrite (proj2 (Z.ltb_ge (m_capa m) _)) by lia. simpl. rewrite Hb; simpl. rewrite defined_true; simpl.
  - eexists; split; [done|]. exists (drop (length p) t). unfold m_at; simpl.
    rewrite Hi, <- Nat2Z.inj_add, !Nat2Z.id, take_app_length, take_ge by lia.
    rewrite drop_app_add, <- app_assoc, !length_app, length_drop.
    split_and!; [done | lia | lia | lia].
  - rewrite length_app, !andb_true_iff, !Z.leb_le. lia.
Qed.

Lemma m_rawbytes_rep m c p :
  m_rep m c -> Z.of_nat (length c + length p) < PDU_LIMIT ->
  exists m', m_rawbytes m p (Z.of_nat (length p)) = Ret m' /\ m_rep m' (c ++ p).
Proof.
  intros [t Ht] Hlt. destruct (decide (length p <= length t)%nat); [by eapply m_rawbytes_at|].
  pose proof Ht as (Hb & Hc & Hi & Hp). unfold PDU_LIMIT in *. rewrite length_app in Hc.
  set (capa := if Z.of_nat (length p) <? m_capa m then 2 * m_capa m
               else m_capa m + Z.of_nat (length p)).
  assert (m_capa m + Z.of_nat (length p) <= capa <= 2 * m_capa m + 2 * Z.of_nat (length p))
    as Hcapa.
  { unfold capa. destruct (Z.ltb_spec (Z.of_nat (length p)) (m_capa m)); lia. }
  assert (int_chk capa = (if Z.of_nat (length p) <? m_capa m then int_chk (2 * m_capa m)
                          else int_chk (m_capa m + Z.of_nat (length p)))) as Hchk.
  { unfold capa. by destruct (_ <? _). }
  assert (capa < two31) as Hcap31.
  { unfold capa. destruct (Z.ltb_spec (Z.of_nat (length p)) (m_capa m)); lia. }
  assert (m_at (Marshall (Some (realloc (c ++ t) capa)) capa (m_ind m)) c
            (t ++ fresh (length (c ++ t)) (Z.to_nat capa - length (c ++ t)))) as Hat.
  { unfold m_at; simpl.
    assert (realloc (c ++ t) capa =
            c ++ t ++ fresh (length (c ++ t)) (Z.to_nat capa - length (c ++ t))) as E.
    { unfold realloc. rewrite take_ge by (rewrite length_app; lia). by rewrite app_assoc. }
    rewrite <- E, length_realloc. split_and!; [done|lia|done|lia]. }
  eapply m_rawbytes_at in Hat as (m' & Hm & Hm'); unfold PDU_LIMIT; [|shelve|exact Hlt].
  exists m'. split; [|done]. rewrite <- Hm. unfold m_rawbytes; simpl.
  rewrite (int_chk_ok (m_ind m + _)) by lia. simpl.
  rewrite (proj2 (Z.ltb_lt (m_capa m) (m_ind m + _))) by lia.
  rewrite (proj2 (Z.ltb_ge capa _)) by lia. simpl.
  rewrite <- Hchk, (int_chk_ok capa) by lia. simpl. by rewrite Hb.
  Unshelve.
  rewrite length_app. unfold fresh. rewrite length_fmap, length_seq, length_app. lia.
Qed.

End write.

(** Linear arithmetic over lengths of concatenations. *)
Ltac len_lia :=
  unfold be32, be16, PDU_LIMIT in *; rewrite ?length_app in *; simpl in *; lia.

(** Run the next [m_rawbyte] of a chain of writes. *)
Ltac put_step :=
  match goal with
  | H : m_rep ?m ?c |- context [m_rawbyte ?m ?x] =>
      let m' := fresh "m" in let E := fresh "E" in let H' := fresh "Hm" in
      destruct (m_rawbyte_rep m c x H) as (m' & E & H'); [len_lia|];
      rewrite E; simpl; clear E H
  end.

Ltac put_done :=
  eexists; split; [reflexivity|]; autorewrite with yfs in *;
  rewrite <- ?app_assoc in *; simpl in *; eassumption.

Section write_ints.
Context `{Allocator}.

Lemma put_ushort_rep m c x :
  m_rep m c -> Z.of_nat (length c + 2) < PDU_LIMIT ->
  exists m', put_ushort m x = Ret m' /\ m_rep m' (c ++ be16 x).
Proof. intros Hm Hl. unfold put_ushort, be16. do 2 put_step. put_done. Qed.

Lemma put_uint_rep m c x :
  m_rep m c -> Z.of_nat (length c + 4) < PDU_LIMIT ->
  exists m', put_uint m x = Ret m' /\ m_rep m' (c ++ be32 x).
Proof. intros Hm Hl. unfold put_uint, be32. do 4 put_step. put_done. Qed.

End write_ints.

(** ** Reading *)

(** The next byte of [r]; [rawbyte] gives 0 at the end of the stream. *)
Definition hd_byte (r : str) : Z := match r with [] => 0 | c :: _ => Z_of_byte c end.

Definition be_val16 (r : str) : Z := hd_byte r * two8 + hd_byte (drop 1 r).
Definition be_val32 (r : str) : Z :=
  hd_byte r * 16777216 + hd_byte (drop 1 r) * two16 +
  hd_byte (drop 2 r) * two8 + hd_byte (drop 3 r).

Lemma hd_byte_range r : 0 <= hd_byte r < two8.
Proof. destruct r as [|c r]; simpl; [lia|]. apply Z_of_byte_range. Qed.

Lemma mask_sign_extended x : 0 <= x < two8 -> Z.land (u32 (s8 x)) 255 = x.
Proof.
  intros Hx. rewrite land_ff. unfold u32, s8.
  rewrite Z.mod_mod_divide by (by exists 16777216).
  rewrite Zminus_mod_idemp_l. replace (x + 128 - 128) with x by lia. apply Z.mod_small. lia.
Qed.

Lemma s8_sign_extended x : s8 (u32 (s8 x)) = s8 x.
Proof.
  unfold s8 at 1, u32. rewrite <- Zplus_mod_idemp_l, Z.mod_mod_divide, Zplus_mod_idemp_l
    by (by exists 16777216).
  unfold s8. replace (_ - 128 + 128) with ((x + 128) mod two8) by lia. by rewrite Zmod_mod.
Qed.

Lemma u_rawbyte_rep u ok r :
  u_rep u ok r ->
  exists x u', u_rawbyte u = Ret (x, u') /\ Z.land x 255 = hd_byte r /\
    u8 x = hd_byte r /\ (x =? 0) = (hd_byte r =? 0) /\ s8 x = s8 (hd_byte r) /\
    u_rep u' (ok && bool_decide (1 <= length r)%nat) (drop 1 r).
Proof.
  intros (pre & t & Hb & Hi & Hs & Hlt & Hok). unfold u_rawbyte.
  destruct r as [|c r]; simpl in *.
  - rewrite (proj2 (Z.leb_le _ _)) by lia. do 2 eexists.
    split_and!; [done|done|done|done|done|]. exists pre, t. simpl.
    rewrite andb_false_r. split_and!; done.
  - rewrite (proj2 (Z.leb_gt _ _)) by lia. rewrite Hb; simpl.
    rewrite defined_true by (apply Z.leb_le; lia). simpl.
    rewrite Hi, Nat2Z.id, list_lookup_middle by done.
    pose proof (Z_of_byte_range c). pose proof (mask_sign_extended (Z_of_byte c)) as Hmask.
    do 2 eexists. split_and!; [done|auto| | | |].
    + rewrite land_ff in Hmask. auto.
    + unfold u32, s8. destruct (Z_of_byte c =? 0) eqn:E; bool_prop.
      * rewrite E. done.
      * apply Z.eqb_neq. intros Hz. apply E. rewrite <- Hmask by done.
        unfold u32, s8. by rewrite Hz.
    + apply s8_sign_extended.
    + exists (pre ++ [c]), t. simpl. rewrite <- app_assoc, length_app; simpl.
      rewrite drop_0, andb_true_r. split_and!; [done|lia|lia|lia|done].
Qed.

(** A cursor that has consumed [n] bytes of [r]. *)
Definition u_nth (u : unmarshall) (ok : bool) (n : nat) (r : str) : Prop :=
  u_rep u (ok && bool_decide (n <= length r)%nat) (drop n r).

Lemma u_nth_0 u ok r : u_rep u ok r -> u_nth u ok 0 r.
Proof. unfold u_nth. rewrite drop_0, bool_decide_eq_true_2, andb_true_r by lia. done. Qed.

Lemma u_nth_add u ok n k r :
  u_nth u (ok && bool_decide (n <= length r)%nat) k (drop n r) -> u_nth u ok (n + k) r.
Proof.
  unfold u_nth. rewrite drop_drop, length_drop, <- andb_assoc, <- bool_decide_and.
  intros H. rewrite (bool_decide_ext _ (n <= length r /\ k <= length r - n)%nat); [done | lia].
Qed.

Lemma u_rawbyte_nth u ok n r :
  u_nth u ok n r ->
  exists x u', u_rawbyte u = Ret (x, u') /\ Z.land x 255 = hd_byte (drop n r) /\
    u_nth u' ok (S n) r.
Proof.
  intros Hu. destruct (u_rawbyte_rep _ _ _ Hu) as (x & u' & E & Hx & _ & _ & _ & Hu').
  exists x, u'. split_and!; [done|done|]. rewrite <- Nat.add_1_r. by apply u_nth_add.
Qed.

(** Run the next [u_rawbyte] of a chain of reads. *)
Ltac get_step :=
  match goal with
  | H : u_nth ?u _ _ _ |- context [u_rawbyte ?u] =>
      let x := fresh "x" in let u' := fresh "u" in let E := fresh "E" in
      destruct (u_rawbyte_nth _ _ _ _ H) as (x & u' & E & ? & ?);
      rewrite E; simpl; clear E H
  end.

Lemma s16_congr x y : x mod two16 = y mod two16 -> s16 x = s16 y.
Proof. intros E. unfold s16. by rewrite <- Zplus_mod_idemp_l, E, Zplus_mod_idemp_l. Qed.

Lemma u32_s16_mod x : u32 (s16 x) mod two16 = x mod two16.
Proof.
  unfold u32, s16. rewrite Z.mod_mod_divide by (by exists 65536).
  rewrite Zminus_mod_idemp_l. f_equal. lia.
Qed.

(** The three [|=] steps that assemble a 32-bit value. *)
Lemma assemble32 a b c d :
  0 <= a < two8 -> 0 <= b < two8 -> 0 <= c < two8 -> 0 <= d < two8 ->
  u32 (Z.lor (u32 (Z.lor (u32 (Z.lor (u32 (a * 2 ^ 24)) (u32 (b * 2 ^ 16))))
    (u32 (c * 2 ^ 8)))) d) = a * 16777216 + b * two16 + c * two8 + d.
Proof.
  intros. rewrite !(u32_small (_ * _)) by lia.
  rewrite (lor_disjoint (a * _) _ 24); [| lia | by apply Z.mod_mul | lia].
  rewrite (u32_small (_ + _)) by lia.
  rewrite (lor_disjoint _ (c * _) 16); [| lia | | lia].
  2: { replace (_ + _) with ((a * 2 ^ 8 + b) * 2 ^ 16) by lia. by apply Z.mod_mul. }
  rewrite (u32_small (_ + _ + _)) by lia.
  rewrite (lor_disjoint _ d 8); [| lia | | lia].
  2: { replace (_ + _ + _) with ((a * 2 ^ 16 + b * 2 ^ 8 + c) * 2 ^ 8) by lia.
       by apply Z.mod_mul. }
  apply u32_small; lia.
Qed.

(** Name the cursor after the last read. *)
Ltac get_exists := match goal with H : u_nth ?u _ _ _ |- _ => exists u; split; [|exact H] end.

(** Bytes read one by one as big-endian arithmetic. *)
Ltac be_arith :=
  repeat match goal with H : Z.land _ 255 = _ |- _ => rewrite H; clear H end;
  rewrite ?drop_0;
  repeat match goal with
  | |- context [hd_byte ?r] =>
      lazymatch goal with
      | _ : 0 <= hd_byte r < _ |- _ => fail
      | _ => pose proof (hd_byte_range r)
      end
  end;
  rewrite ?shiftl_mul by lia; unfold be_val32, be_val16.

Lemma get_ushort_rep u ok r :
  u_rep u ok r ->
  exists u', get_ushort u = Ret (be_val16 r, u') /\ u_nth u' ok 2 r.
Proof.
  intros Hu%u_nth_0. unfold get_ushort. do 2 get_step. get_exists. do 2 f_equal. be_arith.
  unfold u16. rewrite (Z.mod_small (_ * _)) by lia.
  rewrite (lor_disjoint _ _ 8); [| lia | by apply Z.mod_mul | lia].
  rewrite Z.mod_small; lia.
Qed.

Lemma get_short_rep u ok r :
  u_rep u ok r ->
  exists u', get_short u = Ret (s16 (be_val16 r), u') /\
    u_nth u' ok 2 r.
Proof.
  intros Hu%u_nth_0. unfold get_short. do 2 get_step. get_exists. do 2 f_equal. be_arith.
  rewrite (lor_disjoint _ _ 8); [| lia | | lia].
  - apply s16_congr. rewrite <- Zplus_mod_idemp_l, u32_s16_mod, Zplus_mod_idemp_l. done.
  - rewrite <- (Z.mod_mod_divide _ two16) by (by exists 256).
    rewrite u32_s16_mod, Z.mod_mod_divide by (by exists 256). by apply Z.mod_mul.
Qed.

Lemma get_uint_rep u ok r :
  u_rep u ok r ->
  exists u', get_uint u = Ret (be_val32 r, u') /\
    u_nth u' ok 4 r.
Proof.
  intros Hu%u_nth_0. unfold get_uint. do 4 get_step. get_exists. do 2 f_equal. be_arith.
  by apply assemble32.
Qed.

Lemma get_int_rep u ok r :
  u_rep u ok r ->
  exists u', get_int u = Ret (s32 (be_val32 r), u') /\
    u_nth u' ok 4 r.
Proof.
  intros Hu%u_nth_0. unfold get_int. do 4 get_step. get_exists. do 2 f_equal. be_arith.
  rewrite !u32_s32. rewrite <- s32_u32. f_equal.
  rewrite (u32_small (u32 _)) by apply u32_range. by apply assemble32.
Qed.

Lemma be_val32_range r : 0 <= be_val32 r < two32.
Proof.
  unfold be_val32. pose proof (hd_byte_range r). pose proof (hd_byte_range (drop 1 r)).
  pose proof (hd_byte_range (drop 2 r)). pose proof (hd_byte_range (drop 3 r)). lia.
Qed.

Lemma get_ull_rep u ok r :
  u_rep u ok r ->
  exists u', get_ull u = Ret (be_val32 r * two32 + be_val32 (drop 4 r), u') /\
    u_nth u' ok 8 r.
Proof.
  intros Hu. unfold get_ull.
  destruct (get_uint_rep _ _ _ Hu) as (u1 & -> & H1); simpl.
  destruct (get_uint_rep _ _ _ H1) as (u2 & -> & H2%(u_nth_add _ _ 4 4)); simpl.
  exists u2. split; [|done]. do 2 f_equal.
  pose proof (be_val32_range r). pose proof (be_val32_range (drop 4 r)).
  rewrite shiftl_mul, u64_small, Z.lor_comm by lia.
  rewrite (lor_disjoint _ _ 32); [done | lia | by apply Z.mod_mul | lia].
Qed.

(** Reading back what was written. *)
Lemma be_val16_enc x r : be_val16 (be16 x ++ r) = u16 x.
Proof.
  unfold be_val16, be16; simpl. rewrite !Z_of_byte_of_Z, shiftr_div by lia.
  unfold u8, u16. change (2 ^ 8) with 256. Z.div_mod_to_equations. lia.
Qed.

Lemma be_val32_enc x r : be_val32 (be32 x ++ r) = u32 x.
Proof.
  unfold be_val32, be32; simpl. rewrite !Z_of_byte_of_Z, !shiftr_div by lia.
  unfold u8, u32. change (2 ^ 8) with 256. change (2 ^ 16) with 65536.
  change (2 ^ 24) with 16777216. Z.div_mod_to_equations. lia.
Qed.

(** ** Failing and truncated streams *)

Lemma u_nth_false u n r : u_nth u false n r -> u_rep u false (drop n r).
Proof. done. Qed.

Lemma u_nth_app u e r : u_nth u true (length e) (e ++ r) -> u_rep u true r.
Proof.
  unfold u_nth. rewrite drop_app_length, bool_decide_eq_true_2; [done|].
  rewrite length_app. lia.
Qed.

Lemma u_nth_short u ok n r : (length r < n)%nat -> u_nth u ok n r -> u_rep u false (drop n r).
Proof. unfold u_nth. intros. rewrite bool_decide_eq_false_2, andb_false_r in * by lia. done. Qed.

Lemma strict_prefix_length r e : strict_prefix_of r e -> (length r < length e)%nat.
Proof.
  intros (r' & Hne & ->). rewrite length_app. destruct r'; [done|]. simpl. lia.
Qed.

Lemma strict_prefix_app r x y :
  strict_prefix_of r (x ++ y) ->
  strict_prefix_of r x \/ exists r2, r = x ++ r2 /\ strict_prefix_of r2 y.
Proof.
  intros (r' & Hne & E). apply app_eq_inv in E as [(k & -> & ->)|(k & -> & ->)].
  - destruct k as [|c k].
    + right. exists []. split; [by rewrite !app_nil_r|]. by exists y.
    + left. by exists (c :: k).
  - right. exists k. split; [done|]. by exists r'.
Qed.

(** *** A reader that consumes a fixed number of bytes

    Every integer type is one: its contract follows from the value it computes
    and the number of bytes it takes. *)
Section fixed_size.
Context `{Allocator} {A : Type} {MA : Marshal A}.
Context (e : A -> str) (ok : A -> Prop) (n : nat) (val : str -> A).
Hypothesis e_length : forall a, length (e a) = n.
Hypothesis put_rep : forall m c a, m_rep m c -> Z.of_nat (length c + n) < PDU_LIMIT ->
  exists m', put m a = Ret m' /\ m_rep m' (c ++ e a).
Hypothesis get_nth : forall old u b r, u_rep u b r ->
  exists u', get old u = Ret (val r, u') /\ u_nth u' b n r.
Hypothesis val_enc : forall a r, ok a -> val (e a ++ r) = a.

Program Definition fixed_size_spec : MarshalSpec A := {| enc := e; valid := ok |}.
Next Obligation. intros m c a Hm _ Hl. rewrite e_length in Hl. by apply put_rep. Qed.
Next Obligation.
  intros old u a r Hu Ha. destruct (get_nth old _ _ _ Hu) as (u' & E & Hu').
  exists u'. rewrite E, val_enc by done. split; [done|].
  rewrite <- (e_length a) in Hu'. by eapply u_nth_app.
Qed.
Next Obligation.
  intros old u a r Hu _ Hr%strict_prefix_length. rewrite e_length in Hr.
  destruct (get_nth old _ _ _ Hu) as (u' & E & Hu'). do 3 eexists. split; [done|].
  by eapply u_nth_short.
Qed.
Next Obligation.
  intros old u r Hu. destruct (get_nth old _ _ _ Hu) as (u' & E & Hu'). eauto using u_nth_false.
Qed.
End fixed_size.

(** ** Instances *)

Section instances.
Context `{Allocator}.

Lemma u_rawbyte_1 u b r :
  u_rep u b r ->
  exists x u', u_rawbyte u = Ret (x, u') /\ u8 x = hd_byte r /\
    (x =? 0) = (hd_byte r =? 0) /\ s8 x = s8 (hd_byte r) /\ u_nth u' b 1 r.
Proof.
  intros Hu. destruct (u_rawbyte_rep _ _ _ Hu) as (x & u' & E & _ & ? & ? & ? & Hu').
  exists x, u'. done.
Qed.

Lemma hd_byte_of_Z x r : hd_byte (byte_of_Z x :: r) = u8 x.
Proof. apply Z_of_byte_of_Z. Qed.

#[export] Instance MarshalSpec_bool : MarshalSpec bool.
Proof.
  refine (fixed_size_spec (fun x => [byte_of_Z (Z.b2z x)]) (fun _ => True) 1
            (fun r => negb (hd_byte r =? 0)) _ _ _ _); simpl.
  - done.
  - intros m c a Hm Hl. apply m_rawbyte_rep; [done|len_lia].
  - intros _ u b r Hu. unfold get_bool.
    destruct (u_rawbyte_1 _ _ _ Hu) as (x & u' & -> & _ & E & _ & ?). simpl. rewrite E. eauto.
  - intros a r _. rewrite Z_of_byte_of_Z. by destruct a.
Defined.

#[export] Instance MarshalSpec_uchar : MarshalSpec uchar.
Proof.
  refine (fixed_size_spec (fun x => [byte_of_Z (uchar_val x)])
            (fun x => 0 <= uchar_val x < two8) 1 (fun r => UChar (hd_byte r)) _ _ _ _); simpl.
  - done.
  - intros m c a Hm Hl. apply m_rawbyte_rep; [done|len_lia].
  - intros _ u b r Hu. unfold wrapped, get_uchar.
    destruct (u_rawbyte_1 _ _ _ Hu) as (x & u' & -> & E & _ & _ & ?). simpl. rewrite E. eauto.
  - intros [a] r Ha. simpl in *. f_equal. rewrite Z_of_byte_of_Z. apply Z.mod_small. lia.
Defined.

#[export] Instance MarshalSpec_schar : MarshalSpec schar.
Proof.
  refine (fixed_size_spec (fun x => [byte_of_Z (u8 (schar_val x))])
            (fun x => -128 <= schar_val x < 128) 1 (fun r => SChar (s8 (hd_byte r))) _ _ _ _);
    simpl.
  - done.
  - intros m c a Hm Hl. apply m_rawbyte_rep; [done|len_lia].
  - intros _ u b r Hu. unfold wrapped, get_char.
    destruct (u_rawbyte_1 _ _ _ Hu) as (x & u' & -> & _ & _ & E & ?). simpl. rewrite E. eauto.
  - intros [a] r Ha. simpl in *. f_equal. rewrite Z_of_byte_of_Z. unfold u8, s8.
    rewrite Zmod_mod, Zplus_mod_idemp_l, Z.mod_small by lia. lia.
Defined.

#[export] Instance MarshalSpec_ushort : MarshalSpec ushort.
Proof.
  refine (fixed_size_spec (fun x => be16 (ushort_val x))
            (fun x => 0 <= ushort_val x < two16) 2 (fun r => UShort (be_val16 r)) _ _ _ _).
  - done.
  - intros m c a Hm Hl. by apply put_ushort_rep.
  - intros old u b r Hu. simpl. unfold wrapped.
    destruct (get_ushort_rep _ _ _ Hu) as (u' & -> & ?). simpl. eauto.
  - intros [a] r Ha. rewrite be_val16_enc. simpl in *. f_equal. apply Z.mod_small. lia.
Defined.

#[export] Instance MarshalSpec_sshort : MarshalSpec sshort.
Proof.
  refine (fixed_size_spec (fun x => be16 (u16 (sshort_val x)))
            (fun x => -32768 <= sshort_val x < 32768) 2 (fun r => SShort (s16 (be_val16 r)))
            _ _ _ _).
  - done.
  - intros m c a Hm Hl. by apply put_ushort_rep.
  - intros old u b r Hu. simpl. unfold wrapped.
    destruct (get_short_rep _ _ _ Hu) as (u' & -> & ?). simpl. eauto.
  - intros [a] r Ha. rewrite be_val16_enc. simpl in *. f_equal. unfold u16, s16.
    rewrite Zmod_mod, Zplus_mod_idemp_l, Z.mod_small by lia. lia.
Defined.

#[export] Instance MarshalSpec_uint : MarshalSpec uint.
Proof.
  refine (fixed_size_spec (fun x => be32 (uint_val x))
            (fun x => 0 <= uint_val x < two32) 4 (fun r => UInt (be_val32 r)) _ _ _ _).
  - done.
  - intros m c a Hm Hl. by apply put_uint_rep.
  - intros old u b r Hu. simpl. unfold wrapped.
    destruct (get_uint_rep _ _ _ Hu) as (u' & -> & ?). simpl. eauto.
  - intros [a] r Ha. rewrite be_val32_enc. f_equal. by apply u32_small.
Defined.

#[export] Instance MarshalSpec_sint : MarshalSpec sint.
Proof.
  refine (fixed_size_spec (fun x => be32 (u32 (sint_val x)))
            (fun x => - two31 <= sint_val x < two31) 4 (fun r => SInt (s32 (be_val32 r)))
            _ _ _ _).
  - done.
  - intros m c a Hm Hl. by apply put_uint_rep.
  - intros old u b r Hu. simpl. unfold wrapped.
    destruct (get_int_rep _ _ _ Hu) as (u' & -> & ?). simpl. eauto.
  - intros [a] r Ha. rewrite be_val32_enc. f_equal. rewrite !s32_u32. by apply s32_small.
Defined.

#[export] Instance MarshalSpec_ull : MarshalSpec ull.
Proof.
  refine (fixed_size_spec
            (fun x => be32 (u32 (Z.shiftr (ull_val x) 32)) ++ be32 (u32 (ull_val x)))
            (fun x => 0 <= ull_val x < two64) 8
            (fun r => ULL (be_val32 r * two32 + be_val32 (drop 4 r))) _ _ _ _).
  - done.
  - intros m c a Hm Hl. simpl. unfold put_ull.
    destruct (put_uint_rep m c (u32 (Z.shiftr (ull_val a) 32)) Hm) as (m1 & -> & H1); [lia|].
    simpl. destruct (put_uint_rep m1 _ (u32 (ull_val a)) H1) as (m2 & -> & H2); [len_lia|].
    exists m2. split; [done|]. by rewrite <- app_assoc in H2.
  - intros old u b r Hu. simpl. unfold wrapped.
    destruct (get_ull_rep _ _ _ Hu) as (u' & -> & ?). simpl. eauto.
  - intros [a] r Ha. simpl in Ha. rewrite <- app_assoc, be_val32_enc.
    change (drop 4 _) with (be32 (u32 a) ++ r). rewrite be_val32_enc. f_equal. simpl.
    rewrite shiftr_div by lia. unfold u32. rewrite !Zmod_mod.
    rewrite (Z.mod_small (a / _)) by (split; [apply Z.div_pos | apply Z.div_lt_upper_bound]; lia).
    change (2 ^ 32) with two32. rewrite (Z_div_mod_eq_full a two32) at 3. lia.
Defined.

End instances.

(** *** Strings *)

Lemma u_rawbytes_rep u old s r :
  u_rep u true (s ++ r) ->
  exists u', u_rawbytes u old (Z.of_nat (length s)) = Ret (s, u') /\ u_rep u' true r.
Proof.
  intros (pre & t & Hb & Hi & Hs & Hlt & Hok). unfold u_rawbytes.
  rewrite !length_app in Hs.
  rewrite !u32_small by (rewrite ?u32_small by lia; lia).
  rewrite (proj2 (Z.ltb_ge _ _)) by lia. rewrite Hb; simpl.
  rewrite defined_true.
  2: { rewrite !length_app, andb_true_iff, !Z.leb_le. lia. }
  simpl. rewrite Hi, !Nat2Z.id, drop_app_length, <- app_assoc, take_app_length. simpl.
  rewrite VERIFY_true by (by apply Z.eqb_eq). simpl.
  eexists; split; [done|]. exists (pre ++ s), t. simpl.
  rewrite s32_small by lia. rewrite !length_app, <- !app_assoc.
  split_and!; [by rewrite Hb, <- app_assoc|lia|lia|lia|done].
Qed.

Lemma u_rawbytes_short u old n r :
  u_rep u true r -> Z.of_nat (length r) < n < PDU_LIMIT ->
  exists u', u_rawbytes u old n = Ret (old, u') /\ u_rep u' false r.
Proof.
  intros (pre & t & Hb & Hi & Hs & Hlt & Hok) Hn. unfold u_rawbytes, PDU_LIMIT in *.
  rewrite !u32_small by (rewrite ?u32_small by lia; lia).
  rewrite (proj2 (Z.ltb_lt _ _)) by lia.
  eexists; split; [done|]. exists pre, t. simpl. by rewrite Hi.
Qed.

#[export] Program Instance MarshalSpec_string `{Allocator} : MarshalSpec str := {|
  enc s := be32 (Z.of_nat (length s)) ++ s;
  valid s := Z.of_nat (length s) < PDU_LIMIT |}.
Next Obligation.
  intros H m c s Hm Hs Hl. simpl. unfold put_string, PDU_LIMIT in *.
  rewrite u32_small, s32_small by lia.
  destruct (put_uint_rep m c (Z.of_nat (length s)) Hm) as (m1 & -> & H1); [len_lia|].
  simpl. destruct (m_rawbytes_rep m1 _ s H1) as (m2 & -> & H2); [len_lia|].
  exists m2. split; [done|]. by rewrite <- app_assoc in H2.
Qed.
Next Obligation.
  intros H old u s r Hu Hs. cbn in * |-. cbn. unfold get_string, PDU_LIMIT in *.
  destruct (get_uint_rep _ _ _ Hu) as (u1 & -> & H1). rsimpl.
  rewrite <- app_assoc, be_val32_enc, u32_small by lia.
  rewrite <- app_assoc in H1. apply (u_nth_app _ (be32 _)) in H1.
  assert (u_ok u1 = true) as -> by (by destruct H1 as (? & ? & ? & ? & ? & ? & ?)).
  by apply u_rawbytes_rep.
Qed.
Next Obligation.
  intros H old u s r Hu Hs Hr. cbn in * |-. cbn. unfold get_string, PDU_LIMIT in *.
  destruct (get_uint_rep _ _ _ Hu) as (u1 & -> & H1). rsimpl.
  apply strict_prefix_app in Hr as [Hr|(r2 & -> & Hr)].
  - apply strict_prefix_length in Hr. apply u_nth_short in H1; [|done].
    assert (u_ok u1 = false) as -> by (by destruct H1 as (? & ? & ? & ? & ? & ? & ?)). eauto.
  - rewrite be_val32_enc, u32_small by lia. apply (u_nth_app _ (be32 _)) in H1.
    assert (u_ok u1 = true) as -> by (by destruct H1 as (? & ? & ? & ? & ? & ? & ?)).
    apply strict_prefix_length in Hr.
    destruct (u_rawbytes_short u1 old (Z.of_nat (length s)) _ H1) as (u2 & -> & H2);
      [unfold PDU_LIMIT; lia|eauto].
Qed.
Next Obligation.
  intros H old u r Hu. cbn in * |-. cbn. unfold get_string.
  destruct (get_uint_rep _ _ _ Hu) as (u1 & -> & H1%u_nth_false). rsimpl.
  assert (u_ok u1 = false) as -> by (by destruct H1 as (? & ? & ? & ? & ? & ? & ?)). eauto.
Qed.

(** *** Sequences *)

#[export] Program Instance MarshalSpec_pair `{Allocator} {A B} {MA : Marshal A} {MB : Marshal B}
    {SA : MarshalSpec A} {SB : MarshalSpec B} : MarshalSpec (A * B) := {|
  enc p := enc p.1 ++ enc p.2;
  valid p := valid p.1 /\ valid p.2 |}.
Next Obligation.
  intros H A B MA MB SA SB m c [a b] Hm [Ha Hb] Hl. simpl in *. rewrite length_app in Hl.
  destruct (put_ok m c a Hm Ha) as (m1 & -> & H1); [lia|]. simpl.
  destruct (put_ok m1 _ b H1 Hb) as (m2 & -> & H2); [rewrite length_app; lia|].
  exists m2. split; [done|]. by rewrite <- app_assoc in H2.
Qed.
Next Obligation.
  intros H A B MA MB SA SB [oa ob] u [a b] r Hu [Ha Hb]. simpl in *.
  rewrite <- app_assoc in Hu. destruct (get_ok oa u a _ Hu Ha) as (u1 & -> & H1). simpl.
  destruct (get_ok ob u1 b _ H1 Hb) as (u2 & -> & H2). simpl. eauto.
Qed.
Next Obligation.
  intros H A B MA MB SA SB [oa ob] u [a b] r Hu [Ha Hb] Hr. simpl in *.
  apply strict_prefix_app in Hr as [Hr|(r2 & -> & Hr)].
  - destruct (get_truncated oa u a r Hu Ha Hr) as (x & u1 & r1 & -> & H1). simpl.
    destruct (get_failed ob u1 r1 H1) as (y & u2 & r2 & -> & H2). simpl. eauto.
  - destruct (get_ok oa u a r2 Hu Ha) as (u1 & -> & H1). simpl.
    destruct (get_truncated ob u1 b r2 H1 Hb Hr) as (y & u2 & r3 & -> & H2). simpl. eauto.
Qed.
Next Obligation.
  intros H A B MA MB SA SB [oa ob] u r Hu. simpl.
  destruct (get_failed oa u r Hu) as (x & u1 & r1 & -> & H1). simpl.
  destruct (get_failed ob u1 r1 H1) as (y & u2 & r2 & -> & H2). simpl. eauto.
Qed.

(** *** Vectors *)

Section elements.
Context `{Allocator} {A : Type} {MA : Marshal A} {SA : MarshalSpec A}.

Fixpoint enc_elems (v : list A) : str :=
  match v with [] => [] | x :: v => enc x ++ enc_elems v end.

Lemma put_elems_ok m c v :
  m_rep m c -> Forall valid v -> Z.of_nat (length c + length (enc_elems v)) < PDU_LIMIT ->
  exists m', put_elems m v = Ret m' /\ m_rep m' (c ++ enc_elems v).
Proof.
  intros Hm Hv. revert m c Hm.
  induction Hv as [|x v Hx Hv IH]; intros m c Hm Hl; simpl in *.
  - exists m. by rewrite app_nil_r.
  - rewrite length_app in Hl. destruct (put_ok m c x Hm Hx) as (m1 & -> & H1); [lia|]. rsimpl.
    destruct (IH m1 _ H1) as (m2 & -> & H2); [rewrite length_app; lia|].
    exists m2. split; [done|]. by rewrite <- app_assoc in H2.
Qed.

Lemma get_elems_ok u v r :
  u_rep u true (enc_elems v ++ r) -> Forall valid v ->
  exists u', get_elems (length v) u = Ret (v, u') /\ u_rep u' true r.
Proof.
  intros Hu Hv. revert u Hu. induction Hv as [|x v Hx Hv IH]; intros u Hu; simpl in *.
  - eauto.
  - rewrite <- app_assoc in Hu.
    destruct (get_ok dflt u x _ Hu Hx) as (u1 & -> & H1). rsimpl.
    destruct (IH u1 H1) as (u2 & -> & H2). rsimpl. eauto.
Qed.

Lemma get_elems_failed n u r :
  u_rep u false r -> exists x u' r', get_elems (A:=A) n u = Ret (x, u') /\ u_rep u' false r'.
Proof.
  revert u r. induction n as [|n IH]; intros u r Hu; simpl; [eauto|].
  destruct (get_failed dflt u r Hu) as (x & u1 & r1 & -> & H1). rsimpl.
  destruct (IH u1 r1 H1) as (v & u2 & r2 & -> & H2). rsimpl. eauto.
Qed.

Lemma get_elems_truncated u v r :
  u_rep u true r -> Forall valid v -> strict_prefix_of r (enc_elems v) ->
  exists x u' r', get_elems (A:=A) (length v) u = Ret (x, u') /\ u_rep u' false r'.
Proof.
  intros Hu Hv. revert u r Hu. induction Hv as [|x v Hx Hv IH]; intros u r Hu Hr.
  { apply strict_prefix_length in Hr. simpl in Hr. lia. }
  simpl in Hr |- *.
  apply strict_prefix_app in Hr as [Hr|(r2 & -> & Hr)].
  - destruct (get_truncated dflt u x r Hu Hx Hr) as (y & u1 & r1 & -> & H1). rsimpl.
    destruct (get_elems_failed (length v) u1 r1 H1) as (w & u2 & r2 & -> & H2). rsimpl. eauto.
  - destruct (get_ok dflt u x r2 Hu Hx) as (u1 & -> & H1). rsimpl.
    destruct (IH u1 r2 H1 Hr) as (w & u2 & r3 & -> & H2). rsimpl. eauto.
Qed.
End elements.

(** Reading a count, then elements: shared by [std::vector] and [std::map]. *)
Lemma get_count_ok u n r :
  u_rep u true (be32 n ++ r) -> 0 <= n < two32 ->
  exists u', get_uint u = Ret (n, u') /\ u_rep u' true r.
Proof.
  intros Hu Hn. destruct (get_uint_rep _ _ _ Hu) as (u' & -> & H1).
  exists u'. rewrite be_val32_enc, u32_small by done. split; [done|].
  by apply (u_nth_app _ (be32 n)).
Qed.

Lemma get_count_truncated u n r e :
  u_rep u true r -> 0 <= n < two32 -> strict_prefix_of r (be32 n ++ e) ->
  exists x u', get_uint u = Ret (x, u') /\
    ((exists r', u_rep u' false r') \/
     (x = n /\ exists r', u_rep u' true r' /\ strict_prefix_of r' e)).
Proof.
  intros Hu Hn Hr. apply strict_prefix_app in Hr as [Hr|(r2 & -> & Hr)].
  - apply strict_prefix_length in Hr. destruct (get_uint_rep _ _ _ Hu) as (u' & -> & H1).
    apply u_nth_short in H1; [|done]. eauto 6.
  - destruct (get_count_ok u n r2 Hu Hn) as (u' & -> & H1). do 2 eexists. split; [done|]. eauto.
Qed.

#[export] Program Instance MarshalSpec_vector `{Allocator} {A} {MA : Marshal A}
    {SA : MarshalSpec A} : MarshalSpec (vector A) := {|
  enc v := be32 (Z.of_nat (length (vec v))) ++ enc_elems (vec v);
  valid v := Forall valid (vec v) /\ Z.of_nat (length (vec v)) < PDU_LIMIT |}.
Next Obligation.
  intros H A MA SA m c [v] Hm [Hv Hn] Hl. cbn in Hv, Hn |- *. unfold put_vector, PDU_LIMIT in *.
  cbn [vec] in Hl. rewrite length_app in Hl. rewrite u32_small by lia.
  destruct (put_uint_rep m c (Z.of_nat (length v)) Hm) as (m1 & -> & H1); [len_lia|]. rsimpl.
  destruct (put_elems_ok m1 _ v H1 Hv) as (m2 & -> & H2); [len_lia|].
  exists m2. split; [done|]. by rewrite <- app_assoc in H2.
Qed.
Next Obligation.
  intros H A MA SA old u [v] r Hu [Hv Hn]. unfold PDU_LIMIT in Hn. cbn [vec get Marshal_vector] in *.
  unfold get_vector. rewrite <- app_assoc in Hu.
  destruct (get_count_ok _ _ _ Hu ltac:(lia)) as (u1 & -> & H1). rsimpl. rewrite Nat2Z.id.
  destruct (get_elems_ok _ _ _ H1 Hv) as (u2 & -> & H2). rsimpl. eauto.
Qed.
Next Obligation.
  intros H A MA SA old u [v] r Hu [Hv Hn] Hr. unfold PDU_LIMIT in Hn.
  cbn [vec get Marshal_vector] in *. unfold get_vector.
  destruct (get_count_truncated _ (Z.of_nat (length v)) _ _ Hu ltac:(lia) Hr)
    as (x & u1 & -> & [(r1 & H1)|(-> & r1 & H1 & Hr1)]); rsimpl.
  - destruct (get_elems_failed (A:=A) (Z.to_nat x) _ _ H1) as (w & u2 & r2 & -> & H2).
    rsimpl. eauto.
  - rewrite Nat2Z.id.
    destruct (get_elems_truncated _ _ _ H1 Hv Hr1) as (w & u2 & r2 & -> & H2). rsimpl. eauto.
Qed.
Next Obligation.
  intros H A MA SA old u r Hu. cbn [get Marshal_vector]. unfold get_vector.
  destruct (get_uint_rep _ _ _ Hu) as (u1 & -> & H1%u_nth_false). rsimpl.
  destruct (get_elems_failed (A:=A) (Z.to_nat (be_val32 r)) _ _ H1) as (w & u2 & r2 & -> & H2).
  rsimpl. eauto.
Qed.

(** *** Maps *)

Section map_assign.
Context `{KeyOrder A} {B : Type}.

(** The bindings of a [std::map] are strictly increasing. *)
Definition keys_increasing (d : list (A * B)) : Prop :=
  StronglySorted (fun p q => key_ltb p.1 q.1 = true) d.

Lemma map_assign_last a b (d : list (A * B)) :
  Forall (fun p => key_ltb p.1 a = true) d -> map_assign a b d = d ++ [(a, b)].
Proof.
  induction 1 as [|[a' b'] d Ha Hd IH]; simpl in *; [done|].
  rewrite Ha, IH. destruct (key_ltb a a') eqn:E; [|done].
  pose proof (key_ltb_trans _ _ _ Ha E) as Hc. by rewrite key_ltb_irrefl in Hc.
Qed.
End map_assign.

Section get_bindings.
Context `{Allocator} {A B : Type} {MA : Marshal A} {MB : Marshal B}.
Context {KA : KeyOrder A} {SA : MarshalSpec A} {SB : MarshalSpec B}.

(** The map loop reads the pairs [get_elems] reads, and assigns them in order. *)
Lemma get_bindings_elems n d u :
  get_bindings n d u =
  ('(l, u) ← get_elems (A:=A * B) n u; Ret (foldl (fun d p => map_assign p.1 p.2 d) d l, u)).
Proof.
  revert d u. induction n as [|n IH]; intros d u; simpl; [done|].
  destruct (get dflt u) as [[a u1]| |]; rsimpl; [|done|done].
  destruct (get dflt u1) as [[b u2]| |]; rsimpl; [|done|done].
  rewrite IH. destruct (get_elems n u2) as [[l u3]| |]; done.
Qed.

Lemma foldl_assign_increasing (d l : list (A * B)) :
  keys_increasing (d ++ l) -> foldl (fun d p => map_assign p.1 p.2 d) d l = d ++ l.
Proof.
  revert d. induction l as [|[a b] l IH]; intros d Hd; simpl; [by rewrite app_nil_r|].
  rewrite map_assign_last.
  - rewrite IH; [by rewrite <- app_assoc|]. by rewrite <- app_assoc.
  - clear IH. induction d as [|p d IHd]; [constructor|].
    apply StronglySorted_inv in Hd as [Hd Hp]. constructor; [|auto].
    rewrite Forall_forall in Hp. apply (Hp (a, b)). set_solver.
Qed.
End get_bindings.

#[export] Program Instance MarshalSpec_map `{Allocator} {A B} {MA : Marshal A} {MB : Marshal B}
    {KA : KeyOrder A} {SA : MarshalSpec A} {SB : MarshalSpec B} : MarshalSpec (ordmap A B) := {|
  enc d := be32 (Z.of_nat (length (bindings d))) ++ enc_elems (bindings d);
  valid d := (Forall valid (bindings d) /\ keys_increasing (bindings d)) /\
             Z.of_nat (length (bindings d)) < PDU_LIMIT |}.
Next Obligation.
  intros H A B MA MB KA SA SB m c [v] Hm [[Hv _] Hn] Hl.
  cbn [put Marshal_map bindings] in *.
  unfold put_map, PDU_LIMIT in *.
  cbn [bindings] in Hl. rewrite length_app in Hl. rewrite u32_small by lia.
  destruct (put_uint_rep m c (Z.of_nat (length v)) Hm) as (m1 & -> & H1); [len_lia|]. rsimpl.
  destruct (put_elems_ok m1 _ v H1 Hv) as (m2 & -> & H2); [len_lia|].
  exists m2. split; [done|]. by rewrite <- app_assoc in H2.
Qed.
Next Obligation.
  intros H A B MA MB KA SA SB old u [v] r Hu [[Hv Hs] Hn]. unfold PDU_LIMIT in Hn.
  cbn [bindings get Marshal_map] in *. unfold get_map. rewrite <- app_assoc in Hu.
  destruct (get_count_ok _ _ _ Hu ltac:(lia)) as (u1 & -> & H1). rsimpl.
  rewrite Nat2Z.id, get_bindings_elems.
  destruct (get_elems_ok _ _ _ H1 Hv) as (u2 & -> & H2). rsimpl.
  rewrite foldl_assign_increasing by done. eauto.
Qed.
Next Obligation.
  intros H A B MA MB KA SA SB old u [v] r Hu [[Hv Hs] Hn] Hr. unfold PDU_LIMIT in Hn.
  cbn [bindings get Marshal_map] in *. unfold get_map.
  destruct (get_count_truncated _ (Z.of_nat (length v)) _ _ Hu ltac:(lia) Hr)
    as (x & u1 & -> & [(r1 & H1)|(-> & r1 & H1 & Hr1)]); rsimpl; rewrite get_bindings_elems.
  - destruct (get_elems_failed (A:=A * B) (Z.to_nat x) _ _ H1) as (w & u2 & r2 & -> & H2).
    rsimpl. eauto.
  - rewrite Nat2Z.id.
    destruct (get_elems_truncated _ _ _ H1 Hv Hr1) as (w & u2 & r2 & -> & H2). rsimpl. eauto.
Qed.
Next Obligation.
  intros H A B MA MB KA SA SB old u r Hu. cbn [get Marshal_map]. unfold get_map.
  destruct (get_uint_rep _ _ _ Hu) as (u1 & -> & H1%u_nth_false). rsimpl.
  rewrite get_bindings_elems.
  destruct (get_elems_failed (A:=A * B) (Z.to_nat (be_val32 r)) _ _ H1) as (w & u2 & r2 & -> & H2).
  rsimpl. eauto.
Qed.

(** ** Headers *)

Section headers.
Context `{Allocator}.

Lemma pack_at m c x t1 t :
  m_at m c (t1 ++ t) -> length t1 = 4%nat -> Z.of_nat (length c + 4) < PDU_LIMIT ->
  exists m', pack m x = Ret m' /\ m_at m' (c ++ be32 x) t.
Proof.
  intros Hm Ht Hl. unfold PDU_LIMIT in *.
  destruct t1 as [|y1 [|y2 [|y3 [|y4 [|]]]]]; try discriminate Ht. simpl in Hm. unfold pack.
  destruct (m_rawbyte_at m c y1 _ (Z.land (Z.shiftr x 24) 255) Hm) as (m1 & -> & H1);
    [len_lia|]. rsimpl.
  destruct (m_rawbyte_at m1 _ y2 _ (Z.land (Z.shiftr x 16) 255) H1) as (m2 & -> & H2);
    [len_lia|]. rsimpl.
  destruct (m_rawbyte_at m2 _ y3 _ (Z.land (Z.shiftr x 8) 255) H2) as (m3 & -> & H3);
    [len_lia|]. rsimpl.
  destruct (m_rawbyte_at m3 _ y4 _ (Z.land x 255) H3) as (m4 & -> & H4); [len_lia|].
  exists m4. split; [done|]. rewrite !byte_of_Z_mask in H4. by rewrite <- !app_assoc in H4.
Qed.

(** Moving the cursor back inside what was written. *)
Lemma m_at_rewind m c1 c2 t :
  m_at m (c1 ++ c2) t -> m_at (set_m_ind m (Z.of_nat (length c1))) c1 (c2 ++ t).
Proof. unfold m_at. simpl. rewrite <- !app_assoc. intros (? & ? & ? & ?). done. Qed.

Lemma m_at_forward m c1 c2 t z c :
  m_at m c1 (c2 ++ t) -> c = c1 ++ c2 -> z = Z.of_nat (length c) -> m_at (set_m_ind m z) c t.
Proof. unfold m_at. simpl. intros (? & ? & ? & ?) -> ->. by rewrite <- !app_assoc. Qed.

(** A message: four bytes for the size, the header area, the payload. *)
Lemma pack_req_header_at m a hd p t h :
  m_at m (a ++ hd ++ p) t -> length a = 4%nat -> length hd = 20%nat ->
  Z.of_nat (24 + length p) < PDU_LIMIT ->
  exists m', pack_req_header m h = Ret m' /\
    m_at m' (a ++ (be32 (rq_xid h) ++ be32 (rq_proc h) ++ be32 (s32 (rq_clt_nonce h)) ++
                   be32 (s32 (rq_srv_nonce h)) ++ be32 (rq_xid_rep h)) ++ p) t.
Proof.
  intros Hm Ha Hh Hl. unfold pack_req_header.
  assert (m_ind m = Z.of_nat (24 + length p)) as Hind.
  { destruct Hm as (_ & _ & -> & _). rewrite !length_app. lia. }
  apply m_at_rewind in Hm. rewrite Ha in Hm. change (Z.of_nat 4) with sizeof_rpc_sz_t in Hm.
  do 20 (destruct hd as [|? hd]; [discriminate Hh|]). destruct hd; [|discriminate Hh].
  clear Hh. simpl in Hm.
  assert (forall m c x y1 y2 y3 y4 t, m_at m c (y1 :: y2 :: y3 :: y4 :: t) ->
            (length c <= 20)%nat -> exists m', pack m x = Ret m' /\ m_at m' (c ++ be32 x) t) as step.
  { intros m0 c0 x0 y1 y2 y3 y4 t0 H0 Hc.
    apply (pack_at m0 c0 x0 [y1; y2; y3; y4] t0 H0); [done|len_lia]. }
  edestruct (step _ _ (rq_xid h) _ _ _ _ _ Hm) as (m1 & -> & H1); [len_lia|]. rsimpl.
  edestruct (step _ _ (rq_proc h) _ _ _ _ _ H1) as (m2 & -> & H2); [len_lia|]. rsimpl.
  edestruct (step _ _ (s32 (rq_clt_nonce h)) _ _ _ _ _ H2) as (m3 & -> & H3); [len_lia|]. rsimpl.
  edestruct (step _ _ (s32 (rq_srv_nonce h)) _ _ _ _ _ H3) as (m4 & -> & H4); [len_lia|]. rsimpl.
  edestruct (step _ _ (rq_xid_rep h) _ _ _ _ _ H4) as (m5 & -> & H5); [len_lia|]. rsimpl.
  eexists; split; [done|]. eapply m_at_forward; [exact H5|by rewrite <- !app_assoc|].
  rewrite Hind. len_lia.
Qed.

Lemma pack_reply_header_at m a hd p t h :
  m_at m (a ++ hd ++ p) t -> length a = 4%nat -> length hd = 8%nat ->
  Z.of_nat (12 + length p) < PDU_LIMIT ->
  exists m', pack_reply_header m h = Ret m' /\
    m_at m' (a ++ (be32 (rp_xid h) ++ be32 (rp_ret h)) ++ p) t.
Proof.
  intros Hm Ha Hh Hl. unfold pack_reply_header.
  assert (m_ind m = Z.of_nat (12 + length p)) as Hind.
  { destruct Hm as (_ & _ & -> & _). rewrite !length_app. lia. }
  apply m_at_rewind in Hm. rewrite Ha in Hm. change (Z.of_nat 4) with sizeof_rpc_sz_t in Hm.
  do 8 (destruct hd as [|? hd]; [discriminate Hh|]). destruct hd; [|discriminate Hh].
  clear Hh. simpl in Hm.
  edestruct (pack_at _ _ (rp_xid h) [_; _; _; _] _ Hm) as (m1 & -> & H1); [done|len_lia|]. rsimpl.
  edestruct (pack_at _ _ (rp_ret h) [_; _; _; _] _ H1) as (m2 & -> & H2); [done|len_lia|]. rsimpl.
  eexists; split; [done|]. eapply m_at_forward; [exact H2|by rewrite <- !app_assoc|].
  rewrite Hind. len_lia.
Qed.

Lemma u_rawbyte_frame u x u' :
  u_rawbyte u = Ret (x, u') -> (u_sz u', u_buf u') = (u_sz u, u_buf u).
Proof.
  unfold u_rawbyte. destruct (_ <=? _); [by intros [= <- <-]|]. intros E. res_inv.
  destruct (x0 !! _); by simplify_eq.
Qed.

Lemma get_int_frame u x u' : get_int u = Ret (x, u') -> (u_sz u', u_buf u') = (u_sz u, u_buf u).
Proof.
  unfold get_int. intros E.
  repeat match goal with
  | E : mbind _ _ = Ret _ |- _ => apply res_bind_Ret_inv in E as ([? ?] & ?%u_rawbyte_frame & E)
  end. simplify_eq. congruence.
Qed.

Lemma get_int_sz u x u' : get_int u = Ret (x, u') -> u_sz u' = u_sz u.
Proof. intros E%get_int_frame. congruence. Qed.
Lemma get_int_buf u x u' : get_int u = Ret (x, u') -> u_buf u' = u_buf u.
Proof. intros E%get_int_frame. congruence. Qed.

Lemma unpack_rep u ok x r :
  u_rep u ok (be32 x ++ r) ->
  exists u', unpack u = Ret (s32 x, u') /\ u_rep u' ok r /\ u_sz u' = u_sz u.
Proof.
  intros Hu. destruct (get_int_rep _ _ _ Hu) as (u' & E & Hu'). exists u'.
  unfold unpack. split_and!; [by rewrite E, be_val32_enc, s32_u32| |by eapply get_int_sz].
  unfold u_nth in Hu'. by rewrite bool_decide_eq_true_2, andb_true_r in Hu' by len_lia.
Qed.

(** A received buffer: [sz] bytes of message, then unused allocation. *)
Lemma u_rep_at u a r t ok :
  u_buf u = Some (a ++ r ++ t) -> u_sz u = Z.of_nat (length a + length r) -> u_sz u < two31 ->
  u_ok u = ok -> u_rep (set_u_ind u (Z.of_nat (length a))) ok r.
Proof. intros. exists a, t. by simpl. Qed.

Lemma u_rep_after_header u ok p :
  u_rep u ok p -> u_sz u = Z.of_nat (24 + length p) -> u_rep (set_u_ind u RPC_HEADER_SZ) ok p.
Proof.
  intros (pre & t & Hb & Hi & Hs & Hlt & Hok) Hz. exists pre, t. simpl.
  split_and!; try done. change RPC_HEADER_SZ with 24. lia.
Qed.

Definition req_header_valid (h : req_header) : Prop :=
  - two31 <= rq_xid h < two31 /\ - two31 <= rq_proc h < two31 /\
  0 <= rq_clt_nonce h < two32 /\ 0 <= rq_srv_nonce h < two32 /\ - two31 <= rq_xid_rep h < two31.

Lemma unpack_req_header_rep u a p t h :
  u_buf u = Some (a ++ (be32 (rq_xid h) ++ be32 (rq_proc h) ++ be32 (s32 (rq_clt_nonce h)) ++
                   be32 (s32 (rq_srv_nonce h)) ++ be32 (rq_xid_rep h)) ++ p ++ t) ->
  length a = 4%nat -> u_sz u = Z.of_nat (24 + length p) -> u_sz u < two31 -> u_ok u = true ->
  req_header_valid h ->
  exists u', unpack_req_header u = Ret (h, u') /\ u_rep u' true p.
Proof.
  intros Hb Ha Hs Hlt Hok (? & ? & ? & ? & ?). unfold unpack_req_header.
  rewrite <- !app_assoc in Hb.
  assert (u_rep (set_u_ind u sizeof_rpc_sz_t) true (be32 (rq_xid h) ++ be32 (rq_proc h) ++
    be32 (s32 (rq_clt_nonce h)) ++ be32 (s32 (rq_srv_nonce h)) ++ be32 (rq_xid_rep h) ++ p)) as Hu.
  { change sizeof_rpc_sz_t with (Z.of_nat 4). rewrite <- Ha. apply u_rep_at with t; [| |done|done].
    - by rewrite <- !app_assoc.
    - len_lia. }
  destruct (unpack_rep _ _ _ _ Hu) as (u1 & -> & Hu1 & Hz1). rsimpl.
  destruct (unpack_rep _ _ _ _ Hu1) as (u2 & -> & Hu2 & Hz2). rsimpl.
  destruct (unpack_rep _ _ _ _ Hu2) as (u3 & -> & Hu3 & Hz3). rsimpl.
  destruct (unpack_rep _ _ _ _ Hu3) as (u4 & -> & Hu4 & Hz4). rsimpl.
  destruct (unpack_rep _ _ _ _ Hu4) as (u5 & -> & Hu5 & Hz5). rsimpl.
  eexists; split.
  - do 2 f_equal. destruct h; simpl in *.
    by rewrite !u32_s32, !s32_small, !u32_small by done.
  - apply (u_rep_after_header _ _ _ Hu5). cbn [u_sz set_u_ind] in Hz1. congruence.
Qed.

Lemma unpack_reply_header_rep u a p t h :
  u_buf u = Some (a ++ (be32 (rp_xid h) ++ be32 (rp_ret h)) ++ p ++ t) ->
  length a = 4%nat -> u_sz u = Z.of_nat (12 + length p) -> u_sz u < two31 -> u_ok u = true ->
  - two31 <= rp_xid h < two31 -> - two31 <= rp_ret h < two31 ->
  exists u', unpack_reply_header u = Ret (h, u') /\ u_sz u' = u_sz u /\ u_ok u' = true /\
    u_buf u' = u_buf u.
Proof.
  intros Hb Ha Hs Hlt Hok ? ?. unfold unpack_reply_header.
  rewrite <- !app_assoc in Hb.
  assert (u_rep (set_u_ind u sizeof_rpc_sz_t) true (be32 (rp_xid h) ++ be32 (rp_ret h) ++ p)) as Hu.
  { change sizeof_rpc_sz_t with (Z.of_nat 4). rewrite <- Ha. apply u_rep_at with t; [| |done|done].
    - by rewrite <- !app_assoc.
    - len_lia. }
  destruct (unpack_rep _ _ _ _ Hu) as (u1 & E1 & Hu1 & Hz1).
  destruct (unpack_rep _ _ _ _ Hu1) as (u2 & E2 & Hu2 & Hz2).
  rewrite E1. rsimpl. rewrite E2. rsimpl. eexists. split.
  - do 2 f_equal. destruct h; simpl in *. by rewrite !s32_small.
  - simpl. split_and!; [by rewrite Hz2, Hz1| |].
    + by destruct Hu2 as (? & ? & ? & ? & ? & ? & ?).
    + rewrite (get_int_buf _ _ _ E2), (get_int_buf _ _ _ E1). done.
Qed.
End headers.

(** A new [marshall]: the header is reserved, its bytes unspecified. *)
Lemma marshall_new_rep `{Allocator} : m_rep marshall_new (fresh 0 24).
Proof.
  exists (fresh 24 1000). unfold m_at, marshall_new. simpl m_buf.
  change (Z.to_nat DEFAULT_RPC_SZ) with 1024%nat. unfold fresh. rewrite <- fmap_app, <- seq_app.
  by rewrite length_fmap, length_seq.
Qed.
