(* ===== verification/MarshallThms.v ===== *)
(** * The guarantees of marshalling, for every type with a [MarshalSpec] *)

From S2P Require Import Prelude Marshall MarshallSpec.

Section theorems.
Context `{Allocator} {A : Type} {MA : Marshal A} {SA : MarshalSpec A}.

Lemma get_content_rep m pre c : m_rep m (pre ++ c) -> length pre = 24%nat -> get_content m = Ret c.
Proof.
  intros (t & Hb & _ & Hi & _) Hp. unfold get_content. rewrite Hb, Hi. cbn [deref]. rsimpl.
  rewrite defined_true.
  - rsimpl. rewrite Nat2Z.id, take_app_length. change (Z.to_nat RPC_HEADER_SZ) with 24%nat.
    rewrite <- Hp. by rewrite drop_app_length.
  - change RPC_HEADER_SZ with 24. rewrite andb_true_iff, !Z.leb_le, !length_app. lia.
Qed.

Lemma take_content_rep s : Z.of_nat (24 + length s) < PDU_LIMIT -> u_rep (take_content s) true s.
Proof.
  intros Hl. exists (fresh 0 24), []. unfold take_content. simpl.
  change RPC_HEADER_SZ with 24. unfold PDU_LIMIT in Hl.
  split_and!; [by rewrite app_nil_r|done|lia|lia|done].
Qed.

Lemma roundtrip_any (a old : A) :
  valid a -> Z.of_nat (24 + length (enc a)) < PDU_LIMIT ->
  exists m u, put marshall_new a = Ret m /\ get_content m = Ret (enc a) /\
    get old (take_content (enc a)) = Ret (a, u) /\ okdone u = true.
Proof.
  intros Hv Hl. destruct (put_ok marshall_new (fresh 0 24) a marshall_new_rep Hv Hl) as (m & Em & Hm).
  destruct (get_ok old (take_content (enc a)) a []) as (u & Eu & Hu); [|done|].
  { rewrite app_nil_r. by apply take_content_rep. }
  exists m, u. split_and!; [done|by apply (get_content_rep _ (fresh 0 24))|done|].
  destruct Hu as (pre & t & _ & Hi & Hs & _ & Hok). unfold okdone. rewrite Hok, Hi, Hs. simpl.
  apply Z.eqb_eq. lia.
Qed.


End theorems.

Module MarshallExample.
#[local] Instance zero_alloc : Allocator := fun _ => Ascii.zero.

(** A vector of (string, int) pairs: the nested shape of the protocols' messages. *)
Definition sample : vector (str * sint) := Vector [(S! "lock", SInt (-7)); (S! "", SInt 12)].

Lemma sample_valid : valid sample.
Proof.
  split; [|done]. apply Forall_forall. intros x Hx. simpl in Hx.
  apply elem_of_cons in Hx as [->|Hx]; [split; [done|split; done]|].
  apply list_elem_of_singleton in Hx as ->. split; [done|split; done].
Qed.



(** The length test of [unmarshall::rawbytes] is done in 32-bit unsigned
    arithmetic: a length close to 2^32 passes it and the copy reads outside the
    buffer. *)
Theorem rawbytes_wraps :
  get_string [] (take_content (be32 4294967290 ++ S! "abc")) = Undef.
Proof. vm_compute. reflexivity. Qed.
End MarshallExample.
