(* ===== verification/RpcStubs.v ===== *)
(** * RPC stubs: the templates of [rpc/rpc.h]

    [rpcc::call] marshals its arguments and unmarshals the reply; the handler
    object [rpcs::reg] builds around a method unmarshals the arguments, runs the
    method and marshals its result.  Both come in one copy per number of
    arguments.  [rpcc::call1] (the transport) is an argument of the client stubs:
    [RpcSystem] instantiates it. *)

From S2P Require Import Prelude Marshall.

(** ** class rpc_const *)
Module rpc_const.
Definition bind : Z := 1.
Definition timeout_failure : Z := -1.
Definition unmarshal_args_failure : Z := -2.
Definition unmarshal_reply_failure : Z := -3.
Definition atmostonce_failure : Z := -4.
Definition oldsrv_failure : Z := -5.
Definition bind_failure : Z := -6.
Definition cancel_failure : Z := -7.
End rpc_const.

(** [call1 s proc req u]: the state of the rest of the system, the procedure
    number, the request and the reply object to fill. *)
Definition transport (St : Type) : Type :=
  St -> Z -> marshall -> unmarshall -> res (St * Z * unmarshall).

(** ** The client stubs *)
Section client.
Context `{Allocator} {St R : Type} {MR : Marshal R}.
Context (call1 : transport St).

(** [rpcc::call_m]; [r] is what the caller's result variable holds before.
    The [return] after [VERIFY(0)] is never reached. *)
Definition call_m (s : St) (proc : Z) (req : marshall) (r : R) : res (St * Z * R) :=
  '(s, intret, u) ← call1 s proc req unmarshall_new;
  if intret <? 0 then Ret (s, intret, r)
  else
    '(r, u) ← get r u;
    _ ← VERIFY (okdone u);
    Ret (s, intret, r).

(** [rpcc::call], by number of arguments. *)
Definition call_0 (s : St) (proc : Z) (r : R) : res (St * Z * R) :=
  call_m s proc marshall_new r.

Context {A1 A2 A3 A4 A5 A6 A7 : Type} {M1 : Marshal A1} {M2 : Marshal A2} {M3 : Marshal A3}.
Context {M4 : Marshal A4} {M5 : Marshal A5} {M6 : Marshal A6} {M7 : Marshal A7}.

Definition call_1 (s : St) (proc : Z) (a1 : A1) (r : R) : res (St * Z * R) :=
  m ← put marshall_new a1;
  call_m s proc m r.

Definition call_2 (s : St) (proc : Z) (a1 : A1) (a2 : A2) (r : R) : res (St * Z * R) :=
  m ← put marshall_new a1;
  m ← put m a2;
  call_m s proc m r.

Definition call_3 (s : St) (proc : Z) (a1 : A1) (a2 : A2) (a3 : A3) (r : R)
  : res (St * Z * R) :=
  m ← put marshall_new a1;
  m ← put m a2;
  m ← put m a3;
  call_m s proc m r.

Definition call_4 (s : St) (proc : Z) (a1 : A1) (a2 : A2) (a3 : A3) (a4 : A4) (r : R)
  : res (St * Z * R) :=
  m ← put marshall_new a1;
  m ← put m a2;
  m ← put m a3;
  m ← put m a4;
  call_m s proc m r.

Definition call_5 (s : St) (proc : Z) (a1 : A1) (a2 : A2) (a3 : A3) (a4 : A4) (a5 : A5) (r : R)
  : res (St * Z * R) :=
  m ← put marshall_new a1;
  m ← put m a2;
  m ← put m a3;
  m ← put m a4;
  m ← put m a5;
  call_m s proc m r.

Definition call_6 (s : St) (proc : Z) (a1 : A1) (a2 : A2) (a3 : A3) (a4 : A4) (a5 : A5)
    (a6 : A6) (r : R) : res (St * Z * R) :=
  m ← put marshall_new a1;
  m ← put m a2;
  m ← put m a3;
  m ← put m a4;
  m ← put m a5;
  m ← put m a6;
  call_m s proc m r.

Definition call_7 (s : St) (proc : Z) (a1 : A1) (a2 : A2) (a3 : A3) (a4 : A4) (a5 : A5)
    (a6 : A6) (a7 : A7) (r : R) : res (St * Z * R) :=
  m ← put marshall_new a1;
  m ← put m a2;
  m ← put m a3;
  m ← put m a4;
  m ← put m a5;
  m ← put m a6;
  m ← put m a7;
  call_m s proc m r.

End client.

(** ** The server stubs

    [handler::fn(args, ret)]: the return code and the marshalled result.  A
    method is a function of the server object's state; [r0] is what its
    uninitialised result variable holds on entry. *)
Definition handler (St : Type) : Type :=
  St -> unmarshall -> marshall -> res (St * Z * marshall).

Section server.
Context `{Allocator} {St R : Type} {MR : Marshal R} (r0 : R).
Context {A1 A2 A3 A4 A5 A6 A7 : Type} {M1 : Marshal A1} {M2 : Marshal A2} {M3 : Marshal A3}.
Context {M4 : Marshal A4} {M5 : Marshal A5} {M6 : Marshal A6} {M7 : Marshal A7}.

Definition fn_1 (meth : St -> A1 -> R -> res (St * Z * R)) : handler St := fun s args ret =>
  '(a1, args) ← get dflt args;
  if negb (okdone args) then Ret (s, rpc_const.unmarshal_args_failure, ret)
  else
    '(s, b, r) ← meth s a1 r0;
    ret ← put ret r;
    Ret (s, b, ret).

Definition fn_2 (meth : St -> A1 -> A2 -> R -> res (St * Z * R)) : handler St :=
  fun s args ret =>
  '(a1, args) ← get dflt args;
  '(a2, args) ← get dflt args;
  if negb (okdone args) then Ret (s, rpc_const.unmarshal_args_failure, ret)
  else
    '(s, b, r) ← meth s a1 a2 r0;
    ret ← put ret r;
    Ret (s, b, ret).

Definition fn_3 (meth : St -> A1 -> A2 -> A3 -> R -> res (St * Z * R)) : handler St :=
  fun s args ret =>
  '(a1, args) ← get dflt args;
  '(a2, args) ← get dflt args;
  '(a3, args) ← get dflt args;
  if negb (okdone args) then Ret (s, rpc_const.unmarshal_args_failure, ret)
  else
    '(s, b, r) ← meth s a1 a2 a3 r0;
    ret ← put ret r;
    Ret (s, b, ret).

Definition fn_4 (meth : St -> A1 -> A2 -> A3 -> A4 -> R -> res (St * Z * R)) : handler St :=
  fun s args ret =>
  '(a1, args) ← get dflt args;
  '(a2, args) ← get dflt args;
  '(a3, args) ← get dflt args;
  '(a4, args) ← get dflt args;
  if negb (okdone args) then Ret (s, rpc_const.unmarshal_args_failure, ret)
  else
    '(s, b, r) ← meth s a1 a2 a3 a4 r0;
    ret ← put ret r;
    Ret (s, b, ret).

Definition fn_5 (meth : St -> A1 -> A2 -> A3 -> A4 -> A5 -> R -> res (St * Z * R))
  : handler St := fun s args ret =>
  '(a1, args) ← get dflt args;
  '(a2, args) ← get dflt args;
  '(a3, args) ← get dflt args;
  '(a4, args) ← get dflt args;
  '(a5, args) ← get dflt args;
  if negb (okdone args) then Ret (s, rpc_const.unmarshal_args_failure, ret)
  else
    '(s, b, r) ← meth s a1 a2 a3 a4 a5 r0;
    ret ← put ret r;
    Ret (s, b, ret).

Definition fn_6 (meth : St -> A1 -> A2 -> A3 -> A4 -> A5 -> A6 -> R -> res (St * Z * R))
  : handler St := fun s args ret =>
  '(a1, args) ← get dflt args;
  '(a2, args) ← get dflt args;
  '(a3, args) ← get dflt args;
  '(a4, args) ← get dflt args;
  '(a5, args) ← get dflt args;
  '(a6, args) ← get dflt args;
  if negb (okdone args) then Ret (s, rpc_const.unmarshal_args_failure, ret)
  else
    '(s, b, r) ← meth s a1 a2 a3 a4 a5 a6 r0;
    ret ← put ret r;
    Ret (s, b, ret).

Definition fn_7 (meth : St -> A1 -> A2 -> A3 -> A4 -> A5 -> A6 -> A7 -> R -> res (St * Z * R))
  : handler St := fun s args ret =>
  '(a1, args) ← get dflt args;
  '(a2, args) ← get dflt args;
  '(a3, args) ← get dflt args;
  '(a4, args) ← get dflt args;
  '(a5, args) ← get dflt args;
  '(a6, args) ← get dflt args;
  '(a7, args) ← get dflt args;
  if negb (okdone args) then Ret (s, rpc_const.unmarshal_args_failure, ret)
  else
    '(s, b, r) ← meth s a1 a2 a3 a4 a5 a6 a7 r0;
    ret ← put ret r;
    Ret (s, b, ret).

End server.
