(* ===== verification/RpcServer.v ===== *)
(** * The RPC server: class [rpcs] of [rpc/rpc.h] and [rpc/rpc.cc]

    At-most-once execution: for each client the server remembers the requests it
    has seen and their replies ([reply_window_]), trimmed by the acknowledgements
    the client sends.  Reply buffers live on a heap, so that [free] and the
    pointer [checkduplicate_and_update] hands out can be related.  [dispatch] is
    split where the handler runs, outside every mutex of the server. *)

From S2P Require Import Prelude Marshall RpcStubs.

(** ** Buffers on the heap *)

(** A [char] pointer: [None] is [NULL]. *)
Definition ptr : Type := option positive.

Record heap := Heap { blocks : gmap positive str; next_block : positive }.

Definition heap_new (h : heap) (b : str) : ptr * heap :=
  (Some (next_block h), Heap (<[next_block h := b]> (blocks h)) (Pos.succ (next_block h))).

(** [free]: nothing for [NULL], undefined for a pointer that is not allocated. *)
Definition free (p : ptr) (h : heap) : res heap :=
  match p with
  | None => Ret h
  | Some a =>
      match blocks h !! a with
      | Some _ => Ret (Heap (delete a (blocks h)) (next_block h))
      | None => Undef
      end
  end.

(** Reading [sz] bytes through a pointer. *)
Definition load (p : ptr) (sz : Z) (h : heap) : res str :=
  match p with
  | None => Undef
  | Some a =>
      match blocks h !! a with
      | Some b => _ ← defined ((0 <=? sz) && (sz <=? Z.of_nat (length b)));
                  Ret (take (Z.to_nat sz) b)
      | None => Undef
      end
  end.

(** ** The reply window *)

Inductive rpcstate_t := NEW | INPROGRESS | DONE | FORGOTTEN.

#[export] Instance rpcstate_eq_dec : EqDecision rpcstate_t.
Proof. solve_decision. Defined.

Record reply_t := Reply_t { r_xid : Z; cb_present : bool; r_buf : ptr; r_sz : Z }.

Definition reply_new (xid : Z) : reply_t := Reply_t xid false None 0.

Definition sliding_window_size : Z := 100.

(** What the scan of [checkduplicate_and_update] has gathered. *)
Record scan_t := Scan {
  xid_found : bool; xid_found_cb_present : bool; sc_b : ptr; sc_sz : Z; min_xid : Z }.

(** The [while] loop: [kept] are the entries passed over, [rest] those ahead; the
    current size of the list is the length of both. *)
Fixpoint scan_window (xid xid_rep : Z) (kept rest : list reply_t) (sc : scan_t) (h : heap)
  : res (list reply_t * scan_t * heap) :=
  match rest with
  | [] => Ret (kept, sc, h)
  | r :: rest' =>
      let size := Z.of_nat (length kept + length rest) in
      let sc := if r_xid r =? xid
                then Scan true (cb_present r) (r_buf r) (r_sz r) (min_xid sc) else sc in
      let sc := if r_xid r <? min_xid sc
                then Scan (xid_found sc) (xid_found_cb_present sc) (sc_b sc) (sc_sz sc) (r_xid r)
                else sc in
      if (sliding_window_size <=? size) && (r_xid r <=? xid_rep) then
        h ← free (r_buf r) h;
        scan_window xid xid_rep kept rest' sc h
      else scan_window xid xid_rep (kept ++ [r]) rest' sc h
  end.

(** The insertion loop of a new request: before the first larger [xid]. *)
Fixpoint insert_reply (xid : Z) (w : list reply_t) : list reply_t :=
  match w with
  | [] => [reply_new xid]
  | r :: w' => if xid <? r_xid r then reply_new xid :: w else r :: insert_reply xid w'
  end.

(** [checkduplicate_and_update] on the window [w] of one client; [b], [sz] are
    the caller's variables. *)
Definition check_window (w : list reply_t) (xid xid_rep : Z) (b : ptr) (sz : Z) (h : heap)
  : res (list reply_t * rpcstate_t * ptr * Z * heap) :=
  '(w, status, b, sz, h) ←
    match w with
    | [] => Ret (w, NEW, b, sz, h)
    | r :: _ =>
        '(w, sc, h) ← scan_window xid xid_rep [] w (Scan false false b sz (r_xid r)) h;
        let status :=
          if negb (xid_found sc) then
            if xid <? min_xid sc then FORGOTTEN else NEW
          else if negb (xid_found_cb_present sc) then INPROGRESS else DONE in
        Ret (w, status, sc_b sc, sc_sz sc, h)
    end;
  if bool_decide (status = NEW) then Ret (insert_reply xid w, status, b, sz, h)
  else Ret (w, status, b, sz, h).

(** [add_reply] on the window of one client. *)
Definition add_window (w : list reply_t) (xid : Z) (b : ptr) (sz : Z) : list reply_t :=
  (fun r => if r_xid r =? xid then Reply_t (r_xid r) true b sz else r) <$> w.

(** The windows of all clients; [operator[]] creates an empty one. *)
Definition window_of (ws : gmap Z (list reply_t)) (clt : Z) : list reply_t := default [] (ws !! clt).

Definition checkduplicate_and_update (ws : gmap Z (list reply_t)) (clt_nonce xid xid_rep : Z)
    (b : ptr) (sz : Z) (h : heap) : res (gmap Z (list reply_t) * rpcstate_t * ptr * Z * heap) :=
  '(w, status, b, sz, h) ← check_window (window_of ws clt_nonce) xid xid_rep b sz h;
  Ret (<[clt_nonce := w]> ws, status, b, sz, h).

Definition add_reply (ws : gmap Z (list reply_t)) (clt_nonce xid : Z) (b : ptr) (sz : Z)
  : gmap Z (list reply_t) :=
  <[clt_nonce := add_window (window_of ws clt_nonce) xid b sz]> ws.

Fixpoint free_all (l : list ptr) (h : heap) : res heap :=
  match l with
  | [] => Ret h
  | p :: l => h ← free p h; free_all l h
  end.

(** [free_reply_window]. *)
Definition free_reply_window (ws : gmap Z (list reply_t)) (h : heap)
  : res (gmap Z (list reply_t) * heap) :=
  h ← free_all (r_buf <$> concat (map_to_list ws).*2) h;
  Ret (∅, h).

(** ** The server *)

(** A connection is known by its number; its creation time orders the
    connections of one client ([connection::compare]). *)
Definition conn : Type := Z.

Section server.
Context `{Allocator} {St : Type}.
Context (create_time : conn -> Z * Z) (isdead : conn -> bool).

Record rpcs := Rpcs {
  nonce_ : Z;
  reply_window_ : gmap Z (list reply_t);
  s_heap : heap;
  conns_ : gmap Z conn;
  refno_ : gmap conn Z;                 (* connection reference counts *)
  counting_ : Z;
  curr_counts_ : Z;
  counts_ : gmap Z Z;
  procs_ : gmap Z (handler St);
  s_reachable : bool;
  sent : list (conn * str) }.           (* what [connection::send] was given *)

Definition set_window (s : rpcs) ws h : rpcs :=
  Rpcs (nonce_ s) ws h (conns_ s) (refno_ s) (counting_ s) (curr_counts_ s) (counts_ s)
    (procs_ s) (s_reachable s) (sent s).
Definition set_conns (s : rpcs) cs : rpcs :=
  Rpcs (nonce_ s) (reply_window_ s) (s_heap s) cs (refno_ s) (counting_ s) (curr_counts_ s)
    (counts_ s) (procs_ s) (s_reachable s) (sent s).
Definition set_refno (s : rpcs) rs : rpcs :=
  Rpcs (nonce_ s) (reply_window_ s) (s_heap s) (conns_ s) rs (counting_ s) (curr_counts_ s)
    (counts_ s) (procs_ s) (s_reachable s) (sent s).
Definition set_counts (s : rpcs) cur cs : rpcs :=
  Rpcs (nonce_ s) (reply_window_ s) (s_heap s) (conns_ s) (refno_ s) (counting_ s) cur cs
    (procs_ s) (s_reachable s) (sent s).
Definition set_procs (s : rpcs) ps : rpcs :=
  Rpcs (nonce_ s) (reply_window_ s) (s_heap s) (conns_ s) (refno_ s) (counting_ s)
    (curr_counts_ s) (counts_ s) ps (s_reachable s) (sent s).
Definition set_sent (s : rpcs) l : rpcs :=
  Rpcs (nonce_ s) (reply_window_ s) (s_heap s) (conns_ s) (refno_ s) (counting_ s)
    (curr_counts_ s) (counts_ s) (procs_ s) (s_reachable s) l.

Definition ref (s : rpcs) (c : conn) : Z := default 0 (refno_ s !! c).
Definition incref (s : rpcs) (c : conn) : rpcs := set_refno s (<[c := ref s c + 1]> (refno_ s)).
(** [connection::decref]: [VERIFY(refno_ >= 0)]. *)
Definition decref (s : rpcs) (c : conn) : res rpcs :=
  _ ← VERIFY (0 <=? ref s c - 1);
  Ret (set_refno s (<[c := ref s c - 1]> (refno_ s))).
Definition send (s : rpcs) (c : conn) (b : str) : rpcs := set_sent s (sent s ++ [(c, b)]).

(** [connection::compare]. *)
Definition compare (c another : conn) : Z :=
  let '(sec, usec) := create_time c in
  let '(sec', usec') := create_time another in
  if sec' <? sec then 1 else if sec <? sec' then -1
  else if usec' <? usec then 1 else if usec <? usec' then -1 else 0.

(** [rpcs::reg1]. *)
Definition reg1 (s : rpcs) (proc : Z) (f : handler St) : res rpcs :=
  _ ← VERIFY (bool_decide (procs_ s !! proc = None));
  Ret (set_procs s (<[proc := f]> (procs_ s))).

(** [rpcs::updatestat], without its output. *)
Definition updatestat (s : rpcs) (proc : Z) : rpcs :=
  let cs := <[proc := default 0 (counts_ s !! proc) + 1]> (counts_ s) in
  let cur := curr_counts_ s - 1 in
  set_counts s (if cur =? 0 then counting_ s else cur) cs.

(** [m.cstr()], [m.size()]: the bytes handed to [send]. *)
Definition message (m : marshall) : res str :=
  b ← deref (m_buf m);
  _ ← defined ((0 <=? m_ind m) && (m_ind m <=? Z.of_nat (length b)));
  Ret (take (Z.to_nat (m_ind m)) b).

(** What is left to do after the bookkeeping of a request: nothing, or run [f]
    on the arguments and then [dispatch_finish]. *)
Inductive job := Finished | Run (f : handler St) (h : req_header) (args : unmarshall).

(** "save the latest good connection to the client". *)
Definition save_conn (s : rpcs) (clt : Z) (c : conn) : res rpcs :=
  match conns_ s !! clt with
  | None => let s := incref s c in Ret (set_conns s (<[clt := c]> (conns_ s)))
  | Some c0 =>
      if compare c0 c <? 0 then
        s ← decref s c0;
        let s := incref s c in
        Ret (set_conns s (<[clt := c]> (conns_ s)))
      else Ret s
  end.

(** [rpcs::dispatch] up to [f->fn(req, rep)]. *)
Definition dispatch_begin (s : rpcs) (c : conn) (req : unmarshall) : res (rpcs * job) :=
  '(h, req) ← unpack_req_header req;
  let proc := rq_proc h in
  if negb (u_ok req) then s ← decref s c; Ret (s, Finished)
  else if negb (rq_srv_nonce h =? 0) && negb (rq_srv_nonce h =? nonce_ s) then
    rep ← pack_reply_header marshall_new (ReplyHeader (rq_xid h) rpc_const.oldsrv_failure);
    b ← message rep;
    Ret (send s c b, Finished)
  else
    match procs_ s !! proc with
    | None => _ ← decref s c; Abort
    | Some f =>
        '(s, stat, b1, sz1) ←
          (if negb (rq_clt_nonce h =? 0) then
             let s := match reply_window_ s !! rq_clt_nonce h with
                      | None => set_window s (<[rq_clt_nonce h := []]> (reply_window_ s)) (s_heap s)
                      | Some _ => s
                      end in
             s ← save_conn s (rq_clt_nonce h) c;
             '(ws, stat, b1, sz1, hp) ←
               checkduplicate_and_update (reply_window_ s) (rq_clt_nonce h) (u32 (rq_xid h))
                 (u32 (rq_xid_rep h)) None 0 (s_heap s);
             Ret (set_window s ws hp, stat, b1, sz1)
           else Ret (s, NEW, None, 0));
        match stat with
        | NEW =>
            let s := if negb (counting_ s =? 0) then updatestat s proc else s in
            Ret (s, Run f h req)
        | INPROGRESS => s ← decref s c; Ret (s, Finished)
        | DONE =>
            b ← load b1 sz1 (s_heap s);
            s ← decref (send s c b) c;
            Ret (s, Finished)
        | FORGOTTEN =>
            rep ← pack_reply_header marshall_new
                    (ReplyHeader (rq_xid h) rpc_const.atmostonce_failure);
            b ← message rep;
            s ← decref (send s c b) c;
            Ret (s, Finished)
        end
    end.

(** [rpcs::dispatch] after the handler returned [ret] and marshalled into [rep]. *)
Definition dispatch_finish (s : rpcs) (c : conn) (h : req_header) (ret : Z) (rep : marshall)
  : res rpcs :=
  _ ← VERIFY (negb (ret =? rpc_const.unmarshal_args_failure));
  _ ← VERIFY (0 <=? ret);
  rep ← pack_reply_header rep (ReplyHeader (rq_xid h) ret);
  let '(buf, sz1, _) := m_take_buf rep in
  bytes ← deref buf;
  let '(b1, hp) := heap_new (s_heap s) bytes in
  let s := set_window s
             (if 0 <? rq_clt_nonce h
              then add_reply (reply_window_ s) (rq_clt_nonce h) (u32 (rq_xid h)) b1 sz1
              else reply_window_ s) hp in
  '(s, c) ←
    (if isdead c && negb (bool_decide (conns_ s !! rq_clt_nonce h = Some c)) then
       s ← decref s c;
       match conns_ s !! rq_clt_nonce h with
       | None => Undef
       | Some c' => Ret (incref s c', c')
       end
     else Ret (s, c));
  b ← load b1 sz1 (s_heap s);
  let s := send s c b in
  s ← (if rq_clt_nonce h =? 0 then
         hp ← free b1 (s_heap s); Ret (set_window s (reply_window_ s) hp)
       else Ret s);
  decref s c.

(** [rpcs::dispatch], run without interruption on the server object [o]. *)
Definition dispatch (s : rpcs) (o : St) (c : conn) (req : unmarshall) : res (rpcs * St) :=
  '(s, j) ← dispatch_begin s c req;
  match j with
  | Finished => Ret (s, o)
  | Run f h args =>
      '(o, ret, rep) ← f o args marshall_new;
      s ← dispatch_finish s c h ret rep;
      Ret (s, o)
  end.

(** [rpcs::set_reachable], and the destructor once the listener and the pool have
    stopped. *)
Definition set_reachable (s : rpcs) (r : bool) : rpcs :=
  Rpcs (nonce_ s) (reply_window_ s) (s_heap s) (conns_ s) (refno_ s) (counting_ s) (curr_counts_ s)
    (counts_ s) (procs_ s) r (sent s).
Definition rpcs_destroy (s : rpcs) : res rpcs :=
  '(ws, h) ← free_reply_window (reply_window_ s) (s_heap s);
  Ret (set_window s ws h).

(** [rpcs::got_pdu]; [enqueued] is what [addObjJob] answers.  The job holds a
    reference to the connection. *)
Definition server_got_pdu (s : rpcs) (c : conn) (enqueued : bool) : res (rpcs * bool) :=
  if negb (s_reachable s) then Ret (s, true)
  else
    let s := incref s c in
    s ← (if negb enqueued || negb (s_reachable s) then decref s c else Ret s);
    Ret (s, enqueued).

(** [rpcs::rpcbind], the handler of [rpc_const::bind]. *)
Definition rpcbind (s : rpcs) (a r : Z) : Z * Z := (0, s32 (nonce_ s)).

(** As a registered method, [this] being the server. *)
Definition rpcbind_meth (s : rpcs) (o : St) (a r : sint) : res (St * Z * sint) :=
  let '(ret, r) := rpcbind s (sint_val a) (sint_val r) in Ret (o, ret, SInt r).

(** The constructor of [rpcs]: [nonce] is what [random()] returned.  The server
    starts empty, with [rpcbind] registered. *)
Definition rpcs_new (nonce count : Z) : res rpcs :=
  let s := Rpcs nonce ∅ (Heap ∅ 1%positive) ∅ ∅ count count ∅ ∅ true [] in
  reg1 s rpc_const.bind (fn_1 (SInt 0) (rpcbind_meth s)).

End server.
