(* ===== verification/RpcServerSpec.v ===== *)
(** * At-most-once execution

    Lemmas on the reply window of one client, the invariant that ties it to the
    set of requests already executed, and the state machine of the whole server:
    requests and duplicates arrive in any order, handlers run concurrently. *)

From S2P Require Import Prelude Marshall MarshallSpec RpcStubs RpcServer.

(** ** The scan *)

Definition xids (w : list reply_t) : list Z := r_xid <$> w.

(** A window is kept in strictly increasing order of [xid]. *)
Definition win_sorted (w : list reply_t) : Prop :=
  StronglySorted (fun r r' => r_xid r < r_xid r') w.

(** One iteration's effect on the scan variables. *)
Definition scan_upd (xid : Z) (sc : scan_t) (r : reply_t) : scan_t :=
  let sc := if r_xid r =? xid
            then Scan true (cb_present r) (r_buf r) (r_sz r) (min_xid sc) else sc in
  if r_xid r <? min_xid sc
  then Scan (xid_found sc) (xid_found_cb_present sc) (sc_b sc) (sc_sz sc) (r_xid r) else sc.

Lemma scan_window_keep xid xr kept rest sc h :
  Z.of_nat (length kept + length rest) < sliding_window_size \/ Forall (fun r => xr < r_xid r) rest ->
  scan_window xid xr kept rest sc h = Ret (kept ++ rest, foldl (scan_upd xid) sc rest, h).
Proof.
  revert kept sc. induction rest as [|r rest IH]; intros kept sc Hc; cbn [scan_window foldl].
  - by rewrite app_nil_r.
  - rewrite Forall_cons in Hc. simpl in Hc. rewrite (proj2 (andb_false_iff _ _)).
    + rewrite IH; [by rewrite <- app_assoc|]. rewrite length_app. simpl. destruct Hc; [left; lia|tauto].
    + rewrite Z.leb_gt, Z.leb_gt. simpl. tauto.
Qed.

(** The scan removes a prefix, of acknowledged requests only, frees its buffers,
    and never empties the window. *)
Lemma scan_window_drop xid xr rest sc h :
  win_sorted rest ->
  exists k, scan_window xid xr [] rest sc h =
      (h' ← free_all (r_buf <$> take k rest) h;
       Ret (drop k rest, foldl (scan_upd xid) sc rest, h')) /\
    Forall (fun r => r_xid r <= xr) (take k rest) /\
    ((0 < k)%nat -> sliding_window_size - 1 <= Z.of_nat (length (drop k rest))).
Proof.
  intros Hs. revert sc h. induction Hs as [|r rest Hs IH Hr]; intros sc h.
  { exists 0%nat. split_and!; [done|constructor|lia]. }
  cbn [scan_window foldl]. destruct (_ && _) eqn:Ec; bool_prop.
  - destruct (free (r_buf r) h) as [h1| |] eqn:Ef.
    + destruct (IH (scan_upd xid sc r) h1) as (k & Ek & Hk & Hlen). exists (S k). simpl.
      rewrite Ef. rsimpl. split_and!; [exact Ek|by constructor|]. intros _.
      destruct k as [|k]; [|apply Hlen; lia]. rewrite drop_0. simpl in *. lia.
    + exists 1%nat. simpl. rewrite Ef. split_and!; [done|by repeat constructor|].
      intros _. rewrite drop_0. simpl in *. lia.
    + exists 1%nat. simpl. rewrite Ef. split_and!; [done|by repeat constructor|].
      intros _. rewrite drop_0. simpl in *. lia.
  - exists 0%nat. rewrite drop_0. split_and!; [|constructor|lia]. simpl.
    rewrite scan_window_keep; [done|]. simpl in *.
    apply andb_false_iff in Ec as [?|?]; bool_prop; [left; lia|right].
    eapply Forall_impl; [exact Hr|]. simpl. lia.
Qed.

(** ** What the scan finds *)

Lemma scan_found_foldl xid sc w :
  xid_found (foldl (scan_upd xid) sc w) = xid_found sc || bool_decide (xid ∈ xids w).
Proof.
  revert sc. induction w as [|r w IH]; intros sc; cbn [foldl].
  { rewrite (bool_decide_eq_false_2 (xid ∈ xids [])) by set_solver. by rewrite orb_false_r. }
  rewrite IH. unfold scan_upd.
  assert (bool_decide (xid ∈ xids (r :: w)) = (r_xid r =? xid) || bool_decide (xid ∈ xids w)) as ->.
  { apply eq_bool_prop_intro. rewrite orb_True, !bool_decide_spec, Is_true_true, Z.eqb_eq.
    unfold xids. rewrite fmap_cons, elem_of_cons. intuition congruence. }
  destruct (r_xid r =? xid); simpl; destruct (_ <? _); simpl; by rewrite ?orb_true_r.
Qed.

Lemma scan_min_foldl xid sc w :
  min_xid (foldl (scan_upd xid) sc w) = foldl Z.min (min_xid sc) (xids w).
Proof.
  revert sc. induction w as [|r w IH]; intros sc; simpl; [done|]. rewrite IH. f_equal.
  unfold scan_upd. destruct (r_xid r =? xid); simpl; destruct (Z.ltb_spec (r_xid r) (min_xid sc));
    simpl; lia.
Qed.

Lemma foldl_min_spec l m x : x < foldl Z.min m l <-> x < m /\ Forall (fun y => x < y) l.
Proof.
  revert m. induction l as [|y l IH]; intros m; simpl; [rewrite Forall_nil; tauto|].
  rewrite IH, Forall_cons, Z.min_glb_lt_iff. tauto.
Qed.

(** In a sorted window the found entry is the only one with that [xid]. *)
Lemma scan_entry_foldl sc w r :
  win_sorted w -> r ∈ w ->
  let sc' := foldl (scan_upd (r_xid r)) sc w in
  xid_found_cb_present sc' = cb_present r /\ sc_b sc' = r_buf r /\ sc_sz sc' = r_sz r.
Proof.
  intros Hs Hr sc'. subst sc'. revert sc.
  assert (forall w sc, Forall (fun r' => r_xid r < r_xid r') w ->
    let sc' := foldl (scan_upd (r_xid r)) sc w in
    xid_found_cb_present sc' = xid_found_cb_present sc /\ sc_b sc' = sc_b sc /\
    sc_sz sc' = sc_sz sc) as Hrest.
  { clear. induction w as [|r' w IH]; intros sc Hf; simpl in *; [done|].
    apply Forall_cons in Hf as [Hlt Hf]. destruct (IH (scan_upd (r_xid r) sc r') Hf) as (-> & -> & ->).
    unfold scan_upd. rewrite (proj2 (Z.eqb_neq _ _)) by lia. by destruct (_ <? _). }
  induction Hs as [|r' w Hs IH Hf]; intros sc; [set_solver|]. simpl.
  apply elem_of_cons in Hr as [->|Hr]; [|by apply IH].
  destruct (Hrest w (scan_upd (r_xid r') sc r') Hf) as (-> & -> & ->).
  unfold scan_upd. rewrite Z.eqb_refl. simpl. by destruct (_ <? _).
Qed.

(** What [checkduplicate_and_update] promises about a request, in terms of the
    window alone. *)
Inductive verdict (w : list reply_t) (xid : Z) : rpcstate_t -> ptr -> Z -> Prop :=
  | v_new b sz : xid ∉ xids w -> w = [] \/ (exists r, r ∈ w /\ r_xid r <= xid) -> verdict w xid NEW b sz
  | v_forgotten b sz : w <> [] -> Forall (fun r => xid < r_xid r) w -> verdict w xid FORGOTTEN b sz
  | v_inprogress r b sz : r ∈ w -> r_xid r = xid -> cb_present r = false -> verdict w xid INPROGRESS b sz
  | v_done r : r ∈ w -> r_xid r = xid -> cb_present r = true ->
      verdict w xid DONE (r_buf r) (r_sz r).

Lemma scan_verdict w xid r0 b sz :
  win_sorted w -> head w = Some r0 ->
  let sc := foldl (scan_upd xid) (Scan false false b sz (r_xid r0)) w in
  verdict w xid
    (if negb (xid_found sc) then if xid <? min_xid sc then FORGOTTEN else NEW
     else if negb (xid_found_cb_present sc) then INPROGRESS else DONE) (sc_b sc) (sc_sz sc).
Proof.
  intros Hs H0 sc. destruct w as [|r0' w0]; [done|]. injection H0 as ->.
  pose proof (scan_found_foldl xid (Scan false false b sz (r_xid r0)) (r0 :: w0)) as Hf.
  pose proof (scan_min_foldl xid (Scan false false b sz (r_xid r0)) (r0 :: w0)) as Hm.
  fold sc in Hf, Hm. cbn [xid_found min_xid orb] in Hf, Hm. rewrite Hf, Hm.
  destruct (bool_decide (xid ∈ xids (r0 :: w0))) eqn:Ein; bool_prop; cbn [negb].
  - unfold xids in Ein. apply list_elem_of_fmap in Ein as (r & -> & Hr).
    destruct (scan_entry_foldl (Scan false false b sz (r_xid r0)) _ r Hs Hr) as (Hc & Hb & Hz).
    fold sc in Hc, Hb, Hz. rewrite Hc, Hb, Hz. destruct (cb_present r) eqn:Er.
    + by apply v_done.
    + by eapply v_inprogress.
  - destruct (_ <? _) eqn:El; bool_prop.
    + apply foldl_min_spec in El as [_ El]. apply v_forgotten; [done|].
      unfold xids in El. by rewrite Forall_fmap in El.
    + apply v_new; [done|right].
      destruct (decide (Forall (fun r => xid < r_xid r) (r0 :: w0))) as [Hall|Hex].
      * exfalso. assert (xid < foldl Z.min (r_xid r0) (xids (r0 :: w0))); [|lia].
        apply foldl_min_spec. rewrite Forall_cons in Hall. split; [tauto|].
        unfold xids. rewrite Forall_fmap. by apply Forall_cons.
      * apply not_Forall_Exists in Hex; [|apply _]. apply Exists_exists in Hex as (r & Hr & Hx).
        exists r. split; [done|]. simpl in Hx. lia.
Qed.

(** What the window becomes. *)
Definition window_after (xid : Z) (st : rpcstate_t) (w : list reply_t) : list reply_t :=
  match st with NEW => insert_reply xid w | _ => w end.

Lemma check_window_spec w xid xr b sz h :
  win_sorted w ->
  exists k st b' sz',
    check_window w xid xr b sz h =
      (h' ← free_all (r_buf <$> take k w) h; Ret (window_after xid st (drop k w), st, b', sz', h')) /\
    verdict w xid st b' sz' /\
    Forall (fun r => r_xid r <= xr) (take k w) /\ (w <> [] -> drop k w <> []).
Proof.
  intros Hs. destruct w as [|r0 w].
  { exists 0%nat, NEW, b, sz. split_and!; [done| |constructor|done]. apply v_new; [set_solver|by left]. }
  destruct (scan_window_drop xid xr (r0 :: w) (Scan false false b sz (r_xid r0)) h Hs)
    as (k & Ek & Hk & Hlen).
  pose proof (scan_verdict (r0 :: w) xid r0 b sz Hs eq_refl) as Hv. cbv zeta in Hv.
  eexists k, _, _, _. split_and!; [|exact Hv|done|].
  - unfold check_window. rewrite Ek. destruct (free_all _ h) as [h'| |]; rsimpl; [|done|done].
    unfold window_after. by destruct (if negb _ then _ else _).
  - intros _ E. destruct k; [by rewrite drop_0 in E|]. rewrite E in Hlen.
    specialize (Hlen ltac:(lia)). by unfold sliding_window_size in Hlen.
Qed.

(** ** The window invariant *)

Lemma insert_reply_elem xid w r : r ∈ insert_reply xid w <-> r = reply_new xid \/ r ∈ w.
Proof.
  induction w as [|r' w IH]; simpl; [set_solver|].
  destruct (_ <? _); [set_solver|]. rewrite !elem_of_cons, IH. tauto.
Qed.

Lemma insert_reply_sorted xid w :
  win_sorted w -> xid ∉ xids w -> win_sorted (insert_reply xid w).
Proof.
  induction 1 as [|r w Hs IH Hf]; simpl; intros Hn.
  - by repeat constructor.
  - destruct (xid <? r_xid r) eqn:E; bool_prop.
    + repeat constructor; simpl; [done|done|lia|].
      eapply Forall_impl; [exact Hf|]. simpl. lia.
    + assert (r_xid r <> xid) by (unfold xids in Hn; set_solver).
      constructor; [apply IH; unfold xids in *; set_solver|].
      apply Forall_forall. intros r' [->|Hr']%insert_reply_elem; simpl; [lia|].
      by eapply Forall_forall in Hf.
Qed.

(** Every request of [seen] is either in the window or older than everything
    in it, so a copy of it is never taken for a new request. *)
Definition covers (seen : Z -> Prop) (w : list reply_t) : Prop :=
  forall x, seen x -> x ∈ xids w \/ (w <> [] /\ Forall (fun r => x < r_xid r) w).

Lemma win_sorted_drop k w : win_sorted w -> win_sorted (drop k w).
Proof. intros Hs. rewrite <- (take_drop k w) in Hs. by apply StronglySorted_app_1_r in Hs. Qed.

Lemma win_sorted_take_lt k w r :
  win_sorted w -> r ∈ take k w -> Forall (fun r' => r_xid r < r_xid r') (drop k w).
Proof.
  intros Hs Hr. apply Forall_forall. intros r' Hr'. rewrite <- (take_drop k w) in Hs.
  by eapply (StronglySorted_app_1_elem_of (fun r r' => r_xid r < r_xid r')).
Qed.

Lemma covers_not_new seen w x b sz : covers seen w -> seen x -> ~ verdict w x NEW b sz.
Proof.
  intros Hc Hx Hv. inversion Hv as [? ? Hn Hex| | |]; subst.
  destruct (Hc x Hx) as [?|[? Hf]]; [done|]. destruct Hex as [?|(r & Hr & ?)]; [done|].
  apply (proj1 (Forall_forall _ _) Hf) in Hr. lia.
Qed.

Lemma covers_drop seen w k :
  win_sorted w -> covers seen w -> (w <> [] -> drop k w <> []) -> covers seen (drop k w).
Proof.
  intros Hs Hc Hne x Hx. destruct (Hc x Hx) as [Hin|[? Hf]].
  - unfold xids in Hin. apply list_elem_of_fmap in Hin as (r & -> & Hr).
    rewrite <- (take_drop k w) in Hr. apply elem_of_app in Hr as [Hr|Hr].
    + right. split; [apply Hne; by intros ->; rewrite take_nil in Hr; set_solver|].
      by apply win_sorted_take_lt.
    + left. unfold xids. set_solver.
  - right. split; [auto|]. by apply Forall_drop.
Qed.

Lemma covers_insert seen w k xid xr b sz :
  win_sorted w -> covers seen w -> (w <> [] -> drop k w <> []) ->
  Forall (fun r => r_xid r <= xr) (take k w) -> xr < xid -> verdict w xid NEW b sz ->
  covers (fun x => x = xid \/ seen x) (insert_reply xid (drop k w)).
Proof.
  intros Hs Hc Hne Hk Hxr Hv. inversion Hv as [? ? Hn Hex| | |]; subst.
  assert (forall r, r ∈ insert_reply xid (drop k w) -> insert_reply xid (drop k w) <> []) as Hni.
  { intros r Hr E. rewrite E in Hr. set_solver. }
  assert (reply_new xid ∈ insert_reply xid (drop k w)) as Hxi by (apply insert_reply_elem; by left).
  intros x [->|Hx].
  { left. unfold xids. apply list_elem_of_fmap. by exists (reply_new xid). }
  destruct (covers_drop _ _ k Hs Hc Hne x Hx) as [Hin|[Hw Hf]].
  { left. unfold xids in *. apply list_elem_of_fmap in Hin as (r & -> & Hr).
    apply list_elem_of_fmap. exists r. split; [done|]. apply insert_reply_elem. by right. }
  right. split; [eauto|]. apply Forall_forall. intros r' [->|Hr']%insert_reply_elem.
  - simpl. destruct (Hc x Hx) as [Hin|[? Hf']].
    + unfold xids in Hin. apply list_elem_of_fmap in Hin as (r & -> & Hr).
      rewrite <- (take_drop k w) in Hr. apply elem_of_app in Hr as [Hr|Hr].
      * apply (proj1 (Forall_forall _ _) Hk) in Hr. lia.
      * apply (proj1 (Forall_forall _ _) Hf) in Hr. lia.
    + destruct Hex as [->|(r & Hr & ?)]; [done|]. apply (proj1 (Forall_forall _ _) Hf') in Hr. lia.
  - by apply (proj1 (Forall_forall _ _) Hf) in Hr'.
Qed.

(** ** Freeing the buffers of a window *)

(** Distinct entries own distinct, allocated buffers. *)
Definition bufs_ok (w : list reply_t) (h : heap) : Prop :=
  (forall r a, r ∈ w -> r_buf r = Some a -> is_Some (blocks h !! a)) /\
  (forall r r' a, r ∈ w -> r' ∈ w -> r_buf r = Some a -> r_buf r' = Some a -> r_xid r = r_xid r').

Lemma free_bufs w h :
  win_sorted w -> bufs_ok w h ->
  exists h', free_all (r_buf <$> w) h = Ret h' /\ next_block h' = next_block h /\
    blocks h' ⊆ blocks h /\
    (forall a, (forall r, r ∈ w -> r_buf r <> Some a) -> blocks h' !! a = blocks h !! a).
Proof.
  intros Hs. revert h. induction Hs as [|r w Hs IH Hf]; intros h [Hal Hinj].
  { exists h. by split_and!. }
  assert (forall r' a, r' ∈ w -> r_buf r = Some a -> r_buf r' <> Some a) as Hd.
  { intros r' a Hr' Ha Ha'. assert (r_xid r = r_xid r') as E.
    { apply (Hinj r r' a); [left|by right|done|done]. }
    apply (proj1 (Forall_forall _ _) Hf) in Hr'. lia. }
  cbn [fmap list_fmap free_all]. unfold free. destruct (r_buf r) as [a|] eqn:Ea.
  - destruct (Hal r a ltac:(left) Ea) as [b Hb]. rewrite Hb. rsimpl.
    destruct (IH (Heap (delete a (blocks h)) (next_block h))) as (h' & E & Hn & Hsub & Hfr).
    { split; simpl.
      - intros r' a' Hr' Ha'. rewrite lookup_delete_ne; [apply (Hal r'); [by right|done]|].
        intros ->. by apply (Hd r' a').
      - intros r1 r2 a' H1 H2. apply Hinj; by right. }
    exists h'. split_and!; [done|done| |].
    + etrans; [exact Hsub|]. apply delete_subseteq.
    + intros a' Ha'. rewrite Hfr; [|intros r' Hr'; apply Ha'; by right].
      simpl. apply lookup_delete_ne. intros ->. apply (Ha' r); [left|done].
  - rsimpl. destruct (IH h) as (h' & E & Hn & Hsub & Hfr).
    { split; [intros r' a' Hr'; apply Hal; by right|intros r1 r2 a' H1 H2; apply Hinj; by right]. }
    exists h'. split_and!; [done|done|done|]. intros a Ha. apply Hfr. intros r' Hr'. apply Ha. by right.
Qed.

Lemma bufs_ok_sub w w' h : (forall r, r ∈ w' -> r ∈ w) -> bufs_ok w h -> bufs_ok w' h.
Proof. intros Hsub [H1 H2]. split; [eauto|]. intros. by eapply H2; eauto. Qed.

(** ** The server as a state machine

    A message reaches a connection, [got_pdu] takes a reference and [dispatch]
    starts; when it decides to run the handler, the request joins those running;
    each of them finishes later, in any order, with whatever result its handler
    produced. *)
Section system.
Context `{Allocator} {St : Type}.
Context (create_time : conn -> Z * Z) (isdead : conn -> bool).

Record sys := Sys { srv : rpcs (St := St); running : list (conn * req_header) }.

Inductive event :=
  | EvRun (h : req_header)                  (* the handler is started *)
  | EvSkip                                  (* answered or dropped without running it *)
  | EvDone (h : req_header) (reply : str).  (* the handler finished with this reply *)

(** A client that never acknowledges the request it is sending, nor a later one. *)
Definition honest (req : unmarshall) : Prop :=
  forall h req', unpack_req_header req = Ret (h, req') -> u_ok req' = true ->
    rq_clt_nonce h <> 0 -> u32 (rq_xid_rep h) < u32 (rq_xid h).

Inductive sys_step : sys -> event -> sys -> Prop :=
  | step_run s run c req s' f h args :
      honest req ->
      dispatch_begin create_time (incref s c) c req = Ret (s', Run f h args) ->
      sys_step (Sys s run) (EvRun h) (Sys s' (run ++ [(c, h)]))
  | step_skip s run c req s' :
      honest req ->
      dispatch_begin create_time (incref s c) c req = Ret (s', Finished) ->
      sys_step (Sys s run) EvSkip (Sys s' run)
  | step_finish s run1 run2 c h ret rep reply s' :
      dispatch_finish isdead s c h ret rep = Ret s' ->
      (rep' ← pack_reply_header rep (ReplyHeader (rq_xid h) ret); message rep') = Ret reply ->
      sys_step (Sys s (run1 ++ (c, h) :: run2)) (EvDone h reply) (Sys s' (run1 ++ run2)).

Definition sys_init (s : sys) : Prop :=
  reply_window_ (srv s) = ∅ /\ (forall a, is_Some (blocks (s_heap (srv s)) !! a) ->
    (a < next_block (s_heap (srv s)))%positive) /\
  (forall c, 0 <= ref (srv s) c) /\ conns_ (srv s) = ∅ /\ running s = [].

(** The at-most-once requests executed, and the replies produced, by a trace. *)
Definition exec_of (e : event) : list (Z * Z) :=
  match e with
  | EvRun h => if rq_clt_nonce h =? 0 then [] else [(rq_clt_nonce h, u32 (rq_xid h))]
  | _ => []
  end.
Definition executed (tr : list event) : list (Z * Z) := tr ≫= exec_of.

Definition replied (tr : list event) (clt xid : Z) (reply : str) : Prop :=
  exists h, EvDone h reply ∈ tr /\ rq_clt_nonce h = clt /\ u32 (rq_xid h) = xid.

(** ** The invariant *)

Record window_inv (tr : list event) (clt : Z) (w : list reply_t) (h : heap) : Prop := {
  wi_sorted : win_sorted w;
  wi_covers : covers (fun x => (clt, x) ∈ executed tr) w;
  wi_empty : forall r, r ∈ w -> cb_present r = false -> r_buf r = None;
  wi_reply : forall r, r ∈ w -> cb_present r = true ->
    exists b, load (r_buf r) (r_sz r) h = Ret b /\ replied tr clt (r_xid r) b }.

Record heap_inv (ws : gmap Z (list reply_t)) (h : heap) : Prop := {
  hi_fresh : forall a, is_Some (blocks h !! a) -> (a < next_block h)%positive;
  hi_alloc : forall clt r a, r ∈ window_of ws clt -> r_buf r = Some a -> is_Some (blocks h !! a);
  hi_inj : forall clt r clt' r' a, r ∈ window_of ws clt -> r' ∈ window_of ws clt' ->
    r_buf r = Some a -> r_buf r' = Some a -> clt = clt' /\ r_xid r = r_xid r' }.

Definition srv_inv (tr : list event) (s : rpcs (St := St)) : Prop :=
  (forall clt, window_inv tr clt (window_of (reply_window_ s) clt) (s_heap s)) /\
  heap_inv (reply_window_ s) (s_heap s) /\ NoDup (executed tr).

Lemma window_of_insert ws clt w clt' :
  window_of (<[clt := w]> ws) clt' = if decide (clt = clt') then w else window_of ws clt'.
Proof.
  unfold window_of. case_decide as E; [subst; by rewrite lookup_insert_eq|].
  by rewrite lookup_insert_ne.
Qed.

Lemma heap_inv_bufs ws h clt : heap_inv ws h -> bufs_ok (window_of ws clt) h.
Proof.
  intros [_ Ha Hi]. split; [eauto|]. intros r r' a H1 H2 H3 H4.
  by destruct (Hi clt r clt r' a H1 H2 H3 H4).
Qed.

(** The whole of [checkduplicate_and_update] in a good state: it returns, its
    answer is a verdict on the old window, and the freed buffers are those of
    the acknowledged entries it dropped. *)
Lemma check_inv ws clt xid xr b sz h :
  win_sorted (window_of ws clt) -> heap_inv ws h ->
  exists k st b' sz' h',
    let w := window_of ws clt in
    checkduplicate_and_update ws clt xid xr b sz h =
      Ret (<[clt := window_after xid st (drop k w)]> ws, st, b', sz', h') /\
    verdict w xid st b' sz' /\ Forall (fun r => r_xid r <= xr) (take k w) /\
    (w <> [] -> drop k w <> []) /\
    next_block h' = next_block h /\ blocks h' ⊆ blocks h /\
    (forall a, (forall r, r ∈ take k w -> r_buf r <> Some a) -> blocks h' !! a = blocks h !! a).
Proof.
  intros Hs Hh. destruct (check_window_spec _ xid xr b sz h Hs) as (k & st & b' & sz' & E & Hv & Hk & Hne).
  destruct (free_bufs (take k (window_of ws clt)) h) as (h' & Ef & Hn & Hsub & Hfr).
  { unfold win_sorted in *. rewrite <- (take_drop k) in Hs. by apply StronglySorted_app_1_l in Hs. }
  { eapply bufs_ok_sub; [|by apply heap_inv_bufs]. intros r. apply elem_take. }
  exists k, st, b', sz', h'. cbv zeta. split_and!; [|done|done|done|done|done|done].
  unfold checkduplicate_and_update. rewrite E, Ef. done.
Qed.

(** ** Freeing all the windows *)

Lemma free_all_ok l h :
  (forall a, Some a ∈ l -> is_Some (blocks h !! a)) -> NoDup (omap id l) ->
  exists h', free_all l h = Ret h' /\
    forall a, blocks h' !! a = if decide (Some a ∈ l) then None else blocks h !! a.
Proof.
  revert h. induction l as [|[a|] l IH]; intros h Hal Hnd; cbn [free_all].
  - exists h. split; [done|]. intros a. rewrite decide_False; [done|set_solver].
  - cbn in Hnd. apply NoDup_cons in Hnd as [Hna Hnd].
    assert (Some a ∉ l) as Hnl. { intros Hin. apply Hna, list_elem_of_omap. by exists (Some a). }
    unfold free at 1. destruct (Hal a ltac:(left)) as [b Hb]. rewrite Hb. rsimpl.
    destruct (IH (Heap (delete a (blocks h)) (next_block h))) as (h' & E & Hh').
    { intros a' Ha'. simpl. rewrite lookup_delete_ne by congruence. apply Hal. by right. }
    { done. }
    exists h'. split; [done|]. intros a'. rewrite Hh'. simpl. destruct (decide (a' = a)) as [->|Hne].
    + rewrite lookup_delete_eq, (decide_True (P := Some a ∈ Some a :: l)) by left. by case_decide.
    + rewrite lookup_delete_ne by done. apply decide_ext. rewrite elem_of_cons. naive_solver.
  - rsimpl. destruct (IH h) as (h' & E & Hh'); [intros a Ha; apply Hal; by right|done|].
    exists h'. split; [done|]. intros a. rewrite Hh'. apply decide_ext. rewrite elem_of_cons. naive_solver.
Qed.

Lemma window_bufs_nodup w :
  win_sorted w -> (forall r r' a, r ∈ w -> r' ∈ w -> r_buf r = Some a -> r_buf r' = Some a -> r_xid r = r_xid r') ->
  NoDup (omap r_buf w).
Proof.
  intros Hs. induction Hs as [|r w Hs IH Hf]; intros Hinj; [constructor|]. cbn [omap list_omap].
  assert (NoDup (omap r_buf w)) as Hnd by (apply IH; intros; eapply Hinj; try (by right); done).
  destruct (r_buf r) as [a|] eqn:Ea; [|done]. apply NoDup_cons. split; [|done].
  intros (r' & Hr' & Ea')%list_elem_of_omap. assert (r_xid r = r_xid r') as Hx by (eapply Hinj; [left|by right|done|done]).
  apply (proj1 (Forall_forall _ _) Hf) in Hr'. lia.
Qed.

Lemma bufs_nodup (ws : list (Z * list reply_t)) :
  NoDup ws.*1 -> (forall clt w, (clt, w) ∈ ws -> win_sorted w) ->
  (forall clt w r clt' w' r' a, (clt, w) ∈ ws -> (clt', w') ∈ ws -> r ∈ w -> r' ∈ w' ->
     r_buf r = Some a -> r_buf r' = Some a -> clt = clt' /\ r_xid r = r_xid r') ->
  NoDup (omap r_buf (concat ws.*2)).
Proof.
  induction ws as [|[clt w] ws IH]; intros Hk Hs Hinj; [constructor|]. cbn in Hk. apply NoDup_cons in Hk as [Hn Hk].
  cbn [fmap list_fmap concat snd]. rewrite omap_app. apply NoDup_app. split_and!.
  - apply window_bufs_nodup; [apply (Hs clt); left|]. intros r r' a H1 H2 H3 H4.
    by destruct (Hinj clt w r clt w r' a ltac:(left) ltac:(left) H1 H2 H3 H4).
  - intros a (r & Hr & Ea)%list_elem_of_omap (r' & Hr' & Ea')%list_elem_of_omap.
    apply list_elem_of_In, in_concat in Hr' as (w' & Hw' & Hr'). apply list_elem_of_In in Hw', Hr'.
    apply list_elem_of_fmap in Hw' as ([clt' w''] & -> & Hin).
    destruct (Hinj clt w r clt' w'' r' a) as [-> _]; [left|by right|done..|]. apply Hn, list_elem_of_fmap. by exists (clt', w'').
  - apply IH; [done|intros clt' w' Hin; apply (Hs clt'); by right|].
    intros c1 w1 r1 c2 w2 r2 a H1 H2. by apply Hinj; right.
Qed.

Lemma omap_id_fmap {A} (f : A -> ptr) (l : list A) : omap id (f <$> l) = omap f l.
Proof. induction l as [|x l IH]; [done|]. cbn. unfold id at 1. destruct (f x); [f_equal|]; exact IH. Qed.

(** The destructor frees every remembered reply, once. *)
Lemma free_reply_window_ok ws h :
  (forall clt, win_sorted (window_of ws clt)) -> heap_inv ws h ->
  exists h', free_reply_window ws h = Ret (∅, h') /\
    forall clt r a, r ∈ window_of ws clt -> r_buf r = Some a -> blocks h' !! a = None.
Proof.
  intros Hs [_ Hal Hinj]. unfold free_reply_window.
  assert (forall clt w, (clt, w) ∈ map_to_list ws -> window_of ws clt = w) as Hw.
  { intros clt w Hin%elem_of_map_to_list. unfold window_of. by rewrite Hin. }
  destruct (free_all_ok (r_buf <$> concat (map_to_list ws).*2) h) as (h' & E & Hh').
  - intros a (r & Ea & Hr)%list_elem_of_fmap. apply list_elem_of_In, in_concat in Hr as (w & Hw' & Hr).
    apply list_elem_of_In in Hw', Hr. apply list_elem_of_fmap in Hw' as ([clt w'] & -> & Hin).
    apply (Hal clt r); [by rewrite (Hw _ _ Hin)|done].
  - rewrite omap_id_fmap. apply bufs_nodup; [apply NoDup_fst_map_to_list| |].
    + intros clt w Hin. rewrite <- (Hw _ _ Hin). apply Hs.
    + intros c1 w1 r1 c2 w2 r2 a H1 H2 H3 H4. rewrite <- (Hw _ _ H1) in H3. rewrite <- (Hw _ _ H2) in H4.
      by apply (Hinj c1 r1 c2 r2 a).
  - rewrite E. rsimpl. exists h'. split; [done|]. intros clt r a Hr Ea. rewrite Hh', decide_True; [done|].
    apply list_elem_of_fmap. exists r. split; [done|]. apply list_elem_of_In, in_concat.
    unfold window_of in Hr. destruct (ws !! clt) as [w|] eqn:Ew; [|set_solver].
    exists w. split; apply list_elem_of_In; [|done]. apply list_elem_of_fmap. exists (clt, w). split; [done|].
    by apply elem_of_map_to_list.
Qed.

Lemma executed_app tr tr' : executed (tr ++ tr') = executed tr ++ executed tr'.
Proof. apply bind_app. Qed.

Lemma load_frame p sz h h' :
  (forall a, p = Some a -> blocks h' !! a = blocks h !! a) -> load p sz h' = load p sz h.
Proof. intros Hp. destruct p as [a|]; [|done]. unfold load. by rewrite (Hp a). Qed.

(** A window keeps its invariant when entries are dropped or freshly added and
    the buffers of the remaining ones are left alone. *)
Lemma window_inv_frame tr e clt w w' h h' :
  window_inv tr clt w h -> win_sorted w' ->
  covers (fun x => (clt, x) ∈ executed (tr ++ [e])) w' ->
  (forall r, r ∈ w' -> (cb_present r = false /\ r_buf r = None) \/
     (r ∈ w /\ forall a, r_buf r = Some a -> blocks h' !! a = blocks h !! a)) ->
  window_inv (tr ++ [e]) clt w' h'.
Proof.
  intros Hw Hs Hc Hr. constructor; [done|done| |].
  - intros r Hin Hcb. destruct (Hr r Hin) as [[_ ?]|[? _]]; [done|by apply (wi_empty _ _ _ _ Hw)].
  - intros r Hin Hcb. destruct (Hr r Hin) as [[? _]|[Hin' Hb]]; [congruence|].
    destruct (wi_reply _ _ _ _ Hw r Hin' Hcb) as (b & Hl & (rh & Hrh & ? & ?)).
    exists b. split; [by rewrite (load_frame _ _ h)|]. exists rh. split; [|done].
    apply elem_of_app. by left.
Qed.

Lemma window_inv_same tr e clt w h h' :
  window_inv tr clt w h -> (forall x, (clt, x) ∉ exec_of e) ->
  (forall r a, r ∈ w -> r_buf r = Some a -> blocks h' !! a = blocks h !! a) ->
  window_inv (tr ++ [e]) clt w h'.
Proof.
  intros Hw He Hb. eapply window_inv_frame; [done|by eapply wi_sorted| |].
  - intros x Hx. apply (wi_covers _ _ _ _ Hw). rewrite executed_app in Hx.
    unfold executed in Hx at 2. simpl in Hx. rewrite app_nil_r in Hx.
    apply elem_of_app in Hx as [?|?]; [done|]. by destruct (He x).
  - intros r Hr. right. eauto.
Qed.

(** ** Preservation *)

(** What [checkduplicate_and_update] does to the windows and the heap: the first
    [k] entries of the client's window are acknowledged and freed. *)
Section check.
Context (tr : list event) (ws : gmap Z (list reply_t)) (h h' : heap) (clt xid xr : Z) (k : nat) (st : rpcstate_t).
Context (Hw : forall clt', window_inv tr clt' (window_of ws clt') h) (Hh : heap_inv ws h).
Let w := window_of ws clt.
Context (Hfr : forall a, (forall r, r ∈ take k w -> r_buf r <> Some a) -> blocks h' !! a = blocks h !! a).

Lemma check_keeps clt' r a : r ∈ window_of ws clt' -> (clt' = clt -> r ∈ drop k w) -> r_buf r = Some a ->
  blocks h' !! a = blocks h !! a.
Proof.
  intros Hr Hd Ha. apply Hfr. intros r' Hr' Ha'.
  destruct (hi_inj _ _ Hh clt' r clt r' a) as [-> Hx]; [done|by eapply elem_take|done|done|].
  pose proof (win_sorted_take_lt k w r' (wi_sorted _ _ _ _ (Hw clt)) Hr') as Hlt.
  apply (proj1 (Forall_forall _ _) Hlt) in Hd; [lia|done].
Qed.

Lemma check_entries r : r ∈ window_after xid st (drop k w) -> r = reply_new xid \/ (r ∈ w /\ r ∈ drop k w).
Proof.
  intros Hr. destruct st; cbn [window_after] in Hr; [|right; eauto with yfs..].
  apply insert_reply_elem in Hr as [->|Hr]; [by left|right; eauto with yfs].
Qed.

Lemma check_window_inv b sz e clt' : verdict w xid st b sz -> Forall (fun r => r_xid r <= xr) (take k w) ->
  (w <> [] -> drop k w <> []) -> xr < xid -> exec_of e = (if bool_decide (st = NEW) then [(clt, xid)] else []) ->
  window_inv (tr ++ [e]) clt' (window_of (<[clt := window_after xid st (drop k w)]> ws) clt') h'.
Proof.
  intros Hv Hk Hne Hxr He. pose proof (wi_sorted _ _ _ _ (Hw clt)) as Hs. pose proof (wi_covers _ _ _ _ (Hw clt)) as Hc.
  fold w in Hs, Hc. rewrite window_of_insert. destruct (decide (clt = clt')) as [<-|Ec].
  - eapply window_inv_frame; [apply Hw| | |]; fold w.
    + destruct st; cbn [window_after]; try by apply win_sorted_drop.
      apply insert_reply_sorted; [by apply win_sorted_drop|]. inversion Hv as [? ? Hn| | |]; subst.
      intros Hin. apply Hn. unfold xids in *. apply list_elem_of_fmap in Hin as (r & -> & Hr).
      apply list_elem_of_fmap. eauto with yfs.
    + intros x Hx. rewrite executed_app in Hx. unfold executed in Hx at 2. simpl in Hx.
      rewrite app_nil_r, He, elem_of_app in Hx. destruct st; cbn [window_after]; simpl in Hx;
        try (apply (covers_drop _ w k Hs Hc Hne x); set_solver).
      apply (covers_insert _ w k xid xr b sz Hs Hc Hne Hk Hxr Hv x). set_solver.
    + intros r Hr. destruct (check_entries r Hr) as [->|[Hin Hd]]; [by left|right].
      split; [done|]. intros a Ha. by apply (check_keeps clt r).
  - apply window_inv_same with h; [apply Hw| |].
    + intros x. rewrite He. case_bool_decide; set_solver.
    + intros r a Hr Ha. by apply (check_keeps clt' r).
Qed.

Lemma check_heap_inv : next_block h' = next_block h -> blocks h' ⊆ blocks h ->
  heap_inv (<[clt := window_after xid st (drop k w)]> ws) h'.
Proof.
  intros Hnx Hsub.
  assert (forall clt' r, r ∈ window_of (<[clt:=window_after xid st (drop k w)]> ws) clt' ->
    r_buf r <> None -> r ∈ window_of ws clt' /\ (clt' = clt -> r ∈ drop k w)) as Hold.
  { intros clt' r Hr Hb. rewrite window_of_insert in Hr. destruct (decide (clt = clt')) as [<-|Ec]; [|by split].
    destruct (check_entries r Hr) as [->|[? ?]]; [done|]. by split. }
  constructor.
  - intros a Ha. rewrite Hnx. apply (hi_fresh _ _ Hh). destruct Ha as [v Ha]. exists v. by eapply lookup_weaken.
  - intros clt' r a Hr Ha. destruct (Hold clt' r Hr) as [Hr' Hd]; [congruence|].
    rewrite (check_keeps clt' r) by done. by apply (hi_alloc _ _ Hh clt' r).
  - intros c1 r1 c2 r2 a H1 H2 Ha1 Ha2. destruct (Hold c1 r1 H1); [congruence|].
    destruct (Hold c2 r2 H2); [congruence|]. by apply (hi_inj _ _ Hh c1 r1 c2 r2 a).
Qed.
End check.

Lemma check_preserves tr s clt xid xr b sz ws' st b' sz' h' e :
  srv_inv tr s -> xr < xid ->
  checkduplicate_and_update (reply_window_ s) clt xid xr b sz (s_heap s) = Ret (ws', st, b', sz', h') ->
  exec_of e = (if bool_decide (st = NEW) then [(clt, xid)] else []) ->
  (forall clt', window_inv (tr ++ [e]) clt' (window_of ws' clt') h') /\ heap_inv ws' h' /\
  NoDup (executed (tr ++ [e])).
Proof.
  intros (Hw & Hh & Hnd) Hxr E He.
  destruct (check_inv (reply_window_ s) clt xid xr b sz (s_heap s)) as
    (k & st0 & b0 & sz0 & h0 & E0 & Hv & Hk & Hne & Hnx & Hsub & Hfr); [apply Hw|done|].
  rewrite E0 in E. injection E as <- -> -> -> ->. split_and!.
  - intros clt'. by eapply check_window_inv.
  - by eapply check_heap_inv.
  - rewrite executed_app. unfold executed at 2. simpl. rewrite app_nil_r, He.
    case_bool_decide as Est; [subst st|by rewrite app_nil_r].
    apply NoDup_app. split_and!; [done| |apply NoDup_singleton]. intros x Hx ->%list_elem_of_singleton.
    by apply (covers_not_new _ (window_of (reply_window_ s) clt) xid b' sz' (wi_covers _ _ _ _ (Hw clt)) Hx).
Qed.

(** The parts of the server the at-most-once logic looks at. *)
Definition core (s : rpcs (St := St)) := (reply_window_ s, s_heap s, sent s).

Lemma decref_core s c s' : decref s c = Ret s' -> core s' = core s.
Proof. unfold decref. intros E. res_inv. by subst. Qed.

Lemma save_conn_core s clt c s' : save_conn create_time s clt c = Ret s' -> core s' = core s.
Proof.
  unfold save_conn. intros E. destruct (conns_ s !! clt) as [c0|]; [|by res_inv; subst].
  destruct (_ <? _); [|by res_inv; subst]. res_inv. subst. by apply decref_core in E0.
Qed.

Lemma updatestat_core s proc : core (updatestat s proc) = core s.
Proof. done. Qed.

Lemma check_created ws clt xid xr b sz h :
  ws !! clt = None ->
  checkduplicate_and_update (<[clt := []]> ws) clt xid xr b sz h =
  checkduplicate_and_update ws clt xid xr b sz h.
Proof.
  intros E. unfold checkduplicate_and_update, window_of. rewrite lookup_insert_eq, E.
  destruct (check_window _ _ _ _ _ _) as [[[[[? ?] ?] ?] ?]| |]; rsimpl; [|done|done].
  by rewrite insert_insert_eq.
Qed.

(** [dispatch_begin] either leaves windows and heap alone, or goes through
    [checkduplicate_and_update] and acts on its answer. *)
Inductive begin_spec (s : rpcs (St := St)) (c : conn) (h : req_header) (req : unmarshall)
  : rpcs (St := St) -> job (St := St) -> Prop :=
  | bs_bad s' : u_ok req = false -> core s' = core s -> begin_spec s c h req s' Finished
  | bs_old s' b : u_ok req = true -> core s' = (reply_window_ s, s_heap s, sent s ++ [(c, b)]) ->
      rq_srv_nonce h <> 0 -> rq_srv_nonce h <> nonce_ s ->
      (rep ← pack_reply_header marshall_new (ReplyHeader (rq_xid h) rpc_const.oldsrv_failure); message rep) = Ret b ->
      begin_spec s c h req s' Finished
  | bs_any s' f : u_ok req = true -> rq_clt_nonce h = 0 -> core s' = core s ->
      procs_ s !! rq_proc h = Some f -> begin_spec s c h req s' (Run f h req)
  | bs_check s' j ws st b1 sz1 hp :
      u_ok req = true -> rq_clt_nonce h <> 0 ->
      checkduplicate_and_update (reply_window_ s) (rq_clt_nonce h) (u32 (rq_xid h))
        (u32 (rq_xid_rep h)) None 0 (s_heap s) = Ret (ws, st, b1, sz1, hp) ->
      match st with
      | NEW => exists f, j = Run f h req /\ core s' = (ws, hp, sent s) /\ procs_ s !! rq_proc h = Some f
      | INPROGRESS => j = Finished /\ core s' = (ws, hp, sent s)
      | DONE => exists b, j = Finished /\ load b1 sz1 hp = Ret b /\
                  core s' = (ws, hp, sent s ++ [(c, b)])
      | FORGOTTEN => exists b, j = Finished /\
          (rep ← pack_reply_header marshall_new
                   (ReplyHeader (rq_xid h) rpc_const.atmostonce_failure); message rep) = Ret b /\
          core s' = (ws, hp, sent s ++ [(c, b)])
      end ->
      begin_spec s c h req s' j.

Lemma dispatch_begin_spec s c req s' j :
  dispatch_begin create_time s c req = Ret (s', j) ->
  exists h req', unpack_req_header req = Ret (h, req') /\ begin_spec s c h req' s' j.
Proof.
  unfold dispatch_begin. intros E. res_inv. destruct x as [h req']. exists h, req'. split; [done|].
  destruct (u_ok req') eqn:Eok; cbn [negb] in E.
  2:{ res_inv. subst. apply bs_bad; [done|]. by apply decref_core in E1. }
  destruct (negb _ && negb _) eqn:En.
  { res_inv. subst. bool_prop. eapply bs_old; [done|done|done|done|]. rewrite E1. done. }
  destruct (procs_ s !! rq_proc h) as [f|] eqn:Ef; [|res_inv].
  destruct (rq_clt_nonce h =? 0) eqn:Ec; cbn [negb] in E; rewrite ?res_bind_ret in E; bool_prop.
  { res_inv. subst. apply bs_any; [done|done| |done]. destruct (counting_ s =? 0); reflexivity. }
  res_inv. destruct x as [[[s2 stat] b1] sz1]. res_inv. subst.
  destruct x1 as [[[[ws stat'] b1'] sz1'] hp]. res_inv. subst.
  apply save_conn_core in E2. unfold core in E2.
  assert (core x0 = (reply_window_ x0, s_heap s, sent s) /\
    checkduplicate_and_update (reply_window_ s) (rq_clt_nonce h) (u32 (rq_xid h))
      (u32 (rq_xid_rep h)) None 0 (s_heap s) = Ret (ws, stat, b1, sz1, hp)) as [Hcore Hck].
  { injection E2 as Hws Hhp Hsent. rewrite Hws, Hhp in E3. unfold core. rewrite Hhp, Hsent.
    destruct (reply_window_ s !! _) eqn:Ew; split; try done. simpl in E3.
    by rewrite check_created in E3. }
  injection Hcore as _ Hsent.
  eapply bs_check; [done|done|exact Hck|].
  destruct stat; res_inv; subst; repeat match goal with
    | E : decref _ _ = Ret _ |- _ => apply decref_core in E
    end; unfold core in *; cbn [reply_window_ s_heap sent set_window send set_sent] in *.
  - exists f. split; [done|]. split; [|done]. by destruct (counting_ x0 =? 0); simpl; rewrite Hsent.
  - split; [done|]. congruence.
  - eexists. split_and!; [done|done|]. congruence.
  - eexists. split_and!; [done| |].
    + rewrite E1. rsimpl. done.
    + congruence.
Qed.

Lemma begin_preserves tr s c req s' j :
  srv_inv tr s -> honest req -> dispatch_begin create_time (incref s c) c req = Ret (s', j) ->
  srv_inv (tr ++ [match j with Run _ h _ => EvRun h | Finished => EvSkip end]) s'.
Proof.
  intros Hi Hh E. apply dispatch_begin_spec in E as (h & req' & Eu & Hb).
  assert (forall e s1 l, exec_of e = [] -> core s1 = (reply_window_ s, s_heap s, l) ->
    srv_inv (tr ++ [e]) s1) as Hsame.
  { intros e s1 l He Hc. unfold core in Hc. injection Hc as Hw Hp _. destruct Hi as (H1 & H2 & H3).
    split_and!; rewrite ?Hw, ?Hp; [|done|].
    - intros clt. eapply window_inv_same; [apply H1|rewrite He; set_solver|done].
    - rewrite executed_app. unfold executed at 2. simpl. by rewrite He, !app_nil_r. }
  destruct Hb as [s' Hok Hc|s' b Hok Hc _ _ _|s' f Hok Hz Hc _|s' j ws st b1 sz1 hp Hok Hnz Hck Hst].
  - by eapply Hsame.
  - by eapply Hsame.
  - eapply Hsame; [|exact Hc]. simpl. by rewrite Hz.
  - assert (core s' = (ws, hp, sent s') /\
      exec_of (match j with Run _ h _ => EvRun h | Finished => EvSkip end) =
      (if bool_decide (st = NEW) then [(rq_clt_nonce h, u32 (rq_xid h))] else [])) as [Hc He].
    { destruct st; [destruct Hst as (f & -> & Hst & _)|destruct Hst as (-> & Hst)|
        destruct Hst as (b & -> & _ & Hst)..]; unfold core in *; simplify_eq;
        split; try congruence; simpl; try done.
      by rewrite (proj2 (Z.eqb_neq _ _)). }
    destruct (check_preserves tr (incref s c) _ _ _ _ _ _ _ _ _ _
      (match j with Run _ h _ => EvRun h | Finished => EvSkip end) Hi (Hh _ _ Eu Hok Hnz) Hck He)
      as (H1 & H2 & H3).
    unfold core in Hc. injection Hc as Hw Hp. by split_and!; rewrite ?Hw, ?Hp.
Qed.

(** ** The end of a request *)

(** What [dispatch_finish] does to windows, heap and wire: the reply is stored in
    a fresh block, recorded for an at-most-once client, freed otherwise, and sent. *)
Definition finish_core (s : rpcs (St := St)) (h : req_header) (bytes : str) (sz : Z) (c : conn)
    (b : str) :=
  let p := next_block (s_heap s) in
  (if 0 <? rq_clt_nonce h
   then add_reply (reply_window_ s) (rq_clt_nonce h) (u32 (rq_xid h)) (Some p) sz
   else reply_window_ s,
   Heap (if rq_clt_nonce h =? 0 then delete p (<[p := bytes]> (blocks (s_heap s)))
         else <[p := bytes]> (blocks (s_heap s))) (Pos.succ p),
   sent s ++ [(c, b)]).

Lemma dispatch_finish_spec s c h ret rep s' :
  dispatch_finish isdead s c h ret rep = Ret s' ->
  exists rep' bytes c' b,
    pack_reply_header rep (ReplyHeader (rq_xid h) ret) = Ret rep' /\ message rep' = Ret b /\
    (0 <=? m_ind rep') && (m_ind rep' <=? Z.of_nat (length bytes)) = true /\
    b = take (Z.to_nat (m_ind rep')) bytes /\
    core s' = finish_core s h bytes (m_ind rep') c' b /\ (c' = c \/ conns_ s !! rq_clt_nonce h = Some c').
Proof.
  unfold dispatch_finish, m_take_buf, heap_new. intros E. res_inv.
  destruct x3 as [s2 c']. res_inv.
  set (p := next_block (s_heap s)) in *.
  set (hp := Heap (<[p := x2]> (blocks (s_heap s))) (Pos.succ p)) in *.
  match type of E4 with (if ?b then _ else _) = _ =>
    assert (core s2 = (if 0 <? rq_clt_nonce h
      then add_reply (reply_window_ s) (rq_clt_nonce h) (u32 (rq_xid h)) (Some p) (m_ind x1)
      else reply_window_ s, hp, sent s) /\ (c' = c \/ conns_ s !! rq_clt_nonce h = Some c')) as [Hc Hcc] end.
  { destruct (isdead c && _); res_inv; simplify_eq; [|by auto].
    destruct (conns_ x5 !! rq_clt_nonce h) eqn:Ecn; res_inv; simplify_eq. unfold decref in E7. res_inv. subst.
    split; [done|]. by right. }
  exists x1, x2, c', x3. unfold core in Hc. injection Hc as Hw Hh Hs.
  rewrite Hh in E0. unfold load in E0. simpl in E0. rewrite lookup_insert_eq in E0.
  split_and!; [done|by unfold message; rewrite E3|by res_inv|by res_inv; subst| |exact Hcc].
  apply decref_core in E. rewrite E. destruct (rq_clt_nonce h =? 0) eqn:Ez.
  - apply res_bind_Ret_inv in E6 as (h1 & Ef & E6). injection E6 as <-.
    simpl in Ef. rewrite Hh in Ef. simpl in Ef. rewrite lookup_insert_eq in Ef. injection Ef as <-.
    unfold core, finish_core. simpl. by rewrite Hw, Hs, Ez.
  - injection E6 as <-. unfold core, finish_core. simpl. by rewrite Hw, Hs, Hh, Ez.
Qed.

Lemma add_window_elem w xid b sz r' :
  r' ∈ add_window w xid b sz ->
  exists r, r ∈ w /\ r_xid r' = r_xid r /\
    ((r_xid r <> xid /\ r' = r) \/ (r_xid r = xid /\ r' = Reply_t xid true b sz)).
Proof.
  unfold add_window. intros (r & -> & Hr)%list_elem_of_fmap. exists r.
  destruct (Z.eqb_spec (r_xid r) xid) as [Ex|Ex]; simpl; [|by eauto].
  split_and!; [done|done|right]. by rewrite Ex.
Qed.

Lemma add_window_xids w xid b sz : xids (add_window w xid b sz) = xids w.
Proof.
  unfold xids, add_window. rewrite <- list_fmap_compose. apply list_fmap_ext.
  intros i r _. simpl. by destruct (_ =? _).
Qed.

Lemma win_sorted_xids w : win_sorted w <-> StronglySorted Z.lt (xids w).
Proof.
  unfold win_sorted, xids. induction w as [|r w IH]; simpl; [by split; constructor|].
  split; intros Hs; apply StronglySorted_inv in Hs as [Hs Hf];
    (constructor; [by apply IH|]); [by rewrite Forall_fmap|by rewrite Forall_fmap in Hf].
Qed.

Lemma covers_xids seen w w' : xids w = xids w' -> covers seen w -> covers seen w'.
Proof.
  intros E Hc x Hx. rewrite <- E. destruct (Hc x Hx) as [?|[Hne Hf]]; [by left|right].
  split; [by destruct w, w'|]. apply (Forall_fmap r_xid (fun y => x < y)) in Hf.
  apply (Forall_fmap r_xid (fun y => x < y)). unfold xids in E. by rewrite <- E.
Qed.

(** The entries after a request finished: the old ones, one of them completed. *)
Definition finish_elem (s s' : rpcs (St := St)) (h : req_header) (sz : Z) : Prop :=
  forall clt r', r' ∈ window_of (reply_window_ s') clt ->
    exists r, r ∈ window_of (reply_window_ s) clt /\ r_xid r' = r_xid r /\
      (r' = r \/ (0 < rq_clt_nonce h /\ clt = rq_clt_nonce h /\ r_xid r = u32 (rq_xid h) /\
                 r' = Reply_t (u32 (rq_xid h)) true (Some (next_block (s_heap s))) sz)).

Lemma finish_core_elem s s' h bytes sz c b : core s' = finish_core s h bytes sz c b -> finish_elem s s' h sz.
Proof.
  intros Hc clt r' Hr'. unfold core, finish_core in Hc. injection Hc as Hws _ _.
  rewrite Hws in Hr'. destruct (_ <? _) eqn:El; bool_prop; [|by eauto].
  unfold add_reply in Hr'. rewrite window_of_insert in Hr'.
  destruct (decide (rq_clt_nonce h = clt)) as [<-|?]; [|by eauto].
  apply add_window_elem in Hr' as (r & Hr & Hx & [[? ->]|[? ->]]); exists r; [by auto|].
  split_and!; [done|done|right]. by split_and!.
Qed.

Lemma finish_core_xids s s' h bytes sz c b clt :
  core s' = finish_core s h bytes sz c b ->
  xids (window_of (reply_window_ s') clt) = xids (window_of (reply_window_ s) clt).
Proof.
  intros Hc. unfold core, finish_core in Hc. injection Hc as -> _ _.
  destruct (_ <? _); [|done]. unfold add_reply. rewrite window_of_insert.
  destruct (decide _) as [<-|?]; [apply add_window_xids|done].
Qed.

Lemma finish_core_heap s s' h bytes sz c b :
  core s' = finish_core s h bytes sz c b ->
  let p := next_block (s_heap s) in
  next_block (s_heap s') = Pos.succ p /\
  (forall a, a <> p -> blocks (s_heap s') !! a = blocks (s_heap s) !! a) /\
  (0 < rq_clt_nonce h -> blocks (s_heap s') !! p = Some bytes).
Proof.
  intros Hc. unfold core, finish_core in Hc. injection Hc as _ -> _. simpl. split_and!; [done| |].
  - intros a Ha. destruct (_ =? _); by rewrite ?lookup_delete_ne, lookup_insert_ne.
  - intros Hlt. rewrite (proj2 (Z.eqb_neq _ _)) by lia. by rewrite lookup_insert_eq.
Qed.

Lemma finish_heap_inv s s' h bytes sz c b :
  heap_inv (reply_window_ s) (s_heap s) -> core s' = finish_core s h bytes sz c b ->
  (forall clt, win_sorted (window_of (reply_window_ s) clt)) ->
  heap_inv (reply_window_ s') (s_heap s').
Proof.
  intros Hh Hc Hs. destruct (finish_core_heap _ _ _ _ _ _ _ Hc) as (Hn & Hfr & Hp).
  pose proof (finish_core_elem _ _ _ _ _ _ _ Hc) as He. set (p := next_block (s_heap s)) in *.
  assert (forall clt r a, r ∈ window_of (reply_window_ s) clt -> r_buf r = Some a -> a <> p) as Hnp.
  { intros clt r a Hr Ha ->. apply (hi_alloc _ _ Hh clt) in Ha; [|done].
    apply (hi_fresh _ _ Hh) in Ha. fold p in Ha. lia. }
  constructor.
  - intros a Ha. rewrite Hn. destruct (decide (a = p)) as [->|Hne]; [lia|].
    rewrite Hfr in Ha by done. apply (hi_fresh _ _ Hh) in Ha. fold p in Ha. lia.
  - intros clt r' a Hr' Ha. destruct (He clt r' Hr') as (r & Hr & _ & [->|(? & _ & _ & ->)]).
    + rewrite Hfr by eauto. by eapply (hi_alloc _ _ Hh).
    + injection Ha as <-. fold p. rewrite Hp by done. eauto.
  - intros c1 r1' c2 r2' a H1 H2 Ha1 Ha2.
    destruct (He c1 r1' H1) as (r1 & Hr1 & _ & [->|(? & -> & Hx1 & ->)]),
      (He c2 r2' H2) as (r2 & Hr2 & _ & [->|(? & -> & Hx2 & ->)]); simpl in *.
    + by apply (hi_inj _ _ Hh _ _ _ _ a).
    + injection Ha2 as <-. by destruct (Hnp _ _ _ Hr1 Ha1).
    + injection Ha1 as <-. by destruct (Hnp _ _ _ Hr2 Ha2).
    + done.
Qed.

Lemma finish_preserves tr s c h ret rep s' reply :
  srv_inv tr s -> dispatch_finish isdead s c h ret rep = Ret s' ->
  (rep' ← pack_reply_header rep (ReplyHeader (rq_xid h) ret); message rep') = Ret reply ->
  srv_inv (tr ++ [EvDone h reply]) s'.
Proof.
  intros (Hw & Hh & Hnd) E Em.
  apply dispatch_finish_spec in E as (rep' & bytes & c' & b & Ep & Em' & Hsz & Hb & Hc & _).
  rewrite Ep in Em. cbn [mbind res_bind] in Em. rewrite Em' in Em. injection Em as <-.
  pose proof (finish_core_elem _ _ _ _ _ _ _ Hc) as He.
  destruct (finish_core_heap _ _ _ _ _ _ _ Hc) as (_ & Hfr & Hp).
  set (p := next_block (s_heap s)) in *.
  assert (executed (tr ++ [EvDone h b]) = executed tr) as Hex.
  { rewrite executed_app. unfold executed at 2. simpl. by rewrite app_nil_r. }
  split_and!; [|by eapply finish_heap_inv; [| |intros clt; apply Hw]|by rewrite Hex].
  intros clt. pose proof (finish_core_xids _ _ _ _ _ _ _ clt Hc) as Hx. constructor.
  - apply win_sorted_xids. rewrite Hx. apply win_sorted_xids, Hw.
  - rewrite Hex. eapply covers_xids; [symmetry; exact Hx|apply Hw].
  - intros r' Hr' Hcb. destruct (He clt r' Hr') as (r & Hr & _ & [->|(_ & _ & _ & ->)]); [|done].
    by apply (wi_empty _ _ _ _ (Hw clt)).
  - intros r' Hr' Hcb. destruct (He clt r' Hr') as (r & Hr & _ & [->|(Hlt & -> & _ & ->)]).
    + destruct (wi_reply _ _ _ _ (Hw clt) r Hr Hcb) as (b' & Hl & (rh & Hin & ? & ?)).
      exists b'. split; [|exists rh; split; [apply elem_of_app; by left|done]].
      rewrite (load_frame _ _ (s_heap s)); [done|]. intros a Ha. apply Hfr. intros ->.
      apply (hi_alloc _ _ Hh clt) in Ha; [|done]. apply (hi_fresh _ _ Hh) in Ha. fold p in Ha. lia.
    + exists b. split; [|exists h; split; [apply elem_of_app; right; left|done]].
      unfold load. cbn [r_buf r_sz]. fold p. rewrite Hp by done. by rewrite Hsz, Hb.
Qed.

(** ** Every reachable state satisfies the invariant *)

Lemma sys_inv tr s : reachable sys_init sys_step tr s -> srv_inv tr (srv s).
Proof.
  apply (reachable_invariant sys_init sys_step (fun tr s => srv_inv tr (srv s))); clear tr s.
  - intros s (Hw & Hb & _ & _ & _). split_and!; rewrite ?Hw; [|constructor|constructor].
    + intros clt. unfold window_of. rewrite lookup_empty. simpl.
      constructor; [constructor|intros x Hx; set_solver|set_solver|set_solver].
    + done.
    + intros clt r a Hr. unfold window_of in Hr. rewrite lookup_empty in Hr. set_solver.
    + intros clt r clt' r' a Hr. unfold window_of in Hr. rewrite lookup_empty in Hr. set_solver.
  - intros tr s e s' Hi Hs.
    destruct Hs as [s run c req s' f h args Hh E|s run c req s' Hh E|s r1 r2 c h ret rep b s' E Eb];
      simpl in *.
    + apply (begin_preserves tr s c req s' (Run f h args) Hi Hh E).
    + apply (begin_preserves tr s c req s' Finished Hi Hh E).
    + by eapply finish_preserves.
Qed.

Implicit Types s : rpcs (St := St).

(** ** Connection references

    The table of latest connections holds one reference per entry, every running
    request one; [owed] counts those that are not the table's. *)

Definition conn_refs (cs : gmap Z conn) (c : conn) : Z :=
  Z.of_nat (size (filter (fun kv => kv.2 = c) cs)).

Definition one (c c' : conn) : Z := if decide (c = c') then 1 else 0.

Lemma conn_refs_insert cs k c c' :
  cs !! k = None -> conn_refs (<[k := c]> cs) c' = conn_refs cs c' + one c c'.
Proof.
  intros E. unfold conn_refs, one. rewrite map_filter_insert. simpl. case_decide.
  - rewrite map_size_insert_None; [lia|]. apply map_lookup_filter_None. by left.
  - rewrite delete_id by done. lia.
Qed.

Lemma conn_refs_replace cs k c0 c c' :
  cs !! k = Some c0 -> conn_refs (<[k := c]> cs) c' = conn_refs cs c' + one c c' - one c0 c'.
Proof.
  intros E. rewrite <- (insert_delete_id cs k c0 E) at 2. rewrite <- insert_delete_eq.
  rewrite !conn_refs_insert by apply lookup_delete_eq. lia.
Qed.

Definition owed (s : rpcs (St := St)) (c : conn) : Z := ref s c - conn_refs (conns_ s) c.

Lemma conn_refs_nonneg cs c : 0 <= conn_refs cs c.
Proof. unfold conn_refs. lia. Qed.

Lemma ref_incref s c c' : ref (incref s c) c' = ref s c' + one c c'.
Proof.
  unfold ref, incref, one. simpl. case_decide; [subst; rewrite lookup_insert_eq; simpl; unfold ref; lia|].
  rewrite lookup_insert_ne by done. lia.
Qed.

Lemma decref_ok s c : 1 <= ref s c ->
  exists s', decref s c = Ret s' /\ core s' = core s /\ conns_ s' = conns_ s /\
    forall c', ref s' c' = ref s c' - one c c'.
Proof.
  intros Hr. unfold decref. rewrite VERIFY_true by (apply Z.leb_le; lia). rsimpl.
  eexists. split_and!; [done|done|done|]. intros c'. unfold ref at 1, one. simpl.
  case_decide; [subst; rewrite lookup_insert_eq; simpl; lia|].
  rewrite lookup_insert_ne by done. unfold ref. lia.
Qed.

Lemma owed_incref s c c' : owed (incref s c) c' = owed s c' + one c c'.
Proof. unfold owed. rewrite ref_incref. simpl. lia. Qed.

(** The table keeps its own references: the caller's are untouched. *)
Lemma save_conn_ok s clt c :
  (forall c', 0 <= owed s c') ->
  exists s', save_conn create_time s clt c = Ret s' /\ core s' = core s /\
    (forall c', owed s' c' = owed s c') /\ is_Some (conns_ s' !! clt) /\
    (forall clt', is_Some (conns_ s !! clt') -> is_Some (conns_ s' !! clt')).
Proof.
  intros Ho. unfold save_conn. destruct (conns_ s !! clt) as [c0|] eqn:E.
  - destruct (_ <? 0); [|exists s; by split_and!].
    destruct (decref_ok s c0) as (s1 & -> & Hc & Hcs & Hr).
    { pose proof (Ho c0) as Ho0. unfold owed in Ho0. rewrite <- (insert_delete_id _ _ _ E) in Ho0.
      rewrite conn_refs_insert in Ho0 by apply lookup_delete_eq.
      unfold one in Ho0. rewrite decide_True in Ho0 by done.
      pose proof (conn_refs_nonneg (delete clt (conns_ s)) c0). lia. }
    rsimpl. eexists. split_and!; [done|done| | |]; simpl.
    + intros c'. unfold owed. simpl. change (ref (set_conns _ _) c') with (ref (incref s1 c) c').
      rewrite ref_incref, Hr, Hcs, (conn_refs_replace _ _ c0) by done. lia.
    + rewrite lookup_insert_eq. eauto.
    + intros clt' Hs. rewrite Hcs. apply lookup_insert_is_Some'. by right.
  - eexists. split_and!; [done|done| | |]; simpl.
    + intros c'. unfold owed. simpl. change (ref (set_conns _ _) c') with (ref (incref s c) c').
      rewrite ref_incref, conn_refs_insert by done. lia.
    + rewrite lookup_insert_eq. eauto.
    + intros clt' Hs. apply lookup_insert_is_Some'. by right.
Qed.

(** A reply built on a marshalled result. *)
Lemma pack_reply_header_content rep content t h :
  m_at rep content t -> (24 <= length content)%nat -> Z.of_nat (length content) < PDU_LIMIT ->
  exists rep' content', pack_reply_header rep h = Ret rep' /\ m_at rep' content' t.
Proof.
  intros Hm Hlen Hlim.
  edestruct (pack_reply_header_at rep (take 4 content) (take 8 (drop 4 content)) (drop 12 content) t h)
    as (rep' & -> & Hm').
  - change 12%nat with (4 + 8)%nat. rewrite <- (drop_drop content 8 4), take_drop, take_drop. exact Hm.
  - rewrite length_take. lia.
  - rewrite length_take, length_drop. lia.
  - rewrite length_drop. lia.
  - eauto.
Qed.

(** Replies without a body are always built. *)
Lemma failure_reply_ok h :
  exists rep b, pack_reply_header marshall_new h = Ret rep /\ message rep = Ret b.
Proof.
  destruct marshall_new_rep as [t Hm].
  destruct (pack_reply_header_content _ _ _ h Hm) as (rep & content & -> & (Hb & _ & Hi & _));
    [done|done|].
  exists rep. unfold message. rewrite Hb, Hi. cbn [deref]. rsimpl. rewrite defined_true; [by eexists|].
  apply andb_true_iff. rewrite !Z.leb_le, !length_app. lia.
Qed.

Lemma core_inv (s s' : rpcs (St := St)) tr : core s' = core s -> srv_inv tr s -> srv_inv tr s'.
Proof. unfold core, srv_inv. intros [= -> -> _]. done. Qed.

(** In a good state [checkduplicate_and_update] answers, and a stored reply it
    points to can be read. *)
Lemma check_total tr s clt xid xr :
  srv_inv tr s -> xr < xid ->
  exists ws st b1 sz1 hp,
    checkduplicate_and_update (reply_window_ s) clt xid xr None 0 (s_heap s) = Ret (ws, st, b1, sz1, hp) /\
    verdict (window_of (reply_window_ s) clt) xid st b1 sz1 /\
    (st = DONE -> exists b, load b1 sz1 hp = Ret b /\ replied tr clt xid b).
Proof.
  intros (Hw & Hh & Hnd) Hxr.
  destruct (check_inv (reply_window_ s) clt xid xr None 0 (s_heap s)) as
    (k & st & b1 & sz1 & hp & E & Hv & Hk & Hne & _ & _ & Hfr); [apply Hw|done|].
  do 5 eexists. split_and!; [exact E|done|]. intros ->. inversion Hv as [| | |r Hr Hx Hcb]; subst.
  destruct (wi_reply _ _ _ _ (Hw clt) r Hr Hcb) as (b & Hl & Hrep).
  exists b. split; [|done]. rewrite (load_frame _ _ (s_heap s)); [done|]. intros a Ha. apply Hfr.
  intros r' Hr' Ha'.
  destruct (hi_inj _ _ Hh clt r clt r' a) as [_ E2]; [done|by eapply elem_take|done|done|].
  apply (proj1 (Forall_forall _ _) Hk) in Hr'. lia.
Qed.

(** The server may act on this request: its header is bad, it is for another
    incarnation of the server, or it names a registered procedure. *)
Definition acceptable s (h : req_header) (args : unmarshall) : Prop :=
  u_ok args = false \/ (rq_srv_nonce h <> 0 /\ rq_srv_nonce h <> nonce_ s) \/
  is_Some (procs_ s !! rq_proc h).

(** The start of [dispatch] returns, and gives back the request's reference
    unless the handler is to run. *)
Definition begin_refs s s' (c : conn) (h : req_header) (j : job (St := St)) : Prop :=
  (forall clt, is_Some (conns_ s !! clt) -> is_Some (conns_ s' !! clt)) /\
  match j with
  | Run _ h' _ => h' = h /\ (forall c', owed s' c' = owed s c') /\
      (rq_clt_nonce h <> 0 -> is_Some (conns_ s' !! rq_clt_nonce h))
  | Finished => forall c', owed s c' - one c c' <= owed s' c' <= owed s c'
  end.

Lemma decref_finish s0 s c h :
  1 <= owed s c -> (forall c', owed s c' = owed s0 c') ->
  (forall clt, is_Some (conns_ s0 !! clt) -> is_Some (conns_ s !! clt)) ->
  exists s', (s' ← decref s c; Ret (s', Finished (St := St))) = Ret (s', Finished) /\
    begin_refs s0 s' c h Finished.
Proof.
  intros Ho Heq Hm. pose proof (conn_refs_nonneg (conns_ s) c).
  destruct (decref_ok s c) as (s' & -> & _ & Hcs & Hr); [unfold owed in Ho; lia|].
  exists s'. split; [done|]. split; [by rewrite Hcs|]. intros c'. rewrite <- (Heq c').
  unfold owed. rewrite Hr, Hcs. unfold one. case_decide; lia.
Qed.

Lemma dispatch_begin_total tr s c req h args :
  srv_inv tr s -> (forall c', 0 <= owed s c') -> 1 <= owed s c ->
  unpack_req_header req = Ret (h, args) -> acceptable s h args ->
  (u_ok args = true -> rq_clt_nonce h <> 0 -> u32 (rq_xid_rep h) < u32 (rq_xid h)) ->
  exists s' j, dispatch_begin create_time s c req = Ret (s', j) /\ begin_refs s s' c h j.
Proof.
  intros Hi Ho Hoc Eu Hacc Hhon. unfold dispatch_begin. rewrite Eu. rsimpl.
  destruct (u_ok args) eqn:Eok; cbn [negb].
  2:{ destruct (decref_finish s s c h Hoc) as (s' & -> & ?); eauto. }
  destruct (negb _ && negb _) eqn:En.
  { destruct (failure_reply_ok (ReplyHeader (rq_xid h) rpc_const.oldsrv_failure)) as (rep & b & -> & Eb).
    rsimpl. rewrite Eb. rsimpl. do 2 eexists. split; [done|]. split; [done|]. intros c'.
    unfold owed, one. simpl. change (ref (send s c b) c') with (ref s c'). case_decide; lia. }
  destruct Hacc as [?|[[H1 H2]|[f Hf]]]; [congruence| |].
  { exfalso. rewrite (proj2 (Z.eqb_neq _ _) H1), (proj2 (Z.eqb_neq _ _) H2) in En. done. }
  rewrite Hf. destruct (rq_clt_nonce h =? 0) eqn:Ec; cbn [negb]; rsimpl; bool_prop.
  { do 2 eexists. split; [done|]. by destruct (counting_ s =? 0); (split; [|split_and!]). }
  match goal with |- context [save_conn _ ?s0 _ _] => set (s1 := s0) end.
  assert (srv_inv tr s1 /\ (forall c', owed s1 c' = owed s c') /\ conns_ s1 = conns_ s) as (Hi1 & Ho1 & Hc1).
  { subst s1. destruct (reply_window_ s !! rq_clt_nonce h) eqn:Ew; [done|]. split_and!; [|done|done].
    destruct Hi as (H1 & H2 & H3).
    assert (forall clt, window_of (<[rq_clt_nonce h:=[]]> (reply_window_ s)) clt =
      window_of (reply_window_ s) clt) as Hwo.
    { intros clt. rewrite window_of_insert. destruct (decide _) as [<-|]; [|done].
      unfold window_of. by rewrite Ew. }
    split_and!; [intros clt; simpl; rewrite Hwo; apply H1| |done].
    constructor; [apply H2|intros clt r a; simpl; rewrite Hwo; apply H2|].
    intros clt r clt' r' a. simpl. rewrite !Hwo. apply H2. }
  destruct (save_conn_ok s1 (rq_clt_nonce h) c) as (s2 & -> & Hc2 & Ho2 & Hin & Hmono).
  { intros c'. rewrite Ho1. apply Ho. }
  rsimpl. apply (core_inv s1 s2 tr Hc2) in Hi1. unfold core in Hc2.
  destruct (check_total tr s2 (rq_clt_nonce h) (u32 (rq_xid h)) (u32 (rq_xid_rep h)) Hi1)
    as (ws & st & b1 & sz1 & hp & -> & Hv & Hd); [by apply Hhon|]. rsimpl.
  assert (forall c', owed (set_window s2 ws hp) c' = owed s c') as Ho3.
  { intros c'. rewrite <- Ho1, <- Ho2. done. }
  assert (forall clt, is_Some (conns_ s !! clt) -> is_Some (conns_ s2 !! clt)) as Hm2.
  { rewrite <- Hc1. done. }
  destruct st.
  - do 2 eexists. split; [done|]. simpl. by destruct (counting_ s2 =? 0); (split; [|split_and!]).
  - destruct (decref_finish s (set_window s2 ws hp) c h) as (s' & -> & ?); [by rewrite Ho3|done|done|eauto].
  - destruct Hd as (b & Hb & _); [done|]. cbn [s_heap set_window]. rewrite Hb. rsimpl.
    destruct (decref_finish s (send (set_window s2 ws hp) c b) c h) as (s' & -> & ?); [|done|done|eauto].
    change (1 <= owed (set_window s2 ws hp) c). by rewrite Ho3.
  - destruct (failure_reply_ok (ReplyHeader (rq_xid h) rpc_const.atmostonce_failure)) as (rep & b & -> & Eb).
    rsimpl. rewrite Eb. rsimpl.
    destruct (decref_finish s (send (set_window s2 ws hp) c b) c h) as (s' & -> & ?); [|done|done|eauto].
    change (1 <= owed (set_window s2 ws hp) c). by rewrite Ho3.
Qed.

Lemma decref_Ret s c s' :
  decref s c = Ret s' -> conns_ s' = conns_ s /\ forall c', ref s' c' = ref s c' - one c c'.
Proof.
  intros E. destruct (decref_ok s c) as (s1 & E1 & _ & Hcs & Hr).
  { unfold decref in E. res_inv. bool_prop. lia. }
  rewrite E in E1. by injection E1 as ->.
Qed.

(** Finishing gives back exactly the reference of the request, even when the
    reply goes out on a newer connection. *)
Lemma dispatch_finish_refs s c h ret rep s' :
  dispatch_finish isdead s c h ret rep = Ret s' ->
  conns_ s' = conns_ s /\ forall c', owed s' c' = owed s c' - one c c'.
Proof.
  unfold dispatch_finish, m_take_buf, heap_new. intros E. res_inv. destruct x3 as [s2 c2].
  res_inv. apply decref_Ret in E as [Hcs Hr].
  assert (conns_ s2 = conns_ s /\ forall c', ref s2 c' = ref s c' - one c c' + one c2 c') as [Hc2 Hr2].
  { destruct (isdead c && _); res_inv; simplify_eq.
    - destruct (conns_ x5 !! rq_clt_nonce h) as [c3|]; res_inv; simplify_eq.
      destruct (decref_Ret _ _ _ E) as [Hc3 Hr3]. split; [done|]. intros c'.
      rewrite ref_incref, Hr3. done.
    - split; [done|]. intros c'. change (ref (set_window s _ _) c') with (ref s c'). lia. }
  assert (conns_ x4 = conns_ s2 /\ forall c', ref x4 c' = ref s2 c') as [Hc4 Hr4].
  { destruct (rq_clt_nonce h =? 0); res_inv; by simplify_eq. }
  split; [congruence|]. intros c'. unfold owed. rewrite Hr, Hr4, Hr2, Hcs, Hc4, Hc2. lia.
Qed.

(** ** The reference invariant of the machine *)

Definition holds (run : list (conn * req_header)) (c : conn) : Z :=
  Z.of_nat (length (filter (fun x => x.1 = c) run)).

Lemma holds_app r1 r2 c : holds (r1 ++ r2) c = holds r1 c + holds r2 c.
Proof. unfold holds. rewrite filter_app, length_app. lia. Qed.

Lemma holds_cons x r c : holds (x :: r) c = one x.1 c + holds r c.
Proof. unfold holds, one. rewrite filter_cons. case_decide; simpl; lia. Qed.

Lemma holds_nonneg r c : 0 <= holds r c.
Proof. unfold holds. lia. Qed.

Record ref_inv (s : sys) : Prop := {
  ri_owed : forall c, holds (running s) c <= owed (srv s) c;
  ri_conn : forall c h, (c, h) ∈ running s -> rq_clt_nonce h <> 0 ->
    is_Some (conns_ (srv s) !! rq_clt_nonce h) }.

(** A message just received holds a reference of its own. *)
Lemma received_owed (s : sys) c :
  ref_inv s -> (forall c', 0 <= owed (incref (srv s) c) c') /\ 1 <= owed (incref (srv s) c) c.
Proof.
  intros [Ho _]. split; [intros c'; pose proof (Ho c'); pose proof (holds_nonneg (running s) c')|
    pose proof (Ho c); pose proof (holds_nonneg (running s) c)]; rewrite owed_incref; unfold one;
    case_decide; by lia || done.
Qed.

Lemma begin_acceptable s c req s' j h args :
  dispatch_begin create_time s c req = Ret (s', j) -> unpack_req_header req = Ret (h, args) ->
  acceptable s h args.
Proof.
  unfold dispatch_begin, acceptable. intros E Eu. rewrite Eu in E. cbn [mbind res_bind] in E.
  destruct (u_ok args); [right|by left]. cbn [negb] in E.
  destruct (negb _ && negb _) eqn:En; bool_prop; [by left|right].
  destruct (procs_ s !! rq_proc h); [by eexists|]. res_inv.
Qed.

Lemma begin_step_refs tr s run c req s' j :
  srv_inv tr s -> ref_inv (Sys s run) -> honest req ->
  dispatch_begin create_time (incref s c) c req = Ret (s', j) ->
  exists h args, unpack_req_header req = Ret (h, args) /\ begin_refs (incref s c) s' c h j.
Proof.
  intros Hi Hri Hh E.
  destruct (dispatch_begin_spec _ _ _ _ _ E) as (h & args & Eu & _). exists h, args.
  split; [done|].
  destruct (dispatch_begin_total tr (incref s c) c req h args) as (s1 & j1 & E1 & Hb); [done| | |done| | |].
  - by apply (received_owed (Sys s run)).
  - by apply (received_owed (Sys s run)).
  - by eapply begin_acceptable.
  - by intros; eapply Hh.
  - rewrite E in E1. by injection E1 as -> ->.
Qed.

Lemma ref_inv_sys tr (s : sys) : reachable sys_init sys_step tr s -> srv_inv tr (srv s) /\ ref_inv s.
Proof.
  induction 1 as [s Hs|tr s e s' Hr [Hi Hri] Hst].
  - split; [apply sys_inv; by constructor|]. destruct Hs as (_ & _ & Hr & Hc & Hrun).
    split; rewrite Hrun; [|set_solver]. intros c. unfold owed. rewrite Hc. pose proof (Hr c) as H0. change (0 <= ref (srv s) c - 0). lia.
  - split; [apply sys_inv; by econstructor|].
    destruct Hst as [s run c req s' f h args Hh E|s run c req s' Hh E|s r1 r2 c h ret rep b s' E Eb];
      simpl in *; destruct (id Hri) as [Ho Hc]; simpl in Ho, Hc.
    + destruct (begin_step_refs tr s run c req s' _ Hi Hri Hh E) as (h' & a & _ & Hm & <- & Ho' & Hin).
      split; simpl.
      * intros c'. rewrite Ho', owed_incref, holds_app, holds_cons. pose proof (Ho c'). simpl.
        unfold holds at 2. simpl. lia.
      * intros c1 h1 [Hr1|[= -> ->]%list_elem_of_singleton]%elem_of_app; [|done].
        intros Hz. apply Hm. by apply (Hc c1).
    + destruct (begin_step_refs tr s run c req s' _ Hi Hri Hh E) as (h' & a & _ & Hm & Ho').
      split; simpl.
      * intros c'. pose proof (Ho' c') as Hx. rewrite owed_incref in Hx. pose proof (Ho c'). lia.
      * intros c1 h1 Hr1 Hz. apply Hm. by apply (Hc c1).
    + destruct (dispatch_finish_refs _ _ _ _ _ _ E) as [Hcs Ho']. split; simpl.
      * intros c'. pose proof (Ho c') as Hx. rewrite holds_app, holds_cons in Hx. simpl in Hx.
        rewrite Ho', holds_app. lia.
      * intros c1 h1 Hr1 Hz. rewrite Hcs. apply (Hc c1); [set_solver|done].
Qed.

Lemma owed_ref s c : owed s c <= ref s c.
Proof. unfold owed. pose proof (conn_refs_nonneg (conns_ s) c). lia. Qed.

Lemma dispatch_finish_total s run c h ret rep content :
  ref_inv (Sys s run) -> (c, h) ∈ run -> 0 <= ret -> m_rep rep content -> (24 <= length content)%nat ->
  Z.of_nat (length content) < PDU_LIMIT -> (rq_clt_nonce h = 0 -> isdead c = false) ->
  exists s', dispatch_finish isdead s c h ret rep = Ret s'.
Proof.
  intros [Ho Hconn] Hin Hret [t Hm] Hlen Hlim Hdead. unfold dispatch_finish.
  rewrite (VERIFY_true (negb _)).
  2:{ apply negb_true_iff, Z.eqb_neq. unfold rpc_const.unmarshal_args_failure. lia. }
  rewrite (VERIFY_true (0 <=? ret)) by (by apply Z.leb_le). rsimpl.
  destruct (pack_reply_header_content rep content t (ReplyHeader (rq_xid h) ret))
    as (rep' & content' & -> & (Hb & _ & Hi & _)); [done|done|done|]. rsimpl. unfold m_take_buf, heap_new. rewrite Hb. cbn [deref]. rsimpl.
  set (bytes := content' ++ t). set (p := next_block (s_heap s)).
  set (hp := Heap (<[p := bytes]> (blocks (s_heap s))) (Pos.succ p)).
  match goal with |- context [set_window s ?w hp] => set (s1 := set_window s w hp) end.
  assert (1 <= owed s c) as Hoc.
  { pose proof (Ho c) as Hx. simpl in Hx. apply list_elem_of_split in Hin as (l1 & l2 & ->).
    rewrite holds_app, holds_cons in Hx. unfold one in Hx. simpl in Hx. rewrite decide_True in Hx by done.
    pose proof (holds_nonneg l1 c). pose proof (holds_nonneg l2 c). lia. }
  assert (exists s2 c2, (if isdead c && negb (bool_decide (conns_ s1 !! rq_clt_nonce h = Some c)) then
       s ← decref s1 c;
       match conns_ s !! rq_clt_nonce h with None => Undef | Some c' => Ret (incref s c', c') end
     else Ret (s1, c)) = Ret (s2, c2) /\ s_heap s2 = hp /\ 1 <= ref s2 c2) as (s2 & c2 & -> & Hh2 & Hr2).
  { destruct (isdead c && _) eqn:Ed; bool_prop.
    2:{ exists s1, c. split_and!; [done|done|]. pose proof (owed_ref s1 c).
        change (owed s1 c) with (owed s c) in *. lia. }
    destruct (decref_ok s1 c) as (s2 & -> & Hcore & Hcs & Hr).
    { pose proof (owed_ref s c). change (ref s1 c) with (ref s c). lia. }
    rsimpl. rewrite Hcs. destruct (Hconn c h Hin) as [c3 Hc3]; [intros Hz; specialize (Hdead Hz); congruence|].
    simpl in Hc3. simpl. rewrite Hc3. exists (incref s2 c3), c3. split_and!; [done| |].
    - unfold core in Hcore. by injection Hcore.
    - rewrite ref_incref. unfold one at 1. rewrite decide_True by done.
      assert (0 <= owed s2 c3); [|pose proof (owed_ref s2 c3); lia].
      unfold owed. rewrite Hr, Hcs. change (ref s1 c3) with (ref s c3).
      pose proof (Ho c3) as Hx. simpl in Hx. pose proof (holds_nonneg run c3). unfold owed in *.
      simpl. unfold one. case_decide; [subst; lia|lia]. }
  rsimpl. rewrite Hh2. unfold load. simpl. rewrite lookup_insert_eq.
  rewrite defined_true.
  2:{ rewrite Hi. apply andb_true_iff. rewrite !Z.leb_le. subst bytes. rewrite (length_app _ t). lia. }
  rsimpl. destruct (_ =? 0); rsimpl.
  - rewrite Hh2. simpl. rewrite lookup_insert_eq. rsimpl.
    match goal with |- context [decref ?x c2] => destruct (decref_ok x c2) as (s' & -> & _) end; eauto.
  - match goal with |- context [decref ?x c2] => destruct (decref_ok x c2) as (s' & -> & _) end; eauto.
Qed.

End system.
