(* ===== verification/RpcServerThms.v ===== *)
(** * The guarantees of the RPC server

    At-most-once execution, what a retransmitted request is answered, and that
    no interleaving of requests frees a reply twice, reads a freed one or drops a
    connection reference too many. *)

From S2P Require Import Prelude Marshall MarshallSpec RpcStubs RpcServer RpcServerSpec.

Section theorems.
Context `{Allocator} {St : Type}.
Context (create_time : conn -> Z * Z) (isdead : conn -> bool).

(** C1: whatever requests, duplicates and acknowledgements arrive, in whatever
    order handlers finish, the server starts the handler of each request
    [(clt_nonce, xid)] of an at-most-once client at most once. *)
Theorem at_most_once tr s :
  reachable (sys_init (St := St)) (sys_step create_time isdead) tr s -> NoDup (executed tr).
Proof. intros Hr. by destruct (sys_inv create_time isdead tr s Hr) as (_ & _ & ?). Qed.

(** C2: a duplicate of a request that was executed is always served without
    running the handler again: nothing is sent while the first execution is
    still in progress, and otherwise the client is sent the very reply the
    execution produced, or [atmostonce_failure] when every remembered request is
    more recent. *)
Theorem duplicate_answered tr s c req h args f :
  reachable (sys_init (St := St)) (sys_step create_time isdead) tr s ->
  unpack_req_header req = Ret (h, args) -> u_ok args = true ->
  rq_srv_nonce h = 0 \/ rq_srv_nonce h = nonce_ (srv s) ->
  procs_ (srv s) !! rq_proc h = Some f ->
  rq_clt_nonce h <> 0 -> u32 (rq_xid_rep h) < u32 (rq_xid h) ->
  (rq_clt_nonce h, u32 (rq_xid h)) ∈ executed tr ->
  let w := window_of (reply_window_ (srv s)) (rq_clt_nonce h) in
  exists s', dispatch_begin create_time (incref (srv s) c) c req = Ret (s', Finished) /\
    ((exists r, r ∈ w /\ r_xid r = u32 (rq_xid h) /\ cb_present r = false /\ sent s' = sent (srv s)) \/
     (exists b, replied tr (rq_clt_nonce h) (u32 (rq_xid h)) b /\ sent s' = sent (srv s) ++ [(c, b)]) \/
     (exists b, Forall (fun r => u32 (rq_xid h) < r_xid r) w /\
        (rep ← pack_reply_header marshall_new (ReplyHeader (rq_xid h) rpc_const.atmostonce_failure);
         message rep) = Ret b /\ sent s' = sent (srv s) ++ [(c, b)])).
Proof.
  intros Hr Eu Hok Hn Hf Hz Hlt Hin w.
  destruct (ref_inv_sys create_time isdead tr s Hr) as [Hi Hri].
  destruct (received_owed s c Hri) as [Ho Hoc].
  destruct (dispatch_begin_total create_time tr (incref (srv s) c) c req h args)
    as (s' & j & E & _); [done|done|done|done|right; right; by exists f|done|].
  destruct (dispatch_begin_spec _ _ _ _ _ _ E) as (h' & args' & Eu' & Hb).
  rewrite Eu in Eu'. injection Eu' as <- <-.
  destruct (check_total tr (incref (srv s) c) (rq_clt_nonce h) (u32 (rq_xid h)) (u32 (rq_xid_rep h)) Hi Hlt)
    as (ws & st & b1 & sz1 & hp & Ek & Hv & Hd).
  destruct Hb as [s' Hbad _|s' b _ _ H1 H2 _|s' f' _ ? _ _|s' j ws' st' b1' sz1' hp' _ _ Ek' Hst].
  { congruence. } { simpl in H2. destruct Hn; congruence. } { done. }
  rewrite Ek in Ek'. injection Ek' as <- <- <- <- <-. exists s'.
  assert (st <> NEW) as Hnew.
  { intros ->. eapply covers_not_new; [apply Hi|exact Hin|exact Hv]. }
  destruct st; [done| | |]; unfold core in Hst.
  - destruct Hst as [-> [= _ _ Hs]]. split; [done|left].
    inversion Hv as [| |r ? ? Hrw Hx Hcb|]; subst. by exists r.
  - destruct Hst as (b & -> & Hl & [= _ _ Hs]). split; [done|right; left].
    destruct Hd as (b' & Hl' & Hrep); [done|]. rewrite Hl in Hl'. injection Hl' as <-. by exists b.
  - destruct Hst as (b & -> & Hl & [= _ _ Hs]). split; [done|right; right]. exists b.
    inversion Hv as [|? ? Hne Hall| |]; subst. by split_and!.
Qed.


(** A plain client ([clt_nonce] 0) has no entry in [conns_]: when its connection
    is dead by the time the handler returns, [dispatch] dereferences the null
    pointer [conns_[0]] has just created. *)
Theorem plain_client_dead_connection (s : rpcs (St := St)) c h ret rep content :
  rq_clt_nonce h = 0 -> conns_ s !! 0 = None -> isdead c = true -> 1 <= ref s c ->
  0 <= ret -> m_rep rep content -> (24 <= length content)%nat ->
  Z.of_nat (length content) < PDU_LIMIT ->
  dispatch_finish isdead s c h ret rep = Undef.
Proof.
  intros Hz Hc Hd Href Hret [t Hm] Hlen Hlim. unfold dispatch_finish.
  rewrite (VERIFY_true (negb _)).
  2:{ apply negb_true_iff, Z.eqb_neq. unfold rpc_const.unmarshal_args_failure. lia. }
  rewrite (VERIFY_true (0 <=? ret)) by (by apply Z.leb_le). rsimpl.
  destruct (pack_reply_header_content rep content t (ReplyHeader (rq_xid h) ret))
    as (rep' & content' & -> & (Hb & _ & Hi & _)); [done|done|done|]. rsimpl. unfold m_take_buf, heap_new. rewrite Hb, Hz. cbn [deref]. rsimpl. simpl.
  rewrite Hd, Hc. simpl. match goal with |- context [decref ?x c] =>
    destruct (decref_ok x c) as (s' & -> & _ & Hcs & _) end; [done|].
  rsimpl. rewrite Hcs. simpl. by rewrite Hc.
Qed.

(** A request for another incarnation of the server is answered without giving
    back the connection reference the request holds. *)
Theorem oldsrv_keeps_reference (s : rpcs (St := St)) c req h args :
  unpack_req_header req = Ret (h, args) -> u_ok args = true ->
  rq_srv_nonce h <> 0 -> rq_srv_nonce h <> nonce_ s ->
  exists s', dispatch_begin create_time s c req = Ret (s', Finished) /\ refno_ s' = refno_ s.
Proof.
  intros Eu Hok H1 H2. unfold dispatch_begin. rewrite Eu. rsimpl. rewrite Hok. cbn [negb].
  rewrite (proj2 (Z.eqb_neq _ _) H1), (proj2 (Z.eqb_neq _ _) H2). cbn [negb andb].
  destruct (failure_reply_ok (ReplyHeader (rq_xid h) rpc_const.oldsrv_failure)) as (rep & b & -> & Eb).
  rsimpl. rewrite Eb. by eexists.
Qed.
End theorems.

(** ** A concrete run: one request, a duplicate while it is in progress, its end *)
Module Example.

#[local] Instance zero_alloc : Allocator := fun _ => Ascii.zero.

Definition created (_ : conn) : Z * Z := (0, 0).
Definition alive (_ : conn) : bool := false.
Definition echo : handler unit := fun o _ ret => Ret (o, 0, ret).

Definition s0 : rpcs (St := unit) :=
  Rpcs 42 ∅ (Heap ∅ 1) ∅ ∅ 0 0 ∅ {[5 := echo]} true [].
Definition hdr : req_header := ReqHeader 1 5 7 42 0.
Definition req : unmarshall :=
  unmarshall_buf (Some (be32 0 ++ be32 1 ++ be32 5 ++ be32 7 ++ be32 42 ++ be32 0)) 24.
Definition args : unmarshall := set_u_ind req 24.

Definition begin_state (s : rpcs (St := unit)) : rpcs (St := unit) :=
  match dispatch_begin created (incref s 3) 3 req with Ret (s', _) => s' | _ => s end.
Definition s1 : rpcs (St := unit) := begin_state s0.
Definition s2 : rpcs (St := unit) := begin_state s1.
Definition s3 : rpcs (St := unit) :=
  match dispatch_finish alive s2 3 hdr 0 marshall_new with Ret s' => s' | _ => s2 end.
Definition reply : str :=
  match (rep ← pack_reply_header marshall_new (ReplyHeader 1 0); message rep) with
  | Ret b => b | _ => [] end.
Definition trace : list event := [EvRun hdr; EvSkip; EvDone hdr reply].

Lemma req_honest : honest req.
Proof. intros h a E _ _. vm_compute in E. injection E as <- _. done. Qed.

Lemma dispatch_run : reachable sys_init (sys_step created alive) trace (Sys s3 []).
Proof.
  apply (reach_step _ _ [EvRun hdr; EvSkip] (Sys s2 ([] ++ (3, hdr) :: []))).
  - apply (reach_step _ _ [EvRun hdr] (Sys s1 [(3, hdr)])).
    + apply (reach_step _ _ [] (Sys s0 [])).
      * constructor. split_and!; [done| |done|done|done]. intros a [b Hb]. done.
      * apply (step_run created alive s0 [] 3 req s1 echo hdr args); [apply req_honest|].
        vm_compute. reflexivity.
    + apply (step_skip created alive s1 [(3, hdr)] 3 req s2); [apply req_honest|].
      vm_compute. reflexivity.
  - apply (step_finish created alive s2 [] [] 3 hdr 0 marshall_new reply s3);
      vm_compute; reflexivity.
Qed.

(** C1, witness: the run above. *)
Lemma at_most_once_witness : NoDup (executed trace).
Proof. exact (at_most_once created alive trace (Sys s3 []) dispatch_run). Defined.

(** C2, witness: the duplicate that arrives after the run is sent the reply. *)
Lemma duplicate_answered_witness :
  exists s', dispatch_begin created (incref s3 3) 3 req = Ret (s', Finished).
Proof.
  destruct (duplicate_answered created alive trace (Sys s3 []) 3 req hdr args echo dispatch_run) as (s' & E & _).
  - vm_compute. reflexivity.
  - reflexivity.
  - right. vm_compute. reflexivity.
  - vm_compute. reflexivity.
  - done.
  - done.
  - vm_compute. left.
  - exists s'. exact E.
Defined.

End Example.
