(* ===== verification/RpcClient.v ===== *)
(** * The RPC client: class [rpcc] of [rpc/rpc.h] and [rpc/rpc.cc], and the
    time and address helpers of [rpc/rpc.cc]

    [call1] waits, so it is modelled by its parts: what it does under [m_] before
    the first transmission ([call1_begin]), one turn of its [while] loop
    ([call1_iter], a function of what the turn observes: the clock, the new
    connection, whether the reply has arrived), and what it does under [m_] at the
    end ([call1_end]).  Between those parts other threads run [got_pdu] and
    [cancel]. *)

From S2P Require Import Prelude Marshall RpcStubs RpcServer.

(** ** struct timespec *)

Record timespec := Timespec { tv_sec : Z; tv_nsec : Z }.

Definition cmp_timespec (a b : timespec) : Z :=
  if tv_sec b <? tv_sec a then 1
  else if tv_sec a <? tv_sec b then -1
  else if tv_nsec b <? tv_nsec a then 1
  else if tv_nsec a <? tv_nsec b then -1
  else 0.

(** The carry loop; [fuel] bounds its turns. *)
Fixpoint carry (fuel : nat) (sec nsec : Z) : timespec :=
  match fuel with
  | O => Timespec sec nsec
  | S fuel =>
      if 1000000000 <? nsec then carry fuel (sec + 1) (nsec - 1000000000)
      else Timespec sec nsec
  end.

(** [add_timespec(a, b, result)], [b] in milliseconds; [/] and [%] truncate. *)
Definition add_timespec (a : timespec) (b : Z) : res timespec :=
  let nsec := tv_nsec a + Z.rem b 1000 * 1000000 in
  _ ← VERIFY (0 <=? nsec);
  Ret (carry (Z.to_nat (nsec / 1000000000)) (tv_sec a + Z.quot b 1000) nsec).

(** [diff_timespec], in milliseconds, an [int]. *)
Definition diff_timespec (tend start : timespec) : res Z :=
  let diff := s32 (if tv_sec start <? tv_sec tend then (tv_sec tend - tv_sec start) * 1000 else 0) in
  _ ← VERIFY (negb (diff =? 0) || (tv_sec tend =? tv_sec start));
  if tv_nsec start <? tv_nsec tend
  then Ret (s32 (diff + Z.quot (tv_nsec tend - tv_nsec start) 1000000))
  else Ret (s32 (diff - Z.quot (tv_nsec start - tv_nsec tend) 1000000)).

(** ** struct sockaddr_in *)

Record sockaddr_in := Sockaddr { s_addr : Z; sin_port : Z }.

Definition sockaddr_ltb (a b : sockaddr_in) : bool :=
  (s_addr a <? s_addr b) || ((s_addr a =? s_addr b) && (sin_port a <? sin_port b)).

(** [atoi] on a string without leading blanks: an optional sign and digits. *)
Definition is_digit (c : ascii) : bool := (48 <=? Z_of_byte c) && (Z_of_byte c <=? 57).

Fixpoint digits_val (acc : Z) (s : str) : Z :=
  match s with
  | c :: s => if is_digit c then digits_val (acc * 10 + (Z_of_byte c - 48)) s else acc
  | [] => acc
  end.

Definition atoi (s : str) : Z :=
  match s with
  | c :: s' =>
      if Z_of_byte c =? 45 then - digits_val 0 s'
      else if Z_of_byte c =? 43 then digits_val 0 s' else digits_val 0 s
  | [] => 0
  end.

(** [htons] on a little-endian machine. *)
Definition htons (x : Z) : Z := Z.lor (Z.shiftl (Z.land x 255) 8) (Z.shiftr (u16 x) 8).

Section resolver.
(** The C library's resolver: [inet_addr] ([None] is [INADDR_NONE]) and
    [gethostbyname] ([None]: unknown, or not a 4-byte address). *)
Context (inet_addr gethostbyname : str -> option Z).

(** [make_sockaddr(host, port, dst)]: [exit(1)] when the name is unknown. *)
Definition make_sockaddr_hp (host port : str) : res sockaddr_in :=
  match inet_addr host with
  | Some a => Ret (Sockaddr a (htons (u16 (atoi port))))
  | None =>
      match gethostbyname host with
      | Some a => Ret (Sockaddr a (htons (u16 (atoi port))))
      | None => Abort
      end
  end.

(** [index(s, ':')]: what precedes the first colon, and what follows it. *)
Fixpoint split_colon (s : str) : option (str * str) :=
  match s with
  | [] => None
  | c :: s' =>
      if Z_of_byte c =? 58 then Some ([], s')
      else match split_colon s' with Some (h, p) => Some (c :: h, p) | None => None end
  end.

(** [make_sockaddr(hostandport, dst)]: the host is copied into [char host[200]]. *)
Definition make_sockaddr (hostandport : str) : res sockaddr_in :=
  match split_colon hostandport with
  | None => make_sockaddr_hp (S! "127.0.0.1") hostandport
  | Some (host, port) =>
      _ ← defined (Z.of_nat (length host) <? 200);
      make_sockaddr_hp host port
  end.
End resolver.

(** ** The window of received replies *)

(** The insertion loop: before the first larger element. *)
Fixpoint insert_xid (xid : Z) (w : list Z) : list Z :=
  match w with
  | [] => [xid]
  | x :: w' => if xid <? x then xid :: w else x :: insert_xid xid w'
  end.

(** [while (front() + 1 == x) pop_front()]. *)
Fixpoint pop_while (w : list Z) (x : Z) : list Z :=
  match w with
  | [] => []
  | f :: w' => if u32 (f + 1) =? x then pop_while w' x else w
  end.

(** The loop at [compress], from the second element on. *)
Definition compress (w : list Z) : list Z := fold_left pop_while (tail w) w.

Definition update_xid_rep (w : list Z) (xid : Z) : list Z :=
  match w with
  | [] => w
  | front :: _ => if xid <=? front then w else compress (insert_xid xid w)
  end.

(** ** The client object *)

Record caller := Caller { ca_un : unmarshall; ca_intret : Z; ca_done : bool }.

Record request := Request { rq_buf : str; rq_id : Z }.
Definition request_none : request := Request [] (-1).
Definition isvalid (r : request) : bool := negb (rq_id r =? -1).

Record rpcc := Rpcc {
  clt_nonce : Z;
  srv_nonce : Z;
  bind_done : bool;
  xid_ : Z;
  lossytest : Z;
  retrans : bool;
  c_reachable : bool;
  chan_ : option conn;
  c_refno : gmap conn Z;                 (* reference counts of its connections *)
  destroy_wait : bool;
  calls_ : gmap Z caller;                (* std::map<int, caller pointer> *)
  xid_rep_window : list Z;
  dup_req : request;
  xid_rep_done : Z }.

(** The constructor; [random] is what [random()] returns. *)
Definition rpcc_new (retrans : bool) (random lossy : Z) : rpcc :=
  Rpcc (if retrans then u32 random else 0) 0 false 1 lossy retrans true None ∅ false ∅ [0]
    request_none (-1).

Definition set_calls (c : rpcc) cs : rpcc :=
  Rpcc (clt_nonce c) (srv_nonce c) (bind_done c) (xid_ c) (lossytest c) (retrans c) (c_reachable c)
    (chan_ c) (c_refno c) (destroy_wait c) cs (xid_rep_window c) (dup_req c) (xid_rep_done c).
Definition set_xid (c : rpcc) x : rpcc :=
  Rpcc (clt_nonce c) (srv_nonce c) (bind_done c) x (lossytest c) (retrans c) (c_reachable c)
    (chan_ c) (c_refno c) (destroy_wait c) (calls_ c) (xid_rep_window c) (dup_req c) (xid_rep_done c).
Definition set_rep_window (c : rpcc) w : rpcc :=
  Rpcc (clt_nonce c) (srv_nonce c) (bind_done c) (xid_ c) (lossytest c) (retrans c) (c_reachable c)
    (chan_ c) (c_refno c) (destroy_wait c) (calls_ c) w (dup_req c) (xid_rep_done c).
Definition set_dup (c : rpcc) d x : rpcc :=
  Rpcc (clt_nonce c) (srv_nonce c) (bind_done c) (xid_ c) (lossytest c) (retrans c) (c_reachable c)
    (chan_ c) (c_refno c) (destroy_wait c) (calls_ c) (xid_rep_window c) d x.
Definition set_chan (c : rpcc) ch refs : rpcc :=
  Rpcc (clt_nonce c) (srv_nonce c) (bind_done c) (xid_ c) (lossytest c) (retrans c) (c_reachable c)
    ch refs (destroy_wait c) (calls_ c) (xid_rep_window c) (dup_req c) (xid_rep_done c).
Definition set_bound (c : rpcc) srv : rpcc :=
  Rpcc (clt_nonce c) srv true (xid_ c) (lossytest c) (retrans c) (c_reachable c)
    (chan_ c) (c_refno c) (destroy_wait c) (calls_ c) (xid_rep_window c) (dup_req c) (xid_rep_done c).
Definition set_destroy (c : rpcc) b : rpcc :=
  Rpcc (clt_nonce c) (srv_nonce c) (bind_done c) (xid_ c) (lossytest c) (retrans c) (c_reachable c)
    (chan_ c) (c_refno c) b (calls_ c) (xid_rep_window c) (dup_req c) (xid_rep_done c).

Definition c_ref (c : rpcc) (ch : conn) : Z := default 0 (c_refno c !! ch).
Definition c_incref (c : rpcc) (ch : conn) : rpcc :=
  set_chan c (chan_ c) (<[ch := c_ref c ch + 1]> (c_refno c)).
Definition c_decref (c : rpcc) (ch : conn) : res rpcc :=
  _ ← VERIFY (0 <=? c_ref c ch - 1);
  Ret (set_chan c (chan_ c) (<[ch := c_ref c ch - 1]> (c_refno c))).

Section client.
Context `{Allocator}.

(** [rpcc::call1] up to the loop: an error code, or the new [xid], the request
    with its header and the acknowledgement it carries. *)
Definition call1_begin (c : rpcc) (proc : Z) (req : marshall)
  : res (rpcc * (Z + Z * marshall * Z)) :=
  if (negb (proc =? rpc_const.bind) && negb (bind_done c)) || ((proc =? rpc_const.bind) && bind_done c)
  then Ret (c, inl rpc_const.bind_failure)
  else if destroy_wait c then Ret (c, inl rpc_const.cancel_failure)
  else
    let xid := xid_ c in
    let c := set_xid c (u32 (xid + 1)) in
    let c := set_calls c (<[s32 xid := Caller unmarshall_new 0 false]> (calls_ c)) in
    match xid_rep_window c with
    | [] => Undef
    | front :: _ =>
        req ← pack_req_header req
                (ReqHeader (s32 xid) (s32 proc) (clt_nonce c) (srv_nonce c) (s32 front));
        Ret (c, inr (xid, req, s32 front))
    end.

(** [rpcc::get_refconn]: [dead] tells whether [chan_] is dead, [fresh] is what
    [connect_to_dst] returns (with one reference). *)
Definition get_refconn (c : rpcc) (ch : option conn) (dead : bool) (fresh : option conn)
  : res (rpcc * option conn) :=
  c ← (if (bool_decide (chan_ c = None) || dead) then
         c ← match chan_ c with Some k => c_decref c k | None => Ret c end;
         Ret (set_chan c fresh
                match fresh with Some k => <[k := 1]> (c_refno c) | None => c_refno c end)
       else Ret c);
  match chan_ c with
  | None => Ret (c, ch)
  | Some k =>
      c ← match ch with Some k' => c_decref c k' | None => Ret c end;
      Ret (c_incref c k, Some k)
  end.

(** The transmission of one turn: an old request may be sent again first when
    the loss test is on. *)
Definition call1_send (c : rpcc) (req : str) : rpcc * list str :=
  if c_reachable c then
    if isvalid (dup_req c) && (rq_id (dup_req c) <? xid_rep_done c)
    then (set_dup c request_none (xid_rep_done c), [rq_buf (dup_req c); req])
    else (c, [req])
  else (c, []).

(** The variables of the loop. *)
Record loop_t := Loop {
  finaldeadline : timespec; curr_to : Z; transmit : bool; l_ch : option conn }.

(** What a turn observes. *)
Record obs := Obs {
  o_dead_chan : bool;       (* chan_->isdead() in get_refconn *)
  o_fresh : option conn;    (* connect_to_dst *)
  o_now : timespec;         (* clock_gettime *)
  o_done : bool;            (* ca.done when the wait ends *)
  o_dead : bool }.          (* ch->isdead() after the wait *)

Definition to_max : Z := 120000.
Definition to_min : Z := 1000.

(** The deadline of the turn's wait, and [finaldeadline] after it was set. *)
Definition deadlines (l : loop_t) (now : timespec) : res (timespec * timespec) :=
  next ← add_timespec now (curr_to l);
  if 0 <? cmp_timespec next (finaldeadline l)
  then Ret (finaldeadline l, Timespec 0 (tv_nsec (finaldeadline l)))
  else Ret (next, finaldeadline l).

(** One turn of the loop: the messages sent, and the next turn's variables, or
    the last connection used when the loop ends. *)
Definition call1_iter (c : rpcc) (l : loop_t) (req : str) (o : obs)
  : res (rpcc * list str * (loop_t + option conn)) :=
  '(c, ch, msgs) ←
    (if transmit l then
       '(c, ch) ← get_refconn c (l_ch l) (o_dead_chan o) (o_fresh o);
       match ch with
       | Some _ => let '(c, msgs) := call1_send c req in Ret (c, ch, msgs)
       | None => Ret (c, ch, [])
       end
     else Ret (c, l_ch l, []));
  if tv_sec (finaldeadline l) =? 0 then Ret (c, msgs, inr ch)
  else
    '(_, final) ← deadlines l (o_now o);
    if o_done o then Ret (c, msgs, inr ch)
    else
      let retransmit := retrans c && (bool_decide (ch = None) || o_dead o) in
      to ← int_chk (curr_to l * 2);
      Ret (c, msgs, inl (Loop final to retransmit ch)).

(** The loop over a list of turns; [None]: still waiting after them. *)
Fixpoint call1_loop (c : rpcc) (l : loop_t) (req : str) (os : list obs)
  : res (rpcc * list str * option (option conn)) :=
  match os with
  | [] => Ret (c, [], None)
  | o :: os =>
      '(c, msgs, r) ← call1_iter c l req o;
      match r with
      | inr ch => Ret (c, msgs, Some ch)
      | inl l => '(c, msgs', r) ← call1_loop c l req os; Ret (c, msgs ++ msgs', r)
      end
  end.

(** Entering the loop at time [now] with the timeout [to]. *)
Definition loop_init (now : timespec) (to : Z) : res loop_t :=
  final ← add_timespec now to;
  Ret (Loop final to_min true None).

(** [rpcc::call1] after the loop: what it returns to [call_m]. *)
Definition call1_end (c : rpcc) (xid xid_rep : Z) (req : str) (ch : option conn)
  : res (rpcc * Z * unmarshall) :=
  match calls_ c !! s32 xid with
  | None => Undef
  | Some ca =>
      let c := set_calls c (delete (s32 xid) (calls_ c)) in
      let c := set_rep_window c (update_xid_rep (xid_rep_window c) xid) in
      let c := if ca_done ca && negb (lossytest c =? 0) then
                 set_dup c (if isvalid (dup_req c) then dup_req c else Request req (s32 xid))
                   (if xid_rep_done c <? xid_rep then xid_rep else xid_rep_done c)
               else c in
      c ← match ch with Some k => c_decref c k | None => Ret c end;
      Ret (c, if ca_done ca then ca_intret ca else rpc_const.timeout_failure, ca_un ca)
  end.

(** [rpcc::got_pdu]. *)
Definition got_pdu (c : rpcc) (b : str) (sz : Z) : res (rpcc * bool) :=
  '(h, rep) ← unpack_reply_header (unmarshall_buf (Some b) sz);
  if negb (u_ok rep) then Ret (c, true)
  else
    let c := set_rep_window c (update_xid_rep (xid_rep_window c) (u32 (rp_xid h))) in
    match calls_ c !! rp_xid h with
    | None => Ret (c, true)
    | Some ca =>
        if negb (ca_done ca) then
          let ca := Caller (take_in (ca_un ca) rep).1 (rp_ret h) true in
          Ret (set_calls c (<[rp_xid h := ca]> (calls_ c)), true)
        else Ret (c, true)
    end.

(** [rpcc::cancel] up to its wait: every pending call fails. *)
Definition cancel (c : rpcc) : rpcc :=
  let c := set_calls c ((fun ca => Caller (ca_un ca) rpc_const.cancel_failure true) <$> calls_ c) in
  if bool_decide (calls_ c = ∅) then c else set_destroy c true.

(** [rpcc::set_reachable], and the destructor; closing the connection is its
    object's business ([Connection]). *)
Definition c_set_reachable (c : rpcc) (r : bool) : rpcc :=
  Rpcc (clt_nonce c) (srv_nonce c) (bind_done c) (xid_ c) (lossytest c) (retrans c) r
    (chan_ c) (c_refno c) (destroy_wait c) (calls_ c) (xid_rep_window c) (dup_req c) (xid_rep_done c).
Definition rpcc_destroy (c : rpcc) : res rpcc :=
  c ← match chan_ c with Some k => c_decref c k | None => Ret c end;
  _ ← VERIFY (bool_decide (calls_ c = ∅));
  Ret c.

(** [rpcc::bind] after its call returned [ret] with the server's nonce [r]. *)
Definition bind_end (c : rpcc) (ret r : Z) : rpcc * Z :=
  if ret =? 0 then (set_bound c (u32 r), ret) else (c, ret).

End client.
