(* ===== verification/RpcClientSpec.v ===== *)
(** * The RPC client: acknowledgements, deadlines, delivery of replies *)

From S2P Require Import Prelude Marshall MarshallSpec RpcStubs RpcServer RpcClient.

(** ** Time *)

(** A point in time, in nanoseconds. *)
Definition ts_ns (t : timespec) : Z := tv_sec t * 1000000000 + tv_nsec t.

(** [add_timespec] stops the carry one step early: a full second of nanoseconds
    is possible. *)
Definition ts_ok (t : timespec) : Prop := 0 <= tv_nsec t <= 1000000000.

Lemma carry_spec fuel sec nsec :
  0 <= nsec -> nsec / 1000000000 <= Z.of_nat fuel ->
  let t := carry fuel sec nsec in ts_ns t = sec * 1000000000 + nsec /\ ts_ok t /\ sec <= tv_sec t.
Proof.
  revert sec nsec. induction fuel as [|fuel IH]; intros sec nsec Hn Hf; simpl.
  - unfold ts_ns, ts_ok. simpl. pose proof (Z.mod_pos_bound nsec 1000000000 ltac:(lia)).
    pose proof (Z.div_mod nsec 1000000000 ltac:(lia)). lia.
  - destruct (Z.ltb_spec 1000000000 nsec).
    + destruct (IH (sec + 1) (nsec - 1000000000)) as (H1 & H2 & H3); [lia| |].
      * replace (nsec - 1000000000) with (nsec + (-1) * 1000000000) by lia.
        rewrite Z.div_add by lia. lia.
      * split_and!; [lia|done|lia].
    + unfold ts_ns, ts_ok. simpl. lia.
Qed.

Lemma add_timespec_spec a b :
  0 <= tv_nsec a -> 0 <= b ->
  exists t, add_timespec a b = Ret t /\ ts_ns t = ts_ns a + b * 1000000 /\ ts_ok t /\ tv_sec a <= tv_sec t.
Proof.
  intros Ha Hb. unfold add_timespec. pose proof (Z.rem_bound_pos b 1000 ltac:(lia) ltac:(lia)).
  pose proof (Z.quot_rem b 1000 ltac:(lia)). pose proof (Z.quot_pos b 1000 ltac:(lia) ltac:(lia)).
  rewrite VERIFY_true by (apply Z.leb_le; lia). rsimpl. eexists. split; [done|].
  set (nsec := tv_nsec a + Z.rem b 1000 * 1000000).
  assert (0 <= nsec / 1000000000) by (apply Z.div_pos; lia).
  destruct (carry_spec (Z.to_nat (nsec / 1000000000)) (tv_sec a + Z.quot b 1000) nsec)
    as (-> & Hok & Hsec); [lia|lia|].
  split_and!; [unfold ts_ns; lia|done|lia].
Qed.

Lemma cmp_timespec_spec a b :
  ts_ok a -> ts_ok b ->
  (0 < cmp_timespec a b -> ts_ns b <= ts_ns a) /\ (cmp_timespec a b <= 0 -> ts_ns a <= ts_ns b).
Proof.
  unfold ts_ok, ts_ns, cmp_timespec. intros Ha Hb.
  destruct (Z.ltb_spec (tv_sec b) (tv_sec a)), (Z.ltb_spec (tv_sec a) (tv_sec b)),
    (Z.ltb_spec (tv_nsec b) (tv_nsec a)), (Z.ltb_spec (tv_nsec a) (tv_nsec b)); lia.
Qed.

(** ** The window of received replies *)

Definition received (w : list Z) (x : Z) : Prop :=
  match w with [] => False | f :: _ => x <= f \/ x ∈ w end.

(** Increasing, inside the range where [front() + 1] does not wrap, and the
    front is the last of a contiguous block. *)
Record rep_ok (w : list Z) : Prop := {
  ro_sorted : StronglySorted Z.le w;
  ro_range : Forall (fun x => 0 <= x < two32 - 1) w;
  ro_gap : forall f, head w = Some f -> f + 1 ∉ w;
  ro_nonempty : w <> [] }.

Lemma insert_xid_elem xid w x : x ∈ insert_xid xid w <-> x = xid \/ x ∈ w.
Proof.
  induction w as [|y w IH]; simpl; [set_solver|].
  destruct (_ <? _); [set_solver|]. rewrite !elem_of_cons, IH. tauto.
Qed.

Lemma insert_xid_sorted xid w : StronglySorted Z.le w -> StronglySorted Z.le (insert_xid xid w).
Proof.
  induction 1 as [|y w Hs IH Hf]; simpl; [by repeat constructor|].
  destruct (Z.ltb_spec xid y).
  - repeat constructor; [done|done|lia|]. eapply Forall_impl; [exact Hf|]. simpl. lia.
  - constructor; [done|]. apply Forall_forall. intros x [->|Hx]%insert_xid_elem; [done|].
    by apply (proj1 (Forall_forall _ _) Hf).
Qed.

Lemma pop_all f p x r :
  0 <= f < two32 - 1 -> x = f + 1 -> x < two32 - 1 -> Forall (fun y => y = f) p ->
  pop_while (p ++ x :: r) x = x :: r.
Proof.
  intros Hf -> Hx Hp. induction Hp as [|y p -> Hp IH]; simpl.
  - rewrite (u32_small (f + 1 + 1)) by lia. rewrite (proj2 (Z.eqb_neq _ _)) by lia. done.
  - rewrite u32_small, Z.eqb_refl by lia. exact IH.
Qed.

(** The loop at [compress]: [p] are the elements already passed over. *)
Lemma compress_from p f its :
  head p = Some f -> f + 1 ∉ p -> StronglySorted Z.le (p ++ its) ->
  Forall (fun x => 0 <= x < two32 - 1) (p ++ its) ->
  let w := fold_left pop_while its (p ++ its) in
  rep_ok w /\ forall x, received w x <-> received (p ++ its) x.
Proof.
  revert p f. induction its as [|x its IH]; intros p f Hf Hg Hs Hr; cbn [fold_left].
  { rewrite app_nil_r in *. split; [|done]. split; [done|done|congruence|by destruct p]. }
  assert (f ∈ p ++ x :: its) as Hin.
  { destruct p; [done|]. injection Hf as ->. set_solver. }
  assert (0 <= f < two32 - 1 /\ 0 <= x < two32 - 1) as [Hfr Hxr].
  { rewrite Forall_forall in Hr. split; apply Hr; [done|set_solver]. }
  destruct (decide (x = f + 1)) as [->|Hne].
  - assert (Forall (fun y => y = f) p) as Hp.
    { apply Forall_forall. intros y Hy. destruct p as [|f' p]; [done|]. injection Hf as ->.
      assert (f <= y).
      { apply elem_of_cons in Hy as [->|Hy]; [lia|]. simpl in Hs.
        apply StronglySorted_inv in Hs as [_ Hs]. rewrite Forall_app in Hs.
        destruct Hs as [Hs _]. by apply (proj1 (Forall_forall _ _) Hs). }
      assert (y <= f + 1). { eapply (StronglySorted_app_1_elem_of Z.le); [exact Hs|done|set_solver]. }
      assert (y <> f + 1) by (intros ->; done). lia. }
    rewrite (pop_all f) by (done || lia).
    destruct (IH [f + 1] (f + 1)) as [H1 H2]; [done| | | |].
    + intros Hx%list_elem_of_singleton. lia.
    + by apply StronglySorted_app_1_r in Hs.
    + rewrite Forall_app in Hr. by destruct Hr as [_ Hr].
    + split; [done|]. intros y. cbn [app] in H2. rewrite H2. unfold received.
      destruct p as [|f' p]; [done|]. injection Hf as ->. simpl. rewrite !elem_of_cons, elem_of_app, elem_of_cons.
      assert (y ∈ p -> y = f).
      { intros Hy. apply Forall_cons in Hp as [_ Hp]. by apply (proj1 (Forall_forall _ _) Hp). }
      assert (y <= f + 1 <-> y <= f \/ y = f + 1) by lia. naive_solver lia.
  - assert (pop_while (p ++ x :: its) x = (p ++ [x]) ++ its) as ->.
    { rewrite <- app_assoc. destruct p as [|f' p]; [done|]. injection Hf as ->. simpl.
      rewrite u32_small by lia. rewrite (proj2 (Z.eqb_neq _ _)) by lia. done. }
    replace (p ++ x :: its) with ((p ++ [x]) ++ its) in * by (by rewrite <- app_assoc).
    apply (IH (p ++ [x]) f); [by destruct p| |done|done].
    rewrite elem_of_app, list_elem_of_singleton. naive_solver lia.
Qed.

Lemma update_xid_rep_spec w xid :
  rep_ok w -> 0 <= xid < two32 - 1 ->
  rep_ok (update_xid_rep w xid) /\
  forall x, received (update_xid_rep w xid) x <-> received w x \/ x = xid.
Proof.
  intros Hw Hx. destruct w as [|f w]; [by destruct Hw|]. simpl.
  destruct (Z.leb_spec xid f).
  { split; [done|]. intros x. unfold received. naive_solver lia. }
  rewrite (proj2 (Z.ltb_ge _ _)) by lia. unfold compress. simpl tail.
  destruct (compress_from [f] f (insert_xid xid w)) as [H1 H2]; [done| | | |].
  - intros Hf%list_elem_of_singleton. lia.
  - simpl. pose proof (insert_xid_sorted xid (f :: w) (ro_sorted _ Hw)) as Hs. simpl in Hs.
    by rewrite (proj2 (Z.ltb_ge _ _)) in Hs by lia.
  - simpl. apply Forall_forall. intros x Hin. 
    pose proof (ro_range _ Hw) as Hall. rewrite Forall_forall in Hall.
    apply elem_of_cons in Hin as [->|[->|Hin]%insert_xid_elem]; [apply Hall; left|done|].
    apply Hall. by right.
  - split; [done|]. intros x. cbn [app] in H2. rewrite H2. unfold received.
    rewrite !elem_of_cons, insert_xid_elem. tauto.
Qed.

(** ** The client as a state machine

    Calls begin, replies to requests already sent arrive in any order and any
    number of times, calls end (with a reply or by timing out), and may be
    cancelled. *)
Section machine.
Context `{Allocator}.

Inductive cevent :=
  | CBegin (xid : Z)        (* a request was given this [xid] *)
  | CReply (xid : Z)        (* a reply with this [xid] was received *)
  | CEnd (xid : Z)          (* the call returned *)
  | COther.

Inductive cl_step : rpcc -> cevent -> rpcc -> Prop :=
  | cs_begin c proc req c' xid req' xr :
      call1_begin c proc req = Ret (c', inr (xid, req', xr)) -> xid_ c < two32 - 2 ->
      cl_step c (CBegin xid) c'
  | cs_refused c proc req c' code :
      call1_begin c proc req = Ret (c', inl code) -> cl_step c COther c'
  | cs_turn c l req o c' msgs r :
      call1_iter c l req o = Ret (c', msgs, r) -> cl_step c COther c'
  | cs_reply c b sz c' r h rep :
      got_pdu c b sz = Ret (c', r) ->
      unpack_reply_header (unmarshall_buf (Some b) sz) = Ret (h, rep) -> u_ok rep = true ->
      0 < u32 (rp_xid h) < xid_ c ->
      cl_step c (CReply (u32 (rp_xid h))) c'
  | cs_garbage c b sz c' r h rep :
      got_pdu c b sz = Ret (c', r) ->
      unpack_reply_header (unmarshall_buf (Some b) sz) = Ret (h, rep) -> u_ok rep = false ->
      cl_step c COther c'
  | cs_end c xid xr req ch c' code u :
      call1_end c xid xr req ch = Ret (c', code, u) -> 0 < xid < xid_ c ->
      cl_step c (CEnd xid) c'
  | cs_cancel c : cl_step c COther (cancel c)
  | cs_bind c ret r : cl_step c COther (bind_end c ret r).1.

Definition cl_init (c : rpcc) : Prop := exists retr rnd lossy, c = rpcc_new retr rnd lossy.

Definition finished (tr : list cevent) (x : Z) : Prop := CReply x ∈ tr \/ CEnd x ∈ tr.

Record cl_inv (tr : list cevent) (c : rpcc) : Prop := {
  ci_rep : rep_ok (xid_rep_window c);
  ci_xid : 0 < xid_ c < two32 - 1;
  ci_below : Forall (fun x => x < xid_ c) (xid_rep_window c);
  ci_nonces : 0 <= clt_nonce c < two32 /\ 0 <= srv_nonce c < two32;
  ci_finished : forall x, 0 < x -> received (xid_rep_window c) x <-> finished tr x }.

(** The fields the acknowledgements depend on. *)
Definition ackpart (c : rpcc) := (xid_ c, xid_rep_window c, clt_nonce c, srv_nonce c).

Lemma cl_inv_other tr c c' :
  cl_inv tr c -> ackpart c' = ackpart c -> cl_inv (tr ++ [COther]) c'.
Proof.
  intros [H1 H2 H3 H4 H5] [= E1 E2 E3 E4]. split; rewrite ?E1, ?E2, ?E3, ?E4; try done.
  intros x Hx. rewrite H5 by done. unfold finished. set_solver.
Qed.

Lemma c_decref_ack c k c' : c_decref c k = Ret c' -> ackpart c' = ackpart c.
Proof. unfold c_decref. intros E. res_inv. by subst. Qed.

Lemma get_refconn_ack c ch dead fresh c' ch' :
  get_refconn c ch dead fresh = Ret (c', ch') -> ackpart c' = ackpart c.
Proof.
  unfold get_refconn. intros E. apply res_bind_Ret_inv in E as (c1 & E1 & E).
  assert (ackpart c1 = ackpart c) as Ha.
  { destruct (_ || dead); [|by injection E1 as ->].
    apply res_bind_Ret_inv in E1 as (c2 & E2 & E1). injection E1 as <-.
    destruct (chan_ c); [by apply c_decref_ack in E2|by injection E2 as ->]. }
  destruct (chan_ c1); [|by injection E as -> _].
  apply res_bind_Ret_inv in E as (c2 & E2 & E). injection E as <- _. rewrite <- Ha.
  destruct ch; [by apply c_decref_ack in E2|by injection E2 as ->].
Qed.

Lemma call1_iter_ack c l req o c' msgs r :
  call1_iter c l req o = Ret (c', msgs, r) -> ackpart c' = ackpart c.
Proof.
  unfold call1_iter. intros E. apply res_bind_Ret_inv in E as ([[c1 ch] ms] & E1 & E).
  assert (ackpart c1 = ackpart c) as Ha.
  { destruct (transmit l); [|by injection E1 as -> _].
    apply res_bind_Ret_inv in E1 as ([c2 ch2] & E2 & E1). apply get_refconn_ack in E2.
    rewrite <- E2. destruct ch2; [|by injection E1 as -> _]. unfold call1_send in E1.
    destruct (c_reachable c2); [|by injection E1 as <- _].
    destruct (_ && _); by injection E1 as <- _. }
  rewrite <- Ha. destruct (tv_sec _ =? 0); [by injection E as -> _ |].
  apply res_bind_Ret_inv in E as ([? ?] & _ & E). destruct (o_done o); [by injection E as -> _ |].
  apply res_bind_Ret_inv in E as (? & _ & E). by injection E as -> _.
Qed.

Lemma cl_inv_received tr c c' e x :
  cl_inv tr c -> 0 < x < xid_ c -> e = CReply x \/ e = CEnd x ->
  xid_ c' = xid_ c -> clt_nonce c' = clt_nonce c -> srv_nonce c' = srv_nonce c ->
  xid_rep_window c' = update_xid_rep (xid_rep_window c) x -> cl_inv (tr ++ [e]) c'.
Proof.
  intros [H1 H2 H3 H4 H5] Hx He E1 E2 E3 Ew.
  destruct (update_xid_rep_spec (xid_rep_window c) x H1) as [Hr Hrec]; [lia|].
  split; rewrite ?E1, ?E2, ?E3, ?Ew; [done|done| |done|].
  - apply Forall_forall. intros y Hy. destruct (decide (y <= 0)); [lia|].
    assert (received (update_xid_rep (xid_rep_window c) x) y) as Hy'.
    { destruct (update_xid_rep (xid_rep_window c) x); [set_solver|by right]. }
    apply Hrec in Hy' as [Hy'| ->]; [|lia]. rewrite Forall_forall in H3.
    destruct (xid_rep_window c) as [|f w]; [done|]. destruct Hy' as [Hle|Hin]; [|by apply H3].
    assert (f < xid_ c) by (apply H3; left). lia.
  - intros y Hy. rewrite Hrec, H5 by done. unfold finished.
    rewrite !elem_of_app, !list_elem_of_singleton. destruct He as [-> | ->]; naive_solver.
Qed.

Lemma cl_inv_reachable tr c : reachable cl_init cl_step tr c -> cl_inv tr c.
Proof.
  apply reachable_invariant; clear tr c.
  - intros c (retr & rnd & lossy & ->). split; simpl.
    + split; [by repeat constructor|repeat constructor; lia| |done].
      intros f [= <-]. by intros ?%list_elem_of_singleton.
    + lia.
    + repeat constructor; lia.
    + split; [|lia]. destruct retr; [apply u32_range|lia].
    + intros x Hx. unfold finished. rewrite list_elem_of_singleton. set_solver by lia.
  - intros tr c e c' Hi Hs. destruct Hs as
      [c proc req c' xid req' xr E Hlt|c proc req c' code E|c l req o c' msgs r E
      |c b sz c' r h rep E Eu Hok Hx|c b sz c' r h rep E Eu Hok|c xid xr req ch c' code u E Hx|c|c ret r].
    + unfold call1_begin in E. destruct (_ || _); [done|]. destruct (destroy_wait c); [done|].
      destruct (xid_rep_window (set_calls _ _)) as [|f w] eqn:Ew; [done|].
      apply res_bind_Ret_inv in E as (m & _ & E). injection E as <- _ _ _.
      destruct Hi as [H1 H2 H3 H4 H5]. simpl in Ew. split; simpl; [done| | |done|].
      * rewrite u32_small by lia. lia.
      * rewrite u32_small by lia. eapply Forall_impl; [exact H3|]. simpl. lia.
      * intros x Hx'. rewrite H5 by done. unfold finished. set_solver.
    + eapply cl_inv_other; [done|]. unfold call1_begin in E. destruct (_ || _); [by injection E as <- |].
      destruct (destroy_wait c); [by injection E as <- |].
      destruct (xid_rep_window (set_calls _ _)); [done|]. by res_inv.
    + eapply cl_inv_other; [done|]. by eapply call1_iter_ack.
    + unfold got_pdu in E. rewrite Eu in E. cbn [mbind res_bind] in E. rewrite Hok in E. cbn [negb] in E.
      apply (cl_inv_received tr c c' _ (u32 (rp_xid h))); [done|done|by left|..];
        (destruct (calls_ _ !! _); [destruct (negb _)|]; by injection E as <- _).
    + unfold got_pdu in E. rewrite Eu in E. cbn [mbind res_bind] in E. rewrite Hok in E.
      injection E as <- _. by eapply cl_inv_other.
    + unfold call1_end in E. destruct (calls_ c !! s32 xid) as [ca|]; [|done].
      apply res_bind_Ret_inv in E as (c1 & E1 & E). injection E as <- _ _.
      assert (ackpart c1 = (xid_ c, update_xid_rep (xid_rep_window c) xid, clt_nonce c, srv_nonce c)) as Ha.
      { transitivity (ackpart (set_rep_window (set_calls c (delete (s32 xid) (calls_ c)))
          (update_xid_rep (xid_rep_window c) xid))); [|done].
        destruct (ca_done ca && _), ch; try (by injection E1 as <-); apply c_decref_ack in E1;
          by rewrite E1. }
      injection Ha as Ha1 Ha2 Ha3 Ha4.
      by apply (cl_inv_received tr c c1 _ xid); [|lia|right|..].
    + eapply cl_inv_other; [done|]. unfold cancel. by destruct (bool_decide _).
    + unfold bind_end. destruct (ret =? 0); [|by eapply cl_inv_other].
      destruct Hi as [H1 H2 H3 H4 H5]. split; simpl; [done|done|done| |].
      * split; [apply H4|apply u32_range].
      * intros x Hx. rewrite H5 by done. unfold finished. set_solver.
Qed.
End machine.

(** ** The loop of [call1] ends *)
Section termination.
Context `{Allocator}.

(** The references [call1] relies on: one of [chan_]'s own, one for [ch]. *)
Definition refs_ok (c : rpcc) (ch : option conn) : Prop :=
  (forall k, chan_ c = Some k -> 1 <= c_ref c k) /\ (forall k, ch = Some k -> 1 <= c_ref c k) /\
  (forall k, chan_ c = Some k -> ch = Some k -> 2 <= c_ref c k).

Lemma c_decref_ok c k :
  1 <= c_ref c k ->
  exists c', c_decref c k = Ret c' /\ chan_ c' = chan_ c /\
    (forall k', c_ref c' k' = if decide (k = k') then c_ref c k' - 1 else c_ref c k') /\
    dom (c_refno c') ⊆ dom (c_refno c).
Proof.
  intros Hr. unfold c_decref. rewrite VERIFY_true by (apply Z.leb_le; lia). rsimpl.
  eexists. split_and!; [done|done| |].
  - intros k'. unfold c_ref at 1. simpl. case_decide; [subst; by rewrite lookup_insert_eq|].
    by rewrite lookup_insert_ne.
  - simpl. rewrite dom_insert. unfold c_ref in Hr.
    destruct (c_refno c !! k) eqn:E; [|simpl in Hr; lia]. apply elem_of_dom_2 in E. set_solver.
Qed.

Lemma c_ref_incref c k k' :
  c_ref (c_incref c k) k' = if decide (k = k') then c_ref c k' + 1 else c_ref c k'.
Proof.
  unfold c_ref at 1, c_incref. simpl. case_decide; [subst; by rewrite lookup_insert_eq|].
  by rewrite lookup_insert_ne.
Qed.

Lemma get_refconn_ok c ch dead fresh :
  refs_ok c ch -> (forall k, fresh = Some k -> k ∉ dom (c_refno c)) ->
  exists c' ch', get_refconn c ch dead fresh = Ret (c', ch') /\ refs_ok c' ch' /\
    (forall k, k ∈ dom (c_refno c') -> k ∈ dom (c_refno c) \/ fresh = Some k).
Proof.
  intros (H1 & H2 & H3) Hf. unfold get_refconn.
  assert (exists c1, (if bool_decide (chan_ c = None) || dead then
      c ← match chan_ c with Some k => c_decref c k | None => Ret c end;
      Ret (set_chan c fresh match fresh with Some k => <[k := 1]> (c_refno c) | None => c_refno c end)
    else Ret c) = Ret c1 /\ refs_ok c1 ch /\
    (forall k, k ∈ dom (c_refno c1) -> k ∈ dom (c_refno c) \/ fresh = Some k)) as (c1 & -> & Hr1 & Hd1).
  { destruct (bool_decide _ || dead); [|exists c; split_and!; [done|done|by left]].
    assert (exists c2, match chan_ c with Some k => c_decref c k | None => Ret c end = Ret c2 /\
      (forall k, ch = Some k -> 1 <= c_ref c2 k) /\ dom (c_refno c2) ⊆ dom (c_refno c))
      as (c2 & -> & Hc2 & Hd2).
    { destruct (chan_ c) as [k|] eqn:Ek; [|by exists c].
      destruct (c_decref_ok c k (H1 k eq_refl)) as (c2 & -> & _ & Hr2 & Hd2). exists c2.
      split_and!; [done| |done]. intros k' ->. rewrite Hr2. case_decide; [subst|by apply H2].
      pose proof (H3 k' eq_refl eq_refl). lia. }
    rsimpl. eexists. split; [done|].
    assert (forall k, ch = Some k -> fresh <> Some k) as Hne.
    { intros k -> Hk. specialize (Hf k Hk). specialize (H2 k eq_refl). unfold c_ref in H2.
      apply not_elem_of_dom in Hf. rewrite Hf in H2. simpl in H2. lia. }
    split.
    - split_and!; simpl.
      + intros k ->. unfold c_ref. simpl. by rewrite lookup_insert_eq.
      + intros k Hk. unfold c_ref. simpl. destruct fresh as [k'|]; [|by apply Hc2].
        rewrite lookup_insert_ne by (intros ->; by apply (Hne k)). by apply Hc2.
      + intros k -> Hk. by destruct (Hne k Hk).
    - intros k. simpl. destruct fresh as [k'|]; [rewrite dom_insert|]; set_solver. }
  rsimpl. destruct Hr1 as (R1 & R2 & R3). destruct (chan_ c1) as [k|] eqn:Ek.
  2:{ exists c1, ch. split_and!; [done| |done]. split_and!; [by rewrite Ek|done|by rewrite Ek]. }
  assert (exists c2, match ch with Some k' => c_decref c1 k' | None => Ret c1 end = Ret c2 /\
    chan_ c2 = Some k /\ 1 <= c_ref c2 k /\ dom (c_refno c2) ⊆ dom (c_refno c1)) as (c2 & -> & Hch & Hr2 & Hd2).
  { destruct ch as [k'|]; [|exists c1; split_and!; by auto].
    destruct (c_decref_ok c1 k' (R2 k' eq_refl)) as (c2 & -> & Hch & Hr2 & Hd2).
    exists c2. split_and!; [done|congruence| |done]. rewrite Hr2. case_decide; [subst|by apply R1].
    pose proof (R3 k eq_refl eq_refl). lia. }
  rsimpl. do 2 eexists. split; [done|]. split.
  - split_and!; simpl; rewrite ?Hch.
    + intros ? [= <-]. rewrite c_ref_incref. case_decide; [lia|done].
    + intros ? [= <-]. rewrite c_ref_incref. case_decide; [lia|done].
    + intros ? [= <-] _. rewrite c_ref_incref. case_decide; [lia|done].
  - intros k'. simpl. rewrite dom_insert. intros [->%elem_of_singleton|Hk']%elem_of_union.
    + apply Hd1, Hd2. unfold c_ref in Hr2. apply elem_of_dom.
      destruct (c_refno c2 !! k); [eauto|simpl in Hr2; lia].
    + by apply Hd1, Hd2.
Qed.

(** Connections made by successive turns are new ones. *)
Fixpoint fresh_conns (used : gset conn) (os : list obs) : Prop :=
  match os with
  | [] => True
  | o :: os =>
      (forall k, o_fresh o = Some k -> k ∉ used) /\
      fresh_conns (match o_fresh o with Some k => {[k]} ∪ used | None => used end) os
  end.

Lemma fresh_conns_mono u u' os : u' ⊆ u -> fresh_conns u os -> fresh_conns u' os.
Proof.
  revert u u'. induction os as [|o os IH]; intros u u' Hu; simpl; [done|]. intros [Hf Hos].
  split; [set_solver|]. eapply IH; [|exact Hos]. destruct (o_fresh o); set_solver.
Qed.

(** A turn that does not end the loop waits until its deadline, so the next one
    starts no earlier: [t] is a lower bound of the clock at the next turn. *)
Fixpoint clock_ok (l : loop_t) (t : Z) (os : list obs) : Prop :=
  match os with
  | [] => True
  | o :: os =>
      t <= ts_ns (o_now o) /\ ts_ok (o_now o) /\
      forall next final, deadlines l (o_now o) = Ret (next, final) ->
        clock_ok (Loop final (curr_to l * 2) true None) (ts_ns next) os
  end.

Lemma deadlines_ext l l' now :
  finaldeadline l = finaldeadline l' -> curr_to l = curr_to l' -> deadlines l now = deadlines l' now.
Proof. unfold deadlines. by intros -> ->. Qed.

Lemma clock_ok_ext l l' t os :
  finaldeadline l = finaldeadline l' -> curr_to l = curr_to l' -> clock_ok l t os -> clock_ok l' t os.
Proof.
  intros E1 E2. destruct os as [|o os]; [done|]. simpl. intros (H1 & H2 & H3).
  split; [done|]. split; [done|]. intros next final E. rewrite <- E2. apply H3.
  by rewrite (deadlines_ext l l').
Qed.

(** One turn, as long as no reference count is wrong. *)
Lemma call1_iter_ok c l req o :
  refs_ok c (l_ch l) -> (forall k, o_fresh o = Some k -> k ∉ dom (c_refno c)) ->
  ts_ok (o_now o) -> 0 <= curr_to l -> curr_to l * 2 < two31 ->
  exists c' msgs r, call1_iter c l req o = Ret (c', msgs, r) /\
    (forall k, k ∈ dom (c_refno c') -> k ∈ dom (c_refno c) \/ o_fresh o = Some k) /\
    match r with
    | inr _ => True
    | inl l' => tv_sec (finaldeadline l) <> 0 /\ refs_ok c' (l_ch l') /\ curr_to l' = curr_to l * 2 /\
        exists next, deadlines l (o_now o) = Ret (next, finaldeadline l')
    end.
Proof.
  intros Hr Hf Hnow Hto Hlim. unfold call1_iter.
  assert (exists c1 ch ms, (if transmit l then
       '(c, ch) ← get_refconn c (l_ch l) (o_dead_chan o) (o_fresh o);
       match ch with
       | Some _ => let '(c, msgs) := call1_send c req in Ret (c, ch, msgs)
       | None => Ret (c, ch, [])
       end
     else Ret (c, l_ch l, [])) = Ret (c1, ch, ms) /\ refs_ok c1 ch /\
     (forall k, k ∈ dom (c_refno c1) -> k ∈ dom (c_refno c) \/ o_fresh o = Some k))
    as (c1 & ch & ms & -> & Hr1 & Hd1).
  { destruct (transmit l); [|exists c, (l_ch l), []; split_and!; [done|done|by left]].
    destruct (get_refconn_ok c (l_ch l) (o_dead_chan o) (o_fresh o) Hr Hf) as (c1 & ch & -> & Hr1 & Hd1).
    rsimpl. destruct ch; [|by do 3 eexists]. unfold call1_send.
    destruct (c_reachable c1); [|by do 3 eexists]. destruct (_ && _); by do 3 eexists. }
  rsimpl. destruct (tv_sec (finaldeadline l) =? 0) eqn:Es; [by do 3 eexists|]. bool_prop.
  destruct (add_timespec_spec (o_now o) (curr_to l)) as (t & Et & _ & _ & _); [apply Hnow|done|].
  assert (exists next final, deadlines l (o_now o) = Ret (next, final)) as (next & final & Ed).
  { unfold deadlines. rewrite Et. rsimpl. destruct (_ <? _); eauto. }
  rewrite Ed. rsimpl. destruct (o_done o); [by do 3 eexists|].
  rewrite int_chk_ok by lia. rsimpl. do 3 eexists. split; [done|]. split; [done|].
  split; [done|]. split; [done|]. simpl. eauto.
Qed.

Lemma deadlines_spec l now :
  ts_ok now -> ts_ok (finaldeadline l) -> 0 <= curr_to l ->
  exists next final, deadlines l now = Ret (next, final) /\
    ((tv_sec final = 0) \/
     (final = finaldeadline l /\ ts_ns next = ts_ns now + curr_to l * 1000000 /\
      ts_ns next <= ts_ns (finaldeadline l))).
Proof.
  intros Hn Hf Hc. unfold deadlines.
  destruct (add_timespec_spec now (curr_to l)) as (t & -> & Ht & Hok & _); [apply Hn|done|]. rsimpl.
  destruct (cmp_timespec_spec t (finaldeadline l) Hok Hf) as [_ Hle].
  destruct (Z.ltb_spec 0 (cmp_timespec t (finaldeadline l))).
  - do 2 eexists. split; [done|]. by left.
  - do 2 eexists. split; [done|]. right. auto.
Qed.

(** A turn that starts after the final deadline was reached ends the loop. *)
Lemma call1_loop_last c l req o os :
  refs_ok c (l_ch l) -> (forall k, o_fresh o = Some k -> k ∉ dom (c_refno c)) -> ts_ok (o_now o) ->
  0 <= curr_to l -> curr_to l * 2 < two31 -> tv_sec (finaldeadline l) = 0 ->
  exists c' msgs ch, call1_loop c l req (o :: os) = Ret (c', msgs, Some ch).
Proof.
  intros Hr Hf Hnow Hto Hlim Hs. simpl.
  destruct (call1_iter_ok c l req o Hr Hf Hnow Hto Hlim) as (c' & ms & r & -> & _ & Hl). rsimpl.
  destruct r as [l'|ch]; [|by do 3 eexists]. by destruct Hl.
Qed.

(** Each turn doubles the time waited: after [n] of them the deadline is past. *)
Lemma call1_loop_ends n c l req t os :
  refs_ok c (l_ch l) -> fresh_conns (dom (c_refno c)) os -> clock_ok l t os ->
  ts_ok (finaldeadline l) -> 0 < curr_to l -> curr_to l * 2 ^ Z.of_nat (n + 2) < two31 ->
  ts_ns (finaldeadline l) < t + curr_to l * (2 ^ Z.of_nat n - 1) * 1000000 ->
  (n + 2 <= length os)%nat ->
  exists c' msgs ch, call1_loop c l req os = Ret (c', msgs, Some ch).
Proof.
  revert n c l t. induction os as [|o os IH]; intros n c l t Hr Hf Hclk Hfin Hto Hlim Hpast Hlen;
    [simpl in Hlen; lia|].
  destruct Hf as [Hf Hfs]. destruct Hclk as (Ht & Hnow & Hnext). simpl.
  rewrite Nat2Z.inj_add, Z.pow_add_r in Hlim by lia. change (2 ^ Z.of_nat 2) with 4 in Hlim.
  assert (0 < 2 ^ Z.of_nat n) as Hpow by (apply Z.pow_pos_nonneg; lia).
  destruct (call1_iter_ok c l req o Hr Hf Hnow) as (c' & ms & r & -> & Hd & Hl); [lia|nia|]. rsimpl.
  destruct r as [l'|ch]; [|by do 3 eexists].
  destruct Hl as (Hsec & Hr' & Hto' & next & Ed).
  assert (fresh_conns (dom (c_refno c')) os) as Hfs'.
  { eapply fresh_conns_mono; [|exact Hfs]. intros k Hk. destruct (Hd k Hk) as [?|E].
    - destruct (o_fresh o); set_solver.
    - rewrite E. set_solver. }
  assert (clock_ok l' (ts_ns next) os) as Hclk'.
  { eapply clock_ok_ext; [| |apply Hnext; exact Ed]; done. }
  destruct (deadlines_spec l (o_now o) Hnow Hfin) as (next' & final & Ed' & Hcase); [lia|].
  rewrite Ed in Ed'. injection Ed' as <- Efinal.
  destruct Hcase as [Hz|(Hfe & Hnx & Hle)].
  - destruct os as [|o' os]; [simpl in Hlen; lia|].
    destruct (call1_loop_last c' l' req o' os) as (c2 & ms2 & ch2 & ->);
      [done|apply Hfs'|apply Hclk'|lia|rewrite Hto'; nia|by rewrite Efinal|by do 3 eexists].
  - destruct n as [|n]; [simpl in Hpast; lia|].
    rewrite Nat2Z.inj_succ, Z.pow_succ_r in Hlim, Hpast, Hpow by lia.
    edestruct (IH n c' l' (ts_ns next)) as (c2 & ms2 & ch2 & ->);
      [done|done|done|by rewrite Efinal, Hfe|lia| | |simpl in Hlen; lia|by do 3 eexists].
    + rewrite Hto', Nat2Z.inj_add, Z.pow_add_r by lia. change (2 ^ Z.of_nat 2) with 4. lia.
    + rewrite Efinal, Hfe, Hto', Hnx. lia.
Qed.
End termination.
