(* ===== verification/Connection.v ===== *)
(** * Connections: [rpc/connection.cc], class [connection]

    A connection turns the byte stream of a non-blocking socket into whole
    messages (PDUs).  The results of [read] and [write] on the socket are
    arguments of the operations; [send] blocks, so it is modelled by what it does
    up to its wait ([send_start]) and after it ([send_end]); the callbacks of the
    poll thread are [read_cb] and [write_cb].  The interest registered with
    [PollMgr] for the descriptor is the pair of flags [cb_rd], [cb_wr]. *)

From S2P Require Import Prelude Marshall.

Definition MAX_PDU : Z := Z.shiftl 10 20.

(** [struct charbuf]. *)
Record charbuf := Charbuf { cb_buf : option str; cb_sz : Z; solong : Z }.
Definition charbuf_new : charbuf := Charbuf None 0 0.

Record connection := Connection {
  dead_ : bool;
  wpdu_ : charbuf;
  rpdu_ : charbuf;
  waiters_ : Z;
  cb_rd : bool;
  cb_wr : bool;
  written : str }.      (* every byte the socket has accepted *)

Definition set_wpdu (c : connection) w : connection :=
  Connection (dead_ c) w (rpdu_ c) (waiters_ c) (cb_rd c) (cb_wr c) (written c).
Definition set_rpdu (c : connection) r : connection :=
  Connection (dead_ c) (wpdu_ c) r (waiters_ c) (cb_rd c) (cb_wr c) (written c).
Definition set_dead (c : connection) : connection :=
  Connection true (wpdu_ c) (rpdu_ c) (waiters_ c) (cb_rd c) (cb_wr c) (written c).
Definition set_cbs (c : connection) rd wr : connection :=
  Connection (dead_ c) (wpdu_ c) (rpdu_ c) (waiters_ c) rd wr (written c).
Definition set_written (c : connection) o : connection :=
  Connection (dead_ c) (wpdu_ c) (rpdu_ c) (waiters_ c) (cb_rd c) (cb_wr c) o.

(** The constructor registers for reading. *)
Definition connection_new : connection := Connection false charbuf_new charbuf_new 0 true false [].

(** ** Writing *)

(** What [write] returns: a number of bytes, or an error. *)
Inductive wr := WBytes (n : Z) | WErr (eagain : bool).

(** [int sz = htonl(wpdu_.sz); bcopy(&sz, wpdu_.buf, 4)]. *)
Definition stamp (b : str) (sz : Z) : res str :=
  _ ← defined (4 <=? Z.of_nat (length b));
  Ret (be32 sz ++ drop 4 b).

Definition writepdu (c : connection) (w : wr) : res (connection * bool) :=
  let p := wpdu_ c in
  _ ← VERIFY (0 <=? solong p);
  if solong p =? cb_sz p then Ret (c, true)
  else
    b ← deref (cb_buf p);
    b ← (if solong p =? 0 then stamp b (cb_sz p) else Ret b);
    match w with
    | WErr eagain =>
        if eagain then Ret (set_wpdu c (Charbuf (Some b) (cb_sz p) (solong p)), true)
        else Ret (set_wpdu c (Charbuf (Some b) 0 (-1)), false)
    | WBytes n =>
        _ ← defined ((0 <=? n) && (n <=? cb_sz p - solong p) && (cb_sz p <=? Z.of_nat (length b)));
        let c := set_written c (written c ++ take (Z.to_nat n) (drop (Z.to_nat (solong p)) b)) in
        Ret (set_wpdu c (Charbuf (Some b) (cb_sz p) (solong p + n)), true)
    end.

(** The end of [send]. *)
Definition send_end (c : connection) : connection * bool :=
  let ret := negb (dead_ c) && (solong (wpdu_ c) =? cb_sz (wpdu_ c)) in
  (set_wpdu c (Charbuf None 0 0), ret).

(** [connection::send(b, sz)] once no other message is being written: it is
    done ([inl]), or waits for [write_cb] ([inr]). *)
Definition send_start (c : connection) (b : str) (sz : Z) (w : wr)
  : res (connection * (bool + unit)) :=
  if dead_ c then Ret (c, inl false)
  else
    let c := set_wpdu c (Charbuf (Some b) sz 0) in
    '(c, ok) ← writepdu c w;
    if negb ok then
      let c := set_cbs (set_dead c) false false in
      let '(c, ret) := send_end c in Ret (c, inl ret)
    else if solong (wpdu_ c) =? cb_sz (wpdu_ c) then
      let '(c, ret) := send_end c in Ret (c, inl ret)
    else Ret (set_cbs c (cb_rd c) true, inr tt).

(** [connection::write_cb]: whether [send_complete_] is signalled. *)
Definition write_cb (c : connection) (w : wr) : res (connection * bool) :=
  _ ← VERIFY (negb (dead_ c));
  if cb_sz (wpdu_ c) =? 0 then Ret (set_cbs c (cb_rd c) false, false)
  else
    '(c, ok) ← writepdu c w;
    if negb ok then Ret (set_dead (set_cbs c false false), true)
    else
      _ ← VERIFY (0 <=? solong (wpdu_ c));
      Ret (c, negb (solong (wpdu_ c) <? cb_sz (wpdu_ c))).

(** ** Reading *)

(** What [read] returns: data, or [n <= 0] with or without [errno == EAGAIN]. *)
Inductive rd := RData (l : str) | RNone (n : Z) (eagain : bool).

Section reading.
Context `{Allocator}.

(** [ntohl] of the four bytes read. *)
Definition ntohl (l : str) : Z :=
  match l with
  | [a; b; c; d] =>
      s32 (((Z_of_byte a * 256 + Z_of_byte b) * 256 + Z_of_byte c) * 256 + Z_of_byte d)
  | _ => 0
  end.

(** The size of a new message: [None] when the connection is to be closed.
    [malloc] of a negative size wraps to a huge or a tiny one. *)
Definition read_size (p : charbuf) (r : rd) : res (option charbuf) :=
  match r with
  | RNone n eagain =>
      if n =? 0 then Ret None else _ ← VERIFY (negb eagain); Ret None
  | RData l =>
      if negb (Z.of_nat (length l) =? 4) then Ret None
      else
        let sz := ntohl l in
        if MAX_PDU <? sz then Ret None
        else
          _ ← VERIFY (bool_decide (cb_buf p = None));
          _ ← VERIFY (-4 <=? sz);
          _ ← defined (0 <=? sz);
          Ret (Some (Charbuf (Some (l ++ fresh 4 (Z.to_nat sz))) sz 4))
  end.

(** [connection::readpdu]: [r1] is the read of the size, [r2] that of the data. *)
Definition readpdu (c : connection) (r1 r2 : rd) : res (connection * bool) :=
  p ← (if cb_sz (rpdu_ c) =? 0 then read_size (rpdu_ c) r1 else Ret (Some (rpdu_ c)));
  match p with
  | None => Ret (c, false)
  | Some p =>
      _ ← defined (0 <=? cb_sz p - solong p);
      match r2 with
      | RNone _ eagain =>
          if eagain then Ret (set_rpdu c p, true)
          else Ret (set_rpdu c (Charbuf None 0 0), false)
      | RData l =>
          b ← deref (cb_buf p);
          let n := Z.of_nat (length l) in
          _ ← defined ((n <=? cb_sz p - solong p) && (cb_sz p <=? Z.of_nat (length b)));
          let b := take (Z.to_nat (solong p)) b ++ l ++ drop (Z.to_nat (solong p + n)) b in
          Ret (set_rpdu c (Charbuf (Some b) (cb_sz p) (solong p + n)), true)
      end
  end.

(** [connection::read_cb]; [consumed] is what [got_pdu] answers.  The result
    says which buffer and size [got_pdu] was given, if it was called. *)
Definition read_cb (c : connection) (r1 r2 : rd) (consumed : bool)
  : res (connection * option (str * Z)) :=
  if dead_ c then Ret (c, None)
  else
    '(c, succ) ←
      (if bool_decide (cb_buf (rpdu_ c) = None) || (solong (rpdu_ c) <? cb_sz (rpdu_ c))
       then readpdu c r1 r2 else Ret (c, true));
    let c := if negb succ then set_dead (set_cbs c false false) else c in
    match cb_buf (rpdu_ c) with
    | Some b =>
        if cb_sz (rpdu_ c) =? solong (rpdu_ c) then
          Ret (if consumed then set_rpdu c (Charbuf None 0 0) else c, Some (b, cb_sz (rpdu_ c)))
        else Ret (c, None)
    | None => Ret (c, None)
    end.

(** [connection::closeconn]. *)
Definition closeconn (c : connection) : connection :=
  if dead_ c then c else set_cbs (set_dead c) false false.

End reading.

(** ** What goes over the wire for a message [b]: its length, then the rest *)
Definition wire (b : str) : str := be32 (Z.of_nat (length b)) ++ drop 4 b.
