(* ===== verification/ConnectionSpec.v ===== *)
(** * Framing: a sent message arrives whole, whatever the socket does *)

From S2P Require Import Prelude Marshall MarshallSpec Connection.

(** ** Sending against a socket *)

(** [write] accepts at most what it is given. *)
Definition clip (rem : Z) (w : wr) : wr :=
  match w with WBytes n => WBytes (Z.max 0 (Z.min n rem)) | WErr e => WErr e end.

Definition left_to_write (c : connection) : Z := cb_sz (wpdu_ c) - solong (wpdu_ c).

(** [send] waiting for [send_complete_], [ws] being the results of [write] in the
    successive callbacks; [None]: still waiting. *)
Fixpoint send_wait (c : connection) (ws : list wr) : res (connection * option bool) :=
  match ws with
  | [] => Ret (c, None)
  | w :: ws =>
      '(c, signalled) ← write_cb c (clip (left_to_write c) w);
      if (signalled : bool) then let '(c, ret) := send_end c in Ret (c, Some ret)
      else send_wait c ws
  end.

(** The whole of [send]. *)
Definition send_run (c : connection) (b : str) (sz : Z) (w : wr) (ws : list wr)
  : res (connection * option bool) :=
  '(c, r) ← send_start c b sz (clip sz w);
  match r with inl ret => Ret (c, Some ret) | inr _ => send_wait c ws end.

(** [k] bytes of the message in [b] have been written, after those of [o]. *)
Definition sending (c : connection) (o b : str) (sz k : Z) : Prop :=
  exists b', wpdu_ c = Charbuf (Some b') sz k /\ dead_ c = false /\ 0 <= k <= sz /\
    written c = o ++ take (Z.to_nat k) (wire (take (Z.to_nat sz) b)) /\
    length b' = length b /\ drop 4 b' = drop 4 b /\ (0 < k -> b' = be32 sz ++ drop 4 b).

Lemma wire_take b sz :
  4 <= sz <= Z.of_nat (length b) ->
  wire (take (Z.to_nat sz) b) = take (Z.to_nat sz) (be32 sz ++ drop 4 b).
Proof.
  intros Hsz. unfold wire. rewrite length_take, Nat.min_l, Z2Nat.id by lia.
  replace (Z.to_nat sz) with (4 + (Z.to_nat sz - 4))%nat by lia.
  rewrite take_app_add', skipn_firstn_comm by done. do 2 f_equal. lia.
Qed.

Lemma take_take_drop {A} (l : list A) n k : take k l ++ take n (drop k l) = take (k + n) l.
Proof.
  revert k. induction l as [|x l IH]; intros [|k]; simpl; rewrite ?take_nil; try done. by rewrite IH.
Qed.

Lemma writepdu_sending c o b sz k w :
  sending c o b sz k -> 4 <= sz <= Z.of_nat (length b) -> k < sz ->
  exists c' ok, writepdu c (clip (sz - k) w) = Ret (c', ok) /\
    match ok with
    | true => exists k', k <= k' /\ sending c' o b sz k' /\
        (forall n, w = WBytes n -> 0 < n -> k < k')
    | false => dead_ c' = false /\ written c' = written c
    end.
Proof.
  intros (b' & Hw & Hd & Hk & Ho & Hlen & Hdrop & Hst) Hsz Hlt. unfold writepdu. rewrite Hw. cbn [solong cb_sz cb_buf].
  rewrite VERIFY_true by (apply Z.leb_le; lia). rsimpl.
  rewrite (proj2 (Z.eqb_neq _ _)) by lia. cbn [deref]. rsimpl.
  assert ((if k =? 0 then stamp b' sz else Ret b') = Ret (be32 sz ++ drop 4 b)) as ->.
  { destruct (Z.eqb_spec k 0); [|by rewrite Hst by lia]. unfold stamp.
    rewrite defined_true by (apply Z.leb_le; lia). rsimpl. by rewrite Hdrop. }
  rsimpl. assert (length (be32 sz ++ drop 4 b) = length b) as Hl.
  { rewrite length_app, length_drop. change (length (be32 sz)) with 4%nat. lia. }
  destruct w as [n|[]]; cbn [clip].
  - set (n' := Z.max 0 (Z.min n (sz - k))).
    rewrite defined_true by (rewrite !andb_true_iff, !Z.leb_le, Hl; lia). rsimpl.
    do 2 eexists. split; [done|]. exists (k + n'). split; [lia|]. split; [|intros ? [= <-]; lia].
    eexists. split_and!; [done|done|lia|lia| |done|by rewrite drop_app_ge|done]. simpl.
    rewrite Ho, wire_take, <- app_assoc by lia. f_equal.
    rewrite take_take, Nat.min_l by lia. rewrite take_take_drop, take_take, Nat.min_l by lia.
    f_equal. lia.
  - do 2 eexists. split; [done|]. exists k. split; [lia|]. split; [|done].
    eexists. split_and!; [done|done|lia|lia|done|done|by rewrite drop_app_ge|done].
  - do 2 eexists. split; [done|]. done.
Qed.

(** What a [send] leaves behind when it returns. *)
Definition send_post (o : str) (m : str) (c' : connection) (ret : option bool) : Prop :=
  exists k, written c' = o ++ take k (wire m) /\ (ret = Some true -> k = length m).

Lemma sending_post c o b sz k :
  sending c o b sz k -> 4 <= sz <= Z.of_nat (length b) ->
  send_post o (take (Z.to_nat sz) b) (send_end c).1 (Some (send_end c).2).
Proof.
  intros (b' & Hw & Hd & Hk & Ho & _) Hsz. exists (Z.to_nat k). unfold send_end. rewrite Hw, Hd. simpl.
  split; [done|]. intros [= E%Z.eqb_eq]. rewrite length_take. lia.
Qed.

Lemma send_wait_post c o b sz k ws :
  sending c o b sz k -> 4 <= sz <= Z.of_nat (length b) -> k < sz ->
  exists c' ret, send_wait c ws = Ret (c', ret) /\ send_post o (take (Z.to_nat sz) b) c' ret.
Proof.
  intros Hs Hsz Hlt. revert c k Hs Hlt. induction ws as [|w ws IH]; intros c k Hs Hlt; simpl.
  { do 2 eexists. split; [done|]. destruct Hs as (b' & _ & _ & _ & Ho & _). by exists (Z.to_nat k). }
  unfold write_cb. destruct (writepdu_sending c o b sz k w Hs Hsz Hlt) as (c' & ok & Ew & Hok).
  destruct (id Hs) as (b' & Hw & Hd & Hk & Ho & _). unfold left_to_write. rewrite Hd, Hw. simpl. rsimpl.
  rewrite (proj2 (Z.eqb_neq _ _)) by lia. rewrite Ew. rsimpl. destruct ok; cbn [negb].
  - destruct Hok as (k' & Hk' & Hs' & _). destruct (id Hs') as (b2 & Hw' & _ & Hk2 & _). rewrite Hw'. simpl.
    rewrite VERIFY_true by (apply Z.leb_le; lia). rsimpl.
    destruct (Z.ltb_spec k' sz); cbn [negb]; [by eapply IH|].
    pose proof (sending_post c' o b sz k' Hs' Hsz) as Hp.
    do 2 eexists. split; [reflexivity|exact Hp].
  - destruct Hok as [Hd' Hwr]. simpl. do 2 eexists. split; [done|]. exists (Z.to_nat k). simpl.
    by rewrite Hwr.
Qed.

Lemma send_run_post c b sz w ws :
  dead_ c = false -> 4 <= sz <= Z.of_nat (length b) ->
  exists c' ret, send_run c b sz w ws = Ret (c', ret) /\
    send_post (written c) (take (Z.to_nat sz) b) c' ret.
Proof.
  intros Hd Hsz. unfold send_run, send_start. rewrite Hd.
  assert (sending (set_wpdu c (Charbuf (Some b) sz 0)) (written c) b sz 0) as Hs.
  { exists b. split_and!; [done|done|lia|lia|by rewrite app_nil_r|done|done|lia]. }
  destruct (writepdu_sending _ _ _ _ _ w Hs Hsz) as (c' & ok & Ew & Hok); [lia|].
  rewrite Z.sub_0_r in Ew. rewrite Ew. rsimpl. destruct ok; cbn [negb].
  - destruct Hok as (k & _ & Hs' & _). destruct (id Hs') as (b' & Hw & Hd' & Hk & _). rewrite Hw. simpl.
    destruct (Z.eqb_spec k sz).
    + pose proof (sending_post c' _ b sz k Hs' Hsz) as Hp.
    do 2 eexists. split; [reflexivity|exact Hp].
    + rsimpl. apply (send_wait_post (set_cbs c' (cb_rd c') true) _ b sz k); [|done|lia].
      destruct Hs' as (b2 & ? & ? & ?). by exists b2.
  - destruct Hok as [Hd' Hwr]. simpl. do 2 eexists. split; [done|]. exists 0%nat. simpl.
    by rewrite Hwr, app_nil_r.
Qed.

(** ** Receiving from a socket *)
Section receive.
Context `{Allocator}.

(** One [read_cb] when the peer's bytes [stream] are still to be read and [a] of
    them have arrived; the kernel hands over what has arrived, the size of a
    message in one piece. *)
Definition recv (c : connection) (stream : str) (a : nat)
  : res (connection * option (str * Z) * str) :=
  let idle := cb_sz (rpdu_ c) =? 0 in
  let a := Nat.min (length stream) (Nat.max (if idle then 4 else 1) a) in
  let n1 := if idle then Nat.min 4 a else 0%nat in
  let room := Z.to_nat (if idle then ntohl (take 4 stream) - 4
                        else cb_sz (rpdu_ c) - solong (rpdu_ c)) in
  let n2 := Nat.min room (a - n1) in
  '(c, d) ← read_cb c (RData (take n1 stream))
              (if bool_decide (n2 = 0%nat) then RNone (-1) true
               else RData (take n2 (drop n1 stream))) true;
  Ret (c, d, drop (n1 + n2) stream).

(** The successive callbacks, and what was delivered. *)
Fixpoint recv_all (c : connection) (stream : str) (arrivals : list nat)
  : res (connection * list (str * Z) * str) :=
  match arrivals with
  | [] => Ret (c, [], stream)
  | a :: arrivals =>
      match stream with
      | [] => Ret (c, [], stream)
      | _ =>
          '(c, d, stream) ← recv c stream a;
          '(c, ds, stream) ← recv_all c stream arrivals;
          Ret (c, match d with Some x => x :: ds | None => ds end, stream)
      end
  end.

(** Messages the framing carries: more than the size field, at most [MAX_PDU]. *)
Definition pdu_ok (m : str) : Prop := 4 < Z.of_nat (length m) <= MAX_PDU.

(** The receiver is between two messages, or has read [j] bytes of the first. *)
Inductive receiving (c : connection) (stream : str) (msgs : list str) : Prop :=
  | rcv_idle : dead_ c = false -> rpdu_ c = Charbuf None 0 0 ->
      stream = concat (wire <$> msgs) -> receiving c stream msgs
  | rcv_mid m rest j junk : dead_ c = false -> msgs = m :: rest -> (4 <= j < length m)%nat ->
      length junk = (length m + 4 - j)%nat ->
      rpdu_ c = Charbuf (Some (take j (wire m) ++ junk)) (Z.of_nat (length m)) (Z.of_nat j) ->
      stream = drop j (wire m) ++ concat (wire <$> rest) -> receiving c stream msgs.

Lemma length_wire m : (4 <= length m)%nat -> length (wire m) = length m.
Proof.
  intros Hm. unfold wire. rewrite length_app, length_drop. change (length (be32 _)) with 4%nat. lia.
Qed.

Lemma ntohl_be32 x : 0 <= x < two31 -> ntohl (be32 x) = x.
Proof.
  intros Hx. unfold ntohl, be32. pose proof (be_val32_enc x []) as E.
  unfold be_val32, be32 in E. simpl in E.
  match goal with |- s32 ?v = _ => assert (v = u32 x) as -> end; [lia|].
  rewrite s32_u32. by apply s32_small; lia.
Qed.

(** Data arriving in the middle of a message. *)
Lemma readpdu_data c m j junk l t r1 :
  rpdu_ c = Charbuf (Some (take j (wire m) ++ junk)) (Z.of_nat (length m)) (Z.of_nat j) ->
  (4 <= j <= length m)%nat -> length junk = (length m + 4 - j)%nat ->
  drop j (wire m) = l ++ t -> (0 < length m)%nat ->
  exists junk', readpdu c r1 (RData l) =
    Ret (set_rpdu c (Charbuf (Some (take (j + length l) (wire m) ++ junk'))
      (Z.of_nat (length m)) (Z.of_nat (j + length l))), true) /\
    length junk' = (length m + 4 - (j + length l))%nat.
Proof.
  intros Hr Hj Hjunk Hl Hm. assert (length (wire m) = length m) as Hw by (apply length_wire; lia).
  assert (length l + length t = length m - j)%nat as Hlen.
  { rewrite <- length_app, <- Hl, length_drop. lia. }
  exists (drop (length l) junk). split; [|rewrite length_drop; lia].
  unfold readpdu. rewrite Hr. simpl. rewrite (proj2 (Z.eqb_neq _ _)) by lia. rsimpl. simpl.
  rewrite (defined_true (0 <=? _)) by (apply Z.leb_le; lia). rsimpl.
  rewrite defined_true.
  2:{ rewrite andb_true_iff, !Z.leb_le, length_app, length_take. lia. }
  rsimpl. do 4 f_equal; [|lia]. f_equal.
  rewrite Nat2Z.id, take_app_le, take_take, Nat.min_l by (rewrite ?length_take; lia).
  rewrite <- Nat2Z.inj_add, Nat2Z.id, drop_app_ge by (rewrite ?length_take; lia).
  rewrite length_take, Hw, Nat.min_l by lia. rewrite app_assoc. f_equal.
  - rewrite <- take_take_drop, Hl, take_app_length. done.
  - f_equal. lia.
Qed.

(** Reading the size of a message, and nothing or something of its data. *)
Lemma readpdu_size c m r2 :
  rpdu_ c = Charbuf None 0 0 -> pdu_ok m ->
  let p := Charbuf (Some (take 4 (wire m) ++ fresh 4 (length m))) (Z.of_nat (length m)) 4 in
  readpdu c (RData (take 4 (wire m))) r2 = readpdu (set_rpdu c p) (RData []) r2.
Proof.
  intros Hr [Hm1 Hm2] p. unfold readpdu at 1. rewrite Hr. cbn [cb_sz Z.eqb]. unfold read_size.
  cbn [cb_buf].
  change (take 4 (wire m)) with (be32 (Z.of_nat (length m))). change (length (be32 _)) with 4%nat.
  cbn [negb Z.of_nat Z.eqb Pos.of_succ_nat Pos.succ Pos.eqb].
  assert (MAX_PDU < two31) by reflexivity.
  rewrite ntohl_be32 by lia. rewrite (proj2 (Z.ltb_ge _ _)) by lia. rsimpl.
  rewrite (VERIFY_true (-4 <=? _)), (defined_true (0 <=? Z.of_nat _)) by (apply Z.leb_le; lia). rsimpl.
  unfold readpdu. cbn [rpdu_ set_rpdu cb_sz p]. rewrite (proj2 (Z.eqb_neq (Z.of_nat (length m)) 0)) by lia.
  rsimpl. rewrite Nat2Z.id. destruct r2 as [l|n []]; reflexivity.
Qed.

(** What [read_cb] does once [readpdu] has succeeded. *)
Lemma read_cb_after c r1 r2 m j junk :
  dead_ c = false -> bool_decide (cb_buf (rpdu_ c) = None) || (solong (rpdu_ c) <? cb_sz (rpdu_ c)) = true ->
  readpdu c r1 r2 = Ret (set_rpdu c (Charbuf (Some (take j (wire m) ++ junk))
    (Z.of_nat (length m)) (Z.of_nat j)), true) ->
  read_cb c r1 r2 true =
    Ret (if decide (j = length m)
         then (set_rpdu c (Charbuf None 0 0), Some (take j (wire m) ++ junk, Z.of_nat (length m)))
         else (set_rpdu c (Charbuf (Some (take j (wire m) ++ junk)) (Z.of_nat (length m)) (Z.of_nat j)),
               None)).
Proof.
  intros Hd Hg E. unfold read_cb. rewrite Hd, Hg, E. rsimpl. simpl.
  case_decide; [rewrite (proj2 (Z.eqb_eq _ _)) by lia|rewrite (proj2 (Z.eqb_neq _ _)) by lia]; done.
Qed.

(** One step of the receiver: it advances, and hands over exactly the first
    message when it is complete. *)
Definition recv_post (c : connection) (stream : str) (msgs : list str) (d : option (str * Z))
    (c' : connection) (stream' : str) : Prop :=
  match d with
  | None => receiving c' stream' msgs /\ (length stream' < length stream)%nat
  | Some (b, sz) => exists m rest slack, msgs = m :: rest /\ b = wire m ++ slack /\ length slack = 4%nat /\
      sz = Z.of_nat (length m) /\ receiving c' stream' rest /\ (length stream' < length stream)%nat
  end.

Lemma receiving_advance c c0 stream m rest j n junk :
  dead_ c = false -> (4 <= j)%nat -> (j + n <= length m)%nat -> pdu_ok m ->
  length junk = (length m + 4 - (j + n))%nat ->
  (length (drop (j + n) (wire m) ++ concat (wire <$> rest)) < length stream)%nat ->
  let r := if decide (j + n = length m)%nat
           then (set_rpdu c (Charbuf None 0 0),
                 Some (take (j + n) (wire m) ++ junk, Z.of_nat (length m)))
           else (set_rpdu c (Charbuf (Some (take (j + n) (wire m) ++ junk)) (Z.of_nat (length m))
                   (Z.of_nat (j + n))), None) in
  recv_post c0 stream (m :: rest) r.2 r.1 (drop (j + n) (wire m) ++ concat (wire <$> rest)).
Proof.
  intros Hd Hj Hn Hm Hjunk Hlt. assert (length (wire m) = length m) as Hw.
  { apply length_wire. unfold pdu_ok in Hm. lia. }
  case_decide as E; simpl.
  - exists m, rest, junk. split_and!; [done| |lia|done| |done].
    + by rewrite take_ge by lia.
    + apply rcv_idle; [done|done|]. by rewrite drop_ge by lia.
  - split; [|done]. eapply (rcv_mid _ _ _ m rest (j + n) junk); [done|done|lia|done|done|done].
Qed.

(** The first read of a message: its size, and [n2] bytes of it. *)
Lemma readpdu_first c m more n2 : rpdu_ c = Charbuf None 0 0 -> pdu_ok m -> (4 + n2 <= length m)%nat ->
  exists junk, readpdu c (RData (take 4 (wire m))) (if bool_decide (n2 = 0%nat) then RNone (-1) true
      else RData (take n2 (drop 4 (wire m ++ more)))) =
    Ret (set_rpdu c (Charbuf (Some (take (4 + n2) (wire m) ++ junk)) (Z.of_nat (length m))
      (Z.of_nat (4 + n2))), true) /\ length junk = (length m + 4 - (4 + n2))%nat.
Proof.
  intros Hr Hm Hn. assert (length (wire m) = length m) as Hw by (apply length_wire; lia).
  rewrite readpdu_size by done. case_bool_decide as E2.
  - rewrite E2. exists (fresh 4 (length m)). split.
    + unfold readpdu. simpl. rewrite (proj2 (Z.eqb_neq _ _)) by lia. rsimpl.
      rewrite (defined_true (0 <=? _)) by (apply Z.leb_le; simpl; lia). done.
    + unfold fresh. rewrite length_fmap, length_seq. lia.
  - rewrite drop_app_le, take_app_le by (rewrite ?length_drop; lia).
    destruct (readpdu_data (set_rpdu c (Charbuf (Some (take 4 (wire m) ++ fresh 4 (length m)))
      (Z.of_nat (length m)) 4)) m 4 (fresh 4 (length m)) (take n2 (drop 4 (wire m)))
      (drop n2 (drop 4 (wire m))) (RData [])) as (junk & E & Hl);
      [done|lia|unfold fresh; rewrite length_fmap, length_seq; lia|by rewrite take_drop|lia|].
    rewrite length_take, length_drop, Nat.min_l in E, Hl by lia. by exists junk.
Qed.

Lemma recv_first c m rest a : dead_ c = false -> rpdu_ c = Charbuf None 0 0 -> pdu_ok m ->
  exists c' d stream', recv c (concat (wire <$> m :: rest)) a = Ret (c', d, stream') /\
    recv_post c (concat (wire <$> m :: rest)) (m :: rest) d c' stream'.
Proof.
  intros Hd Hr Hm. unfold recv. rewrite Hr. cbn [cb_sz solong].
  assert (4 <= length m)%nat by (unfold pdu_ok in Hm; lia).
  rewrite fmap_cons. cbn [concat]. assert (length (wire m) = length m) as Hw by (by apply length_wire).
  change (0 =? 0) with true. cbv iota zeta.
  set (a' := Nat.min (length _) _). assert (4 <= a')%nat by (subst a'; rewrite length_app; lia).
  rewrite (Nat.min_l 4 a'), !take_app_le by lia.
  assert (MAX_PDU < two31) by reflexivity. destruct (id Hm) as [Hm1 Hm2].
  assert (ntohl (take 4 (wire m)) = Z.of_nat (length m)) as ->.
  { change (take 4 (wire m)) with (be32 (Z.of_nat (length m))). apply ntohl_be32. lia. }
  set (n2 := Nat.min _ _). assert (4 + n2 <= length m)%nat by lia.
  destruct (readpdu_first c m (concat (wire <$> rest)) n2 Hr Hm) as (junk & E & Hj); [done|].
  rewrite (read_cb_after c _ _ m (4 + n2) junk Hd); [|by rewrite Hr|exact E]. rsimpl.
  pose proof (receiving_advance c c (wire m ++ concat (wire <$> rest)) m rest 4 n2 junk Hd) as Hp.
  rewrite drop_app_le by lia.
  destruct (decide (4 + n2 = length m)%nat); do 3 eexists; (split; [done|]); apply Hp; try done; try lia;
    rewrite !length_app, length_drop; lia.
Qed.

Lemma recv_more c m rest j junk a : dead_ c = false -> (4 <= j < length m)%nat ->
  length junk = (length m + 4 - j)%nat -> pdu_ok m ->
  rpdu_ c = Charbuf (Some (take j (wire m) ++ junk)) (Z.of_nat (length m)) (Z.of_nat j) ->
  let stream := drop j (wire m) ++ concat (wire <$> rest) in
  exists c' d stream', recv c stream a = Ret (c', d, stream') /\ recv_post c stream (m :: rest) d c' stream'.
Proof.
  intros Hd Hj Hjunk Hm Hr stream. unfold recv, stream. clear stream. rewrite Hr. cbn [cb_sz solong].
  assert (length (wire m) = length m) as Hw by (apply length_wire; lia).
  rewrite (proj2 (Z.eqb_neq (Z.of_nat (length m)) 0)) by lia. cbv iota zeta.
  set (a' := Nat.min (length _) _). rewrite drop_0, Nat.sub_0_r. set (n2 := Nat.min _ a').
  assert (0 < n2 /\ j + n2 <= length m)%nat as [Hn0 Hn2].
  { subst n2 a'. rewrite length_app, length_drop. lia. }
  rewrite (bool_decide_eq_false_2 (n2 = 0%nat)) by lia.
  rewrite (take_app_le _ _ n2) by (rewrite length_drop; lia).
  destruct (readpdu_data c m j junk (take n2 (drop j (wire m))) (drop n2 (drop j (wire m)))
    (RData (take 0 (drop j (wire m) ++ concat (wire <$> rest))))) as (junk' & E & Hl);
    [done|lia|done|by rewrite take_drop|lia|].
  rewrite length_take, length_drop, Nat.min_l in E, Hl by lia.
  rewrite (read_cb_after c _ _ m (j + n2) junk' Hd); [|by rewrite Hr; simpl; apply Z.ltb_lt; lia|exact E].
  rsimpl. pose proof (receiving_advance c c (drop j (wire m) ++ concat (wire <$> rest)) m rest j n2 junk' Hd) as Hp.
  rewrite Nat.add_0_l, drop_app_le, drop_drop by (rewrite length_drop; lia).
  rewrite ?(Nat.add_comm n2 j) in *.
  destruct (decide (j + n2 = length m)%nat); do 3 eexists; (split; [done|]); apply Hp; try done; try lia;
    rewrite !length_app, !length_drop; lia.
Qed.

Lemma recv_ok c stream msgs a :
  receiving c stream msgs -> Forall pdu_ok msgs -> stream <> [] ->
  exists c' d stream', recv c stream a = Ret (c', d, stream') /\ recv_post c stream msgs d c' stream'.
Proof.
  intros [Hd Hr ->|m rest j junk Hd -> Hj Hjunk Hr ->] Hok Hne.
  - destruct msgs as [|m rest]; [done|]. apply Forall_cons in Hok as [Hm _]. by apply recv_first.
  - apply Forall_cons in Hok as [Hm _]. by apply (recv_more c m rest j junk a).
Qed.
End receive.

(** ** The guarantees of the framing *)
Section theorems.
Context `{Allocator}.

Lemma receiving_empty c msgs : receiving c [] msgs -> Forall pdu_ok msgs -> msgs = [].
Proof.
  intros [_ _ E|m rest j junk _ -> Hj _ _ E] Hok.
  - destruct msgs as [|m msgs]; [done|]. apply Forall_cons in Hok as [[Hm _] _].
    apply (f_equal length) in E. simpl in E. rewrite length_app, length_drop in E. lia.
  - apply Forall_cons in Hok as [[Hm _] _]. apply (f_equal length) in E.
    rewrite length_app, length_drop, length_wire in E by lia. simpl in E. lia.
Qed.

(** C4: whatever [write] accepts or refuses, [send] never fails an assertion,
    the bytes it puts on the socket are a prefix of the framed message (its
    length, then its contents), and when it answers [true] they are all of it. *)
Theorem send_writes_frame c b sz w ws :
  dead_ c = false -> 4 <= sz <= Z.of_nat (length b) ->
  exists c' ret k, send_run c b sz w ws = Ret (c', ret) /\
    written c' = written c ++ take k (wire (take (Z.to_nat sz) b)) /\
    (ret = Some true -> written c' = written c ++ wire (take (Z.to_nat sz) b)).
Proof.
  intros Hd Hsz. destruct (send_run_post c b sz w ws Hd Hsz) as (c' & ret & E & k & Hk & Hf).
  exists c', ret, k. split_and!; [done|done|]. intros Ht. rewrite Hk, (Hf Ht), take_ge; [done|].
  rewrite length_wire; rewrite ?length_take; lia.
Qed.

End theorems.

(** C4, witness: a message of six bytes, written in two pieces. *)
Lemma send_writes_frame_witness :
  exists c', send_run connection_new (S! "....ab") 6 (WBytes 4) [WBytes 2] = Ret (c', Some true) /\
    written c' = wire (S! "....ab").
Proof.
  destruct (send_writes_frame connection_new (S! "....ab") 6 (WBytes 4) [WBytes 2])
    as (c' & ret & k & E & _ & Hf); [done|simpl; lia|].
  exists c'. vm_compute in E. injection E as <- <-. split; [vm_compute; reflexivity|].
  exact (Hf eq_refl).
Defined.

