(* ===== verification/RpcSystem.v ===== *)
(** * A remote call, end to end

    [rpcc::call] on one side, [rpcs::dispatch] and a registered method on the
    other, with the framing of [Connection] between them.  [loopback] is the
    transport of an undisturbed network: the request is sent once, dispatched,
    and its reply received before the deadline. *)

From S2P Require Import Prelude Marshall MarshallSpec RpcStubs RpcStubsSpec RpcServer RpcServerSpec.
From S2P Require Import RpcClient RpcClientSpec Connection ConnectionSpec.

Section system.
Context `{Allocator} {St : Type}.
Context (create_time : conn -> Z * Z) (isdead : conn -> bool) (k : conn).

(** What [readpdu] hands over for a message: the frame, in a buffer four bytes
    longer. *)
Definition arrived (b : str) : str := wire b ++ fresh (length b) 4.

Definition loopback : transport (rpcc * rpcs (St := St) * St) := fun st proc req u =>
  let '(c, s, o) := st in
  '(c, r) ← call1_begin c proc req;
  match r with
  | inl code => Ret (c, s, o, code, u)
  | inr (xid, req, xid_rep) =>
      b ← message req;
      '(s, o) ← dispatch create_time isdead (incref s k) o k
                  (unmarshall_buf (Some (arrived b)) (Z.of_nat (length b)));
      match last (sent s) with
      | Some (_, rep) =>
          '(c, _) ← got_pdu c (arrived rep) (Z.of_nat (length rep));
          '(c, code, u) ← call1_end c xid xid_rep b None;
          Ret (c, s, o, code, u)
      | None => Abort
      end
  end.

(** ** The request reaches the server *)

Lemma m_rep_message m c : m_rep m c -> message m = Ret c.
Proof.
  intros (t & Hb & _ & Hi & _). unfold message. rewrite Hb, Hi. cbn [deref]. rsimpl.
  rewrite defined_true; [rsimpl; by rewrite Nat2Z.id, take_app_length|].
  rewrite andb_true_iff, !Z.leb_le, length_app. lia.
Qed.

(** The header fields as they travel. *)
Definition header_bytes (h : req_header) : str :=
  be32 (rq_xid h) ++ be32 (rq_proc h) ++ be32 (s32 (rq_clt_nonce h)) ++
  be32 (s32 (rq_srv_nonce h)) ++ be32 (rq_xid_rep h).

Lemma pack_req_header_rep m pre p h :
  m_rep m (pre ++ p) -> length pre = 24%nat -> Z.of_nat (24 + length p) < PDU_LIMIT ->
  exists m', pack_req_header m h = Ret m' /\ m_rep m' (take 4 pre ++ header_bytes h ++ p).
Proof.
  intros [t Hm] Hpre Hl.
  destruct (pack_req_header_at m (take 4 pre) (drop 4 pre) p t h) as (m' & E & Hm').
  - by rewrite app_assoc, take_drop.
  - rewrite length_take. lia.
  - rewrite length_drop. lia.
  - done.
  - exists m'. split; [done|]. by exists t.
Qed.

Lemma wire_header a x p : length a = 4%nat -> wire (a ++ x ++ p) = be32 (Z.of_nat (length (a ++ x ++ p))) ++ x ++ p.
Proof. intros Ha. unfold wire. by rewrite drop_app_ge, Ha, drop_0 by lia. Qed.

(** The server unpacks the header and is left with the arguments. *)
Lemma arrived_request a p h :
  length a = 4%nat -> req_header_valid h -> Z.of_nat (24 + length p) < PDU_LIMIT ->
  let b := a ++ header_bytes h ++ p in
  exists u, unpack_req_header (unmarshall_buf (Some (arrived b)) (Z.of_nat (length b))) = Ret (h, u) /\
    u_rep u true p.
Proof.
  intros Ha Hh Hl b. assert (length b = 24 + length p)%nat as Hb.
  { subst b. unfold header_bytes. rewrite !length_app. simpl. lia. }
  apply (unpack_req_header_rep _ (be32 (Z.of_nat (length b))) p (fresh (length b) 4)).
  - unfold arrived. subst b. rewrite wire_header by done. cbn [u_buf unmarshall_buf].
    rewrite <- !app_assoc. done.
  - done.
  - simpl. by rewrite Hb.
  - simpl. rewrite Hb. unfold PDU_LIMIT in Hl. lia.
  - done.
  - done.
Qed.

(** And back: the client unpacks the reply. *)
Lemma arrived_reply a x p h :
  length a = 4%nat -> length x = 12%nat -> - two31 <= rp_xid h < two31 -> - two31 <= rp_ret h < two31 ->
  Z.of_nat (24 + length p) < PDU_LIMIT ->
  let b := a ++ (be32 (rp_xid h) ++ be32 (rp_ret h)) ++ x ++ p in
  exists u, unpack_reply_header (unmarshall_buf (Some (arrived b)) (Z.of_nat (length b))) = Ret (h, u) /\
    u_ok u = true /\ u_rep (take_in unmarshall_new u).1 true p.
Proof.
  intros Ha Hx Hxid Hret Hl b.
  assert (length b = 24 + length p)%nat as Hb.
  { subst b. rewrite !length_app. simpl. lia. }
  assert (arrived b = be32 (Z.of_nat (length b)) ++ (be32 (rp_xid h) ++ be32 (rp_ret h)) ++ (x ++ p) ++
    fresh (length b) 4) as Hab.
  { unfold arrived. subst b. rewrite wire_header by done. by rewrite <- !app_assoc. }
  destruct (unpack_reply_header_rep (unmarshall_buf (Some (arrived b)) (Z.of_nat (length b)))
    (be32 (Z.of_nat (length b))) (x ++ p) (fresh (length b) 4) h) as (u & -> & Hsz & Hok & Hbuf).
  - simpl. by rewrite Hab.
  - done.
  - simpl. rewrite Hb, length_app. lia.
  - simpl. rewrite Hb. unfold PDU_LIMIT in Hl. lia.
  - done.
  - done.
  - done.
  - exists u. split_and!; [done|done|]. unfold take_in, u_take_buf. simpl. rewrite Hsz, Hbuf. simpl.
    exists (be32 (Z.of_nat (length b)) ++ (be32 (rp_xid h) ++ be32 (rp_ret h)) ++ x), (fresh (length b) 4).
    simpl. split_and!.
    + rewrite Hab. by rewrite <- !app_assoc.
    + rewrite Hx. done.
    + rewrite Hb, Hx. lia.
    + rewrite Hb. unfold PDU_LIMIT in Hl. lia.
    + apply Z.leb_le. rewrite Hb. change RPC_HEADER_SZ with 24. lia.
Qed.

Lemma okdone_end u : u_rep u true [] -> okdone u = true.
Proof.
  intros (pre & t & _ & Hi & Hs & _ & Hok). unfold okdone. rewrite Hok, Hi, Hs. simpl.
  apply Z.eqb_eq. lia.
Qed.

(** ** What a request leaves alone *)
Definition fixed (s : rpcs (St := St)) := (nonce_ s, procs_ s).

Lemma decref_fixed s c s' : decref s c = Ret s' -> fixed s' = fixed s.
Proof. unfold decref. intros E. res_inv. by subst. Qed.

Lemma save_conn_fixed s clt c s' : save_conn create_time s clt c = Ret s' -> fixed s' = fixed s.
Proof.
  unfold save_conn. intros E. destruct (conns_ s !! clt); [|res_inv; by subst].
  destruct (_ <? 0); res_inv; subst; [|done]. by apply decref_fixed in E0.
Qed.

Lemma begin_fixed s c req s' f h u : dispatch_begin create_time s c req = Ret (s', Run f h u) -> fixed s' = fixed s.
Proof.
  unfold dispatch_begin. intros E. res_inv. destruct x as [h' u'].
  destruct (u_ok u'); cbn [negb] in E; [|res_inv; done]. destruct (negb _ && negb _); [res_inv; done|].
  destruct (procs_ s !! _); [|res_inv]. destruct (negb (rq_clt_nonce h' =? 0)); res_inv.
  - destruct x1 as [[[[ws stat] b1] sz1] hp], x as [[[s2 st2] b2] sz2]. simplify_eq.
    apply save_conn_fixed in E2. assert (fixed x0 = fixed s) as <- by (rewrite E2; by destruct (reply_window_ s !! _)).
    clear E2. destruct st2; res_inv; simplify_eq. by destruct (counting_ x0 =? 0).
  - simplify_eq. cbn [negb] in *. by destruct (counting_ s =? 0).
Qed.

Lemma finish_fixed s c h ret rep s' : dispatch_finish isdead s c h ret rep = Ret s' -> fixed s' = fixed s.
Proof.
  unfold dispatch_finish, m_take_buf, heap_new. intros E. res_inv. destruct x3 as [s2 c2]. res_inv.
  apply decref_fixed in E. rewrite E. assert (fixed s2 = fixed s) as <-.
  { destruct (isdead c && _); res_inv; simplify_eq; [|done]. destruct (conns_ x5 !! _); res_inv; simplify_eq.
    by apply decref_fixed in E7. }
  destruct (rq_clt_nonce h =? 0); res_inv; by simplify_eq.
Qed.

(** ** The server runs a new request *)

(** A request number above all the client's remembered ones is new. *)
Lemma begin_new tr (s : rpcs (St := St)) req h u f :
  srv_inv tr s -> (forall k', 0 <= owed s k') ->
  unpack_req_header req = Ret (h, u) -> u_ok u = true ->
  rq_srv_nonce h = 0 \/ rq_srv_nonce h = nonce_ s -> procs_ s !! rq_proc h = Some f ->
  (rq_clt_nonce h <> 0 -> u32 (rq_xid_rep h) < u32 (rq_xid h) /\
     Forall (fun r => r_xid r < u32 (rq_xid h)) (window_of (reply_window_ s) (rq_clt_nonce h))) ->
  exists s', dispatch_begin create_time (incref s k) k req = Ret (s', Run f h u) /\ sent s' = sent s /\
    forall clt r, r ∈ window_of (reply_window_ s') clt ->
      r ∈ window_of (reply_window_ s) clt \/ (clt = rq_clt_nonce h /\ r_xid r = u32 (rq_xid h)).
Proof.
  intros Hi Ho Eu Hok Hn Hf Hw.
  destruct (dispatch_begin_total create_time tr (incref s k) k req h u) as (s1 & j & E1 & _ & _);
    [done| | |done| |by intros _ Hz; apply Hw|].
  { intros k'. rewrite owed_incref. pose proof (Ho k'). unfold one. case_decide; lia. }
  { rewrite owed_incref. pose proof (Ho k). unfold one. rewrite decide_True by done. lia. }
  { right. right. by exists f. }
  exists s1. destruct (dispatch_begin_spec _ _ _ _ _ _ E1) as (h' & u' & Eu' & Hb).
  rewrite Eu in Eu'. injection Eu' as <- <-.
  destruct Hb as [s' Hbad _|s' b _ _ H1 H2 _|s' f' _ ? Hc Hf'|s' j ws st b1 sz1 hp _ Hz Ek Hst].
  - congruence.
  - simpl in H2. destruct Hn; congruence.
  - simpl in Hf'. rewrite Hf in Hf'. injection Hf' as <-. unfold core in Hc. injection Hc as Hws _ Hs. simpl in Hws, Hs.
    split_and!; [done|done|]. intros clt r Hr. left. by rewrite <- Hws.
  - destruct (Hw Hz) as [Hlt Hwin]. rewrite Forall_forall in Hwin. destruct Hi as (Hwi & Hhi & _).
    destruct (check_inv (reply_window_ s) (rq_clt_nonce h) (u32 (rq_xid h)) (u32 (rq_xid_rep h)) None 0 (s_heap s))
      as (n & st2 & b2 & sz2 & hp2 & Ek2 & Hv & _); [apply Hwi|done|].
    simpl in Ek. rewrite Ek2 in Ek. injection Ek as <- -> -> -> ->.
    inversion Hv as [b sz Hnx Hex|b sz Hne Hall|r b sz Hr Hx Hcb|r Hr Hx Hcb]; subst.
    + destruct Hst as (f' & -> & Hc & Hf'). simpl in Hf'. rewrite Hf in Hf'. injection Hf' as <-.
      unfold core in Hc. injection Hc as Hws _ Hs. split_and!; [done|done|]. intros clt r Hr.
      rewrite Hws, window_of_insert in Hr. destruct (decide (rq_clt_nonce h = clt)) as [<-|]; [|by left].
      apply (check_entries _ _ _ n NEW) in Hr as [->|[Hr _]]; [by right|by left].
    + destruct (window_of (reply_window_ s) (rq_clt_nonce h)) as [|r w]; [done|].
      apply Forall_cons in Hall as [Hr _]. assert (r_xid r < u32 (rq_xid h)) by (apply Hwin; left). lia.
    + specialize (Hwin r Hr). lia.
    + specialize (Hwin r Hr). lia.
Qed.

Lemma owed_nonneg (s : sys (St := St)) : ref_inv s -> forall k', 0 <= owed (srv s) k'.
Proof. intros Hri k'. pose proof (ri_owed _ Hri k'). pose proof (holds_nonneg (running s) k'). lia. Qed.

(** The handler of a new request runs, and its reply is sent; the server is left
    as its own steps leave it. *)
Lemma dispatch_new tr run (s : rpcs (St := St)) o o' req h u (f : handler St) ret rep :
  reachable sys_init (sys_step create_time isdead) tr (Sys s run) ->
  unpack_req_header req = Ret (h, u) -> u_ok u = true ->
  rq_srv_nonce h = 0 \/ rq_srv_nonce h = nonce_ s -> procs_ s !! rq_proc h = Some f ->
  u32 (rq_xid_rep h) < u32 (rq_xid h) ->
  Forall (fun r => r_xid r < u32 (rq_xid h)) (window_of (reply_window_ s) (rq_clt_nonce h)) ->
  isdead k = false -> f o u marshall_new = Ret (o', ret, rep) -> 0 <= ret ->
  forall a4 x8 p, m_rep rep (a4 ++ x8 ++ p) -> length a4 = 4%nat -> length x8 = 8%nat ->
  (12 <= length p)%nat -> Z.of_nat (12 + length p) < PDU_LIMIT ->
  exists s' c' tr', dispatch create_time isdead (incref s k) o k req = Ret (s', o') /\
    sent s' = sent s ++ [(c', a4 ++ (be32 (rq_xid h) ++ be32 ret) ++ p)] /\ fixed s' = fixed s /\
    reachable sys_init (sys_step create_time isdead) tr' (Sys s' run) /\
    forall clt x, x ∈ xids (window_of (reply_window_ s') clt) ->
      x ∈ xids (window_of (reply_window_ s) clt) \/ (clt = rq_clt_nonce h /\ x = u32 (rq_xid h)).
Proof.
  intros Hr Eu Hok Hn Hf Hlt Hw Hdead Hrun Hret a4 x8 p Hrep Ha4 Hx8 Hp Hlim.
  destruct (ref_inv_sys create_time isdead tr (Sys s run) Hr) as [Hi Hri].
  destruct (begin_new tr s req h u f Hi (owed_nonneg (Sys s run) Hri) Eu Hok Hn Hf) as (s1 & E1 & Hs1 & Hwin); [done|].
  assert (reachable sys_init (sys_step create_time isdead) (tr ++ [EvRun h]) (Sys s1 (run ++ [(k, h)]))) as Hr1.
  { eapply reach_step; [exact Hr|]. eapply step_run; [|exact E1]. intros h' u' Eu' _ _. rewrite Eu in Eu'. by injection Eu' as <- _. }
  unfold dispatch. rewrite E1. rsimpl. rewrite Hrun. rsimpl.
  destruct (dispatch_finish_total isdead s1 (run ++ [(k, h)]) k h ret rep (a4 ++ x8 ++ p)) as (s2 & E2);
    [by apply (ref_inv_sys create_time isdead) in Hr1 as [_ ?]|set_solver|done|done|rewrite !length_app; lia|
     rewrite !length_app; lia|done|].
  rewrite E2. rsimpl.
  destruct (dispatch_finish_spec isdead _ _ _ _ _ _ E2) as (rep' & bytes & c' & b & Ep & Em & _ & _ & Hc & _).
  destruct Hrep as [t Hrep].
  destruct (pack_reply_header_at rep a4 x8 p t (ReplyHeader (rq_xid h) ret) Hrep) as (rep2 & Ep2 & Hm2);
    [done|done|lia|]. rewrite Ep in Ep2. injection Ep2 as <-.
  pose proof Em as Em0. rewrite (m_rep_message rep' _ (ex_intro _ t Hm2)) in Em. injection Em as <-.
  exists s2, c', ((tr ++ [EvRun h]) ++ [EvDone h (a4 ++ (be32 (rq_xid h) ++ be32 ret) ++ p)]). split; [done|].
  pose proof (fun clt => finish_core_xids _ _ _ _ _ _ _ clt Hc) as Hx.
  unfold core, finish_core in Hc. injection Hc as _ _ Hs2. split_and!.
  - by rewrite Hs2, Hs1.
  - by rewrite (finish_fixed _ _ _ _ _ _ E2), (begin_fixed _ _ _ _ _ _ _ E1).
  - eapply reach_step; [exact Hr1|]. rewrite <- (app_nil_r run) at 2. eapply step_finish; [exact E2|]. by rewrite Ep.
  - intros clt x. rewrite Hx. unfold xids. rewrite !list_elem_of_fmap. intros (r & -> & Hin).
    destruct (Hwin _ r Hin) as [?|[? ?]]; [left; by exists r|by right].
Qed.

(** ** The client gives the call a number and its header *)

(** What a call leaves alone in the client. *)
Definition cfixed (c : rpcc) := (clt_nonce c, srv_nonce c, bind_done c, destroy_wait c).

Lemma call1_begin_ok trc c proc req pre p :
  cl_inv trc c -> bind_done c = negb (proc =? rpc_const.bind) -> destroy_wait c = false ->
  m_rep req (pre ++ p) -> length pre = 24%nat -> Z.of_nat (24 + length p) < PDU_LIMIT ->
  exists c' req' h, call1_begin c proc req = Ret (c', inr (xid_ c, req', rq_xid_rep h)) /\
    m_rep req' (take 4 pre ++ header_bytes h ++ p) /\ req_header_valid h /\
    calls_ c' !! s32 (xid_ c) = Some (Caller unmarshall_new 0 false) /\
    rq_xid h = s32 (xid_ c) /\ rq_proc h = s32 proc /\ rq_clt_nonce h = clt_nonce c /\
    rq_srv_nonce h = srv_nonce c /\ u32 (rq_xid_rep h) < xid_ c /\
    cfixed c' = cfixed c /\ xid_ c' = u32 (xid_ c + 1).
Proof.
  intros Hi Hb Hd Hreq Hpre Hl. unfold call1_begin.
  rewrite Hb, Hd, (andb_negb_r (negb _)), andb_negb_r. cbn [orb].
  destruct Hi as [Hrep Hxid Hbelow [Hcn Hsn] _]. simpl xid_rep_window.
  destruct (xid_rep_window c) as [|front w] eqn:Ew; [by destruct (ro_nonempty _ Hrep)|].
  set (h := ReqHeader (s32 (xid_ c)) (s32 proc) (clt_nonce c) (srv_nonce c) (s32 front)).
  assert (forall z, - two31 <= s32 z < two31) as Hs32.
  { intros z. unfold s32. pose proof (Z.mod_pos_bound (z + two31) two32). lia. }
  destruct (pack_req_header_rep req pre p h Hreq Hpre Hl) as (req' & Ep & Hm).
  match goal with |- context [pack_req_header req ?x] => change x with h end. rewrite Ep. rsimpl.
  eexists _, req', h. split; [reflexivity|].
  split; [exact Hm|]. split; [split_and!; simpl; try apply Hs32; lia|].
  split; [|split_and!; [done|done|done|done| |done|done]].
  - simpl. by rewrite lookup_insert_eq.
  - simpl. rewrite u32_s32. apply Forall_cons in Hbelow as [Hlt _].
    pose proof (ro_range _ Hrep) as Hr. apply Forall_cons in Hr as [Hr _]. rewrite u32_small; lia.
Qed.

(** The reply reaches the call that waits for it. *)
Lemma reply_delivered trc c xid xr b ca a4 x12 p ret :
  reachable cl_init cl_step trc c -> 0 < xid < xid_ c ->
  calls_ c !! s32 xid = Some ca -> ca_done ca = false -> ca_un ca = unmarshall_new ->
  - two31 <= ret < two31 -> length a4 = 4%nat -> length x12 = 12%nat ->
  Z.of_nat (24 + length p) < PDU_LIMIT ->
  let rep := a4 ++ (be32 (s32 xid) ++ be32 ret) ++ x12 ++ p in
  exists c1 c2 u, got_pdu c (arrived rep) (Z.of_nat (length rep)) = Ret (c1, true) /\
    call1_end c1 xid xr b None = Ret (c2, ret, u) /\ u_rep u true p /\
    reachable cl_init cl_step ((trc ++ [CReply xid]) ++ [CEnd xid]) c2 /\
    cfixed c2 = cfixed c /\ xid_ c2 = xid_ c.
Proof.
  intros Hr Hxid Hca Hnd Hun Hret Ha Hx Hl rep.
  pose proof (ci_xid _ _ (cl_inv_reachable _ _ Hr)) as Hlim.
  assert (- two31 <= s32 xid < two31) as Hs.
  { unfold s32. pose proof (Z.mod_pos_bound (xid + two31) two32). lia. }
  assert (u32 (s32 xid) = xid) as Hu by (rewrite u32_s32; apply u32_small; lia).
  destruct (arrived_reply a4 x12 p (ReplyHeader (s32 xid) ret) Ha Hx Hs Hret Hl) as (u & Eu & Hok & Hrep).
  cbn [rp_xid rp_ret] in Eu. fold rep in Eu.
  assert (exists c1, got_pdu c (arrived rep) (Z.of_nat (length rep)) = Ret (c1, true) /\
    calls_ c1 !! s32 xid = Some (Caller (take_in unmarshall_new u).1 ret true) /\ cfixed c1 = cfixed c /\
    xid_ c1 = xid_ c) as (c1 & E1 & Hc1 & Hf1 & Hx1).
  { unfold got_pdu. rewrite Eu. rsimpl. rewrite Hok. cbn [negb rp_xid rp_ret].
    simpl calls_. rewrite Hca, Hnd, Hun. cbn [negb]. eexists. split_and!; [done| |done|done].
    simpl. by rewrite lookup_insert_eq. }
  assert (reachable cl_init cl_step (trc ++ [CReply xid]) c1) as Hr1.
  { eapply reach_step; [exact Hr|]. rewrite <- Hu. eapply (cs_reply _ _ _ _ _ (ReplyHeader (s32 xid) ret));
      [exact E1|exact Eu|done|simpl; lia]. }
  assert (exists c2, call1_end c1 xid xr b None = Ret (c2, ret, (take_in unmarshall_new u).1) /\
    cfixed c2 = cfixed c /\ xid_ c2 = xid_ c) as (c2 & E2 & Hf2 & Hx2).
  { unfold call1_end. rewrite Hc1. rsimpl. cbn [ca_done ca_intret ca_un]. eexists. split; [done|].
    rewrite <- Hf1, <- Hx1. by destruct (true && _). }
  exists c1, c2, (take_in unmarshall_new u).1. split_and!; [done|done|done| |done|done].
  eapply reach_step; [exact Hr1|]. eapply cs_end; [exact E2|lia].
Qed.

(** ** The whole call *)

(** Client and server in states their own steps reach, on a live connection, the
    client's next request number new to the server; [bound] tells whether the
    client has done its [bind]. *)
Record linked (bound : bool) (c : rpcc) (s : rpcs (St := St)) : Prop := {
  lk_client : exists tr, reachable cl_init cl_step tr c;
  lk_bound : bind_done c = bound;
  lk_alive : destroy_wait c = false;
  lk_server : exists tr run, reachable sys_init (sys_step create_time isdead) tr (Sys s run);
  lk_conn : isdead k = false;
  lk_nonce : srv_nonce c = 0 \/ srv_nonce c = nonce_ s;
  lk_new : Forall (fun x => x < xid_ c) (xids (window_of (reply_window_ s) (clt_nonce c))) }.

(** No request of another client is added to what the server remembers. *)
Definition others_kept (c : rpcc) (s s' : rpcs (St := St)) : Prop :=
  forall clt, clt <> clt_nonce c -> xids (window_of (reply_window_ s') clt) ⊆ xids (window_of (reply_window_ s) clt).

(** They are still so after a call, and one request number has been used. *)
Definition next_call (bound : bool) (c : rpcc) (s : rpcs (St := St)) (c' : rpcc) (s' : rpcs (St := St)) : Prop :=
  linked bound c' s' /\ xid_ c' = xid_ c + 1 /\
  (clt_nonce c' = clt_nonce c /\ (bind_done c = true -> srv_nonce c' = srv_nonce c)) /\ fixed s' = fixed s /\ others_kept c s s'.

(** The transport hands the arguments [p] to the handler, and its reply back. *)
Lemma loopback_ok {R} {MR : Marshal R} {SR : MarshalSpec R} c s o proc f m p r_old o' ret (r : R) :
  linked (negb (proc =? rpc_const.bind)) c s -> xid_ c < two32 - 2 -> 0 <= proc < two31 -> procs_ s !! proc = Some f ->
  m_rep m (fresh 0 24 ++ p) -> Z.of_nat (24 + length p) < PDU_LIMIT ->
  (forall u, u_rep u true p -> exists rep, f o u marshall_new = Ret (o', ret, rep) /\ m_rep rep (fresh 0 24 ++ enc r)) ->
  0 <= ret < two31 -> valid r -> Z.of_nat (24 + length (enc r)) < PDU_LIMIT ->
  exists c' s', call_m loopback (c, s, o) proc m r_old = Ret (c', s', o', ret, r) /\
    next_call (negb (proc =? rpc_const.bind)) c s c' s'.
Proof.
  intros [[trc Hc] Hbd Hdw (trs & run & Hs) Hdead Hn Hw] Hxc Hpr Hf Hm Hla Hrun Hret Hvr Hlr. unfold call_m, loopback.
  pose proof (cl_inv_reachable _ _ Hc) as Hci. pose proof (ci_xid _ _ Hci) as Hxid.
  destruct (call1_begin_ok trc c proc m (fresh 0 24) p Hci Hbd Hdw Hm eq_refl Hla)
    as (c1 & req & h & E1 & Hreq & Hhv & Hca & Hx & Hp & Hcn & Hsn & Hxr & Hf1 & Hx1).
  rewrite u32_small in Hx1 by lia. rewrite E1. rsimpl.
  rewrite (m_rep_message _ _ Hreq). rsimpl.
  destruct (arrived_request (take 4 (fresh 0 24)) p h eq_refl Hhv Hla) as (u & Eu & Hu).
  destruct (Hrun u Hu) as (rep & Ef & Hrep).
  assert (u32 (rq_xid h) = xid_ c) as Hxx by (rewrite Hx, u32_s32; apply u32_small; lia).
  assert (s32 proc = proc) as Hpp by (by apply s32_small; lia).
  edestruct (dispatch_new trs run s o o' _ h u f ret rep Hs Eu) as (s2 & c2 & tr2 & -> & Hsent & Hfix & Hr2 & Hwin);
    [by destruct Hu as (? & ? & ? & ? & ? & ? & ?)|by rewrite Hsn|by rewrite Hp, Hpp|by rewrite Hxx| |done|exact Ef|lia| | | | | |].
  { rewrite Hxx, Hcn. unfold xids in Hw. by rewrite Forall_fmap in Hw. }
  { change (fresh 0 24 ++ enc r) with (take 4 (fresh 0 24) ++ take 8 (drop 4 (fresh 0 24)) ++
      (drop 12 (fresh 0 24) ++ enc r)) in Hrep. exact Hrep. }
  { done. } { done. } { rewrite length_app. simpl. lia. } { rewrite length_app. simpl. lia. }
  rsimpl. rewrite Hsent, last_snoc.
  destruct (reply_delivered (trc ++ [CBegin (xid_ c)]) c1 (xid_ c) (rq_xid_rep h)
    (take 4 (fresh 0 24) ++ header_bytes h ++ p)
    (Caller unmarshall_new 0 false) (take 4 (fresh 0 24)) (drop 12 (fresh 0 24)) (enc r) ret)
    as (c3 & c4 & u2 & Eg2 & Ee & Hu2 & Hr4 & Hf4 & Hx4);
    [by eapply reach_step; [exact Hc|]; eapply cs_begin|lia|done|done|done|lia|done|done|done|].
  rewrite Hx, Eg2. rsimpl. rewrite Ee. rsimpl. rewrite (proj2 (Z.ltb_ge ret 0)) by lia.
  destruct (get_ok r_old u2 r [] ltac:(by rewrite app_nil_r) Hvr) as (u3 & -> & Hu3). rsimpl.
  rewrite (okdone_end u3 Hu3). rsimpl. exists c4, s2. split; [done|].
  rewrite Hf1 in Hf4. unfold cfixed in Hf4. injection Hf4 as Hf4 Hf5 Hf6 Hf7. unfold fixed in Hfix. injection Hfix as Hfx Hfp.
  split_and!; [|lia|done|done|unfold fixed; congruence|].
  2:{ intros clt Hne x Hx2. rewrite Hcn in Hwin. by destruct (Hwin clt x Hx2) as [?|[-> _]]. }
  split.
  - by eexists.
  - congruence.
  - congruence.
  - by do 2 eexists.
  - done.
  - by rewrite Hf5, Hfx.
  - rewrite Hf4, Forall_forall. rewrite Forall_forall in Hw. rewrite Hcn in Hwin.
    intros x [Hin|[_ ->]]%Hwin; [specialize (Hw x Hin)|]; lia.
Qed.

(** Arguments the handler cannot read stop the server: [dispatch] checks that it
    never has to answer [unmarshal_args_failure]. *)
Lemma loopback_bad_args {R} {MR : Marshal R} c s o proc f m p (r_old : R) :
  linked (negb (proc =? rpc_const.bind)) c s -> 0 <= proc < two31 -> procs_ s !! proc = Some f ->
  m_rep m (fresh 0 24 ++ p) -> Z.of_nat (24 + length p) < PDU_LIMIT ->
  (forall u, u_rep u true p -> exists o' rep, f o u marshall_new = Ret (o', rpc_const.unmarshal_args_failure, rep)) ->
  call_m loopback (c, s, o) proc m r_old = Abort.
Proof.
  intros [[trc Hc] Hbd Hdw (trs & run & Hs) _ Hn Hw] Hpr Hf Hm Hla Hrun. unfold call_m, loopback.
  pose proof (cl_inv_reachable _ _ Hc) as Hci. pose proof (ci_xid _ _ Hci) as Hxid.
  destruct (call1_begin_ok trc c proc m (fresh 0 24) p Hci Hbd Hdw Hm eq_refl Hla)
    as (c1 & req & h & E1 & Hreq & Hhv & _ & Hx & Hp & Hcn & Hsn & Hxr & _).
  rewrite E1. rsimpl. rewrite (m_rep_message _ _ Hreq). rsimpl.
  destruct (arrived_request (take 4 (fresh 0 24)) p h eq_refl Hhv Hla) as (u & Eu & Hu).
  assert (u32 (rq_xid h) = xid_ c) as Hxx by (rewrite Hx, u32_s32; apply u32_small; lia).
  destruct (ref_inv_sys create_time isdead trs (Sys s run) Hs) as [Hi Hri].
  destruct (begin_new trs s _ h u f Hi (owed_nonneg (Sys s run) Hri) Eu) as (s1 & E2 & _);
    [by destruct Hu as (? & ? & ? & ? & ? & ? & ?)|by rewrite Hsn|by (rewrite Hp, s32_small by lia)|
     |unfold dispatch; rewrite E2; rsimpl; by destruct (Hrun u Hu) as (o' & rep & ->)].
  intros _. rewrite Hxx, Hcn. unfold xids in Hw. by rewrite Forall_fmap in Hw.
Qed.

Section call.
Context {R : Type} {MR : Marshal R} {SR : MarshalSpec R} (r0 : R).
Context {A : Type} {MA : Marshal A} {SA : MarshalSpec A} (meth : St -> A -> R -> res (St * Z * R)).

(** The adaptor of a method runs it on the arguments sent. *)
Lemma fn_1_ok o a u o' ret r : u_rep u true (enc a) -> valid a -> meth o a r0 = Ret (o', ret, r) ->
  valid r -> Z.of_nat (24 + length (enc r)) < PDU_LIMIT ->
  exists rep, fn_1 r0 meth o u marshall_new = Ret (o', ret, rep) /\ m_rep rep (fresh 0 24 ++ enc r).
Proof.
  intros Hu Hva Hmeth Hvr Hlr. destruct (get_ok dflt u a [] ltac:(by rewrite app_nil_r) Hva) as (u' & Eg & Hu').
  destruct (put_ok marshall_new (fresh 0 24) r marshall_new_rep Hvr Hlr) as (rep & Er & Hrep).
  exists rep. split; [|done]. unfold fn_1. rewrite Eg. rsimpl. rewrite (okdone_end u' Hu'). cbn [negb]. rewrite Hmeth. rsimpl.
  by rewrite Er.
Qed.

(** A call with one argument, of [bind] by a client that is not bound and of any
    other procedure by one that is. *)
Lemma rpc_call1_ok c s o proc a r_old o' ret r :
  linked (negb (proc =? rpc_const.bind)) c s -> xid_ c < two32 - 2 -> 0 <= proc < two31 ->
  procs_ s !! proc = Some (fn_1 r0 meth) ->
  valid a -> Z.of_nat (24 + length (enc a)) < PDU_LIMIT ->
  meth o a r0 = Ret (o', ret, r) -> 0 <= ret < two31 ->
  valid r -> Z.of_nat (24 + length (enc r)) < PDU_LIMIT ->
  exists c' s', call_1 loopback (c, s, o) proc a r_old = Ret (c', s', o', ret, r) /\
    next_call (negb (proc =? rpc_const.bind)) c s c' s'.
Proof.
  intros Hl Hxc Hpr Hf Hva Hla Hmeth Hret Hvr Hlr. unfold call_1.
  destruct (put_ok marshall_new (fresh 0 24) a marshall_new_rep Hva Hla) as (m & -> & Hm). rsimpl.
  eapply loopback_ok; [done..| |done|done|done]. intros u Hu. by eapply fn_1_ok.
Qed.

End call.

(** Two arguments; the client may write an argument in another type, when its
    bytes are those the method reads (an [unsigned] for an [int]). *)
Lemma rpc_call2_ok {R A1 A2 B1 B2} {MR : Marshal R} {SR : MarshalSpec R}
    {M1 : Marshal A1} {M2 : Marshal A2} {S1 : MarshalSpec A1} {S2 : MarshalSpec A2}
    {N1 : Marshal B1} {N2 : Marshal B2} {T1 : MarshalSpec B1} {T2 : MarshalSpec B2}
    (r0 : R) (meth : St -> B1 -> B2 -> R -> res (St * Z * R))
    c s o proc (a1 : A1) (a2 : A2) (b1 : B1) (b2 : B2) r_old o' ret r :
  linked true c s -> xid_ c < two32 - 2 -> proc <> rpc_const.bind -> 0 <= proc < two31 -> procs_ s !! proc = Some (fn_2 r0 meth) ->
  valid a1 -> valid a2 -> valid b1 -> valid b2 -> enc a1 ++ enc a2 = enc b1 ++ enc b2 ->
  Z.of_nat (24 + length (enc a1 ++ enc a2)) < PDU_LIMIT ->
  meth o b1 b2 r0 = Ret (o', ret, r) -> 0 <= ret < two31 ->
  valid r -> Z.of_nat (24 + length (enc r)) < PDU_LIMIT ->
  exists c' s', call_2 loopback (c, s, o) proc a1 a2 r_old = Ret (c', s', o', ret, r) /\ next_call true c s c' s'.
Proof.
  intros Hl Hxc Hproc Hpr Hf Ha1 Ha2 Hb1 Hb2 Henc Hla Hmeth Hret Hvr Hlr. unfold call_2.
  rewrite length_app in Hla.
  destruct (put_ok marshall_new (fresh 0 24) a1 marshall_new_rep Ha1) as (m1 & -> & Hm1); [simpl; lia|]. rsimpl.
  destruct (put_ok m1 _ a2 Hm1 Ha2) as (m2 & -> & Hm2); [rewrite length_app; simpl in *; lia|]. rsimpl.
  rewrite <- app_assoc in Hm2. apply Z.eqb_neq in Hproc.
  pose proof (loopback_ok (R := R) c s o proc (fn_2 r0 meth) m2 (enc a1 ++ enc a2) r_old o' ret r) as Hcall.
  rewrite Hproc in Hcall. apply Hcall; [done|done|done|done|exact Hm2|rewrite length_app; lia| |done|done|done].
  intros u Hu. rewrite Henc in Hu. rewrite fn_2_tuple.
  apply (fn_1_ok r0 (fun s '(a1, a2) => meth s a1 a2) o (b1, b2) u); [done|by split|done|done|done].
Qed.

(** ** Starting a session *)

(** [rpcc::bind]; [r] is what its uninitialised variable holds. *)
Definition bind (st : rpcc * rpcs (St := St) * St) (r : Z) : res (rpcc * rpcs (St := St) * St * Z) :=
  '(c, s, o, ret, r) ← call_1 loopback st rpc_const.bind (SInt 0) (SInt r);
  let '(c, ret) := bind_end c ret (sint_val r) in
  Ret (c, s, o, ret).

(** A server that has been constructed and has registered its methods. *)
Lemma rpcs_new_ok nonce count :
  exists s, rpcs_new (St := St) nonce count = Ret s /\ sys_init (Sys s []) /\ nonce_ s = nonce /\
    (exists s0, nonce_ s0 = nonce /\ procs_ s = {[rpc_const.bind := fn_1 (SInt 0) (rpcbind_meth s0)]}).
Proof.
  unfold rpcs_new, reg1. rewrite VERIFY_true by done. rsimpl. eexists. split_and!; [done| |done|by eexists; split; [|done]].
  split_and!; [done| |done|done|done]. intros a [b Hb]. done.
Qed.

Lemma reg1_ok (s : rpcs (St := St)) proc f :
  sys_init (Sys s []) -> procs_ s !! proc = None ->
  exists s', reg1 s proc f = Ret s' /\ sys_init (Sys s' []) /\ nonce_ s' = nonce_ s /\ procs_ s' = <[proc := f]> (procs_ s).
Proof.
  intros Hs Hp. unfold reg1. rewrite VERIFY_true by (by apply bool_decide_eq_true_2). rsimpl. by eexists.
Qed.

Lemma linked_start (s : rpcs (St := St)) retr rnd lossy :
  sys_init (Sys s []) -> isdead k = false -> linked false (rpcc_new retr rnd lossy) s.
Proof.
  intros Hs Hk. split; [|done|done| |done|by left|].
  - exists []. constructor. by exists retr, rnd, lossy.
  - exists [], []. by constructor.
  - destruct Hs as (Hw & _). simpl in Hw. rewrite Hw. constructor.
Qed.

(** After its [bind] a client knows the server's nonce and may call it. *)
Lemma bind_ok c s o r s0 :
  linked false c s -> xid_ c < two32 - 2 -> procs_ s !! rpc_const.bind = Some (fn_1 (SInt 0) (rpcbind_meth s0)) ->
  nonce_ s0 = nonce_ s -> 0 <= nonce_ s < two32 ->
  exists c' s', bind (c, s, o) r = Ret (c', s', o, 0) /\ next_call true c s c' s' /\ srv_nonce c' = nonce_ s.
Proof.
  intros Hl Hxc Hp Hn0 Hn.
  assert (- two31 <= s32 (nonce_ s) < two31) as Hs32.
  { unfold s32. pose proof (Z.mod_pos_bound (nonce_ s + two31) two32). lia. }
  destruct (rpc_call1_ok (SInt 0) (rpcbind_meth s0) c s o rpc_const.bind (SInt 0) (SInt r) o 0 (SInt (s32 (nonce_ s))))
    as (c1 & s1 & E & Hl1 & Hx1 & Hc1 & Hf1 & Ho1);
    [exact Hl|exact Hxc|done|exact Hp|done|done|unfold rpcbind_meth; simpl; by rewrite Hn0|done|done|done|].
  unfold bind. rewrite E. rsimpl. unfold bind_end. rewrite Z.eqb_refl. simpl sint_val.
  rewrite u32_s32, u32_small by done.
  exists (set_bound c1 (nonce_ s)), s1. split; [done|]. split; [|done].
  split; [|split; [done|]; split; [|done]; split; [apply Hc1|by rewrite (lk_bound _ _ _ Hl)]].
  destruct Hl1 as [[tr Htr] _ Hd Hs Hk _ Hnew]. unfold fixed in Hf1. injection Hf1 as Hf1 _. split; [|done|done|done|done|by right|done].
  exists (tr ++ [COther]). eapply reach_step; [exact Htr|].
  replace (set_bound c1 (nonce_ s)) with (bind_end c1 0 (s32 (nonce_ s))).1; [constructor|].
  unfold bind_end. simpl. by rewrite u32_s32, u32_small.
Qed.
End system.
