(* ===== verification/RpcThms.v ===== *)
(** * The guarantees of the RPC client, alone and against the server *)

From S2P Require Import Prelude Marshall MarshallSpec RpcStubs RpcStubsSpec RpcServer RpcServerSpec.
From S2P Require Import RpcClient RpcClientSpec Connection ConnectionSpec RpcSystem.

Section theorems.
Context `{Allocator}.

(** C7: the acknowledgement a client sends is exact: every request up to the
    front of its window has been answered or given up, and the next one has not. *)
Theorem acks_exact tr c front :
  reachable cl_init cl_step tr c -> head (xid_rep_window c) = Some front ->
  (forall x, 0 < x <= front -> finished tr x) /\ ~ finished tr (front + 1).
Proof.
  intros Hr Hf. destruct (cl_inv_reachable tr c Hr) as [Hrep _ _ _ Hfin].
  destruct (xid_rep_window c) as [|f w] eqn:Ew; [done|]. injection Hf as ->.
  pose proof (ro_range _ Hrep) as Hrg. apply Forall_cons in Hrg as [Hf _]. split.
  - intros x Hx. apply Hfin; [lia|]. left. lia.
  - intros Hfn. apply Hfin in Hfn; [|lia]. destruct Hfn as [?|Hin]; [lia|].
    by apply (ro_gap _ Hrep front eq_refl).
Qed.

(** Every request a client sends is one the server's at-most-once argument
    accepts: read back from the wire, it never acknowledges itself or a later
    request. *)
Theorem client_is_honest tr c proc req pre p :
  reachable cl_init cl_step tr c -> bind_done c = true -> destroy_wait c = false ->
  proc <> rpc_const.bind -> m_rep req (pre ++ p) -> length pre = 24%nat ->
  Z.of_nat (24 + length p) < PDU_LIMIT ->
  exists c' req' xr b, call1_begin c proc req = Ret (c', inr (xid_ c, req', xr)) /\
    message req' = Ret b /\ honest (unmarshall_buf (Some (arrived b)) (Z.of_nat (length b))).
Proof.
  intros Hr Hb Hd Hp Hreq Hpre Hl. pose proof (cl_inv_reachable tr c Hr) as Hi.
  destruct (call1_begin_ok tr c proc req pre p Hi) as (c' & req' & h & E & Hm & Hhv & _ & Hx & _ & _ & _ & Hxr & _);
    [by rewrite Hb, (proj2 (Z.eqb_neq _ _) Hp)|done..|].
  do 4 eexists. split; [exact E|]. split; [by apply m_rep_message|].
  destruct (arrived_request (take 4 pre) p h) as (u & Eu & _); [rewrite length_take; lia|done|done|].
  intros h' u' E' _ _. rewrite Eu in E'. injection E' as <- _.
  rewrite Hx, u32_s32, (u32_small (xid_ c)); [done|]. pose proof (ci_xid _ _ Hi). lia.
Qed.


(** The first reply to a call is the one it returns: a later message,
    whatever it is, leaves the result of an answered call alone. *)
Theorem first_reply_wins c b sz c' r xid ca :
  got_pdu c b sz = Ret (c', r) -> calls_ c !! xid = Some ca -> ca_done ca = true ->
  calls_ c' !! xid = Some ca.
Proof.
  unfold got_pdu. intros E Hca Hd. apply res_bind_Ret_inv in E as ([h rep] & _ & E).
  destruct (u_ok rep); cbn [negb] in E; [|by injection E as <- _]. simpl calls_ in E.
  destruct (calls_ c !! rp_xid h) as [ca'|] eqn:Ex; [|by injection E as <- _].
  destruct (ca_done ca') eqn:Ed; cbn [negb] in E; injection E as <- _; [done|]. simpl.
  rewrite lookup_insert_ne; [done|]. intros Hx. subst xid. congruence.
Qed.
End theorems.

(** ** Concrete runs *)
Module RpcExample.

#[local] Instance zero_alloc : Allocator := fun _ => Ascii.zero.

(** A client bound to a server whose nonce is 42. *)
Definition c0 : rpcc := (bind_end (rpcc_new true 7 0) 0 42).1.

Lemma c0_reachable : reachable cl_init cl_step [COther] c0.
Proof.
  apply (reach_step _ _ [] (rpcc_new true 7 0)); [|apply cs_bind].
  constructor. by exists true, 7, 0.
Qed.

(** C7, witness: nothing finished yet. *)
Lemma acks_exact_witness : ~ finished [COther] 1.
Proof. exact (proj2 (acks_exact [COther] c0 0 c0_reachable eq_refl)). Defined.

(** An instance: the first request of [c0]. *)
Lemma client_is_honest_witness :
  exists c' req' xr b, call1_begin c0 5 marshall_new = Ret (c', inr (1, req', xr)) /\
    message req' = Ret b /\ honest (unmarshall_buf (Some (arrived b)) (Z.of_nat (length b))).
Proof.
  apply (client_is_honest [COther] c0 5 marshall_new (fresh 0 24) []);
    [exact c0_reachable|done|done|done| |done|done].
  rewrite app_nil_r. exact marshall_new_rep.
Defined.

(** Nine turns, two minutes apart, without an answer. *)
Definition slow : list obs :=
  (fun i : nat => Obs false None (Timespec (100 + 200 * Z.of_nat i) 0) false false) <$> seq 0 9.


(** An instance: a call already answered. *)
Lemma first_reply_wins_witness :
  let c := set_calls c0 {[1 := Caller unmarshall_new 5 true]} in
  exists c' r, got_pdu c (be32 12 ++ be32 1 ++ be32 9) 12 = Ret (c', r) /\
    calls_ c' !! 1 = Some (Caller unmarshall_new 5 true).
Proof.
  intros c. destruct (got_pdu c (be32 12 ++ be32 1 ++ be32 9) 12) as [[c' r]| |] eqn:E;
    [|vm_compute in E; discriminate E|vm_compute in E; discriminate E].
  exists c', r. split; [reflexivity|].
  apply (first_reply_wins c _ _ c' r 1 _ E); reflexivity.
Defined.

(** A server with one method, [x |-> x + 1], at procedure 5. *)
Definition incr (o : unit) (x : sint) (_ : sint) : res (unit * Z * sint) :=
  Ret (o, 0, SInt (sint_val x + 1)).
Definition s0 : rpcs (St := unit) :=
  Rpcs 42 ∅ (Heap ∅ 1) ∅ ∅ 0 0 ∅ {[5 := fn_1 (SInt 0) incr]} true [].

Lemma c0_s0_linked : linked (fun _ => (0, 0)) (fun _ => false) 3 true c0 s0.
Proof.
  split; [by eexists; exact c0_reachable|done|done| |done|by right|constructor].
  exists [], []. constructor. split_and!; [done| |done|done|done]. intros a [b Hb]. done.
Qed.

End RpcExample.
