(* ===== verification/RpcNetwork.v ===== *)
(** * A client and a server with a real network between them

    Requests and replies may be lost, duplicated, delayed and reordered; other
    clients use the server at the same time.  Everything a side ever sent may be
    delivered at any time, any number of times, or never.  A client's call that
    returns a result was executed exactly once, and returns the reply of that
    execution. *)

From S2P Require Import Prelude Marshall MarshallSpec RpcStubs RpcStubsSpec RpcServer RpcServerSpec.
From S2P Require Import RpcClient RpcClientSpec Connection ConnectionSpec RpcSystem.

Section network.
Context `{AL : Allocator} {St : Type}.
Context (create_time : conn -> Z * Z) (isdead : conn -> bool).
(** [peer k]: the nonce of the client at the other end of connection [k]. *)
Context (peer : conn -> Z).

(** The client, the server with its running handlers, and the requests the client
    has sent so far; the replies sent so far are in [sent]. *)
Record net := Net { clt : rpcc; nsv : sys (St := St); inflight : list str }.

Definition received (b : str) : unmarshall := unmarshall_buf (Some (arrived b)) (Z.of_nat (length b)).

(** What [readpdu] may hand to the server on connection [k]: one of the client's
    messages, or another client's request, which carries its own nonce. *)
Definition arrives (n : net) (k : conn) (req : unmarshall) : Prop :=
  if decide (peer k = clt_nonce (clt n)) then exists b, b ∈ inflight n /\ req = received b
  else honest req /\
    forall h u, unpack_req_header req = Ret (h, u) -> u_ok u = true -> rq_clt_nonce h = peer k.

Inductive nevent := NC (e : cevent) | NS (e : event).
Definition nc (e : nevent) : option cevent := match e with NC e => Some e | NS _ => None end.
Definition ns (e : nevent) : option event := match e with NS e => Some e | NC _ => None end.
Definition clt_events (tr : list nevent) : list cevent := omap nc tr.
Definition srv_events (tr : list nevent) : list event := omap ns tr.

Inductive net_step : net -> nevent -> net -> Prop :=
  | ns_call c s ms proc req p c' xid req' xr b :
      m_rep req (fresh 0 24 ++ p) -> Z.of_nat (24 + length p) < PDU_LIMIT -> xid_ c < two32 - 2 ->
      call1_begin c proc req = Ret (c', inr (xid, req', xr)) -> message req' = Ret b ->
      net_step (Net c s ms) (NC (CBegin xid)) (Net c' s (ms ++ [b]))
  | ns_turn c s ms l req o c' msgs r :
      req ∈ ms -> call1_iter c l req o = Ret (c', msgs, r) ->
      net_step (Net c s ms) (NC COther) (Net c' s (ms ++ msgs))
  | ns_run c s run ms k req s' f h args :
      arrives (Net c (Sys s run) ms) k req ->
      dispatch_begin create_time (incref s k) k req = Ret (s', Run f h args) ->
      net_step (Net c (Sys s run) ms) (NS (EvRun h)) (Net c (Sys s' (run ++ [(k, h)])) ms)
  | ns_skip c s run ms k req s' :
      arrives (Net c (Sys s run) ms) k req ->
      dispatch_begin create_time (incref s k) k req = Ret (s', Finished) ->
      net_step (Net c (Sys s run) ms) (NS EvSkip) (Net c (Sys s' run) ms)
  | ns_finish c s run1 run2 ms k h ret rep content reply s' :
      m_rep rep content -> (24 <= length content)%nat -> Z.of_nat (length content) < PDU_LIMIT -> ret < two31 ->
      dispatch_finish isdead s k h ret rep = Ret s' ->
      (rep' ← pack_reply_header rep (ReplyHeader (rq_xid h) ret); message rep') = Ret reply ->
      net_step (Net c (Sys s (run1 ++ (k, h) :: run2)) ms) (NS (EvDone h reply)) (Net c (Sys s' (run1 ++ run2)) ms)
  | ns_reply c s run ms k b c' r h u :
      (k, b) ∈ sent s -> peer k = clt_nonce c ->
      unpack_reply_header (received b) = Ret (h, u) ->
      got_pdu c (arrived b) (Z.of_nat (length b)) = Ret (c', r) ->
      net_step (Net c (Sys s run) ms) (NC (if u_ok u then CReply (u32 (rp_xid h)) else COther)) (Net c' (Sys s run) ms)
  | ns_end c s ms xid xr req ch c' code u :
      req ∈ ms -> 0 < xid < xid_ c -> call1_end c xid xr req ch = Ret (c', code, u) ->
      net_step (Net c s ms) (NC (CEnd xid)) (Net c' s ms)
  | ns_cancel c s ms : net_step (Net c s ms) (NC COther) (Net (cancel c) s ms)
  | ns_bind c s ms ret r : net_step (Net c s ms) (NC COther) (Net (bind_end c ret r).1 s ms).

Definition net_init (n : net) : Prop :=
  cl_init (clt n) /\ sys_init (nsv n) /\ sent (srv (nsv n)) = [] /\ inflight n = [].

(** ** Messages *)

(** A request of the client [c]: its nonce, a number it has used, and an
    acknowledgement of earlier ones. *)
Definition request_ok (c : rpcc) (b : str) : Prop :=
  exists a p h, b = a ++ header_bytes h ++ p /\ length a = 4%nat /\ req_header_valid h /\
    Z.of_nat (24 + length p) < PDU_LIMIT /\ rq_clt_nonce h = clt_nonce c /\
    0 < u32 (rq_xid h) < xid_ c /\ u32 (rq_xid_rep h) < u32 (rq_xid h).

(** A reply to request [x] with the code [code] and the results [p]. *)
Definition reply_to (b : str) (x code : Z) (p : str) : Prop :=
  exists a x12, length a = 4%nat /\ length x12 = 12%nat /\ Z.of_nat (24 + length p) < PDU_LIMIT /\
    b = a ++ (be32 x ++ be32 code) ++ x12 ++ p.

Lemma reply_packed rep content h code b :
  m_rep rep content -> (24 <= length content)%nat -> Z.of_nat (length content) < PDU_LIMIT ->
  (rep' ← pack_reply_header rep (ReplyHeader (rq_xid h) code); message rep') = Ret b ->
  exists p, reply_to b (rq_xid h) code p.
Proof.
  intros [t Hm] Hlen Hlim E.
  assert (content = take 4 content ++ take 8 (drop 4 content) ++ drop 12 content) as Ec.
  { rewrite <- (take_drop 4 content) at 1. f_equal. rewrite <- (take_drop 8 (drop 4 content)) at 1. f_equal. by rewrite drop_drop. }
  rewrite Ec in Hm.
  destruct (pack_reply_header_at rep (take 4 content) (take 8 (drop 4 content)) (drop 12 content) t
    (ReplyHeader (rq_xid h) code) Hm) as (rep' & Ep & Hm');
    [rewrite length_take; lia|rewrite length_take, length_drop; lia|rewrite length_drop; lia|].
  rewrite Ep in E. cbn [mbind res_bind] in E. rewrite (m_rep_message rep' _ (ex_intro _ t Hm')) in E. injection E as <-.
  exists (drop 24 content), (take 4 content), (take 12 (drop 12 content)). split_and!.
  - rewrite length_take. lia.
  - rewrite length_take, length_drop. lia.
  - rewrite length_drop. lia.
  - simpl. do 2 f_equal. rewrite <- (take_drop 12 (drop 12 content)) at 1. by rewrite drop_drop.
Qed.

(** The client reads it back. *)
Lemma reply_read b x code p :
  reply_to b x code p -> - two31 <= x < two31 -> - two31 <= code < two31 ->
  exists u, unpack_reply_header (received b) = Ret (ReplyHeader x code, u) /\ u_ok u = true /\
    u_rep (take_in unmarshall_new u).1 true p.
Proof.
  intros (a & x12 & Ha & Hx & Hl & ->) Hr Hc.
  exact (arrived_reply a x12 p (ReplyHeader x code) Ha Hx Hr Hc Hl).
Qed.

Lemma request_read c b :
  request_ok c b -> exists h u, unpack_req_header (received b) = Ret (h, u) /\ req_header_valid h /\
    rq_clt_nonce h = clt_nonce c /\ 0 < u32 (rq_xid h) < xid_ c /\ u32 (rq_xid_rep h) < u32 (rq_xid h).
Proof.
  intros (a & p & h & -> & Ha & Hv & Hl & Hn & Hx & Hr).
  destruct (arrived_request a p h Ha Hv Hl) as (u & E & _). by exists h, u.
Qed.

Lemma call1_begin_inv c proc req c' r :
  call1_begin c proc req = Ret (c', inr r) -> bind_done c = negb (proc =? rpc_const.bind) /\ destroy_wait c = false.
Proof.
  unfold call1_begin. destruct (proc =? rpc_const.bind), (bind_done c); simpl; try done; by destruct (destroy_wait c).
Qed.

(** ** What a request does to the server's connections and replies *)

Lemma decref_conns (s : rpcs (St := St)) k s' : decref s k = Ret s' -> conns_ s' = conns_ s.
Proof. apply decref_Ret. Qed.

Lemma save_conns (s : rpcs (St := St)) clt k s' :
  save_conn create_time s clt k = Ret s' -> conns_ s' = conns_ s \/ conns_ s' = <[clt := k]> (conns_ s).
Proof.
  unfold save_conn. intros E. destruct (conns_ s !! clt); [|res_inv; subst; by right].
  destruct (_ <? 0); res_inv; subst; [right|by left]. simpl. by rewrite (decref_conns _ _ _ E0).
Qed.

Lemma begin_conns (s : rpcs (St := St)) k req s' j h u :
  dispatch_begin create_time s k req = Ret (s', j) -> unpack_req_header req = Ret (h, u) ->
  conns_ s' = conns_ s \/ (u_ok u = true /\ conns_ s' = <[rq_clt_nonce h := k]> (conns_ s)).
Proof.
  unfold dispatch_begin. intros E Eu. rewrite Eu in E. cbn [mbind res_bind] in E.
  destruct (u_ok u); cbn [negb] in E; [|res_inv; subst; left; by apply decref_conns in E0].
  destruct (negb _ && negb _); [res_inv; subst; by left|].
  destruct (procs_ s !! _); [|res_inv]. destruct (negb (rq_clt_nonce h =? 0)); res_inv.
  - destruct x1 as [[[[ws stat] b1] sz1] hp], x as [[[s2 st2] b2] sz2]. simplify_eq. apply save_conns in E1.
    assert (conns_ x0 = conns_ s \/ (true = true /\ conns_ x0 = <[rq_clt_nonce h := k]> (conns_ s))) as Hx0.
    { destruct E1 as [-> | ->]; [left|right]; by destruct (reply_window_ s !! _). }
    assert (conns_ s' = conns_ x0) as ->; [|done]. clear E1 Hx0.
    destruct st2; res_inv; subst;
      repeat match goal with Ed : decref _ _ = Ret _ |- _ => apply decref_conns in Ed; simpl in Ed end; try done.
    by destruct (counting_ x0 =? 0).
  - simplify_eq. left. by destruct (counting_ s =? 0).
Qed.

(** The server sends the stored reply of an execution, or a failure. *)
Definition failure_reply (h : req_header) (b : str) : Prop :=
  exists code, - two31 <= code < 0 /\
    (rep ← pack_reply_header marshall_new (ReplyHeader (rq_xid h) code); message rep) = Ret b.

Lemma begin_sent tr (s : rpcs (St := St)) k req s' j h u :
  srv_inv tr s -> honest req -> dispatch_begin create_time (incref s k) k req = Ret (s', j) ->
  unpack_req_header req = Ret (h, u) ->
  sent s' = sent s \/ (u_ok u = true /\ exists b, sent s' = sent s ++ [(k, b)] /\
    (failure_reply h b \/ replied tr (rq_clt_nonce h) (u32 (rq_xid h)) b)).
Proof.
  intros Hi Hh E Eu. destruct (dispatch_begin_spec _ _ _ _ _ _ E) as (h' & u' & Eu' & Hb).
  rewrite Eu in Eu'. injection Eu' as <- <-.
  destruct Hb as [s' Hbad Hc|s' b Hok Hc _ _ Em|s' f Hok _ Hc _|s' j ws st b1 sz1 hp Hok Hz Ek Hst].
  - left. by injection Hc.
  - right. split; [done|]. exists b. split; [by injection Hc|]. left. exists rpc_const.oldsrv_failure. by split.
  - left. by injection Hc.
  - destruct (check_total tr (incref s k) (rq_clt_nonce h) (u32 (rq_xid h)) (u32 (rq_xid_rep h)) Hi (Hh _ _ Eu Hok Hz))
      as (ws2 & st2 & b2 & sz2 & hp2 & Ek2 & _ & Hd). rewrite Ek in Ek2. injection Ek2 as <- <- <- <- <-.
    destruct st.
    + destruct Hst as (f & _ & Hc & _). left. by injection Hc.
    + destruct Hst as (_ & Hc). left. by injection Hc.
    + destruct Hst as (b & _ & Hl & Hc). right. split; [done|]. exists b. split; [by injection Hc|right].
      destruct Hd as (b' & Hl' & Hrep); [done|]. rewrite Hl in Hl'. by injection Hl' as <-.
    + destruct Hst as (b & _ & Em & Hc). right. split; [done|]. exists b. split; [by injection Hc|left].
      exists rpc_const.atmostonce_failure. by split.
Qed.

(** ** The invariant *)

(** A request header of the client with nonce [nonce] that has used the numbers
    below [xid]. *)
Definition ours (nonce xid : Z) (h : req_header) : Prop :=
  rq_clt_nonce h = nonce -> - two31 <= rq_xid h < two31 /\ 0 < u32 (rq_xid h) < xid.

(** The server's side: what runs came from its own connection, and what was sent
    answers a request of the client at the other end. *)
Record srv_part (nonce xid : Z) (tr : list event) (s : sys (St := St)) : Prop := {
  sp_run : forall k h, (k, h) ∈ running s -> peer k = rq_clt_nonce h /\ EvRun h ∈ tr;
  sp_ours : forall h, EvRun h ∈ tr -> ours nonce xid h;
  sp_conns : forall clt k, conns_ (srv s) !! clt = Some k -> peer k = clt;
  sp_done : forall h b, EvDone h b ∈ tr -> EvRun h ∈ tr /\ exists code p, 0 <= code < two31 /\ reply_to b (rq_xid h) code p;
  sp_sent : forall k b, (k, b) ∈ sent (srv s) -> exists h, rq_clt_nonce h = peer k /\ ours nonce xid h /\
    (EvDone h b ∈ tr \/ exists code p, - two31 <= code < 0 /\ reply_to b (rq_xid h) code p) }.

(** The client's side: its requests, and what its calls have received. *)
Definition answered (tr : list event) (nonce x : Z) (ca : caller) : Prop :=
  exists h b p, EvDone h b ∈ tr /\ rq_clt_nonce h = nonce /\ rq_xid h = x /\
    reply_to b x (ca_intret ca) p /\ u_rep (ca_un ca) true p.

Record clt_part (tr : list event) (c : rpcc) (ms : list str) : Prop := {
  cp_req : forall b, b ∈ ms -> request_ok c b;
  cp_dup : isvalid (dup_req c) = true -> rq_buf (dup_req c) ∈ ms;
  cp_calls : forall x ca, calls_ c !! x = Some ca ->
    (ca_done ca = false /\ ca_un ca = unmarshall_new) \/ ca_intret ca < 0 \/ answered tr (clt_nonce c) x ca }.

Lemma ours_mono nonce xid xid' h : ours nonce xid h -> xid <= xid' -> ours nonce xid' h.
Proof. intros Ho Hx E. destruct (Ho E). lia. Qed.

Lemma srv_part_mono nonce xid xid' tr s : srv_part nonce xid tr s -> xid <= xid' -> srv_part nonce xid' tr s.
Proof.
  intros [H1 H2 H3 H4 H5] Hx. split; [done| |done|done|].
  - intros h Hh. eapply ours_mono; [by apply H2|done].
  - intros k b Hb. destruct (H5 k b Hb) as (h & Hn & Ho & Hd). exists h. split; [done|]. split; [|done]. by eapply ours_mono.
Qed.

Lemma clt_part_mono tr e c ms : clt_part tr c ms -> clt_part (tr ++ [e]) c ms.
Proof.
  intros [H1 H2 H3]. split; [done|done|]. intros x ca Hx. destruct (H3 x ca Hx) as [?|[?|(h & b & p & Hd & Hr)]]; [by left|by right; left|].
  right; right. exists h, b, p. split; [|done]. apply elem_of_app. by left.
Qed.

(** *** Steps of the server *)
Lemma failure_shape h b : failure_reply h b -> exists code p, - two31 <= code < 0 /\ reply_to b (rq_xid h) code p.
Proof.
  intros (code & Hc & Em). destruct (reply_packed marshall_new (fresh 0 24) h code b marshall_new_rep) as (p & Hp); [done|done|done|].
  by exists code, p.
Qed.

Lemma srv_part_begin nonce xid tr s run k req s' j :
  srv_part nonce xid tr (Sys s run) -> srv_inv tr s -> honest req ->
  (forall h u, unpack_req_header req = Ret (h, u) -> u_ok u = true -> rq_clt_nonce h = peer k /\ ours nonce xid h) ->
  dispatch_begin create_time (incref s k) k req = Ret (s', j) ->
  srv_part nonce xid (tr ++ [match j with Run _ h _ => EvRun h | Finished => EvSkip end])
    (Sys s' (match j with Run _ h _ => run ++ [(k, h)] | Finished => run end)).
Proof.
  intros [H1 H2 H3 H4 H5] Hi Hh Hreq E. simpl in H1, H3, H5.
  destruct (dispatch_begin_spec _ _ _ _ _ _ E) as (h & u & Eu & Hb).
  assert (forall e, e ∈ tr -> e ∈ tr ++ [match j with Run _ h _ => EvRun h | Finished => EvSkip end]) as Htr by set_solver.
  assert (match j with Run _ h' _ => h' = h /\ u_ok u = true | Finished => True end) as Hj.
  { destruct Hb as [| |s' f Hok|s' j ws st b1 sz1 hp Hok Hz Ek Hst]; [done|done|done|].
    destruct st; [by destruct Hst as (f & -> & _)|by destruct Hst as (-> & _)|by destruct Hst as (b & -> & _)..]. }
  split; simpl.
  - intros k' h' Hin. destruct j as [|f h2 args].
    + destruct (H1 k' h' Hin). split; [done|by apply Htr].
    + apply elem_of_app in Hin as [Hin|[= -> ->]%list_elem_of_singleton].
      * destruct (H1 k' h' Hin). split; [done|by apply Htr].
      * destruct Hj as [-> Hok]. split; [symmetry; by eapply Hreq|set_solver].
  - intros h'. rewrite elem_of_app. intros [Hin|Hin]; [by apply H2|].
    destruct j; apply list_elem_of_singleton in Hin; [done|]. injection Hin as ->. destruct Hj as [-> Hok]. by eapply Hreq.
  - intros clt k' Hk'. destruct (begin_conns (incref s k) k req s' j h u E Eu) as [Hc|[Hok Hc]]; rewrite Hc in Hk'; [by apply H3|].
    apply lookup_insert_Some in Hk' as [[<- <-]|[_ Hk']]; [symmetry; by eapply Hreq|by apply H3].
  - intros h' b' Hin. apply elem_of_app in Hin as [Hin|Hin].
    + destruct (H4 h' b' Hin) as [Hr Hs]. split; [by apply Htr|done].
    + destruct j; by apply list_elem_of_singleton in Hin.
  - intros k' b' Hin.
    destruct (begin_sent tr s k req s' j h u Hi Hh E Eu) as [Hs|(Hok & b & Hs & Hb')]; rewrite Hs in Hin.
    + destruct (H5 k' b' Hin) as (h' & ? & ? & [?|?]); exists h'; (split_and!; [done|done|]); [left; by apply Htr|by right].
    + apply elem_of_app in Hin as [Hin|[= -> ->]%list_elem_of_singleton].
      * destruct (H5 k' b' Hin) as (h' & ? & ? & [?|?]); exists h'; (split_and!; [done|done|]); [left; by apply Htr|by right].
      * destruct (Hreq h u Eu Hok) as [Hn Ho]. destruct Hb' as [Hf|(h' & Hd & Hn' & Hx')].
        -- exists h. split_and!; [done|done|right]. by apply failure_shape.
        -- exists h'. split_and!; [congruence| |left; by apply Htr]. apply H2. by apply (H4 h' b).
Qed.

Lemma srv_part_finish nonce xid tr s run1 run2 k h ret rep content reply s' :
  srv_part nonce xid tr (Sys s (run1 ++ (k, h) :: run2)) ->
  m_rep rep content -> (24 <= length content)%nat -> Z.of_nat (length content) < PDU_LIMIT -> ret < two31 ->
  dispatch_finish isdead s k h ret rep = Ret s' ->
  (rep' ← pack_reply_header rep (ReplyHeader (rq_xid h) ret); message rep') = Ret reply ->
  srv_part nonce xid (tr ++ [EvDone h reply]) (Sys s' (run1 ++ run2)).
Proof.
  intros [H1 H2 H3 H4 H5] Hm Hlen Hlim Hret E Em. simpl in H1, H3, H5.
  assert (0 <= ret) as Hret0 by (unfold dispatch_finish in E; res_inv; by bool_prop).
  destruct (reply_packed rep content h ret reply Hm Hlen Hlim Em) as (p & Hp).
  destruct (dispatch_finish_refs isdead s k h ret rep s' E) as [Hc _].
  destruct (dispatch_finish_spec isdead s k h ret rep s' E) as (rep' & bytes & k' & b & Ep & Emb & _ & _ & Hcore & Hk').
  rewrite Ep in Em. cbn [mbind res_bind] in Em. rewrite Emb in Em. injection Em as ->.
  unfold core, finish_core in Hcore. injection Hcore as _ _ Hsent.
  destruct (H1 k h ltac:(set_solver)) as [Hpk Hrun].
  assert (forall e, e ∈ tr -> e ∈ tr ++ [EvDone h reply]) as Htr by set_solver.
  split; simpl.
  - intros k1 h1 Hin. destruct (H1 k1 h1 ltac:(set_solver)). split; [done|by apply Htr].
  - intros h1. rewrite elem_of_app. intros [Hin|Hin]; [by apply H2|by apply list_elem_of_singleton in Hin].
  - intros clt k1. rewrite Hc. apply H3.
  - intros h1 b1 Hin. apply elem_of_app in Hin as [Hin|[= -> ->]%list_elem_of_singleton].
    + destruct (H4 h1 b1 Hin). split; [by apply Htr|done].
    + split; [by apply Htr|]. by exists ret, p.
  - intros k1 b1 Hin. rewrite Hsent in Hin. apply elem_of_app in Hin as [Hin|[= -> ->]%list_elem_of_singleton].
    + destruct (H5 k1 b1 Hin) as (h' & ? & ? & [?|?]); exists h'; (split_and!; [done|done|]); [left; by apply Htr|by right].
    + exists h. split_and!; [|by apply H2|left; set_solver].
      destruct Hk' as [->|Hk']; [done|]. by rewrite (H3 _ _ Hk').
Qed.

(** *** Steps of the client *)
Lemma request_ok_mono c c' b :
  request_ok c b -> clt_nonce c' = clt_nonce c -> xid_ c <= xid_ c' -> request_ok c' b.
Proof.
  intros (a & p & h & Hb & Ha & Hv & Hl & Hn & Hx & Hr) En Ex. exists a, p, h. split_and!; try done; [congruence|lia..].
Qed.

Lemma clt_part_keep tr c c' ms ms' :
  clt_part tr c ms -> clt_nonce c' = clt_nonce c -> xid_ c <= xid_ c' -> calls_ c' = calls_ c ->
  (forall b, b ∈ ms' -> b ∈ ms \/ request_ok c' b) -> (forall b, b ∈ ms -> b ∈ ms') ->
  (isvalid (dup_req c') = true -> dup_req c' = dup_req c \/ rq_buf (dup_req c') ∈ ms') -> clt_part tr c' ms'.
Proof.
  intros [H1 H2 H3] En Ex Ec Hms Hsub Hd. split.
  - intros b Hb. destruct (Hms b Hb); [|done]. eapply request_ok_mono; [by apply H1|done|done].
  - intros Hv. destruct (Hd Hv) as [E|?]; [|done]. rewrite E in *. by apply Hsub, H2.
  - intros x ca. rewrite Ec, En. apply H3.
Qed.

Lemma call1_begin_state c proc req c' xid req' xr :
  call1_begin c proc req = Ret (c', inr (xid, req', xr)) ->
  c' = set_calls (set_xid c (u32 (xid_ c + 1))) (<[s32 (xid_ c) := Caller unmarshall_new 0 false]> (calls_ c)).
Proof.
  unfold call1_begin. destruct (_ || _); [done|]. destruct (destroy_wait c); [done|].
  destruct (xid_rep_window _); [done|]. intros E. res_inv. by subst.
Qed.

Lemma clt_part_call tr trc c ms proc req p c' xid req' xr b :
  clt_part tr c ms -> cl_inv trc c -> xid_ c < two32 - 2 ->
  m_rep req (fresh 0 24 ++ p) -> Z.of_nat (24 + length p) < PDU_LIMIT ->
  call1_begin c proc req = Ret (c', inr (xid, req', xr)) -> message req' = Ret b ->
  clt_part tr c' (ms ++ [b]) /\ clt_nonce c' = clt_nonce c /\ xid_ c' = xid_ c + 1.
Proof.
  intros [H1 H2 H3] Hi Hlt Hm Hl E Em. pose proof (ci_xid _ _ Hi) as Hx.
  destruct (call1_begin_inv _ _ _ _ _ E) as [Hb Hd]. pose proof (call1_begin_state _ _ _ _ _ _ _ E) as Hc'.
  destruct (call1_begin_ok trc c proc req (fresh 0 24) p Hi Hb Hd Hm eq_refl Hl)
    as (c2 & req2 & h & E2 & Hm2 & Hv & _ & Hxh & _ & Hn & _ & Hxr & _).
  rewrite E in E2. injection E2 as <- -> <- ->. rewrite (m_rep_message _ _ Hm2) in Em. injection Em as <-.
  assert (xid_ c' = xid_ c + 1) as Hx' by (rewrite Hc'; simpl; apply u32_small; lia).
  assert (u32 (rq_xid h) = xid_ c) as Hxx by (rewrite Hxh, u32_s32; apply u32_small; lia).
  assert (clt_nonce c' = clt_nonce c) as Hn' by (by rewrite Hc').
  split; [|done]. split.
  - intros b Hb'. apply elem_of_app in Hb' as [Hb'|Hb'].
    + eapply request_ok_mono; [by apply H1|done|lia].
    + apply list_elem_of_singleton in Hb' as ->. exists (take 4 (fresh 0 24)), p, h.
      split_and!; try done; [by rewrite Hn'|lia|lia|lia].
  - rewrite Hc'. intros Hv'. apply elem_of_app. left. by apply H2.
  - intros x ca. rewrite Hc'. simpl. intros [[<- <-]|[_ Hca]]%lookup_insert_Some; [by left|]. by apply H3.
Qed.

Lemma get_refconn_keeps c ch dead fresh c' ch' :
  get_refconn c ch dead fresh = Ret (c', ch') -> calls_ c' = calls_ c /\ dup_req c' = dup_req c.
Proof.
  assert (forall c k c', c_decref c k = Ret c' -> calls_ c' = calls_ c /\ dup_req c' = dup_req c) as Hd.
  { intros c1 k c2. unfold c_decref. intros E. res_inv. by subst. }
  unfold get_refconn. intros E. apply res_bind_Ret_inv in E as (c1 & E1 & E).
  assert (calls_ c1 = calls_ c /\ dup_req c1 = dup_req c) as [<- <-].
  { destruct (_ || dead); [|by injection E1 as ->]. apply res_bind_Ret_inv in E1 as (c2 & E2 & E1). injection E1 as <-.
    destruct (chan_ c); [by apply Hd in E2|by injection E2 as ->]. }
  destruct (chan_ c1); [|by injection E as -> _]. apply res_bind_Ret_inv in E as (c2 & E2 & E). injection E as <- _.
  destruct ch; [by apply Hd in E2|by injection E2 as ->].
Qed.

Lemma call1_iter_keeps c l req o c' msgs r :
  call1_iter c l req o = Ret (c', msgs, r) ->
  calls_ c' = calls_ c /\ (isvalid (dup_req c') = true -> dup_req c' = dup_req c) /\
  (forall b, b ∈ msgs -> b = req \/ (isvalid (dup_req c) = true /\ b = rq_buf (dup_req c))).
Proof.
  unfold call1_iter. intros E. apply res_bind_Ret_inv in E as ([[c1 ch] ms] & E1 & E).
  assert (calls_ c1 = calls_ c /\ (isvalid (dup_req c1) = true -> dup_req c1 = dup_req c) /\
    (forall b, b ∈ ms -> b = req \/ (isvalid (dup_req c) = true /\ b = rq_buf (dup_req c)))) as Hc1.
  { destruct (transmit l); [|injection E1 as -> _ <-; split_and!; [done|done|set_solver]].
    apply res_bind_Ret_inv in E1 as ([c2 ch2] & E2 & E1). apply get_refconn_keeps in E2 as [<- <-].
    destruct ch2; [|injection E1 as -> _ <-; split_and!; [done|done|set_solver]]. unfold call1_send in E1.
    destruct (c_reachable c2); [|injection E1 as <- _ <-; split_and!; [done|done|set_solver]].
    destruct (isvalid (dup_req c2) && _) eqn:Ev; injection E1 as <- _ <-; (split_and!; [done|done|]); [|set_solver].
    apply andb_true_iff in Ev as [Ev _]. intros b [-> | ->%list_elem_of_singleton]%elem_of_cons; [by right|by left]. }
  destruct (_ =? 0); [by injection E as <- <- _|]. apply res_bind_Ret_inv in E as ([? ?] & _ & E).
  destruct (o_done o); [by injection E as <- <- _|]. res_inv. by subst.
Qed.

(** What a reply on the client's own connection is. *)
Lemma sent_reply nonce xid tr s k b :
  srv_part nonce xid tr s -> (k, b) ∈ sent (srv s) -> peer k = nonce ->
  exists x code u p, unpack_reply_header (received b) = Ret (ReplyHeader x code, u) /\ u_ok u = true /\
    u_rep (take_in unmarshall_new u).1 true p /\ reply_to b x code p /\ 0 < u32 x < xid /\
    (code < 0 \/ exists h, EvDone h b ∈ tr /\ rq_clt_nonce h = nonce /\ rq_xid h = x).
Proof.
  intros Hs Hin Hp. destruct (sp_sent _ _ _ _ Hs k b Hin) as (h & Hn & Ho & Hd).
  destruct (Ho ltac:(congruence)) as [Hr Hx]. destruct Hd as [Hd|(code & p & Hc & Hb)].
  - destruct (sp_done _ _ _ _ Hs h b Hd) as (_ & code & p & Hc & Hb).
    destruct (reply_read b _ _ _ Hb Hr ltac:(lia)) as (u & E & Hok & Hu).
    exists (rq_xid h), code, u, p. do 5 (split; [done|]). right. exists h. split_and!; [done|congruence|done].
  - destruct (reply_read b _ _ _ Hb Hr ltac:(lia)) as (u & E & Hok & Hu).
    exists (rq_xid h), code, u, p. do 5 (split; [done|]). left. lia.
Qed.

Lemma clt_part_reply tr c ms xid s k b c' r :
  clt_part tr c ms -> srv_part (clt_nonce c) xid tr s -> (k, b) ∈ sent (srv s) -> peer k = clt_nonce c ->
  got_pdu c (arrived b) (Z.of_nat (length b)) = Ret (c', r) ->
  clt_part tr c' ms /\ clt_nonce c' = clt_nonce c /\ xid_ c' = xid_ c.
Proof.
  intros Hcp Hs Hin Hp E.
  destruct (sent_reply _ _ _ _ _ _ Hs Hin Hp) as (x & code & u & p & Eu & Hok & Hu & Hb & _ & Hd).
  unfold received in Eu. unfold got_pdu in E. rewrite Eu in E. cbn [mbind res_bind] in E. rewrite Hok in E. cbn [negb rp_xid rp_ret] in E.
  simpl calls_ in E.
  assert (forall c2, clt_nonce c2 = clt_nonce c -> xid_ c2 = xid_ c -> calls_ c2 = calls_ c -> dup_req c2 = dup_req c ->
    clt_part tr c2 ms) as Hkeep.
  { intros c2 En Ex Ec Ed. apply (clt_part_keep tr c c2 ms ms); [done|done|lia|done|by left|done|by left]. }
  destruct (calls_ c !! x) as [ca|] eqn:Ex; [|injection E as <- _; split; [by apply Hkeep|done]].
  destruct (ca_done ca) eqn:Edone; cbn [negb] in E; injection E as <- _; [split; [by apply Hkeep|done]|].
  destruct Hcp as [H1 H2 H3]. split; [|done]. split; [done|done|].
  simpl. intros x' ca' [[<- <-]|[_ Hx']]%lookup_insert_Some; [|by apply H3].
  simpl. right. destruct Hd as [Hc|(h & Hd & Hn & Hxh)]; [by left|right]. by exists h, b, p.
Qed.

(** The end of a call: the caller's record is removed; the loss test may keep its
    request to send it again. *)
Lemma c_decref_keeps c k c' : c_decref c k = Ret c' ->
  clt_nonce c' = clt_nonce c /\ xid_ c' = xid_ c /\ calls_ c' = calls_ c /\ dup_req c' = dup_req c.
Proof. unfold c_decref. intros E. res_inv. by subst. Qed.

Lemma call1_end_inv c xid xr req ch c' code u :
  call1_end c xid xr req ch = Ret (c', code, u) ->
  exists ca, calls_ c !! s32 xid = Some ca /\ code = (if ca_done ca then ca_intret ca else rpc_const.timeout_failure) /\
    u = ca_un ca /\ clt_nonce c' = clt_nonce c /\ xid_ c' = xid_ c /\ calls_ c' = delete (s32 xid) (calls_ c) /\
    (dup_req c' = dup_req c \/ rq_buf (dup_req c') = req).
Proof.
  unfold call1_end. intros E. destruct (calls_ c !! s32 xid) as [ca|]; [|done]. exists ca.
  set (c2 := if _ && _ then _ else _) in E.
  assert (clt_nonce c2 = clt_nonce c /\ xid_ c2 = xid_ c /\ calls_ c2 = delete (s32 xid) (calls_ c) /\
    (dup_req c2 = dup_req c \/ rq_buf (dup_req c2) = req)) as (E1 & E2 & E3 & E4).
  { subst c2. destruct (_ && _); [|by auto]. split_and!; [done..|]. simpl. destruct (isvalid (dup_req c)); by auto. }
  apply res_bind_Ret_inv in E as (c3 & E5 & E). injection E as -> <- <-.
  assert (clt_nonce c' = clt_nonce c2 /\ xid_ c' = xid_ c2 /\ calls_ c' = calls_ c2 /\ dup_req c' = dup_req c2) as (F1 & F2 & F3 & F4)
    by (destruct ch; [by eapply c_decref_keeps|by injection E5 as ->]).
  rewrite F1, F2, F3, F4. by split_and!.
Qed.

Lemma clt_part_end tr c ms xid xr req ch c' code u :
  clt_part tr c ms -> req ∈ ms -> call1_end c xid xr req ch = Ret (c', code, u) ->
  clt_part tr c' ms /\ clt_nonce c' = clt_nonce c /\ xid_ c' = xid_ c.
Proof.
  intros [H1 H2 H3] Hreq E. destruct (call1_end_inv _ _ _ _ _ _ _ _ E) as (ca & _ & _ & _ & En & Ex & Ec & Ed).
  split; [|done]. split.
  - intros b Hb. eapply request_ok_mono; [by apply H1|done|lia].
  - destruct Ed as [-> | ->]; [done|by intros _].
  - intros x ca'. rewrite Ec, En. intros [_ Hx]%lookup_delete_Some. by apply H3.
Qed.

Lemma clt_part_cancel tr c ms :
  clt_part tr c ms -> clt_part tr (cancel c) ms /\ clt_nonce (cancel c) = clt_nonce c /\ xid_ (cancel c) = xid_ c.
Proof.
  intros [H1 H2 H3].
  assert (clt_nonce (cancel c) = clt_nonce c /\ xid_ (cancel c) = xid_ c /\ dup_req (cancel c) = dup_req c /\
    calls_ (cancel c) = (fun ca => Caller (ca_un ca) rpc_const.cancel_failure true) <$> calls_ c) as (En & Ex & Ed & Ec)
    by (unfold cancel; by destruct (bool_decide _)).
  split; [|done]. split.
  - intros b Hb. eapply request_ok_mono; [by apply H1|done|lia].
  - by rewrite Ed.
  - intros x ca. rewrite Ec, lookup_fmap. intros (ca0 & _ & ->)%fmap_Some. by right; left.
Qed.

Lemma clt_part_bind tr c ms ret r :
  clt_part tr c ms -> clt_part tr (bind_end c ret r).1 ms /\ clt_nonce (bind_end c ret r).1 = clt_nonce c /\
    xid_ (bind_end c ret r).1 = xid_ c.
Proof.
  intros H. unfold bind_end. destruct (ret =? 0); [|done].
  split; [|done]. by apply (clt_part_keep tr c _ ms ms); [| | | |left|..|left].
Qed.

(** *** Every reachable state *)
Record net_inv (tr : list nevent) (n : net) : Prop := {
  ni_clt : reachable cl_init cl_step (clt_events tr) (clt n);
  ni_srv : reachable sys_init (sys_step create_time isdead) (srv_events tr) (nsv n);
  ni_sp : srv_part (clt_nonce (clt n)) (xid_ (clt n)) (srv_events tr) (nsv n);
  ni_cp : clt_part (srv_events tr) (clt n) (inflight n) }.

Lemma net_inv_init n : net_init n -> net_inv [] n.
Proof.
  intros (Hc & Hs & Hsent & Hin). pose proof Hs as (_ & _ & _ & Hconns & Hrun).
  split; [by constructor|by constructor|split|split].
  - rewrite Hrun. set_solver.
  - set_solver.
  - intros clt k. by rewrite Hconns, lookup_empty.
  - set_solver.
  - rewrite Hsent. set_solver.
  - rewrite Hin. set_solver.
  - by destruct Hc as (? & ? & ? & ->).
  - destruct Hc as (? & ? & ? & ->). simpl. set_solver.
Qed.

Lemma events_snoc_c tr e : clt_events (tr ++ [NC e]) = clt_events tr ++ [e] /\ srv_events (tr ++ [NC e]) = srv_events tr.
Proof. unfold clt_events, srv_events. rewrite !omap_app. by rewrite (app_nil_r (omap ns tr)). Qed.

Lemma events_snoc_s tr e : srv_events (tr ++ [NS e]) = srv_events tr ++ [e] /\ clt_events (tr ++ [NS e]) = clt_events tr.
Proof. unfold clt_events, srv_events. rewrite !omap_app. by rewrite (app_nil_r (omap nc tr)). Qed.

(** A step of the client. *)
Lemma net_inv_clt tr c s ms e c' ms' :
  net_inv tr (Net c s ms) -> cl_step c e c' ->
  clt_part (srv_events tr) c' ms' /\ clt_nonce c' = clt_nonce c /\ (xid_ c' = xid_ c \/ xid_ c' = xid_ c + 1) ->
  net_inv (tr ++ [NC e]) (Net c' s ms').
Proof.
  intros [H1 H2 H3 H4] Hst (Hcp & En & Ex). destruct (events_snoc_c tr e) as [Ec Es].
  split; rewrite ?Ec, ?Es; [by eapply reach_step|done| |done].
  simpl. rewrite En. eapply srv_part_mono; [done|]. simpl. lia.
Qed.

(** A step of the server. *)
Lemma net_inv_srv tr c s ms e s' :
  net_inv tr (Net c s ms) -> sys_step create_time isdead s e s' ->
  srv_part (clt_nonce c) (xid_ c) (srv_events tr ++ [e]) s' -> net_inv (tr ++ [NS e]) (Net c s' ms).
Proof.
  intros [H1 H2 H3 H4] Hst Hsp. destruct (events_snoc_s tr e) as [Es Ec].
  split; rewrite ?Ec, ?Es; [done|by eapply reach_step|done|by apply clt_part_mono].
Qed.

Lemma arrives_ok tr n k req :
  net_inv tr n -> arrives n k req -> honest req /\
  forall h u, unpack_req_header req = Ret (h, u) -> u_ok u = true ->
    rq_clt_nonce h = peer k /\ ours (clt_nonce (clt n)) (xid_ (clt n)) h.
Proof.
  intros [_ _ _ [H1 _ _]]. unfold arrives. destruct (decide _) as [Hp|Hp].
  - intros (b & Hb & ->). destruct (request_read _ _ (H1 b Hb)) as (h0 & u0 & E & Hv & Hn & Hx & Hr).
    split; intros h u E'; rewrite E in E'; injection E' as <- <-; [done|]. intros _. split; [congruence|].
    intros _. split; [|done]. by destruct Hv.
  - intros [Hh Hn]. split; [done|]. intros h u E Hok. split; [by eapply Hn|]. intros Hc. by rewrite (Hn h u E Hok) in Hc.
Qed.

Lemma net_inv_step tr n e n' : net_inv tr n -> net_step n e n' -> net_inv (tr ++ [e]) n'.
Proof.
  intros Hi Hst. destruct Hst as
    [c s ms proc req p c' xid req' xr b Hm Hl Hlt E Em|c s ms l req o c' msgs r Hreq E
    |c s run ms k req s' f h args Ha E|c s run ms k req s' Ha E
    |c s run1 run2 ms k h ret rep content reply s' Hm Hl1 Hl2 Hret E Em
    |c s run ms k b c' r h u Hin Hp Eu E|c s ms xid xr req ch c' code u Hreq Hx E|c s ms|c s ms ret r].
  - eapply net_inv_clt; [done|by econstructor|].
    destruct (clt_part_call _ _ _ _ _ _ _ _ _ _ _ _ (ni_cp _ _ Hi) (cl_inv_reachable _ _ (ni_clt _ _ Hi)) Hlt Hm Hl E Em)
      as (? & ? & ?). by auto.
  - eapply net_inv_clt; [done|by econstructor|]. pose proof (call1_iter_ack _ _ _ _ _ _ _ E) as Hack. injection Hack as Hx _ Hn _.
    destruct (call1_iter_keeps _ _ _ _ _ _ _ E) as (Hc & Hd & Hms). split_and!; [|done|by left].
    assert (forall b, b ∈ msgs -> b ∈ ms) as Hsub.
    { intros b Hb. destruct (Hms b Hb) as [-> |[Hv ->]]; [done|]. by apply (cp_dup _ _ _ (ni_cp _ _ Hi)). }
    apply (clt_part_keep _ c c' ms); [apply (ni_cp _ _ Hi)|done|lia|done| |set_solver|].
    + intros b [?|?%Hsub]%elem_of_app; by left.
    + intros Hv. left. by apply Hd.
  - destruct (arrives_ok _ _ _ _ Hi Ha) as [Hh Hreq].
    eapply net_inv_srv; [done|by econstructor|].
    exact (srv_part_begin _ _ _ _ _ _ _ _ _ (ni_sp _ _ Hi) (sys_inv _ _ _ _ (ni_srv _ _ Hi)) Hh Hreq E).
  - destruct (arrives_ok _ _ _ _ Hi Ha) as [Hh Hreq].
    eapply net_inv_srv; [done|by econstructor|].
    exact (srv_part_begin _ _ _ _ _ _ _ _ _ (ni_sp _ _ Hi) (sys_inv _ _ _ _ (ni_srv _ _ Hi)) Hh Hreq E).
  - eapply net_inv_srv; [done|by econstructor|]. by eapply srv_part_finish; [apply (ni_sp _ _ Hi)|..].
  - destruct (sent_reply _ _ _ _ _ _ (ni_sp _ _ Hi) Hin Hp) as (x & code & u' & p & Eu' & Hok & _ & _ & Hx & _).
    rewrite Eu in Eu'. injection Eu' as -> ->. rewrite Hok.
    eapply net_inv_clt; [done|by eapply (cs_reply c (arrived b)); [..|exact Hx]|].
    destruct (clt_part_reply _ _ _ _ _ _ _ _ _ (ni_cp _ _ Hi) (ni_sp _ _ Hi) Hin Hp E) as (? & ? & ?). by auto.
  - eapply net_inv_clt; [done|by econstructor|].
    destruct (clt_part_end _ _ _ _ _ _ _ _ _ _ (ni_cp _ _ Hi) Hreq E) as (? & ? & ?). by auto.
  - eapply net_inv_clt; [done|by econstructor|]. destruct (clt_part_cancel _ _ _ (ni_cp _ _ Hi)) as (? & ? & ?). by auto.
  - eapply net_inv_clt; [done|by econstructor|]. destruct (clt_part_bind _ _ _ ret r (ni_cp _ _ Hi)) as (? & ? & ?). by auto.
Qed.

Lemma net_inv_reachable tr n : reachable net_init net_step tr n -> net_inv tr n.
Proof. apply reachable_invariant; [apply net_inv_init|apply net_inv_step]. Qed.

Lemma ran_once (tr : list event) h :
  NoDup (executed tr) -> EvRun h ∈ tr -> rq_clt_nonce h <> 0 ->
  filter (.= (rq_clt_nonce h, u32 (rq_xid h))) (executed tr) = [(rq_clt_nonce h, u32 (rq_xid h))].
Proof.
  intros Hnd Hin Hz.
  assert ((rq_clt_nonce h, u32 (rq_xid h)) ∈ executed tr) as He.
  { apply list_elem_of_bind. exists (EvRun h). split; [|done]. simpl.
    rewrite (proj2 (Z.eqb_neq _ _) Hz). set_solver. }
  revert Hnd He. generalize (rq_clt_nonce h, u32 (rq_xid h)). generalize (executed tr). clear.
  intros l x. induction 1 as [|y l Hy Hnd IH]; [by intros ?%elem_of_nil|].
  rewrite filter_cons. intros [->|Hx]%elem_of_cons.
  - rewrite decide_True by done. f_equal. apply elem_of_nil_inv. intros z [-> Hz]%list_elem_of_filter. done.
  - rewrite decide_False; [by apply IH|]. by intros ->.
Qed.

(** C10: over a network that loses, repeats, delays and reorders requests and
    replies, with other clients on the same server, a call that returns a
    non-negative code was executed exactly once: the server ran the request with
    that number once, and the code and the results the call returns are those of
    the reply that execution produced. *)
Theorem rpc_exactly_once tr n xid xr req ch c' code u :
  reachable net_init net_step tr n -> clt_nonce (clt n) <> 0 -> 0 < xid < xid_ (clt n) ->
  call1_end (clt n) xid xr req ch = Ret (c', code, u) -> 0 <= code ->
  filter (.= (clt_nonce (clt n), xid)) (executed (srv_events tr)) = [(clt_nonce (clt n), xid)] /\
  exists h reply p, EvDone h reply ∈ srv_events tr /\ rq_clt_nonce h = clt_nonce (clt n) /\ u32 (rq_xid h) = xid /\
    reply_to reply (rq_xid h) code p /\ u_rep u true p.
Proof.
  intros Hr Hz Hx E Hc. apply net_inv_reachable in Hr as [H1 H2 H3 H4].
  destruct (call1_end_inv _ _ _ _ _ _ _ _ E) as (ca & Hca & Hcode & -> & _).
  pose proof (ci_xid _ _ (cl_inv_reachable _ _ H1)) as Hlt.
  assert (u32 (s32 xid) = xid) as Exid by (rewrite u32_s32; apply u32_small; lia).
  destruct (cp_calls _ _ _ H4 _ _ Hca) as [[Hd _]|[Hneg|(h & b & p & Hin & Hn & Hxh & Hb & Hu)]].
  - rewrite Hd in Hcode. subst. done.
  - destruct (ca_done ca); subst; [lia|done].
  - destruct (ca_done ca); [|by subst]. subst code.
    destruct (sp_done _ _ _ _ H3 h b Hin) as [Hrun _].
    assert (u32 (rq_xid h) = xid) as Ehx by (by rewrite Hxh).
    split; [|exists h, b, p; split_and!; try done; by rewrite Hxh].
    rewrite <- Hn, <- Ehx. apply ran_once; [|done|by rewrite Hn].
    by destruct (sys_inv _ _ _ _ H2) as (_ & _ & ?).
Qed.
End network.

(** ** A run: the request is delivered twice, and so is the reply *)
Module NetExample.

#[local] Instance zero_alloc : Allocator := fun _ => Ascii.zero.

Definition created (_ : conn) : Z * Z := (0, 0).
Definition alive (_ : conn) : bool := false.
Definition peer (_ : conn) : Z := 7.
Definition echo : handler unit := fun o _ ret => Ret (o, 0, ret).

Definition c0 : rpcc := rpcc_new true 7 0.
Definition c1 : rpcc := (bind_end c0 0 42).1.
Definition s0 : rpcs (St := unit) := Rpcs 42 ∅ (Heap ∅ 1) ∅ ∅ 0 0 ∅ {[5 := echo]} true [].
Definition hdr : req_header := ReqHeader 1 5 7 42 0.

Definition c2 : rpcc := match call1_begin c1 5 marshall_new with Ret (c, _) => c | _ => c1 end.
Definition req1 : marshall :=
  match call1_begin c1 5 marshall_new with Ret (_, inr (_, req, _)) => req | _ => marshall_new end.
Definition msg : str := match message req1 with Ret b => b | _ => [] end.
Definition begin_state (s : rpcs (St := unit)) : rpcs (St := unit) :=
  match dispatch_begin created (incref s 3) 3 (received msg) with Ret (s', _) => s' | _ => s end.
Definition s1 : rpcs (St := unit) := begin_state s0.
Definition s2 : rpcs (St := unit) := begin_state s1.
Definition s3 : rpcs (St := unit) :=
  match dispatch_finish alive s2 3 hdr 0 marshall_new with Ret s' => s' | _ => s2 end.
Definition reply : str :=
  match (rep ← pack_reply_header marshall_new (ReplyHeader 1 0); message rep) with Ret b => b | _ => [] end.
Definition rep1 : unmarshall :=
  match unpack_reply_header (received reply) with Ret (_, u) => u | _ => unmarshall_new end.
Definition deliver (c : rpcc) : rpcc :=
  match got_pdu c (arrived reply) (Z.of_nat (length reply)) with Ret (c', _) => c' | _ => c end.
Definition c3 : rpcc := deliver c2.
Definition c4 : rpcc := deliver c3.

Definition net0 : net (St := unit) := Net c0 (Sys s0 []) [].
Definition steps : list (nevent * net (St := unit)) :=
  [(NC COther, Net c1 (Sys s0 []) []);
   (NC (CBegin 1), Net c2 (Sys s0 []) [msg]);
   (NS (EvRun hdr), Net c2 (Sys s1 [(3, hdr)]) [msg]);
   (NS EvSkip, Net c2 (Sys s2 [(3, hdr)]) [msg]);
   (NS (EvDone hdr reply), Net c2 (Sys s3 []) [msg]);
   (NC (CReply 1), Net c3 (Sys s3 []) [msg]);
   (NC (CReply 1), Net c4 (Sys s3 []) [msg])].

Lemma steps_run : runs (net_step created alive peer) net0 steps.
Proof.
  assert (forall s, arrives (St := unit) peer (Net c2 s [msg]) 3 (received msg)) as Ha.
  { intros s. unfold arrives. rewrite decide_True by (vm_compute; reflexivity). exists msg. split; [left|reflexivity]. }
  split; [|split; [|split; [|split; [|split; [|split; [|split; [|done]]]]]]].
  - apply (ns_bind created alive peer c0 _ _ 0 42).
  - apply (ns_call created alive peer c1 _ [] 5 marshall_new [] c2 1 req1 0 msg);
      [exact marshall_new_rep|done|done|vm_compute; reflexivity|vm_compute; reflexivity].
  - apply (ns_run created alive peer c2 s0 [] [msg] 3 (received msg) s1 echo hdr (set_u_ind (received msg) 24));
      [apply Ha|vm_compute; reflexivity].
  - apply (ns_skip created alive peer c2 s1 [(3, hdr)] [msg] 3 (received msg) s2); [apply Ha|vm_compute; reflexivity].
  - apply (ns_finish created alive peer c2 s2 [] [] [msg] 3 hdr 0 marshall_new (fresh 0 24) reply s3 marshall_new_rep);
      vm_compute; done.
  - apply (ns_reply created alive peer c2 s3 [] [msg] 3 reply c3 true (ReplyHeader 1 0) rep1);
      [vm_compute; left|done|vm_compute; reflexivity..].
  - apply (ns_reply created alive peer c3 s3 [] [msg] 3 reply c4 true (ReplyHeader 1 0) rep1);
      [vm_compute; left|done|vm_compute; reflexivity..].
Qed.

Lemma net0_init : net_init net0.
Proof.
  split; [by exists true, 7, 0|]. split; [|done]. split; [done|]. split; [|done]. intros a [b Hb]. done.
Qed.

(** C10, witness: the call of that run returns 0. *)
Lemma rpc_exactly_once_witness :
  filter (.= (7, 1)) (executed (srv_events steps.*1)) = [(7, 1)].
Proof.
  destruct (call1_end c4 1 0 msg None) as [[[c' code] u]| |] eqn:E;
    [|vm_compute in E; discriminate E|vm_compute in E; discriminate E].
  refine (proj1 (rpc_exactly_once created alive peer steps.*1 (Net c4 (Sys s3 []) [msg]) 1 0 msg None c' code u
    (reachable_runs _ _ [] net0 steps (reach_init _ _ _ net0_init) steps_run) _ _ E _)).
  - vm_compute. discriminate.
  - vm_compute. split; reflexivity.
  - vm_compute in E. injection E as _ <- _. done.
Defined.
End NetExample.
