(* ===== verification/RpcTest.v ===== *)
(** * The RPC library's own test: [rpctest.cc]

    The service of the test, its server, and [main]: the test of marshalling, the
    simple tests, the concurrent test with two clients on one server, the lossy
    test and the failure test with their restarts.  The turns of the threads are
    made in any order.  The network here delivers everything, also in the lossy
    test: what a client sees of loss is in [RpcNetwork]. *)

From S2P Require Import Prelude Marshall MarshallSpec RpcStubs RpcServer RpcServerSpec.
From S2P Require Import RpcClient RpcClientSpec RpcSystem RpcNetwork.

(** ** The service *)
Module srv.
Definition handle_22 (o : unit) (x y r : str) : res (unit * Z * str) := Ret (o, 0, x ++ y).

Definition handle_fast (o : unit) (x r : sint) : res (unit * Z * sint) :=
  v ← int_chk (sint_val x + 1); Ret (o, 0, SInt v).

(** Its sleep changes nothing here. *)
Definition handle_slow (o : unit) (x r : sint) : res (unit * Z * sint) :=
  v ← int_chk (sint_val x + 2); Ret (o, 0, SInt v).

(** A negative length makes the constructor of [std::string] throw. *)
Definition handle_bigrep (o : unit) (len : sint) (r : str) : res (unit * Z * str) :=
  _ ← VERIFY (0 <=? sint_val len);
  Ret (o, 0, replicate (Z.to_nat (sint_val len)) "x"%char).
End srv.

Section rpctest.
Context `{AL : Allocator}.

(** [ri] is what the result variable of the [int] handlers holds. *)
Definition startserver (nonce ri : Z) : res (rpcs (St := unit)) :=
  server ← rpcs_new nonce 0;
  server ← reg1 server 22 (fn_2 ([] : str) srv.handle_22);
  server ← reg1 server 23 (fn_1 (SInt ri) srv.handle_fast);
  server ← reg1 server 24 (fn_1 (SInt ri) srv.handle_slow);
  reg1 server 25 (fn_1 ([] : str) srv.handle_bigrep).

(** ** The checks *)

Definition testmarshall : res unit :=
  let rh := ReqHeader 1 2 3 4 5 in
  m ← pack_req_header marshall_new rh;
  _ ← VERIFY (m_ind m =? RPC_HEADER_SZ);
  let i := 12345 in let l := 1223344455 in let s := S! "hallo...." in
  m ← put_int m i;
  m ← put_ull m l;
  m ← put_string m s;
  let '(b, sz, _) := m_take_buf m in
  _ ← VERIFY (sz =? RPC_HEADER_SZ + 4 + 8 + Z.of_nat (length s) + 4);
  let un := unmarshall_buf b sz in
  '(rh1, un) ← unpack_req_header un;
  _ ← VERIFY (bool_decide ((rq_xid rh1, rq_proc rh1, rq_clt_nonce rh1, rq_srv_nonce rh1, rq_xid_rep rh1) = (1, 2, 3, 4, 5)));
  '(i1, un) ← get_int un;
  '(l1, un) ← get_ull un;
  '(s1, un) ← get_string [] un;
  _ ← VERIFY (okdone un);
  VERIFY ((i1 =? i) && (l1 =? l) && bool_decide (s1 = s)).

Section checks.
Context {S : Type} (call1 : transport S).

Definition str_size (s : str) : Z := Z.of_nat (length s).

(** [simple_tests]; what the last [bind], to a server that does not exist, returns
    and the time it takes are arguments. *)
Definition simple_tests (st : S) (intret1 elapsed : Z) : res S :=
  '(st, intret, rep) ← call_2 call1 st 22 (S! "hello") (S! " goodbye") ([] : str);
  _ ← VERIFY (intret =? 0);
  _ ← VERIFY (bool_decide (rep = S! "hello goodbye"));
  '(st, intret, rep) ← call_1 call1 st 25 (SInt 70000) rep;
  _ ← VERIFY (intret =? 0);
  _ ← VERIFY (str_size rep =? 70000);
  '(st, intret, xx) ← call_1 call1 st 23 (SInt 77) (SInt 0);
  _ ← VERIFY ((intret =? 0) && (sint_val xx =? 78));
  let arg := replicate 1000 "x"%char in
  '(st, _, rep') ← call_2 call1 st 22 arg (S! "x") ([] : str);
  _ ← VERIFY (str_size rep' =? 1001);
  let big := replicate (Z.to_nat 1000000) "x"%char in
  '(st, intret, rep) ← call_2 call1 st 22 big (S! "z") rep;
  _ ← VERIFY (str_size rep =? 1000001);
  _ ← VERIFY ((intret1 <? 0) && (elapsed <=? 4));
  Ret st.

(** The loops of [client1] over the numbers [random()] gave it. *)
Fixpoint client1_big (st : S) (args : list Z) : res S :=
  match args with
  | [] => Ret st
  | arg :: args =>
      '(st, ret, rep) ← call_1 call1 st 25 (SInt arg) ([] : str);
      _ ← VERIFY (ret =? 0);
      _ ← VERIFY (str_size rep =? arg);
      client1_big st args
  end.

(** [r] is what the uninitialised [rep] holds. *)
Fixpoint client1_mixed (st : S) (r : Z) (args : list (bool * Z)) : res S :=
  match args with
  | [] => Ret st
  | (which, arg) :: args =>
      '(st, ret, rep) ← call_1 call1 st (if (which : bool) then 23 else 24) (SInt arg) (SInt r);
      _ ← VERIFY (ret =? 0);
      _ ← VERIFY (sint_val rep =? (if which then arg + 1 else arg + 2));
      client1_mixed st r args
  end.

Definition client1 (st : S) (r : Z) (args1 : list Z) (args2 : list (bool * Z)) : res S :=
  st ← client1_big st args1;
  client1_mixed st r args2.

(** [client2], which looks at the reply only. *)
Fixpoint client2 (st : S) (args : list Z) : res S :=
  match args with
  | [] => Ret st
  | arg :: args =>
      '(st, ret, rep) ← call_1 call1 st 25 (SInt arg) ([] : str);
      _ ← VERIFY (str_size rep =? arg);
      client2 st args
  end.

(** The loop of [client3] over the numbers [l]. *)
Fixpoint client3_loop (st : S) (r : Z) (l : list Z) : res S :=
  match l with
  | [] => Ret st
  | i :: l =>
      '(st, ret, rep) ← call_1 call1 st 24 (SInt i) (SInt r);
      _ ← VERIFY ((ret =? rpc_const.timeout_failure) || (sint_val rep =? i + 2));
      client3_loop st r l
  end.
Definition client3_args : list Z := [0; 1; 2; 3].
Definition client3 (st : S) (r : Z) : res S := client3_loop st r client3_args.
End checks.

(** ** Sessions with the test server *)
Context (create_time : conn -> Z * Z) (isdead : conn -> bool) (k : conn) (ri : Z).

Let call := loopback (St := unit) create_time isdead k.

Definition test_service (s : rpcs (St := unit)) : Prop :=
  procs_ s !! 22 = Some (fn_2 ([] : str) srv.handle_22) /\ procs_ s !! 23 = Some (fn_1 (SInt ri) srv.handle_fast) /\
  procs_ s !! 24 = Some (fn_1 (SInt ri) srv.handle_slow) /\ procs_ s !! 25 = Some (fn_1 ([] : str) srv.handle_bigrep).

(** [failure_test]: the client [c] was bound to the server that is deleted;
    [bind0] is what binding to no server returns.  The ten threads run [client3] at
    once: [order1] and [order2] are the numbers they send, in the order in which
    their calls are made. *)
Definition failure_test (c : rpcc) (bind0 nonce1 nonce2 rnd1 rnd2 lossy r : Z) (order1 order2 : list Z) : res unit :=
  _ ← VERIFY (bind0 <? 0);
  s ← startserver nonce1 ri;
  '(_, s, _, intret, rep) ← call_2 call (c, s, tt) 22 (S! "hello") (S! " goodbye") ([] : str);
  _ ← VERIFY (intret =? rpc_const.oldsrv_failure);
  '(st, ret) ← bind create_time isdead k (rpcc_new true rnd1 lossy, s, tt) r;
  _ ← VERIFY (0 <=? ret);
  '(st, ret) ← bind create_time isdead k st r;
  _ ← VERIFY (ret <? 0);
  '(st, intret, rep) ← call_2 call st 22 (S! "hello") (S! " goodbye") rep;
  _ ← VERIFY (intret =? 0);
  _ ← VERIFY (bool_decide (rep = S! "hello goodbye"));
  _ ← client3_loop call st r order1;
  s ← startserver nonce2 ri;
  '(st, ret) ← bind create_time isdead k (rpcc_new true rnd2 lossy, s, tt) r;
  _ ← VERIFY (0 <=? ret);
  _ ← client3_loop call st r order2;
  Ret tt.

Section session.
Context (nonce : Z) (rest : list (conn * rpcc)).

(** A client with [n] more calls to make, bound to the server with that nonce;
    [rest] are other clients of the server, which wait. *)
Definition ready (n : Z) (c : rpcc) (s : rpcs (St := unit)) : Prop :=
  linked create_time isdead k true c s /\ test_service s /\ srv_nonce c = nonce /\ xid_ c + n < two32 - 1 /\
  Forall (fun '(k2, c2) => clt_nonce c2 <> clt_nonce c /\ linked create_time isdead k2 true c2 s) rest.

Lemma linked_other k2 c2 b c (s : rpcs (St := unit)) c' s' :
  linked create_time isdead k2 true c2 s -> clt_nonce c2 <> clt_nonce c ->
  next_call create_time isdead k b c s c' s' -> linked create_time isdead k2 true c2 s'.
Proof.
  intros [Hc Hb Hd _ Hk Hn Hw] Hne (Hl & _ & _ & Hfix & Hok). unfold fixed in Hfix. injection Hfix as Hf _.
  split; [done|done|done|apply Hl|done|by rewrite Hf|]. rewrite Forall_forall in Hw |- *. intros x Hx.
  apply Hw. by apply (Hok _ Hne).
Qed.

Lemma ready_next n c s c' s' :
  ready (n + 1) c s -> next_call create_time isdead k true c s c' s' -> ready n c' s'.
Proof.
  intros (Hl & Hp & Hn & Hx & Hr) Hnx. pose proof Hnx as (Hl' & Hx' & [Hcn Hn'] & Hfix & Hok).
  unfold fixed in Hfix. injection Hfix as _ Hfix.
  split; [done|]. split; [unfold test_service; by rewrite Hfix|]. rewrite Hn' by (apply Hl). split; [done|]. split; [lia|].
  eapply Forall_impl; [exact Hr|]. intros [k2 c2] [H1 H2]. rewrite Hcn. split; [done|]. by eapply linked_other.
Qed.

Lemma ready_eq m n c s : ready m c s -> m = n -> ready n c s.
Proof. by intros ? <-. Qed.

Lemma call_22 n c s x y r :
  0 <= n -> ready (n + 1) c s -> Z.of_nat (length x + length y) < 1000000000 ->
  exists c' s', call_2 call (c, s, tt) 22 x y (r : str) = Ret (c', s', tt, 0, x ++ y) /\ ready n c' s'.
Proof.
  intros Hn Hr Hlen. pose proof Hr as (Hl & (Hp & _) & _ & Hx).
  destruct (rpc_call2_ok create_time isdead k ([] : str) srv.handle_22 c s tt 22 x y x y r tt 0 (x ++ y)) as (c' & s' & E & Hnx);
    try done; try (simpl; unfold PDU_LIMIT; rewrite ?length_app; lia).
  - simpl. rewrite ?length_app. simpl. unfold PDU_LIMIT. lia.
  - exists c', s'. split; [exact E|]. by eapply ready_next.
Qed.

Lemma call_25 n c s len r :
  0 <= n -> ready (n + 1) c s -> 0 <= len < 1000000000 ->
  exists c' s', call_1 call (c, s, tt) 25 (SInt len) (r : str) =
    Ret (c', s', tt, 0, replicate (Z.to_nat len) "x"%char) /\ ready n c' s'.
Proof.
  intros Hn Hr Hlen. pose proof Hr as (Hl & (_ & _ & _ & Hp) & _ & Hx).
  destruct (rpc_call1_ok create_time isdead k ([] : str) srv.handle_bigrep c s tt 25 (SInt len) r tt 0
    (replicate (Z.to_nat len) "x"%char)) as (c' & s' & E & Hnx);
    try done; try (simpl; unfold PDU_LIMIT; rewrite ?length_replicate; lia).
  - unfold srv.handle_bigrep. simpl. rewrite VERIFY_true by (apply Z.leb_le; lia). done.
  - exists c', s'. split; [exact E|]. by eapply ready_next.
Qed.

Lemma call_23_24 n c s (which : bool) x r :
  0 <= n -> ready (n + 1) c s -> - two31 <= x < two31 - 2 ->
  exists c' s', call_1 call (c, s, tt) (if which then 23 else 24) (SInt x) (SInt r) =
    Ret (c', s', tt, 0, SInt (if which then x + 1 else x + 2)) /\ ready n c' s'.
Proof.
  intros Hn Hr Hx. pose proof Hr as (Hl & (_ & Hp3 & Hp4 & _) & _ & Hxid).
  assert (exists c' s', call_1 call (c, s, tt) (if which then 23 else 24) (SInt x) (SInt r) =
    Ret (c', s', tt, 0, SInt (if which then x + 1 else x + 2)) /\ next_call create_time isdead k true c s c' s') as (c' & s' & E & Hnx).
  { destruct which.
    - apply (rpc_call1_ok create_time isdead k (SInt ri) srv.handle_fast); try done; try (simpl; lia).
      unfold srv.handle_fast. simpl. by rewrite int_chk_ok by lia.
    - apply (rpc_call1_ok create_time isdead k (SInt ri) srv.handle_slow); try done; try (simpl; lia).
      unfold srv.handle_slow. simpl. by rewrite int_chk_ok by lia. }
  exists c', s'. split; [exact E|]. by eapply ready_next.
Qed.

Lemma testmarshall_passes : testmarshall = Ret tt.
Proof. vm_compute. reflexivity. Qed.

Lemma bind_ret_eq {A B} (m : res A) a (f : A -> res B) x : m = Ret a -> f a = x -> (m ≫= f) = x.
Proof. by intros -> <-. Qed.

Lemma VERIFY_bind {A} b (f : unit -> res A) : b = true -> (VERIFY b ≫= f) = f tt.
Proof. by intros ->. Qed.

Ltac check := rewrite VERIFY_bind by (unfold str_size; rewrite ?length_app, ?length_replicate; cbn [length sint_val];
  repeat (apply andb_true_iff; split); first [apply Z.eqb_eq; lia | apply Z.ltb_lt; lia | apply Z.leb_le; lia |
    apply bool_decide_eq_true_2; reflexivity | reflexivity]).

Lemma simple_tests_pass n c s intret1 elapsed :
  0 <= n -> ready (n + 5) c s -> intret1 < 0 -> elapsed <= 4 ->
  exists c' s', simple_tests call (c, s, tt) intret1 elapsed = Ret (c', s', tt) /\ ready n c' s'.
Proof.
  intros Hn Hr Hi He. unfold simple_tests.
  assert (Z.of_nat (length (replicate (Z.to_nat 1000000) "x"%char)) = 1000000) as Hbig
    by (rewrite length_replicate; apply Z2Nat.id; lia).
  generalize dependent (replicate (Z.to_nat 1000000) "x"%char). intros big Hbig.
  assert (length (S! "z") = 1%nat) as Hz by reflexivity.
  destruct (call_22 (n + 4) c s (S! "hello") (S! " goodbye") [] ltac:(lia)) as (c1 & s1 & -> & H1); [eapply ready_eq; [exact Hr|lia]|done|]. rsimpl. do 2 check.
  destruct (call_25 (n + 3) c1 s1 70000 (S! "hello" ++ S! " goodbye") ltac:(lia)) as (c2 & s2 & -> & H2); [eapply ready_eq; [exact H1|lia]|done|]. rsimpl. do 2 check.
  destruct (call_23_24 (n + 2) c2 s2 true 77 0 ltac:(lia)) as (c3 & s3 & -> & H3); [eapply ready_eq; [exact H2|lia]|lia|]. rsimpl. check.
  destruct (call_22 (n + 1) c3 s3 (replicate 1000 "x"%char) (S! "x") [] ltac:(lia)) as (c4 & s4 & -> & H4);
    [eapply ready_eq; [exact H3|lia]|rewrite length_replicate; done|]. rsimpl. check.
  destruct (call_22 n c4 s4 big (S! "z") (replicate (Z.to_nat 70000) "x"%char) ltac:(lia)) as (c5 & s5 & -> & H5);
    [eapply ready_eq; [exact H4|lia]|lia|].
  rsimpl. do 2 check. by exists c5, s5.
Qed.

Lemma client1_big_passes args : forall n c s, 0 <= n -> ready (n + Z.of_nat (length args)) c s ->
  Forall (fun x => 0 <= x < 1000000000) args ->
  exists c' s', client1_big call (c, s, tt) args = Ret (c', s', tt) /\ ready n c' s'.
Proof.
  induction args as [|x args IH]; intros n c s Hn Hr Hx; [exists c, s; split; [done|]; by rewrite Z.add_0_r in Hr|].
  apply Forall_cons in Hx as [Hx Hxs]. cbn [client1_big].
  destruct (call_25 (n + Z.of_nat (length args)) c s x [] ltac:(lia)) as (c1 & s1 & -> & H1);
    [simpl length in Hr; by replace (n + Z.of_nat (length args) + 1) with (n + Z.of_nat (S (length args))) by lia|done|]. rsimpl.
  do 2 check. by apply (IH n).
Qed.

Lemma client1_mixed_passes r args : forall n c s, 0 <= n -> ready (n + Z.of_nat (length args)) c s ->
  Forall (fun x => 0 <= x.2 < 1000000000) args ->
  exists c' s', client1_mixed call (c, s, tt) r args = Ret (c', s', tt) /\ ready n c' s'.
Proof.
  induction args as [|[which x] args IH]; intros n c s Hn Hr Hx; [exists c, s; split; [done|]; by rewrite Z.add_0_r in Hr|].
  apply Forall_cons in Hx as [Hx Hxs]. simpl in Hx. cbn [client1_mixed].
  destruct (call_23_24 (n + Z.of_nat (length args)) c s which x r ltac:(lia)) as (c1 & s1 & -> & H1);
    [simpl length in Hr; by replace (n + Z.of_nat (length args) + 1) with (n + Z.of_nat (S (length args))) by lia|lia|]. rsimpl.
  check. destruct which; check; by apply (IH n).
Qed.

Lemma client2_passes args : forall n c s, 0 <= n -> ready (n + Z.of_nat (length args)) c s ->
  Forall (fun x => 0 <= x < 1000000000) args ->
  exists c' s', client2 call (c, s, tt) args = Ret (c', s', tt) /\ ready n c' s'.
Proof.
  induction args as [|x args IH]; intros n c s Hn Hr Hx; [exists c, s; split; [done|]; by rewrite Z.add_0_r in Hr|].
  apply Forall_cons in Hx as [Hx Hxs]. cbn [client2].
  destruct (call_25 (n + Z.of_nat (length args)) c s x [] ltac:(lia)) as (c1 & s1 & -> & H1);
    [eapply ready_eq; [exact Hr|simpl length; lia]|done|]. rsimpl.
  check. by apply (IH n).
Qed.

Lemma client3_passes r l : forall n c s, 0 <= n -> ready (n + Z.of_nat (length l)) c s ->
  Forall (fun x => 0 <= x < 4) l ->
  exists c' s', client3_loop call (c, s, tt) r l = Ret (c', s', tt) /\ ready n c' s'.
Proof.
  induction l as [|x l IH]; intros n c s Hn Hr Hx; [exists c, s; split; [done|]; by rewrite Z.add_0_r in Hr|].
  apply Forall_cons in Hx as [Hx Hxs]. cbn [client3_loop].
  destruct (call_23_24 (n + Z.of_nat (length l)) c s false x r ltac:(lia)) as (c1 & s1 & -> & H1);
    [eapply ready_eq; [exact Hr|simpl length; lia]|lia|]. rsimpl. cbn [sint_val]. rewrite Z.eqb_refl, orb_true_r. rsimpl.
  by apply (IH n).
Qed.

(** The server is started and a client bound to it. *)
Lemma startserver_ok nc :
  exists s, startserver nc ri = Ret s /\ sys_init (Sys s []) /\ nonce_ s = nc /\ test_service s /\
    exists s0, nonce_ s0 = nc /\ procs_ s !! rpc_const.bind = Some (fn_1 (SInt 0) (rpcbind_meth s0)).
Proof.
  unfold startserver. destruct (rpcs_new_ok (St := unit) nc 0) as (s1 & -> & H1 & N1 & s0 & N0 & P1). rsimpl.
  destruct (reg1_ok s1 22 (fn_2 ([] : str) srv.handle_22) H1) as (s2 & -> & H2 & N2 & P2); [by rewrite P1|]. rsimpl. rewrite P1 in P2.
  destruct (reg1_ok s2 23 (fn_1 (SInt ri) srv.handle_fast) H2) as (s3 & -> & H3 & N3 & P3); [by rewrite P2|]. rsimpl. rewrite P2 in P3.
  destruct (reg1_ok s3 24 (fn_1 (SInt ri) srv.handle_slow) H3) as (s4 & -> & H4 & N4 & P4); [by rewrite P3|]. rsimpl. rewrite P3 in P4.
  destruct (reg1_ok s4 25 (fn_1 ([] : str) srv.handle_bigrep) H4) as (s5 & -> & H5 & N5 & P5); [by rewrite P4|].
  rewrite P4 in P5. exists s5. split_and!; [done|apply H5..|congruence| |]; [unfold test_service; rewrite P5; by split_and!|].
  exists s0. split; [done|]. by rewrite P5.
Qed.

(** What is needed of a server that is about to be bound to. *)
Definition fresh_server (s : rpcs (St := unit)) : Prop :=
  sys_init (Sys s []) /\ nonce_ s = nonce /\ test_service s /\
  exists s0, nonce_ s0 = nonce /\ procs_ s !! rpc_const.bind = Some (fn_1 (SInt 0) (rpcbind_meth s0)).

Lemma bind_fresh s0 rnd lossy r :
  0 <= nonce < two32 -> isdead k = false -> fresh_server s0 ->
  exists c s, bind create_time isdead k (rpcc_new true rnd lossy, s0, tt) r = Ret (c, s, tt, 0) /\
    linked create_time isdead k true c s /\ test_service s /\ xid_ c = 2 /\ srv_nonce c = nonce /\ clt_nonce c = u32 rnd /\
    fixed s = fixed s0 /\ forall clt, clt <> u32 rnd -> window_of (reply_window_ s) clt = [].
Proof.
  intros Hn Hk (Hi & Hn0 & Hp & sb & Hnb & Hb).
  destruct (bind_ok create_time isdead k (rpcc_new true rnd lossy) s0 tt r sb) as (c & s & E & (Hl & Hx & [Hcn _] & Hfix & Hok) & Hsn);
    [by apply linked_start|done|done|congruence|by rewrite Hn0|].
  exists c, s. split_and!; [done|done| |done|congruence|done|done|].
  - unfold fixed in Hfix. injection Hfix as _ Hfix. unfold test_service. by rewrite Hfix.
  - intros clt Hne. specialize (Hok clt Hne). destruct Hi as [Hi _]. simpl in Hi. rewrite Hi in Hok.
    destruct (window_of (reply_window_ s) clt) as [|x l]; [done|]. exfalso. apply (not_elem_of_nil (r_xid x)), Hok. left.
Qed.

(** ** What [failure_test] expects *)

(** A server that was started anew refuses the calls of a client bound to its
    predecessor: nothing is executed. *)
Lemma restarted_refuses trc c s x y r :
  reachable cl_init cl_step trc c -> bind_done c = true -> destroy_wait c = false -> xid_ c < two32 - 2 ->
  Z.of_nat (length x + length y) < 1000000000 -> srv_nonce c <> 0 -> srv_nonce c <> nonce_ s ->
  exists c2 s2, call_2 call (c, s, tt) 22 x y (r : str) = Ret (c2, s2, tt, rpc_const.oldsrv_failure, r) /\
    (fresh_server s -> fresh_server s2).
Proof.
  intros Hc Hbd Hdw Hxc Hlen Hz Hne. unfold call_2.
  destruct (put_ok marshall_new (fresh 0 24) x marshall_new_rep) as (m1 & -> & Hm1);
    [simpl; unfold PDU_LIMIT; lia|simpl; unfold PDU_LIMIT; lia|]. rsimpl.
  destruct (put_ok m1 _ y Hm1) as (m & -> & Hm);
    [simpl; unfold PDU_LIMIT; lia|simpl; rewrite ?length_app; simpl; unfold PDU_LIMIT; lia|]. rsimpl.
  rewrite <- app_assoc in Hm. unfold call_m, call, loopback.
  pose proof (cl_inv_reachable _ _ Hc) as Hci. pose proof (ci_xid _ _ Hci) as Hxid.
  assert (Z.of_nat (24 + length (enc x ++ enc y)) < PDU_LIMIT) as Hla by (simpl; rewrite ?length_app; simpl; unfold PDU_LIMIT; lia).
  destruct (call1_begin_ok trc c 22 m (fresh 0 24) (enc x ++ enc y) Hci Hbd Hdw Hm eq_refl Hla)
    as (c1 & req & h & E1 & Hreq & Hhv & Hca & Hx & _ & _ & Hsn & _ & _ & Hx1).
  rewrite u32_small in Hx1 by lia. rewrite E1. rsimpl. rewrite (m_rep_message _ _ Hreq). rsimpl.
  destruct (arrived_request (take 4 (fresh 0 24)) (enc x ++ enc y) h eq_refl Hhv Hla) as (u & Eu & Hu).
  unfold dispatch, dispatch_begin. rewrite Eu. rsimpl.
  assert (u_ok u = true) as -> by (by destruct Hu as (? & ? & ? & ? & ? & ? & ?)). cbn [negb].
  rewrite Hsn. simpl nonce_. rewrite (proj2 (Z.eqb_neq _ _) Hz), (proj2 (Z.eqb_neq _ _) Hne). cbn [negb andb].
  destruct (failure_reply_ok (ReplyHeader (rq_xid h) rpc_const.oldsrv_failure)) as (rep & b & Ep & Em).
  destruct (reply_packed marshall_new (fresh 0 24) h rpc_const.oldsrv_failure b marshall_new_rep) as (p & a4 & x12 & Ha & Hx12 & Hl & ->);
    [done|done|by rewrite Ep|]. rewrite Ep. rsimpl. rewrite Em. rsimpl.
  match goal with |- context [sent (send ?t ?k ?b)] => change (sent (send t k b)) with (sent t ++ [(k, b)]) end.
  rewrite last_snoc.
  destruct (reply_delivered (trc ++ [CBegin (xid_ c)]) c1 (xid_ c) (rq_xid_rep h)
    (take 4 (fresh 0 24) ++ header_bytes h ++ enc x ++ enc y)
    (Caller unmarshall_new 0 false) a4 x12 p rpc_const.oldsrv_failure)
    as (c3 & c4 & u2 & Eg2 & Ee & _);
    [by eapply reach_step; [exact Hc|]; eapply cs_begin|lia|done|done|done|done|done|done|done|].
  rewrite Hx, Eg2. rsimpl. rewrite Ee. rsimpl. eexists _, _. split; [done|].
  intros ((I1 & I2 & I3 & I4 & I5) & F). split; [|exact F]. split_and!; [done|done| |done|done].
  intros c0. specialize (I3 c0). unfold ref in I3 |- *. simpl in I3 |- *. destruct (decide (c0 = k)) as [->|Hk];
    [rewrite lookup_insert_eq; simpl; unfold ref; lia|by rewrite lookup_insert_ne].
Qed.

(** A second [bind] is refused by the client itself. *)
Lemma bind_twice c s r : bind_done c = true ->
  bind create_time isdead k (c, s, tt) r = Ret (c, s, tt, rpc_const.bind_failure).
Proof.
  intros Hb. unfold bind, call_1.
  destruct (put_ok marshall_new (fresh 0 24) (SInt 0) marshall_new_rep) as (m & -> & _); [done|done|]. rsimpl.
  unfold call_m, loopback, call1_begin. rewrite Hb. done.
Qed.

End session.

Lemma fresh_start nonce : exists s, startserver nonce ri = Ret s /\ fresh_server nonce s.
Proof. destruct (startserver_ok nonce) as (s & E & H). by exists s. Qed.

Lemma failure_test_passes nonce trc c bind0 nonce1 nonce2 rnd1 rnd2 lossy r order1 order2 :
  reachable cl_init cl_step trc c -> bind_done c = true -> destroy_wait c = false -> xid_ c < two32 - 2 ->
  srv_nonce c = nonce -> nonce <> 0 -> nonce1 <> nonce -> 0 <= nonce1 < two32 -> 0 <= nonce2 < two32 -> isdead k = false -> bind0 < 0 ->
  Forall (fun x => 0 <= x < 4) order1 -> Forall (fun x => 0 <= x < 4) order2 ->
  Z.of_nat (length order1) < two32 - 10 -> Z.of_nat (length order2) < two32 - 10 ->
  failure_test c bind0 nonce1 nonce2 rnd1 rnd2 lossy r order1 order2 = Ret tt.
Proof.
  intros Hc Hb Hd Hx Hsn Hz Hne Hn1 Hn2 Hk Hb0 Ho1 Ho2 Hl1 Hl2. unfold failure_test.
  rewrite VERIFY_bind by (apply Z.ltb_lt; lia). destruct (fresh_start nonce1) as (s1 & -> & F1). rsimpl.
  destruct (restarted_refuses nonce1 trc c s1 (S! "hello") (S! " goodbye") [] Hc Hb Hd Hx) as (c2 & s2 & -> & F2);
    [done|lia|rewrite (proj1 (proj2 F1)); lia|]. rsimpl. rewrite VERIFY_bind by done.
  destruct (bind_fresh nonce1 s2 rnd1 lossy r Hn1 Hk (F2 F1)) as (c3 & s3 & -> & L3 & T3 & X3 & N3 & _). rsimpl.
  rewrite VERIFY_bind by done. rewrite bind_twice by apply L3. rsimpl. rewrite VERIFY_bind by done.
  destruct (call_22 nonce1 [] (Z.of_nat (length order1)) c3 s3 (S! "hello") (S! " goodbye") [] ltac:(lia)) as (c4 & s4 & -> & R4);
    [split_and!; [done..|lia|done]|done|]. rsimpl. rewrite !VERIFY_bind by done.
  destruct (client3_passes nonce1 [] r order1 0 c4 s4 ltac:(lia) R4 Ho1) as (c5 & s5 & -> & _). rsimpl.
  destruct (fresh_start nonce2) as (s6 & -> & F6). rsimpl.
  destruct (bind_fresh nonce2 s6 rnd2 lossy r Hn2 Hk F6) as (c7 & s7 & -> & L7 & T7 & X7 & N7 & _). rsimpl.
  rewrite VERIFY_bind by done.
  destruct (client3_passes nonce2 [] r order2 0 c7 s7 ltac:(lia)) as (c8 & s8 & -> & _); [split_and!; [done..|lia|done]|done|done].
Qed.

(** The numbers the ten threads send. *)
Lemma order_ok order :
  order ≡ₚ mjoin (replicate 10 client3_args) -> Forall (fun x => 0 <= x < 4) order /\ Z.of_nat (length order) < two32 - 10.
Proof.
  intros Ho. rewrite (Permutation_length Ho). split; [|vm_compute; reflexivity]. rewrite Ho.
  apply (bool_decide_eq_true_1 _). vm_compute. reflexivity.
Qed.

End rpctest.

(** ** The whole test: two clients *)
Section main.
Context `{AL : Allocator} (create_time : conn -> Z * Z) (isdead : conn -> bool) (ri : Z).
(** The connections of the two clients. *)
Context (k0 k1 : conn).

Abbreviation server := (rpcs (St := unit)).
Abbreviation linked k := (linked create_time isdead k true).

(** The clients are made and bound, in [main] and in [lossy_test]. *)
Definition bind_clients (s : server) (rnd0 rnd1 lossy r : Z) : res (rpcc * rpcc * server) :=
  '(c0, s, _, ret) ← bind create_time isdead k0 (rpcc_new true rnd0 lossy, s, tt) r;
  _ ← VERIFY (ret =? 0);
  '(c1, s, _, ret) ← bind create_time isdead k1 (rpcc_new true rnd1 lossy, s, tt) r;
  _ ← VERIFY (ret =? 0);
  Ret (c0, c1, s).

(** One turn of one of the loops of [client1]. *)
Definition client1_turn (k : conn) (c : rpcc) (s : server) (r : Z) (j : Z + bool * Z) : res (rpcc * server * unit) :=
  match j with
  | inl arg => client1_big (loopback create_time isdead k) (c, s, tt) [arg]
  | inr x => client1_mixed (loopback create_time isdead k) (c, s, tt) r [x]
  end.

(** [concurrent_test]: the turns of its threads in the order in which they are
    made, each with the client its thread uses. *)
Fixpoint concurrent_test (c0 c1 : rpcc) (s : server) (r : Z) (order : list (bool * (Z + bool * Z)))
    : res (rpcc * rpcc * server) :=
  match order with
  | [] => Ret (c0, c1, s)
  | (false, j) :: order => '(c0, s, _) ← client1_turn k0 c0 s r j; concurrent_test c0 c1 s r order
  | (true, j) :: order => '(c1, s, _) ← client1_turn k1 c1 s r j; concurrent_test c0 c1 s r order
  end.

(** A single thread makes the turns of [client1] in their order. *)
Lemma concurrent_mixed c1 r args : forall c0 s,
  concurrent_test c0 c1 s r (pair false <$> (inr <$> args)) =
  ('(c0, s, _) ← client1_mixed (loopback create_time isdead k0) (c0, s, tt) r args; Ret (c0, c1, s)).
Proof.
  induction args as [|[w x] args IH]; intros c0 s; [done|]. cbn [fmap list_fmap concurrent_test client1_turn client1_mixed].
  destruct (call_1 _ _ _ _ _) as [[[[[c s'] []] ret] rep]| |]; [|done|done]. rsimpl.
  destruct (VERIFY (ret =? 0)); [|done|done]. rsimpl. destruct (VERIFY _); [|done|done]. rsimpl. apply IH.
Qed.

Lemma concurrent_one_thread c1 r args1 args2 : forall c0 s,
  concurrent_test c0 c1 s r ((pair false <$> (inl <$> args1)) ++ (pair false <$> (inr <$> args2))) =
  ('(c0, s, _) ← client1 (loopback create_time isdead k0) (c0, s, tt) r args1 args2; Ret (c0, c1, s)).
Proof.
  unfold client1. induction args1 as [|x args1 IH]; intros c0 s; [apply concurrent_mixed|].
  cbn [fmap list_fmap app concurrent_test client1_turn client1_big].
  destruct (call_1 _ _ _ _ _) as [[[[[c s'] []] ret] rep]| |]; [|done|done]. rsimpl.
  destruct (VERIFY (ret =? 0)); [|done|done]. rsimpl. destruct (VERIFY _); [|done|done]. rsimpl. apply IH.
Qed.

(** [lossy_test]: a new server, new clients, and one thread that runs [client2] on
    the first. *)
Definition lossy_test (nonce rnd0 rnd1 r : Z) (args : list Z) : res rpcc :=
  s ← startserver nonce ri;
  '(c0, _, s) ← bind_clients s rnd0 rnd1 5 r;
  '(c0, _, _) ← client2 (loopback create_time isdead k0) (c0, s, tt) args;
  Ret c0.

(** [main] without options: server and clients in one process.  [nonce] and [rnd]
    are the numbers the servers and the clients it makes draw. *)
Definition main (nonce rnd : nat -> Z) (r intret1 elapsed bind0 : Z) (order : list (bool * (Z + bool * Z)))
    (args order1 order2 : list Z) : res unit :=
  _ ← testmarshall;
  s ← startserver (nonce 0%nat) ri;
  '(c0, c1, s) ← bind_clients s (rnd 0%nat) (rnd 1%nat) 0 r;
  '(c0, s, _) ← simple_tests (loopback create_time isdead k0) (c0, s, tt) intret1 elapsed;
  '(c0, c1, s) ← concurrent_test c0 c1 s r order;
  c0 ← lossy_test (nonce 1%nat) (rnd 2%nat) (rnd 3%nat) r args;
  failure_test create_time isdead k0 ri c0 bind0 (nonce 2%nat) (nonce 3%nat) (rnd 4%nat) (rnd 5%nat) 0 r order1 order2.

(** Both clients may make [n] more calls. *)
Definition both (nonce n : Z) (c0 c1 : rpcc) (s : server) : Prop :=
  linked k0 c0 s /\ linked k1 c1 s /\ test_service ri s /\ (srv_nonce c0 = nonce /\ srv_nonce c1 = nonce) /\
  (xid_ c0 + n < two32 - 1 /\ xid_ c1 + n < two32 - 1) /\ clt_nonce c1 <> clt_nonce c0.

Lemma bind_clients_ok nonce s rnd0 rnd1 lossy r :
  0 <= nonce < two32 -> isdead k0 = false -> isdead k1 = false -> u32 rnd1 <> u32 rnd0 -> fresh_server ri nonce s ->
  exists c0 c1 s', bind_clients s rnd0 rnd1 lossy r = Ret (c0, c1, s') /\
    linked k0 c0 s' /\ linked k1 c1 s' /\ test_service ri s' /\ (srv_nonce c0 = nonce /\ srv_nonce c1 = nonce) /\
    (xid_ c0 = 2 /\ xid_ c1 = 2) /\ clt_nonce c1 <> clt_nonce c0.
Proof.
  intros Hn Hk0 Hk1 Hne Hf. unfold bind_clients.
  destruct (bind_fresh create_time isdead k0 ri nonce s rnd0 lossy r Hn Hk0 Hf) as (c0 & s1 & -> & L0 & T0 & X0 & N0 & C0 & F0 & W0).
  rsimpl. destruct Hf as (_ & Hns & _ & sb & Hnb & Hb). unfold fixed in F0. injection F0 as Fn Fp.
  destruct (bind_ok create_time isdead k1 (rpcc_new true rnd1 lossy) s1 tt r sb) as (c1 & s2 & -> & Hnx & Hsn);
    [|done|by rewrite Fp|congruence|by rewrite Fn, Hns|].
  { split; [|done|done|apply L0|done|by left|simpl; by rewrite W0]. exists []. constructor. by exists true, rnd1, lossy. }
  rsimpl. exists c0, c1, s2. pose proof Hnx as (L1 & X1 & [C1 _] & Fix & _). split; [done|].
  split_and!; [|done| |done|congruence|done|done|by rewrite C1, C0].
  - eapply (linked_other create_time isdead k1 k0 c0); [exact L0| |exact Hnx]. simpl. congruence.
  - unfold fixed in Fix. injection Fix as _ Fp2. unfold test_service. by rewrite Fp2.
Qed.

(** A turn of a thread, whichever client it uses. *)
Lemma client1_turn_ok k nonce rest n c s r j :
  0 <= n -> ready create_time isdead k ri nonce rest (n + 1) c s ->
  match j with inl x => 0 <= x < 2000 | inr x => 0 <= x.2 < 1000 end ->
  exists c' s', client1_turn k c s r j = Ret (c', s', tt) /\ ready create_time isdead k ri nonce rest n c' s'.
Proof.
  intros Hn Hr Hj. destruct j as [x|x]; unfold client1_turn.
  - eapply client1_big_passes; [done|exact Hr|]. constructor; [lia|constructor].
  - eapply client1_mixed_passes; [done|exact Hr|]. constructor; [lia|constructor].
Qed.

Definition turn_ok (x : bool * (Z + bool * Z)) : Prop :=
  match x.2 with inl arg => 0 <= arg < 2000 | inr y => 0 <= y.2 < 1000 end.

Lemma concurrent_test_passes nonce r order : forall c0 c1 s,
  both nonce (Z.of_nat (length order)) c0 c1 s -> Forall turn_ok order ->
  exists c0' c1' s', concurrent_test c0 c1 s r order = Ret (c0', c1', s').
Proof.
  induction order as [|[w j] order IH]; intros c0 c1 s (L0 & L1 & T & (N0 & N1) & (X0 & X1) & Hne) Ho; [by exists c0, c1, s|].
  apply Forall_cons in Ho as [Hj Ho]. unfold turn_ok in Hj. cbn [snd] in Hj. cbn [length concurrent_test] in *. destruct w.
  - destruct (client1_turn_ok k1 nonce [(k0, c0)] (Z.of_nat (length order)) c1 s r j) as (c1' & s' & -> & (L1' & T' & N1' & X1' & Hr));
      [lia|split_and!; [done..|lia|constructor; [by split|constructor]]|done|].
    apply Forall_cons in Hr as [[Hne' L0'] _]. rsimpl. apply IH; [|done]. split_and!; try done; lia.
  - destruct (client1_turn_ok k0 nonce [(k1, c1)] (Z.of_nat (length order)) c0 s r j) as (c0' & s' & -> & (L0' & T' & N0' & X0' & Hr));
      [lia|split_and!; [done..|lia|constructor; [by split|constructor]]|done|].
    apply Forall_cons in Hr as [[Hne' L1'] _]. rsimpl. apply IH; [|done]. split_and!; try done; lia.
Qed.

Lemma lossy_test_passes nonce rnd0 rnd1 r args :
  0 <= nonce < two32 -> isdead k0 = false -> isdead k1 = false -> u32 rnd1 <> u32 rnd0 ->
  Forall (fun x => 0 <= x < 2000) args -> Z.of_nat (length args) < two32 - 20 ->
  exists c trc, lossy_test nonce rnd0 rnd1 r args = Ret c /\ reachable cl_init cl_step trc c /\ bind_done c = true /\
    destroy_wait c = false /\ xid_ c < two32 - 2 /\ srv_nonce c = nonce.
Proof.
  intros Hn Hk0 Hk1 Hne Ha Hl. unfold lossy_test. destruct (fresh_start ri nonce) as (s & -> & F). rsimpl.
  destruct (bind_clients_ok nonce s rnd0 rnd1 5 r Hn Hk0 Hk1 Hne F) as (c0 & c1 & s1 & -> & L0 & L1 & T & (N0 & _) & (X0 & _) & _).
  rsimpl. destruct (client2_passes create_time isdead k0 ri nonce [] args 2 c0 s1 ltac:(lia)) as (c2 & s2 & -> & H2);
    [split_and!; [done..|lia|done]|eapply Forall_impl; [exact Ha|]; simpl; lia|]. rsimpl.
  destruct H2 as ([[trc Hc] Hb Hd _ _ _ _] & _ & Hsn & Hx & _). exists c2, trc. split_and!; [done..|lia|done].
Qed.

End main.

(** ** The test on concrete arguments *)
Module RpcTestExample.
#[local] Instance zeros : Allocator := fun _ => Ascii.zero.

End RpcTestExample.
