(* ===== verification/Listener.v ===== *)
(** * Connection objects and the listener: [rpc/connection.cc], class [tcpsconn]

    A [connection] is shared by the listener, the table of the latest connection
    of each client ([rpcs::conns_]) and the jobs that answer requests; each has a
    counted reference, and [connection::decref] deletes a dead connection with its
    last one.  The listener's thread accepts connections and collects dead ones.
    Objects live in an explicit store, so that a use after deletion is [Undef];
    the descriptors that are open are part of it, since [close] runs in the
    destructor.  What [accept], [select], [read] and [write] answer is an argument. *)

From S2P Require Import Prelude Marshall Connection.

(** ** Objects *)

(** The members of [connection] that [Connection] does not have. *)
Record cobj := Cobj { fd_ : Z; refno_ : Z; create_time_ : Z * Z; body : connection }.

Record store := Store { objs : gmap positive cobj; next_obj : positive; fds : gset Z }.

Definition set_obj (st : store) (p : positive) (o : cobj) : store :=
  Store (<[p := o]> (objs st)) (next_obj st) (fds st).
Definition set_refno (o : cobj) (n : Z) : cobj := Cobj (fd_ o) n (create_time_ o) (body o).
Definition set_body (o : cobj) (c : connection) : cobj := Cobj (fd_ o) (refno_ o) (create_time_ o) c.

(** [new connection(mgr, fd, lossy)] at time [now]. *)
Definition new_connection (st : store) (fd : Z) (now : Z * Z) : store * positive :=
  (Store (<[next_obj st := Cobj fd 1 now connection_new]> (objs st)) (Pos.succ (next_obj st)) ({[fd]} ∪ fds st),
   next_obj st).

(** [connect_to_dst]: [s] is the socket, [connected] whether [connect] succeeded. *)
Definition connect_to_dst (st : store) (s : Z) (connected : bool) (now : Z * Z) : store * option positive :=
  if connected then let '(st, p) := new_connection st s now in (st, Some p) else (st, None).

Definition channo (st : store) (p : positive) : res Z := o ← deref (objs st !! p); Ret (fd_ o).
Definition isdead (st : store) (p : positive) : res bool := o ← deref (objs st !! p); Ret (dead_ (body o)).
Definition ref (st : store) (p : positive) : res Z := o ← deref (objs st !! p); Ret (refno_ o).

Definition incref (st : store) (p : positive) : res store :=
  o ← deref (objs st !! p);
  Ret (set_obj st p (set_refno o (refno_ o + 1))).

(** [connection::~connection]: [close(fd_)] frees the descriptor. *)
Definition destroy (st : store) (p : positive) (o : cobj) : res store :=
  _ ← VERIFY (dead_ (body o));
  _ ← VERIFY (bool_decide (cb_buf (wpdu_ (body o)) = None));
  Ret (Store (delete p (objs st)) (next_obj st) (fds st ∖ {[fd_ o]})).

Definition decref (st : store) (p : positive) : res store :=
  o ← deref (objs st !! p);
  let n := refno_ o - 1 in
  _ ← VERIFY (0 <=? n);
  if (n =? 0) && dead_ (body o) then destroy st p o
  else Ret (set_obj st p (set_refno o n)).

(** [connection::compare]. *)
Definition compare (a b : cobj) : Z :=
  if (create_time_ b).1 <? (create_time_ a).1 then 1
  else if (create_time_ a).1 <? (create_time_ b).1 then -1
  else if (create_time_ b).2 <? (create_time_ a).2 then 1
  else if (create_time_ a).2 <? (create_time_ b).2 then -1
  else 0.

(** ** The listener *)

(** [tcpsconn::conns_], a [std::map] from descriptors, in the order of its keys. *)
Definition conn_map : Type := list (Z * positive).

(** [conns_[k] = v]. *)
Fixpoint map_put (k : Z) (v : positive) (l : conn_map) : conn_map :=
  match l with
  | [] => [(k, v)]
  | (k', v') :: l' =>
      if k <? k' then (k, v) :: l
      else if k =? k' then (k, v) :: l'
      else (k', v') :: map_put k v l'
  end.

(** The loop of [process_accept] over [conns_]. *)
Fixpoint collect (st : store) (l : conn_map) : res (store * conn_map) :=
  match l with
  | [] => Ret (st, [])
  | (fd, p) :: l =>
      d ← isdead st p;
      n ← ref st p;
      if d && (n =? 1) then
        st ← decref st p;
        collect st l
      else
        '(st, l) ← collect st l;
        Ret (st, (fd, p) :: l)
  end.

(** [tcpsconn::process_accept]: [s1] is what [accept] returns; [None] when the
    thread exits. *)
Definition process_accept (st : store) (conns : conn_map) (s1 : Z) (now : Z * Z)
  : res (store * option conn_map) :=
  if s1 <? 0 then Ret (st, None)
  else
    let '(st, ch) := new_connection st s1 now in
    '(st, conns) ← collect st conns;
    k ← channo st ch;
    Ret (st, Some (map_put k ch conns)).

(** What [select] answers in [accept_conn]: an error, or which of [pipe_[0]] and
    [tcp_] are readable. *)
Inductive select_t := SelErr (eintr : bool) | SelReady (pipe tcp : bool).

(** One turn of the loop of [tcpsconn::accept_conn]; [None] when the thread ends. *)
Definition accept_conn (st : store) (conns : conn_map) (sel : select_t) (s1 : Z) (now : Z * Z)
  : res (store * option conn_map) :=
  match sel with
  | SelErr eintr => if eintr then Ret (st, Some conns) else Abort
  | SelReady pipe tcp =>
      if pipe then Ret (st, None)
      else if tcp then process_accept st conns s1 now
      else Abort
  end.

(** [connection::closeconn] in its two parts: [dead_] is set under [m_], then
    [block_remove_fd] deregisters the callbacks without it. *)
Definition close_mark (c : connection) : connection := set_dead c.
Definition close_removed (c : connection) : connection := set_cbs c false false.

(** The loop of [tcpsconn::~tcpsconn]. *)
Fixpoint close_all (st : store) (l : conn_map) : res store :=
  match l with
  | [] => Ret st
  | (_, p) :: l =>
      o ← deref (objs st !! p);
      st ← decref (set_obj st p (set_body o (closeconn (body o)))) p;
      close_all st l
  end.

(** ** [connection::send], between the points where other threads run *)

Inductive send_t := Sent | Waiting | Removing.

(** From the start to the wait for [write_cb], to [block_remove_fd], or to the end. *)
Definition send_turn (c : connection) (b : str) (sz : Z) (w : wr) : res (connection * send_t) :=
  if dead_ c then Ret (c, Sent)
  else
    '(c, ok) ← writepdu (set_wpdu c (Charbuf (Some b) sz 0)) w;
    if negb ok then Ret (set_dead c, Removing)
    else if solong (wpdu_ c) =? cb_sz (wpdu_ c) then Ret ((send_end c).1, Sent)
    else Ret (set_cbs c (cb_rd c) true, Waiting).

(** The thread that waits for [send_complete_] goes on. *)
Definition send_ready (c : connection) : bool :=
  dead_ c || (solong (wpdu_ c) <? 0) || (cb_sz (wpdu_ c) <=? solong (wpdu_ c)).

(** ** The threads *)

(** A job runs [rpcs::dispatch] for a request on [jc] of client [jn]: it has not
    looked at the tables ([JNew]), the client is known ([JSeen]), the handler has
    run and the connection for the reply is chosen ([JReady]), or it is inside or
    after [send]; [leaks] when the path ends without [decref]. *)
Inductive jphase := JNew | JSeen | JReady | JSend (where_ : send_t) (leaks : bool).
Record job := Job { jc : positive; jn : Z; jp : jphase }.

(** The listener's thread: in [select]; in the loop of [process_accept] with the
    new connection [ch], about to call [isdead], [ref] or [decref] on the entry the
    iterator is at; ended.  Then the destructor: about to close an entry, inside
    [block_remove_fd] for it, about to release it; done. *)
Inductive lpc :=
  | Selecting
  | Test (ch : positive) | TestRef (ch : positive) | Drop (ch : positive)
  | Stopped
  | Closing | CloseWait | CloseDrop.

(** [kept] and [todo] are the entries of [conns_] before and from the iterator. *)
Record lsys := Lsys {
  lst : store;
  kept : conn_map;
  todo : conn_map;
  pc : lpc;
  saved : gmap Z positive;        (* rpcs::conns_ *)
  jobs : gmap Z job;
  leaked : list positive }.       (* references nobody will release *)

Definition set_lst (s : lsys) st : lsys := Lsys st (kept s) (todo s) (pc s) (saved s) (jobs s) (leaked s).
Definition set_loop (s : lsys) st k l p : lsys := Lsys st k l p (saved s) (jobs s) (leaked s).
Definition set_jobs (s : lsys) st js : lsys := Lsys st (kept s) (todo s) (pc s) (saved s) js (leaked s).

(** What [rpcs::got_pdu] does: it ignores the message (the server plays dead), it
    finds the queue full, or it makes job [t] for a request of client [n]. *)
Inductive got_t := GotIgnored | GotFull | GotJob (t n : Z).

(** "save the latest good connection to the client", under [conss_m_]. *)
Definition save_conn (st : store) (saved : gmap Z positive) (n : Z) (c : positive)
  : res (store * gmap Z positive) :=
  match saved !! n with
  | None => st ← incref st c; Ret (st, <[n := c]> saved)
  | Some c0 =>
      o0 ← deref (objs st !! c0);
      o ← deref (objs st !! c);
      if compare o0 o <? 0 then
        st ← decref st c0;
        st ← incref st c;
        Ret (st, <[n := c]> saved)
      else Ret (st, saved)
  end.

(** "get the latest connection to the client", under [conss_m_]. *)
Definition latest_conn (st : store) (saved : gmap Z positive) (n : Z) (c : positive)
  : res (store * positive) :=
  d ← isdead st c;
  if d && negb (bool_decide (saved !! n = Some c)) then
    st ← decref st c;
    c ← deref (saved !! n);
    st ← incref st c;
    Ret (st, c)
  else Ret (st, c).

Inductive lev :=
  | EAccept (fd : Z) (now : Z * Z)         (* accept returns fd *)
  | EStop                                  (* the pipe is closed, or accept failed *)
  | ELoop                                  (* the listener's loop, or its destructor, goes on *)
  | ERead (p : positive) (r1 r2 : rd) (g : got_t)
  | EWrite (p : positive) (w : wr)
  | ESave (t : Z)
  | ESend (t : Z) (b : str) (sz : Z) (w : wr)
  | ELatest (t : Z)
  | EResume (t : Z)                        (* send goes on after its wait *)
  | EDone (t : Z).

Section threads.
Context `{Allocator}.

(** The listener and its destructor. *)
Definition loop_turn (s : lsys) : res (option lsys) :=
  match pc s, todo s with
  | Test ch, (fd, p) :: l =>
      d ← isdead (lst s) p;
      Ret (Some (if (d : bool) then set_loop s (lst s) (kept s) (todo s) (TestRef ch)
                 else set_loop s (lst s) (kept s ++ [(fd, p)]) l (Test ch)))
  | TestRef ch, (fd, p) :: l =>
      n ← ref (lst s) p;
      Ret (Some (if n =? 1 then set_loop s (lst s) (kept s) (todo s) (Drop ch)
                 else set_loop s (lst s) (kept s ++ [(fd, p)]) l (Test ch)))
  | Drop ch, (fd, p) :: l =>
      st ← decref (lst s) p;
      Ret (Some (set_loop s st (kept s) l (Test ch)))
  | Test ch, [] =>
      k ← channo (lst s) ch;
      Ret (Some (set_loop s (lst s) (map_put k ch (kept s)) [] Selecting))
  | Stopped, _ => Ret (Some (set_loop s (lst s) [] (kept s ++ todo s) Closing))
  | Closing, (_, p) :: _ =>
      o ← deref (objs (lst s) !! p);
      Ret (Some (if dead_ (body o) then set_loop s (lst s) (kept s) (todo s) CloseDrop
                 else set_loop s (set_obj (lst s) p (set_body o (close_mark (body o)))) (kept s) (todo s) CloseWait))
  | CloseWait, (_, p) :: _ =>
      o ← deref (objs (lst s) !! p);
      Ret (Some (set_loop s (set_obj (lst s) p (set_body o (close_removed (body o)))) (kept s) (todo s) CloseDrop))
  | CloseDrop, (_, p) :: l =>
      st ← decref (lst s) p;
      Ret (Some (set_loop s st (kept s) l Closing))
  | _, _ => Ret None
  end.

(** The poll thread calls [read_cb], which calls [rpcs::got_pdu] with [m_] held. *)
Definition read_turn (s : lsys) (p : positive) (r1 r2 : rd) (g : got_t) : res (option lsys) :=
  match objs (lst s) !! p with
  | None => Ret None
  | Some o =>
      if negb (cb_rd (body o)) then Ret None
      else
        '(c, d) ← read_cb (body o) r1 r2 (match g with GotFull => false | _ => true end);
        let st := set_obj (lst s) p (set_body o c) in
        match d, g with
        | Some _, GotFull => st ← incref st p; st ← decref st p; Ret (Some (set_lst s st))
        | Some _, GotJob t n =>
            if bool_decide (jobs s !! t = None) then
              st ← incref st p; Ret (Some (set_jobs s st (<[t := Job p n JNew]> (jobs s))))
            else Ret None
        | _, _ => Ret (Some (set_lst s st))
        end
  end.

Definition write_turn (s : lsys) (p : positive) (w : wr) : res (option lsys) :=
  match objs (lst s) !! p with
  | None => Ret None
  | Some o =>
      if negb (cb_wr (body o)) then Ret None
      else
        '(c, _) ← write_cb (body o) w;
        Ret (Some (set_lst s (set_obj (lst s) p (set_body o c))))
  end.

(** Job [t] calls [c->send]: it cannot start while another message is written. *)
Definition start_send (s : lsys) (t n : Z) (c : positive) (leaks : bool) (b : str) (sz : Z) (w : wr)
  : res (option lsys) :=
  o ← deref (objs (lst s) !! c);
  if negb (dead_ (body o)) && negb (bool_decide (cb_buf (wpdu_ (body o)) = None)) then Ret None
  else
    '(c', w) ← send_turn (body o) b sz w;
    Ret (Some (set_jobs s (set_obj (lst s) c (set_body o c')) (<[t := Job c n (JSend w leaks)]> (jobs s)))).

Definition job_turn (s : lsys) (t : Z) (e : lev) : res (option lsys) :=
  match jobs s !! t with
  | None => Ret None
  | Some j =>
      match e, jp j with
      | ESave _, JNew =>
          '(st, sv) ← (if jn j =? 0 then Ret (lst s, saved s) else save_conn (lst s) (saved s) (jn j) (jc j));
          Ret (Some (Lsys st (kept s) (todo s) (pc s) sv (<[t := Job (jc j) (jn j) JSeen]> (jobs s)) (leaked s)))
      | ESend _ b sz w, JNew => start_send s t (jn j) (jc j) true b sz w
      | ESend _ b sz w, (JSeen | JReady) => start_send s t (jn j) (jc j) false b sz w
      | ELatest _, JSeen =>
          '(st, c) ← latest_conn (lst s) (saved s) (jn j) (jc j);
          Ret (Some (set_jobs s st (<[t := Job c (jn j) JReady]> (jobs s))))
      | EResume _, JSend Waiting lk =>
          o ← deref (objs (lst s) !! jc j);
          if send_ready (body o) then
            Ret (Some (set_jobs s (set_obj (lst s) (jc j) (set_body o (send_end (body o)).1))
                         (<[t := Job (jc j) (jn j) (JSend Sent lk)]> (jobs s))))
          else Ret None
      | EResume _, JSend Removing lk =>
          o ← deref (objs (lst s) !! jc j);
          Ret (Some (set_jobs s (set_obj (lst s) (jc j) (set_body o (send_end (close_removed (body o))).1))
                       (<[t := Job (jc j) (jn j) (JSend Sent lk)]> (jobs s))))
      | EDone _, JSend Sent true =>
          Ret (Some (Lsys (lst s) (kept s) (todo s) (pc s) (saved s) (delete t (jobs s)) (jc j :: leaked s)))
      | EDone _, (JNew | JSeen | JSend Sent false) =>
          st ← decref (lst s) (jc j);
          Ret (Some (set_jobs s st (delete t (jobs s))))
      | _, _ => Ret None
      end
  end.

(** One turn of any thread: [Ret None] when the event cannot happen. [accept] returns
    a descriptor that is not open. *)
Definition turn (s : lsys) (e : lev) : res (option lsys) :=
  match e with
  | EAccept fd now =>
      match pc s with
      | Selecting =>
          if (0 <=? fd) && negb (bool_decide (fd ∈ fds (lst s))) then
            let '(st, ch) := new_connection (lst s) fd now in
            Ret (Some (set_loop s st [] (kept s) (Test ch)))
          else Ret None
      | _ => Ret None
      end
  | EStop => match pc s with Selecting => Ret (Some (set_loop s (lst s) (kept s) (todo s) Stopped)) | _ => Ret None end
  | ELoop => loop_turn s
  | ERead p r1 r2 g => read_turn s p r1 r2 g
  | EWrite p w => write_turn s p w
  | ESave t | ESend t _ _ _ | ELatest t | EResume t | EDone t => job_turn s t e
  end.

Definition lstep (s : lsys) (e : lev) (s' : lsys) : Prop := turn s e = Ret (Some s').

(** [tcpsconn::tcpsconn]: the descriptors open at that time are [open]. *)
Definition linit (open : gset Z) (s : lsys) : Prop := s = Lsys (Store ∅ 1 open) [] [] Selecting ∅ ∅ [].
End threads.
