(* ===== verification/ListenerSpec.v ===== *)
(** * Lifetimes of connections: reference counts and the listener's invariant *)

From S2P Require Import Prelude Marshall Connection Listener.

(** ** The store

    [store_ok st R]: the objects are those with a positive number [R] of
    references, their counts are exact, and their descriptors open and distinct. *)
Record store_ok (st : store) (R : positive -> Z) : Prop := {
  so_obj : forall p o, objs st !! p = Some o -> refno_ o = R p /\ 0 < R p;
  so_live : forall p, 0 < R p -> is_Some (objs st !! p);
  so_next : forall p, is_Some (objs st !! p) -> (p < next_obj st)%positive;
  so_fd : forall p o, objs st !! p = Some o -> fd_ o ∈ fds st;
  so_inj : forall p q o o', objs st !! p = Some o -> objs st !! q = Some o' -> fd_ o = fd_ o' -> p = q }.

Definition one (p q : positive) : Z := if decide (p = q) then 1 else 0.

Lemma store_ok_ext st R R' : store_ok st R -> (forall p, R' p = R p) -> store_ok st R'.
Proof.
  intros [Ho Hl Hn Hf Hi] HR. split; [|intros p; rewrite HR; auto|done..].
  intros p o Hp. rewrite HR. auto.
Qed.

(** Objects of the second store are objects of the first, with the same
    descriptor and contents. *)
Definition shape (st st' : store) : Prop :=
  forall q o', objs st' !! q = Some o' -> exists o, objs st !! q = Some o /\ body o' = body o /\ fd_ o' = fd_ o.

Lemma shape_refl st : shape st st.
Proof. intros q o H. by exists o. Qed.

Lemma shape_trans st1 st2 st3 : shape st1 st2 -> shape st2 st3 -> shape st1 st3.
Proof.
  intros H1 H2 q o3 H. destruct (H2 q o3 H) as (o2 & E2 & B2 & F2). destruct (H1 q o2 E2) as (o1 & E1 & B1 & F1).
  exists o1. split; [done|]. split; congruence.
Qed.

Lemma shape_set st p o n : objs st !! p = Some o -> shape st (set_obj st p (set_refno o n)).
Proof.
  intros H q o'. simpl. destruct (decide (p = q)) as [<-|Hne].
  - rewrite lookup_insert_eq. intros [= <-]. by exists o.
  - rewrite lookup_insert_ne by done. intros Hq. by exists o'.
Qed.

(** A change of one object. *)
Lemma store_ok_set st R R' p o o' :
  store_ok st R -> objs st !! p = Some o -> fd_ o' = fd_ o -> refno_ o' = R' p -> 0 < R' p ->
  (forall q, q <> p -> R' q = R q) -> store_ok (set_obj st p o') R'.
Proof.
  intros [Ho Hl Hn Hf Hi] Hp Hfd Hr Hpos HR.
  assert (forall q x, objs (set_obj st p o') !! q = Some x -> exists x0, objs st !! q = Some x0 /\ fd_ x = fd_ x0) as Hback.
  { intros q x. simpl. destruct (decide (p = q)) as [<-|Hne].
    - rewrite lookup_insert_eq. intros [= <-]. by exists o.
    - rewrite lookup_insert_ne by done. intros Hq. by exists x. }
  split.
  - intros q x. simpl. destruct (decide (p = q)) as [<-|Hne].
    + rewrite lookup_insert_eq. by intros [= <-].
    + rewrite lookup_insert_ne, HR by done. apply Ho.
  - intros q. simpl. destruct (decide (p = q)) as [<-|Hne].
    + rewrite lookup_insert_eq. eauto.
    + rewrite lookup_insert_ne, HR by done. apply Hl.
  - intros q [x Hx]. destruct (Hback q x Hx) as (x0 & Hx0 & _). simpl. apply Hn. eauto.
  - intros q x Hx. destruct (Hback q x Hx) as (x0 & Hx0 & ->). by eapply Hf.
  - intros q1 q2 x1 x2 H1 H2 E. destruct (Hback q1 x1 H1) as (y1 & G1 & E1). destruct (Hback q2 x2 H2) as (y2 & G2 & E2).
    apply (Hi q1 q2 y1 y2 G1 G2). congruence.
Qed.

Lemma store_ok_body st R p o c :
  store_ok st R -> objs st !! p = Some o -> store_ok (set_obj st p (set_body o c)) R.
Proof. intros Hs Hp. destruct (so_obj _ _ Hs p o Hp). by eapply store_ok_set. Qed.

Lemma store_ok_get st R p : store_ok st R -> 0 < R p -> exists o, objs st !! p = Some o /\ refno_ o = R p.
Proof. intros Hs HR. destruct (so_live _ _ Hs p HR) as [o Ho]. exists o. by destruct (so_obj _ _ Hs p o Ho). Qed.

Lemma store_incref st R p : store_ok st R -> 0 < R p ->
  exists st', incref st p = Ret st' /\ store_ok st' (fun q => R q + one p q) /\ shape st st'.
Proof.
  intros Hs HR. destruct (store_ok_get st R p Hs HR) as (o & Hp & Hr). unfold incref. rewrite Hp. rsimpl.
  eexists; split; [done|]. split; [|by apply shape_set]. unfold one.
  eapply store_ok_set; [done|exact Hp|done| | |]; cbv beta.
  - rewrite decide_True by done. simpl. lia.
  - rewrite decide_True by done. lia.
  - intros q Hq. rewrite decide_False by congruence. lia.
Qed.

(** The deletion of an object closes its descriptor. *)
Lemma store_ok_delete st R p o :
  store_ok st R -> objs st !! p = Some o -> R p = 1 ->
  store_ok (Store (delete p (objs st)) (next_obj st) (fds st ∖ {[fd_ o]})) (fun q => R q - one p q).
Proof.
  intros [Ho Hl Hn Hf Hi] Hp HR. unfold one. split; simpl.
  - intros q x Hx. apply lookup_delete_Some in Hx as [Hne Hx]. rewrite decide_False by done. rewrite Z.sub_0_r. auto.
  - intros q. destruct (decide (p = q)) as [<-|Hne]; [lia|]. rewrite Z.sub_0_r, lookup_delete_ne by done. apply Hl.
  - intros q [x Hx]. apply lookup_delete_Some in Hx as [_ Hx]. eauto.
  - intros q x Hx. apply lookup_delete_Some in Hx as [Hne Hx]. apply elem_of_difference. split; [eauto|].
    intros E%elem_of_singleton. by specialize (Hi _ _ _ _ Hp Hx (eq_sym E)).
  - intros q1 q2 x1 x2 H1 H2. apply lookup_delete_Some in H1 as [_ H1]. apply lookup_delete_Some in H2 as [_ H2]. eauto.
Qed.

(** [decref] on the last reference needs a dead connection with nothing to write. *)
Lemma store_decref st R p : store_ok st R -> 0 < R p ->
  (R p = 1 -> forall o, objs st !! p = Some o -> dead_ (body o) = true /\ cb_buf (wpdu_ (body o)) = None) ->
  exists st', decref st p = Ret st' /\ store_ok st' (fun q => R q - one p q) /\ shape st st'.
Proof.
  intros Hs HR Hlast. destruct (store_ok_get st R p Hs HR) as (o & Hp & Hr). unfold decref. rewrite Hp. cbn [deref]. rsimpl. cbv zeta.
  rewrite VERIFY_true by (apply Z.leb_le; lia). rsimpl. destruct (decide (R p = 1)) as [H1|H1].
  - destruct (Hlast H1 o Hp) as [Hd Hb]. rewrite Hd, (proj2 (Z.eqb_eq _ _)) by lia. cbn [andb]. unfold destroy.
    rewrite Hd, Hb. cbn [VERIFY]. rsimpl. eexists; split; [done|]. split; [by apply store_ok_delete|].
    intros q x Hx. simpl in Hx. apply lookup_delete_Some in Hx as [_ Hx]. by exists x.
  - rewrite (proj2 (Z.eqb_neq _ _)) by lia. cbn [andb]. eexists; split; [done|]. split; [|by apply shape_set].
    unfold one. eapply store_ok_set; [done|exact Hp|done| | |]; cbv beta.
    + rewrite decide_True by done. simpl. lia.
    + rewrite decide_True by done. lia.
    + intros q Hq. rewrite decide_False by congruence. lia.
Qed.

Lemma new_connection_ok st R fd now : store_ok st R -> fd ∉ fds st -> (forall p, 0 <= R p) ->
  store_ok (new_connection st fd now).1 (fun q => R q + one (next_obj st) q).
Proof.
  intros [Ho Hl Hn Hf Hi] Hfresh Hpos.
  assert (objs st !! next_obj st = None) as Hnone.
  { destruct (objs st !! next_obj st) eqn:E; [|done].
    assert (next_obj st < next_obj st)%positive by (apply Hn; by rewrite E). lia. }
  assert (R (next_obj st) = 0) as HR0.
  { destruct (decide (0 < R (next_obj st))) as [H|H]; [|specialize (Hpos (next_obj st)); lia].
    apply Hl in H. rewrite Hnone in H. by destruct H. }
  assert (forall p o, objs st !! p = Some o -> fd_ o <> fd) as Hd by (intros p o Hp <-; by apply Hfresh, (Hf p)).
  unfold one. split; simpl.
  - intros p o. destruct (decide (next_obj st = p)) as [<-|Hne].
    + rewrite lookup_insert_eq. intros [= <-]. simpl. lia.
    + rewrite lookup_insert_ne, Z.add_0_r by done. apply Ho.
  - intros p. destruct (decide (next_obj st = p)) as [<-|Hne]; [by rewrite lookup_insert_eq|].
    rewrite lookup_insert_ne, Z.add_0_r by done. apply Hl.
  - intros p. destruct (decide (next_obj st = p)) as [<-|Hne]; [lia|].
    rewrite lookup_insert_ne by done. intros H%Hn. lia.
  - intros p o. destruct (decide (next_obj st = p)) as [<-|Hne].
    + rewrite lookup_insert_eq. intros [= <-]. set_solver.
    + rewrite lookup_insert_ne by done. intros H%Hf. set_solver.
  - intros p q o o' Hp Hq. destruct (decide (next_obj st = p)) as [<-|Hp1], (decide (next_obj st = q)) as [<-|Hq1].
    + done.
    + rewrite lookup_insert_eq in Hp. rewrite lookup_insert_ne in Hq by done. injection Hp as <-. intros E.
      by apply Hd in Hq.
    + rewrite lookup_insert_eq in Hq. rewrite lookup_insert_ne in Hp by done. injection Hq as <-. intros E.
      by apply Hd in Hp.
    + rewrite lookup_insert_ne in Hp, Hq by done. eauto.
Qed.

(** ** What the callbacks and [send] do to a connection *)

Definition idle (c : connection) : Prop := cb_buf (wpdu_ c) = None.
Definition watched (c : connection) : Prop := cb_rd c = true \/ cb_wr c = true.

(** A change by the poll thread. *)
Record poll_step (c c' : connection) : Prop := {
  ps_dead : dead_ c = true -> dead_ c' = true;
  ps_watch : watched c' -> watched c /\ (dead_ c' = true -> dead_ c = true);
  ps_idle : idle c' <-> idle c }.

Lemma poll_step_refl c : poll_step c c.
Proof. by split. Qed.

Lemma writepdu_keeps c w c' ok : writepdu c w = Ret (c', ok) ->
  dead_ c' = dead_ c /\ cb_rd c' = cb_rd c /\ cb_wr c' = cb_wr c /\ (idle c' <-> idle c).
Proof.
  unfold writepdu, idle. intros H. res_inv. destruct (_ =? _); [by simplify_eq|]. res_inv.
  destruct (cb_buf (wpdu_ c)) as [b|] eqn:Eb; [|discriminate].
  destruct w as [n|eagain]; res_inv; [|destruct eagain]; simplify_eq/=; split_and!; done || (by split).
Qed.

Section callbacks.
Context {AL : Allocator}.

Lemma readpdu_keeps c r1 r2 c' ok : readpdu c r1 r2 = Ret (c', ok) ->
  dead_ c' = dead_ c /\ cb_rd c' = cb_rd c /\ cb_wr c' = cb_wr c /\ wpdu_ c' = wpdu_ c.
Proof.
  unfold readpdu. intros H. res_inv. destruct x as [p|]; [|by simplify_eq]. res_inv.
  destruct r2 as [l|n eagain]; res_inv; [|destruct eagain]; by simplify_eq/=.
Qed.

Lemma read_cb_poll c r1 r2 g c' d : read_cb c r1 r2 g = Ret (c', d) ->
  poll_step c c' /\ (is_Some d -> dead_ c = false).
Proof.
  unfold read_cb. destruct (dead_ c) eqn:Ed.
  { intros [= <- <-]. split; [apply poll_step_refl|]. by intros []. }
  intros H. split; [|done]. res_inv. destruct x as [c1 succ].
  assert (dead_ c1 = dead_ c /\ cb_rd c1 = cb_rd c /\ cb_wr c1 = cb_wr c /\ wpdu_ c1 = wpdu_ c) as (H1 & H2 & H3 & H4).
  { destruct (_ || _); [by eapply readpdu_keeps|by simplify_eq]. }
  assert (forall p, poll_step c (if negb succ then set_dead (set_cbs (set_rpdu c1 p) false false) else set_rpdu c1 p)) as Hs.
  { intros p. destruct succ; split; unfold watched, idle; simpl; rewrite ?H1, ?H2, ?H3, ?H4; try done; by intros [|]. }
  assert (c' = if negb succ then set_dead (set_cbs (set_rpdu c1 (rpdu_ c')) false false) else set_rpdu c1 (rpdu_ c')) as ->;
    [|apply Hs].
  clear -H. destruct c1, succ; simpl in *; repeat case_match; by simplify_eq/=.
Qed.

Lemma write_cb_poll c w c' b : write_cb c w = Ret (c', b) -> poll_step c c'.
Proof.
  unfold write_cb. intros H. res_inv. bool_prop. destruct (_ =? _).
  { simplify_eq. split; unfold watched, idle; simpl; [done| |done]. intros [|]; [|done]. split; [by left|congruence]. }
  destruct (writepdu c w) as [[c1 ok]| |] eqn:Ew; [|discriminate|discriminate]. cbn [mbind res_bind] in H.
  destruct (writepdu_keeps _ _ _ _ Ew) as (H1 & H2 & H3 & H4).
  destruct ok; cbn [negb] in H; res_inv; simplify_eq/=; split; unfold watched, idle in *; simpl.
  - by rewrite H1.
  - rewrite H1, H2, H3. by split.
  - done.
  - done.
  - by intros [|].
  - done.
Qed.
End callbacks.

(** A change by [send]. *)
Lemma send_turn_keeps c b sz w c' x : send_turn c b sz w = Ret (c', x) -> dead_ c = true \/ idle c ->
  (dead_ c = true -> c' = c /\ x = Sent) /\
  (watched c' -> (watched c /\ (dead_ c' = true -> dead_ c = true)) \/ dead_ c' = false \/ x = Removing) /\
  (idle c' <-> x = Sent /\ idle c \/ x = Sent /\ dead_ c = false).
Proof.
  unfold send_turn. destruct (dead_ c) eqn:Ed.
  { intros [= <- <-] _. split_and!; [done|tauto|intuition congruence]. }
  intros H [?|Hi]; [done|]. split; [done|]. res_inv. destruct x0 as [c1 ok].
  destruct (writepdu_keeps _ _ _ _ E) as (H1 & H2 & H3 & H4). unfold idle in H4. simpl in H1, H2, H3, H4.
  assert (~ idle c1) as Hn by (unfold idle; rewrite H4; done).
  destruct ok; cbn [negb] in H; [destruct (_ =? _)|]; simplify_eq/=; unfold watched, idle in *; simpl;
    (split; [|intuition congruence]); rewrite ?H1, ?Ed; tauto.
Qed.

(** [send_turn] and its end are [send_start] of [Connection], which runs
    [block_remove_fd] at once. *)
Lemma send_turn_start c b sz w :
  send_start c b sz w =
    '(c', x) ← send_turn c b sz w;
    Ret match x with
        | Sent => (c', inl (negb (dead_ c) && negb (dead_ c')))
        | Waiting => (c', inr tt)
        | Removing => let '(c', r) := send_end (close_removed c') in (c', inl r)
        end.
Proof.
  unfold send_start, send_turn. destruct (dead_ c) eqn:Ed; [done|].
  destruct (writepdu _ w) as [[c1 ok]| |] eqn:Ew; [|done|done]. rsimpl.
  destruct (writepdu_keeps _ _ _ _ Ew) as (H1 & _). simpl in H1.
  destruct ok; [|done]. cbn [negb]. destruct (_ =? _) eqn:E; [|done]. unfold send_end. simpl. rewrite H1, Ed. simpl.
  by rewrite E.
Qed.

(** [closeconn] is its two parts. *)
Lemma closeconn_parts c : closeconn c = if dead_ c then c else close_removed (close_mark c).
Proof. reflexivity. Qed.
