(* ===== verification/ListenerInv.v ===== *)
(** * Lifetimes of connections: the invariant of the threads that share them *)

From S2P Require Import Prelude Marshall Connection Listener ListenerSpec.

(** ** Who holds references *)

(** The connection the listener has made and not yet entered. *)
Definition pending (l : lpc) : list positive :=
  match l with Test ch | TestRef ch | Drop ch => [ch] | _ => [] end.

Definition conns (s : lsys) : conn_map := kept s ++ todo s.
Definition held (s : lsys) : list positive := pending (pc s) ++ (conns s).*2.

(** The references of the server's table, of the jobs, and those that leaked. *)
Definition outside (s : lsys) (p : positive) : Z :=
  map_count (fun q => bool_decide (q = p)) (saved s) +
  map_count (fun j => bool_decide (jc j = p)) (jobs s) + count p (leaked s).
Definition refs (s : lsys) (p : positive) : Z := count p (held s) + outside s p.

(** A job that is inside [send] and has its message in [wpdu_]. *)
Definition sends (p : positive) (j : job) : bool :=
  bool_decide (jc j = p) && match jp j with JSend (Waiting | Removing) _ => true | _ => false end.
Definition busy (c : connection) : Z := Z.b2z (negb (bool_decide (cb_buf (wpdu_ c) = None))).

(** Some thread is about to deregister the dead connection. *)
Definition removing (s : lsys) (p : positive) : Prop :=
  (exists t j lk, jobs s !! t = Some j /\ jc j = p /\ jp j = JSend Removing lk) \/
  (pc s = CloseWait /\ head (todo s).*2 = Some p).

Definition dead_in (s : lsys) (p : positive) : Prop :=
  forall o, objs (lst s) !! p = Some o -> dead_ (body o) = true.

(** ** The invariant *)

Record obj_ok (s : lsys) (p : positive) (o : cobj) : Prop := {
  ok_alive : dead_ (body o) = false -> p ∈ held s;
  ok_watch : watched (body o) -> dead_ (body o) = false \/ removing s p;
  ok_busy : map_count (sends p) (jobs s) = busy (body o);
  ok_key : forall k, (k, p) ∈ conns s -> k = fd_ o }.

Definition pc_ok (s : lsys) : Prop :=
  match pc s, todo s with
  | (TestRef _ | CloseWait | CloseDrop), (_, p) :: _ => dead_in s p
  | Drop _, (_, p) :: _ => dead_in s p /\ refs s p = 1
  | (Selecting | Stopped), l => l = []
  | _, _ => True
  end.

Definition jobs_ok (s : lsys) : Prop :=
  forall t j, jobs s !! t = Some j -> jp j = JSeen -> jn j <> 0 -> is_Some (saved s !! jn j).

Record linv (s : lsys) : Prop := {
  li_store : store_ok (lst s) (refs s);
  li_obj : forall p o, objs (lst s) !! p = Some o -> obj_ok s p o;
  li_nodup : NoDup (held s);
  li_pc : pc_ok s;
  li_jobs : jobs_ok s }.

Lemma outside_nonneg s p : 0 <= outside s p.
Proof.
  unfold outside. pose proof (count_nonneg p (leaked s)).
  pose proof (map_count_nonneg (fun q => bool_decide (q = p)) (saved s)).
  pose proof (map_count_nonneg (fun j => bool_decide (jc j = p)) (jobs s)). lia.
Qed.

Lemma refs_nonneg s p : 0 <= refs s p.
Proof. unfold refs. pose proof (outside_nonneg s p). pose proof (count_nonneg p (held s)). lia. Qed.

Lemma job_outside s t j : jobs s !! t = Some j -> 0 < outside s (jc j).
Proof.
  intros H. unfold outside. pose proof (count_nonneg (jc j) (leaked s)).
  pose proof (map_count_nonneg (fun q => bool_decide (q = jc j)) (saved s)).
  pose proof (map_count_some (fun x => bool_decide (jc x = jc j)) (jobs s) t j H (bool_decide_eq_true_2 _ eq_refl)). lia.
Qed.

Lemma saved_outside s n p : saved s !! n = Some p -> 0 < outside s p.
Proof.
  intros H. unfold outside. pose proof (count_nonneg p (leaked s)).
  pose proof (map_count_nonneg (fun j => bool_decide (jc j = p)) (jobs s)).
  pose proof (map_count_some (fun q => bool_decide (q = p)) (saved s) n p H (bool_decide_eq_true_2 _ eq_refl)). lia.
Qed.

Lemma outside_refs s p : 0 < outside s p -> 0 < refs s p.
Proof. unfold refs. pose proof (count_nonneg p (held s)). lia. Qed.

Lemma held_refs s p : p ∈ held s -> 0 < refs s p.
Proof. unfold refs. pose proof (outside_nonneg s p). intros Hc%count_pos. lia. Qed.

Lemma todo_held s k p l : todo s = (k, p) :: l -> p ∈ held s.
Proof. unfold held, conns. intros ->. rewrite fmap_app, fmap_cons. set_solver. Qed.

(** The object behind a reference. *)
Lemma linv_get s p : linv s -> 0 < refs s p -> exists o, objs (lst s) !! p = Some o /\ refno_ o = refs s p /\ obj_ok s p o.
Proof.
  intros Hi H. destruct (store_ok_get _ _ p (li_store _ Hi) H) as (o & Hp & Hr). exists o. split_and!; [done..|].
  by apply (li_obj _ Hi).
Qed.

(** Two references at least when somebody besides the listener has one: the
    connection a job lets go of is deleted only if it is dead. *)
Lemma last_ref s p : linv s -> refs s p = 1 -> 0 < outside s p -> dead_in s p.
Proof.
  intros Hi H1 Ho o Hp. destruct (dead_ (body o)) eqn:Ed; [done|].
  apply (ok_alive _ _ _ (li_obj _ Hi p o Hp)), count_pos in Ed. unfold refs in H1. lia.
Qed.

(** What a thread that is not sending drops is not being written. *)
Lemma last_idle s t j o : linv s -> refs s (jc j) = 1 -> jobs s !! t = Some j -> sends (jc j) j = false ->
  objs (lst s) !! jc j = Some o -> idle (body o).
Proof.
  intros Hi H1 Hj Hs Hp. pose proof (ok_busy _ _ _ (li_obj _ Hi _ _ Hp)) as Hb. unfold busy in Hb.
  unfold idle. destruct (bool_decide _) eqn:E; bool_prop; [done|]. simpl in Hb.
  destruct (map_count_pos (sends (jc j)) (jobs s)) as (t' & j' & Hj' & Hs'); [lia|]. exfalso.
  unfold sends in Hs'. bool_prop. assert (t' <> t) as Hne.
  { intros ->. simplify_eq. unfold sends in Hs. rewrite bool_decide_eq_true_2 in Hs by done. cbn [andb] in Hs. congruence. }
  unfold refs, outside in H1. pose proof (count_nonneg (jc j) (leaked s)). pose proof (count_nonneg (jc j) (held s)).
  pose proof (map_count_nonneg (fun q => bool_decide (q = jc j)) (saved s)).
  rewrite (map_count_delete _ (jobs s) t j Hj), bool_decide_eq_true_2 in H1 by done.
  pose proof (map_count_some (fun x => bool_decide (jc x = jc j)) (delete t (jobs s)) t' j') as Hp2.
  rewrite lookup_delete_ne in Hp2 by done. specialize (Hp2 Hj' ltac:(by apply bool_decide_eq_true_2)). simpl in H1. lia.
Qed.

(** The same for a reference that is not a job's. *)
Lemma last_idle_other s p o : linv s -> refs s p = 1 -> (p ∈ held s \/ exists n, saved s !! n = Some p) ->
  objs (lst s) !! p = Some o -> idle (body o).
Proof.
  intros Hi H1 Hh Hp. pose proof (ok_busy _ _ _ (li_obj _ Hi _ _ Hp)) as Hb. unfold busy in Hb.
  unfold idle. destruct (bool_decide _) eqn:E; bool_prop; [done|]. simpl in Hb.
  destruct (map_count_pos (sends p) (jobs s)) as (t' & j' & Hj' & Hs'); [lia|]. exfalso.
  unfold sends in Hs'. bool_prop. unfold refs, outside in H1.
  pose proof (map_count_some (fun x => bool_decide (jc x = p)) (jobs s) t' j' Hj' ltac:(by apply bool_decide_eq_true_2)).
  pose proof (count_nonneg p (leaked s)). pose proof (count_nonneg p (held s)).
  pose proof (map_count_nonneg (fun q => bool_decide (q = p)) (saved s)). destruct Hh as [Hh%count_pos|(n & Hn)]; [lia|].
  pose proof (map_count_some (fun q => bool_decide (q = p)) (saved s) n p Hn (bool_decide_eq_true_2 _ eq_refl)). lia.
Qed.

(** ** What a step must show *)

Record obj_step (s s' : lsys) (p : positive) (o o' : cobj) : Prop := {
  os_fd : fd_ o' = fd_ o;
  os_dead : dead_ (body o) = true -> dead_ (body o') = true;
  os_watch : watched (body o') -> dead_ (body o') = false \/ removing s' p;
  os_busy : map_count (sends p) (jobs s') = busy (body o') }.

Lemma linv_step s s' : linv s -> store_ok (lst s') (refs s') ->
  (forall p o', objs (lst s') !! p = Some o' -> exists o, objs (lst s) !! p = Some o /\ obj_step s s' p o o') ->
  (forall p, p ∈ held s -> p ∈ held s' \/ dead_in s' p) ->
  (forall k p, (k, p) ∈ conns s' -> (k, p) ∈ conns s \/ forall o, objs (lst s') !! p = Some o -> k = fd_ o) ->
  NoDup (held s') -> pc_ok s' -> jobs_ok s' -> linv s'.
Proof.
  intros Hi Hs Ho Hh Hk Hn Hp Hj. split; [done| |done..]. intros p o' Hp'.
  destruct (Ho p o' Hp') as (o & Hpo & [Hfd Hd Hw Hb]). destruct (li_obj _ Hi p o Hpo) as [Ha _ _ Hkey].
  split; [|done..|].
  - intros Hal. destruct (Hh p) as [|Hdd]; [|done|by rewrite (Hdd o' Hp') in Hal].
    apply Ha. destruct (dead_ (body o)); [by rewrite Hd in Hal|done].
  - intros k Hin. destruct (Hk k p Hin) as [Hin'|Hin']; [|auto]. rewrite Hfd. auto.
Qed.

(** Steps of the poll thread and of the jobs leave the listener alone, and change
    only counts the listener does not rely on. *)
Lemma linv_frame s s' : linv s -> kept s' = kept s -> todo s' = todo s -> pc s' = pc s ->
  store_ok (lst s') (refs s') ->
  (forall p o', objs (lst s') !! p = Some o' -> exists o, objs (lst s) !! p = Some o /\ obj_step s s' p o o') ->
  (forall p, p ∈ held s -> outside s' p = outside s p \/ 0 < outside s p) -> jobs_ok s' -> linv s'.
Proof.
  intros Hi Ek Et Ep Hs Ho Hout Hj. assert (conns s' = conns s) as Ec by (unfold conns; congruence).
  assert (held s' = held s) as Eh by (unfold held; congruence).
  assert (forall p, dead_in s p -> dead_in s' p) as Hdead.
  { intros p Hd o' Hp'. destruct (Ho p o' Hp') as (o & Hp & Hst). apply (os_dead _ _ _ _ _ Hst), (Hd o Hp). }
  eapply linv_step; [exact Hi|done|done| | | | |done].
  - rewrite Eh. by left.
  - rewrite Ec. by left.
  - rewrite Eh. apply Hi.
  - pose proof (li_pc _ Hi) as Hp. unfold pc_ok in *. rewrite Ep, Et.
    destruct (pc s); try done; destruct (todo s) as [|[k p] l] eqn:El; auto. destruct Hp as [Hd H1]. split; [auto|].
    assert (p ∈ held s) as Hin by (by eapply todo_held). revert H1. unfold refs. rewrite Eh.
    pose proof (Hin) as Hc%count_pos. pose proof (outside_nonneg s p). destruct (Hout p Hin); lia.
Qed.
