(* ===== verification/ListenerSteps.v ===== *)
(** * Lifetimes of connections: every turn of every thread keeps the invariant *)

From S2P Require Import Prelude Marshall Connection Listener ListenerSpec ListenerInv.

(** A turn that returns, in a good state. *)
Definition good (r : res (option lsys)) : Prop := exists x, r = Ret x /\ forall s', x = Some s' -> linv s'.

Lemma good_none : good (Ret None).
Proof. by exists None. Qed.

Lemma good_some s' : linv s' -> good (Ret (Some s')).
Proof. intros H. exists (Some s'). split; [done|]. by intros ? [= <-]. Qed.

(** ** Counting when jobs and the table change *)

Lemma b2z_one p q : Z.b2z (bool_decide (q = p)) = one q p.
Proof. unfold one. case_bool_decide; case_decide; done. Qed.

Lemma outside_job s st t j j' p : jobs s !! t = Some j ->
  outside (set_jobs s st (<[t := j']> (jobs s))) p = outside s p + one (jc j') p - one (jc j) p.
Proof. intros Hj. unfold outside. simpl. rewrite (map_count_insert _ _ _ _ _ Hj), !b2z_one. lia. Qed.

Lemma outside_new s st t j p : jobs s !! t = None ->
  outside (set_jobs s st (<[t := j]> (jobs s))) p = outside s p + one (jc j) p.
Proof. intros Hj. unfold outside. simpl. rewrite (map_count_fresh _ _ _ _ Hj), !b2z_one. lia. Qed.

Lemma outside_done s st t j p : jobs s !! t = Some j ->
  outside (set_jobs s st (delete t (jobs s))) p = outside s p - one (jc j) p.
Proof. intros Hj. unfold outside. simpl. rewrite (map_count_delete _ (jobs s) t j Hj), b2z_one. lia. Qed.

Lemma sends_job p js t j j' : js !! t = Some j ->
  map_count (sends p) (<[t := j']> js) = Z.b2z (sends p j') - Z.b2z (sends p j) + map_count (sends p) js.
Proof. apply map_count_insert. Qed.

(** A job that is not in [block_remove_fd] can change its phase. *)
Lemma removing_job s s' t j p : jobs s !! t = Some j -> (forall lk, jp j <> JSend Removing lk) ->
  (forall t', t' <> t -> jobs s' !! t' = jobs s !! t') -> pc s' = pc s -> todo s' = todo s ->
  removing s p -> removing s' p.
Proof.
  intros Hj Hne Hjs Ep Et [(t' & j' & lk & Hj' & Hc & Hp)|[H1 H2]].
  - left. exists t', j', lk. rewrite Hjs; [done|]. intros ->. simplify_eq. by destruct (Hne lk).
  - right. by rewrite Ep, Et.
Qed.

Lemma removing_jobs s s' p : (forall t j, jobs s !! t = Some j -> jobs s' !! t = Some j) ->
  pc s' = pc s -> todo s' = todo s -> removing s p -> removing s' p.
Proof.
  intros Hjs Ep Et [(t' & j' & lk & Hj' & Hc & Hp)|[H1 H2]].
  - left. exists t', j', lk. by rewrite (Hjs _ _ Hj').
  - right. by rewrite Ep, Et.
Qed.

(** ** Objects that change only their counts, or one contents *)

Lemma shape_steps s s' : linv s -> shape (lst s) (lst s') ->
  (forall p, map_count (sends p) (jobs s') = map_count (sends p) (jobs s)) ->
  (forall p, removing s p -> removing s' p) ->
  forall p o', objs (lst s') !! p = Some o' -> exists o, objs (lst s) !! p = Some o /\ obj_step s s' p o o'.
Proof.
  intros Hi Hs Hc Hr p o' Hp'. destruct (Hs p o' Hp') as (o & Hp & Hb & Hf). exists o. split; [done|].
  destruct (li_obj _ Hi p o Hp) as [_ Hw Hbusy _]. split; rewrite ?Hb; [done|done| |by rewrite Hc].
  intros H. destruct (Hw H); auto.
Qed.

Lemma body_steps s s' p o c : linv s -> objs (lst s) !! p = Some o -> lst s' = set_obj (lst s) p (set_body o c) ->
  (forall q, q <> p -> map_count (sends q) (jobs s') = map_count (sends q) (jobs s)) ->
  (forall q, q <> p -> removing s q -> removing s' q) ->
  obj_step s s' p o (set_body o c) ->
  forall q o', objs (lst s') !! q = Some o' -> exists o, objs (lst s) !! q = Some o /\ obj_step s s' q o o'.
Proof.
  intros Hi Hp El Hc Hr Hst q o'. rewrite El. simpl. destruct (decide (p = q)) as [<-|Hne].
  - rewrite lookup_insert_eq. intros [= <-]. by exists o.
  - rewrite lookup_insert_ne by done. intros Hq. exists o'. split; [done|].
    destruct (li_obj _ Hi q o' Hq) as [_ Hw Hbusy _]. split; [done|done| |by rewrite Hc].
    intros H. destruct (Hw H); auto.
Qed.

Lemma busy_iff c c' : (idle c' <-> idle c) -> busy c' = busy c.
Proof. unfold idle, busy. intros H. do 2 f_equal. by apply bool_decide_ext. Qed.

Lemma busy_idle c : idle c -> busy c = 0.
Proof. unfold idle, busy. intros ->. done. Qed.

Lemma busy_busy c : ~ idle c -> busy c = 1.
Proof. unfold idle, busy. intros H. by rewrite bool_decide_eq_false_2. Qed.

(** ** The poll thread *)
Section poll.
Context {AL : Allocator}.

Lemma linv_poll s p o c : linv s -> objs (lst s) !! p = Some o -> poll_step (body o) c ->
  linv (set_lst s (set_obj (lst s) p (set_body o c))).
Proof.
  intros Hi Hp [Hd Hw Hidle]. destruct (li_obj _ Hi p o Hp) as [_ Hwatch Hbusy _].
  eapply linv_frame; [exact Hi|done..| | |by left|apply Hi].
  - simpl. eapply store_ok_body; [|done]. apply Hi.
  - eapply body_steps; [done|exact Hp|done|done|done|]. split; simpl; [done|done| |].
    + intros H. destruct (Hw H) as [H1 H2]. destruct (Hwatch H1) as [?|?]; [left|by right].
      destruct (dead_ c); [|done]. by rewrite H2 in *.
    + by rewrite Hbusy, (busy_iff _ _ Hidle).
Qed.

(** A reference is taken and given back. *)
Lemma linv_incdec s p : linv s -> 0 < refs s p ->
  good (st ← incref (lst s) p; st ← decref st p; Ret (Some (set_lst s st))).
Proof.
  intros Hi Hr. destruct (store_incref _ _ p (li_store _ Hi) Hr) as (st1 & -> & Hs1 & Hsh1). rsimpl.
  destruct (store_decref st1 _ p Hs1) as (st2 & -> & Hs2 & Hsh2); cbv beta; unfold one.
  { rewrite decide_True by done. lia. } { rewrite decide_True by done. lia. }
  rsimpl. apply good_some. eapply linv_frame; [exact Hi|done..| | |by left|apply Hi].
  - eapply store_ok_ext; [exact Hs2|]. intros q. cbv beta. change (refs _ q) with (refs s q). lia.
  - eapply shape_steps; [done|by eapply shape_trans|done|done].
Qed.

(** The poll thread hands a request to a new job. *)
Lemma linv_newjob s p t n : linv s -> 0 < refs s p -> jobs s !! t = None ->
  (forall k l ch, pc s = Drop ch -> todo s = (k, p) :: l -> False) ->
  good (st ← incref (lst s) p; Ret (Some (set_jobs s st (<[t := Job p n JNew]> (jobs s))))).
Proof.
  intros Hi Hr Hnew Hdrop. destruct (store_incref _ _ p (li_store _ Hi) Hr) as (st1 & -> & Hs1 & Hsh1). rsimpl.
  apply good_some. eapply linv_step; [exact Hi| | |by left|by left|apply Hi| |].
  - eapply store_ok_ext; [exact Hs1|]. intros q. unfold refs. rewrite outside_new by done. simpl.
    change (held (set_jobs _ _ _)) with (held s). lia.
  - eapply shape_steps; [done|done| |].
    + intros q. simpl. rewrite map_count_fresh by done. unfold sends at 1. simpl. by rewrite andb_false_r.
    + intros q. apply removing_jobs; [|done|done]. intros t' j' Hj'. simpl. rewrite lookup_insert_ne; [done|congruence].
  - pose proof (li_pc _ Hi) as Hp. unfold pc_ok in *. simpl. destruct (pc s) eqn:Epc; try done;
      destruct (todo s) as [|[k q] l] eqn:El; auto;
      try (intros o Ho; destruct (Hsh1 q o Ho) as (o0 & Ho0 & -> & _); by apply Hp).
    destruct Hp as [Hd H1]. split.
    + intros o Ho. destruct (Hsh1 q o Ho) as (o0 & Ho0 & -> & _). by apply Hd.
    + unfold refs. rewrite outside_new by done. change (held (set_jobs _ _ _)) with (held s). unfold refs in H1. simpl. unfold one.
      rewrite decide_False; [lia|]. intros <-. by eapply Hdrop.
  - intros t' j' Hj'. simpl in *. destruct (decide (t = t')) as [<-|Hne].
    + rewrite lookup_insert_eq in Hj'. by injection Hj' as <-.
    + rewrite lookup_insert_ne in Hj' by done. by apply (li_jobs _ Hi t').
Qed.

Lemma read_turn_ok s p r1 r2 g : linv s ->
  (forall o, objs (lst s) !! p = Some o -> cb_rd (body o) = true ->
     exists x, read_cb (body o) r1 r2 (match g with GotFull => false | _ => true end) = Ret x) ->
  good (read_turn s p r1 r2 g).
Proof.
  intros Hi Hio. unfold read_turn. destruct (objs (lst s) !! p) as [o|] eqn:Hp; [|apply good_none].
  destruct (cb_rd (body o)) eqn:Ecb; cbn [negb]; [|apply good_none].
  destruct (Hio o eq_refl Ecb) as ([c d] & E). rewrite E. rsimpl.
  destruct (read_cb_poll _ _ _ _ _ _ E) as [Hps Hd]. pose proof (linv_poll s p o c Hi Hp Hps) as Hi1.
  destruct (so_obj _ _ (li_store _ Hi) p o Hp) as [_ Hr].
  destruct d as [d|]; [|by destruct g; apply good_some]. specialize (Hd ltac:(eauto)).
  set (s1 := set_lst s (set_obj (lst s) p (set_body o c))) in *.
  assert (0 < refs s1 p) as Hr1 by exact Hr. destruct g as [| |t n]; [by apply good_some| |].
  - exact (linv_incdec s1 p Hi1 Hr1).
  - case_bool_decide as Hnew; [|apply good_none].
    apply (linv_newjob s1 p t n Hi1 Hr1 Hnew). intros k l ch Epc El. pose proof (li_pc _ Hi) as Hpc.
    unfold pc_ok in Hpc. simpl in Epc, El. rewrite Epc, El in Hpc. destruct Hpc as [Hdead _].
    by rewrite (Hdead o Hp) in Hd.
Qed.

Lemma write_turn_ok s p w : linv s ->
  (forall o, objs (lst s) !! p = Some o -> cb_wr (body o) = true -> exists x, write_cb (body o) w = Ret x) ->
  good (write_turn s p w).
Proof.
  intros Hi Hio. unfold write_turn. destruct (objs (lst s) !! p) as [o|] eqn:Hp; [|apply good_none].
  destruct (cb_wr (body o)) eqn:Ecb; cbn [negb]; [|apply good_none].
  destruct (Hio o eq_refl Ecb) as ([c d] & E). rewrite E. rsimpl. apply good_some.
  apply linv_poll; [done|done|]. by eapply write_cb_poll.
Qed.
End poll.

(** ** The jobs *)

Lemma sends_none j : sends (jc j) j = false -> forall q, sends q j = false.
Proof.
  unfold sends. rewrite bool_decide_eq_true_2 by done. cbn [andb]. intros -> q. apply andb_false_r.
Qed.

Lemma sends_not_removing j : sends (jc j) j = false -> forall lk, jp j <> JSend Removing lk.
Proof. unfold sends. rewrite bool_decide_eq_true_2 by done. intros H lk E. by rewrite E in H. Qed.

(** A job moves on: its reference stays with it, or goes to another connection. *)
Lemma linv_phase s t j c st ph : linv s -> jobs s !! t = Some j -> sends (jc j) j = false ->
  store_ok st (fun q => refs s q + one c q - one (jc j) q) -> shape (lst s) st ->
  (c = jc j \/ 0 < outside s c) -> (forall w lk, ph <> JSend w lk) -> (ph = JSeen -> jn j <> 0 -> is_Some (saved s !! jn j)) ->
  linv (set_jobs s st (<[t := Job c (jn j) ph]> (jobs s))).
Proof.
  intros Hi Hj Hns Hst Hsh Hc Hph Hseen. pose proof (job_outside s t j Hj) as Hout.
  assert (forall q, sends q j = false) as Hns'.
  { by apply sends_none. }
  eapply linv_frame; [exact Hi|done..| | | |].
  - eapply store_ok_ext; [exact Hst|]. intros q. unfold refs. rewrite (outside_job s st t j) by done. simpl.
    change (held (set_jobs _ _ _)) with (held s). lia.
  - eapply shape_steps; [done|done| |].
    + intros q. simpl. rewrite (sends_job q _ t j _ Hj), Hns'. unfold sends at 1. simpl.
      destruct ph; rewrite ?andb_false_r; try done. by edestruct Hph.
    + intros q. eapply removing_job; [exact Hj| | |done|done].
      * by apply sends_not_removing.
      * intros t' Hne. simpl. by rewrite lookup_insert_ne.
  - intros q _. rewrite (outside_job s st t j) by done. simpl. unfold one.
    destruct (decide (jc j = q)) as [<-|Hjq]; [by right|]. destruct (decide (c = q)) as [<-|]; [|left; lia].
    destruct Hc as [->|Hc]; [done|by right].
  - intros t' j' Hj'. simpl in *. destruct (decide (t = t')) as [<-|Hne].
    + rewrite lookup_insert_eq in Hj'. injection Hj' as <-. simpl. done.
    + rewrite lookup_insert_ne in Hj' by done. by apply (li_jobs _ Hi t').
Qed.

(** [decref] by a job that is not sending. *)
Lemma job_decref s t j : linv s -> jobs s !! t = Some j -> sends (jc j) j = false ->
  exists st, decref (lst s) (jc j) = Ret st /\ store_ok st (fun q => refs s q - one (jc j) q) /\ shape (lst s) st.
Proof.
  intros Hi Hj Hns. pose proof (job_outside s t j Hj) as Hout.
  apply store_decref; [apply Hi|by apply outside_refs|]. intros H1 o Hp. split.
  - by eapply last_ref.
  - by eapply last_idle.
Qed.

Lemma done_ok s t j : linv s -> jobs s !! t = Some j -> sends (jc j) j = false ->
  good (st ← decref (lst s) (jc j); Ret (Some (set_jobs s st (delete t (jobs s))))).
Proof.
  intros Hi Hj Hns. destruct (job_decref s t j Hi Hj Hns) as (st & -> & Hst & Hsh). rsimpl. apply good_some.
  pose proof (job_outside s t j Hj) as Hout.
  eapply linv_frame; [exact Hi|done..| | | |].
  - eapply store_ok_ext; [exact Hst|]. intros q. unfold refs. rewrite (outside_done s st t j) by done.
    change (held (set_jobs _ _ _)) with (held s). lia.
  - assert (forall q, sends q j = false) as Hns'.
    { by apply sends_none. }
    eapply shape_steps; [done|done| |].
    + intros q. simpl. by rewrite (map_count_delete _ (jobs s) t j Hj), Hns'.
    + intros q. eapply removing_job; [exact Hj| | |done|done].
      * by apply sends_not_removing.
      * intros t' Hne. simpl. by rewrite lookup_delete_ne.
  - intros q _. rewrite (outside_done s st t j) by done. unfold one. destruct (decide (jc j = q)) as [<-|]; [by right|left; lia].
  - intros t' j' Hj'. simpl in *. apply lookup_delete_Some in Hj' as [_ Hj']. by apply (li_jobs _ Hi t').
Qed.

(** The reply of a request whose server is gone: the reference is never released. *)
Lemma leak_ok s t j : linv s -> jobs s !! t = Some j -> sends (jc j) j = false ->
  linv (Lsys (lst s) (kept s) (todo s) (pc s) (saved s) (delete t (jobs s)) (jc j :: leaked s)).
Proof.
  intros Hi Hj Hns. pose proof (sends_none j Hns) as Hns'.
  assert (forall q, outside (Lsys (lst s) (kept s) (todo s) (pc s) (saved s) (delete t (jobs s)) (jc j :: leaked s)) q
    = outside s q) as Hout.
  { intros q. unfold outside. simpl. rewrite (map_count_delete _ (jobs s) t j Hj), b2z_one, count_cons. unfold one. lia. }
  eapply linv_frame; [exact Hi|done..| | |by left|].
  - eapply store_ok_ext; [apply Hi|]. intros q. unfold refs. rewrite Hout. done.
  - eapply shape_steps; [done|apply shape_refl| |].
    + intros q. simpl. by rewrite (map_count_delete _ (jobs s) t j Hj), Hns'.
    + intros q. eapply removing_job; [exact Hj|by apply sends_not_removing| |done|done].
      intros t' Hne. simpl. by rewrite lookup_delete_ne.
  - intros t' j' Hj'. simpl in *. apply lookup_delete_Some in Hj' as [_ Hj']. by apply (li_jobs _ Hi t').
Qed.

(** A table entry. *)
Lemma saved_decref s n p : linv s -> saved s !! n = Some p ->
  exists st, decref (lst s) p = Ret st /\ store_ok st (fun q => refs s q - one p q) /\ shape (lst s) st.
Proof.
  intros Hi Hn. pose proof (saved_outside s n p Hn) as Hout.
  apply store_decref; [apply Hi|by apply outside_refs|]. intros H1 o Hp. split.
  - by eapply last_ref.
  - eapply last_idle_other; [done|done|by eauto|done].
Qed.

(** [save_conn] moves the reference of the table to the newer connection. *)
Lemma table_save s t j : linv s -> jobs s !! t = Some j ->
  exists st sv, save_conn (lst s) (saved s) (jn j) (jc j) = Ret (st, sv) /\ shape (lst s) st /\
    is_Some (sv !! jn j) /\ (forall n, is_Some (saved s !! n) -> is_Some (sv !! n)) /\
    store_ok st (fun q => refs s q + map_count (fun x => bool_decide (x = q)) sv
                          - map_count (fun x => bool_decide (x = q)) (saved s)) /\
    forall q, map_count (fun x => bool_decide (x = q)) sv = map_count (fun x => bool_decide (x = q)) (saved s) \/
      0 < outside s q.
Proof.
  intros Hi Hj. pose proof (job_outside s t j Hj) as Hout. pose proof (outside_refs _ _ Hout) as Hr. unfold save_conn.
  assert (forall c n, is_Some (saved s !! n) -> is_Some (<[jn j := c]> (saved s) !! n)) as Hsome.
  { intros c n Hn. destruct (decide (jn j = n)) as [<-|Hne]; [by rewrite lookup_insert_eq|by rewrite lookup_insert_ne]. }
  destruct (saved s !! jn j) as [c0|] eqn:Es.
  - pose proof (saved_outside s _ _ Es) as Hout0.
    destruct (linv_get s c0 Hi (outside_refs _ _ Hout0)) as (o0 & Hp0 & _). rewrite Hp0.
    destruct (linv_get s (jc j) Hi Hr) as (o & Hp & _). rewrite Hp. cbn [deref]. rsimpl.
    destruct (compare o0 o <? 0) eqn:Ec.
    2: { do 2 eexists. split; [done|]. split_and!; [apply shape_refl|by rewrite Es|done| |by left].
         eapply store_ok_ext; [apply Hi|]. intros q. cbv beta. lia. }
    assert (c0 <> jc j) as Hne.
    { intros ->. simplify_eq. unfold compare in Ec. by rewrite !Z.ltb_irrefl in Ec. }
    destruct (saved_decref s _ _ Hi Es) as (st1 & -> & Hst1 & Hsh1). rsimpl.
    destruct (store_incref st1 _ (jc j) Hst1) as (st2 & -> & Hst2 & Hsh2).
    { cbv beta. unfold one. rewrite decide_False by done. lia. }
    rsimpl. do 2 eexists. split; [done|]. split_and!; [by eapply shape_trans|by rewrite lookup_insert_eq|auto| |].
    + eapply store_ok_ext; [exact Hst2|]. intros q. cbv beta. rewrite (map_count_insert _ _ _ _ _ Es), !b2z_one. lia.
    + intros q. rewrite (map_count_insert _ _ _ _ _ Es), !b2z_one. unfold one.
      destruct (decide (c0 = q)) as [<-|]; [by right|]. destruct (decide (jc j = q)) as [<-|]; [by right|left; lia].
  - destruct (store_incref _ _ (jc j) (li_store _ Hi) Hr) as (st1 & -> & Hst1 & Hsh1). rsimpl. do 2 eexists. split; [done|].
    split_and!; [done|by rewrite lookup_insert_eq|auto| |].
    + eapply store_ok_ext; [exact Hst1|]. intros q. cbv beta. rewrite (map_count_fresh _ _ _ _ Es), b2z_one. lia.
    + intros q. rewrite (map_count_fresh _ _ _ _ Es), b2z_one. unfold one.
      destruct (decide (jc j = q)) as [<-|]; [by right|left; lia].
Qed.

Lemma save_ok s t j : linv s -> jobs s !! t = Some j -> jp j = JNew ->
  good ('(st, sv) ← (if jn j =? 0 then Ret (lst s, saved s) else save_conn (lst s) (saved s) (jn j) (jc j));
        Ret (Some (Lsys st (kept s) (todo s) (pc s) sv (<[t := Job (jc j) (jn j) JSeen]> (jobs s)) (leaked s)))).
Proof.
  intros Hi Hj Hp. assert (sends (jc j) j = false) as Hns by (unfold sends; rewrite Hp; apply andb_false_r).
  destruct (jn j =? 0) eqn:En; bool_prop; rsimpl.
  { apply good_some. apply (linv_phase s t j (jc j) (lst s) JSeen Hi Hj Hns); [|apply shape_refl|by left|done|done].
    eapply store_ok_ext; [apply Hi|]. intros q. cbv beta. lia. }
  destruct (table_save s t j Hi Hj) as (st & sv & -> & Hsh & Hsv & Hmono & Hst & Hcnt). rsimpl. apply good_some.
  pose proof (sends_none j Hns) as Hns'. set (s' := Lsys _ _ _ _ _ _ _).
  assert (forall q, outside s' q = outside s q + map_count (fun x => bool_decide (x = q)) sv
                          - map_count (fun x => bool_decide (x = q)) (saved s)) as Hout.
  { intros q. unfold outside. simpl. rewrite (map_count_insert _ _ _ _ _ Hj). simpl. lia. }
  eapply linv_frame; [exact Hi|done..| | | |].
  - eapply store_ok_ext; [exact Hst|]. intros q. unfold refs. rewrite Hout. change (held s') with (held s). lia.
  - eapply shape_steps; [done|done| |].
    + intros q. simpl. rewrite (sends_job q _ t j _ Hj), Hns'. unfold sends at 1. simpl. by rewrite andb_false_r.
    + intros q. eapply removing_job; [exact Hj|by apply sends_not_removing| |done|done].
      intros t' Hne. simpl. by rewrite lookup_insert_ne.
  - intros q _. rewrite Hout. destruct (Hcnt q) as [->|]; [left; lia|by right].
  - intros t' j' Hj'. simpl in *. destruct (decide (t = t')) as [<-|Hne].
    + rewrite lookup_insert_eq in Hj'. by injection Hj' as <-.
    + rewrite lookup_insert_ne in Hj' by done. intros. by apply Hmono, (li_jobs _ Hi t').
Qed.

Lemma latest_ok s t j : linv s -> jobs s !! t = Some j -> jp j = JSeen ->
  (jn j = 0 -> saved s !! 0 = None -> forall o, objs (lst s) !! jc j = Some o -> dead_ (body o) = false) ->
  good ('(st, c) ← latest_conn (lst s) (saved s) (jn j) (jc j);
        Ret (Some (set_jobs s st (<[t := Job c (jn j) JReady]> (jobs s))))).
Proof.
  intros Hi Hj Hp Hplain. assert (sends (jc j) j = false) as Hns by (unfold sends; rewrite Hp; apply andb_false_r).
  pose proof (job_outside s t j Hj) as Hout.
  destruct (linv_get s (jc j) Hi (outside_refs _ _ Hout)) as (o & Ho & _). unfold latest_conn, isdead. rewrite Ho.
  cbn [deref]. rsimpl. destruct (dead_ (body o) && _) eqn:E.
  - bool_prop. assert (exists c, saved s !! jn j = Some c) as [c Hc].
    { destruct (saved s !! jn j) as [c|] eqn:Es; [by exists c|]. destruct (decide (jn j = 0)) as [Hn|Hn].
      - rewrite Hn in Es. by rewrite (Hplain Hn Es o Ho) in *.
      - destruct (li_jobs _ Hi t j Hj Hp Hn) as [c Hc]. congruence. }
    destruct (job_decref s t j Hi Hj Hns) as (st1 & -> & Hst1 & Hsh1). rsimpl. rewrite Hc. cbn [deref]. rsimpl.
    pose proof (saved_outside s _ _ Hc) as Hoc.
    destruct (store_incref st1 _ c Hst1) as (st2 & -> & Hst2 & Hsh2).
    { cbv beta. unfold one. pose proof (outside_refs _ _ Hoc). rewrite decide_False; [lia|]. intros Ej. apply H0. by rewrite Hc, Ej. }
    rsimpl. apply good_some, linv_phase; [done|done|done| |by eapply shape_trans|by right|done|done].
    eapply store_ok_ext; [exact Hst2|]. intros q. cbv beta. lia.
  - rsimpl. apply good_some, linv_phase; [done|done|done| |apply shape_refl|by left|done|done].
    eapply store_ok_ext; [apply Hi|]. intros q. cbv beta. lia.
Qed.

(** A job changes the contents of its connection. *)
Lemma linv_send s t j o c ph : linv s -> jobs s !! t = Some j -> objs (lst s) !! jc j = Some o ->
  ph <> JSeen ->
  (dead_ (body o) = true -> dead_ c = true) ->
  (watched c -> dead_ c = false \/ (exists lk, ph = JSend Removing lk) \/
     (removing s (jc j) /\ forall lk, jp j <> JSend Removing lk)) ->
  busy c = Z.b2z (sends (jc j) (Job (jc j) (jn j) ph)) - Z.b2z (sends (jc j) j) + busy (body o) ->
  linv (set_jobs s (set_obj (lst s) (jc j) (set_body o c)) (<[t := Job (jc j) (jn j) ph]> (jobs s))).
Proof.
  intros Hi Hj Hp Hph Hd Hw Hb. set (s' := set_jobs _ _ _).
  assert (forall q, outside s' q = outside s q) as Hout.
  { intros q. unfold s'. rewrite (outside_job s _ t j) by done. simpl. lia. }
  eapply linv_frame; [exact Hi|done..| | |by left|].
  - eapply store_ok_ext; [eapply store_ok_body; [apply Hi|exact Hp]|]. intros q. unfold refs. by rewrite Hout.
  - eapply body_steps; [done|exact Hp|done| | |].
    + intros q Hq. simpl. rewrite (sends_job q _ t j _ Hj). unfold sends. simpl. by rewrite bool_decide_eq_false_2.
    + intros q Hq [(t' & j' & lk & Hj' & Hc & Hp')|?]; [left|by right]. exists t', j', lk. simpl.
      rewrite lookup_insert_ne; [done|]. intros <-. simplify_eq.
    + split; simpl; [done|done| |].
      * intros H. destruct (Hw H) as [?|[[lk ->]|[Hr Hnr]]]; [by left|right; left|right].
        -- exists t, (Job (jc j) (jn j) (JSend Removing lk)), lk. simpl. by rewrite lookup_insert_eq.
        -- eapply removing_job; [exact Hj|done| |done|done|done]. intros t' Hne. simpl. by rewrite lookup_insert_ne.
      * rewrite (sends_job _ _ t j _ Hj), (ok_busy _ _ _ (li_obj _ Hi _ _ Hp)). lia.
  - intros t' j' Hj'. simpl in *. destruct (decide (t = t')) as [<-|Hne].
    + rewrite lookup_insert_eq in Hj'. by injection Hj' as <-.
    + rewrite lookup_insert_ne in Hj' by done. by apply (li_jobs _ Hi t').
Qed.

Lemma start_send_ok s t j lk b sz w : linv s -> jobs s !! t = Some j -> sends (jc j) j = false ->
  (forall o, objs (lst s) !! jc j = Some o -> exists x, send_turn (body o) b sz w = Ret x) ->
  good (start_send s t (jn j) (jc j) lk b sz w).
Proof.
  intros Hi Hj Hns Hio. pose proof (job_outside s t j Hj) as Hout.
  destruct (linv_get s (jc j) Hi (outside_refs _ _ Hout)) as (o & Ho & _ & Hok). unfold start_send. rewrite Ho.
  cbn [deref]. rsimpl. destruct (_ && _) eqn:E; [apply good_none|].
  destruct (Hio o Ho) as ([c x] & Ex). rewrite Ex. rsimpl. apply good_some.
  assert (dead_ (body o) = true \/ idle (body o)) as Hfree.
  { apply andb_false_iff in E as [E|E]; bool_prop; [by left|by right]. }
  destruct (send_turn_keeps _ _ _ _ _ _ Ex Hfree) as (Hd & Hw & Hidle). apply linv_send; [done|done|done|done| | |].
  - intros H. by destruct (Hd H) as [-> _].
  - intros H. destruct (Hw H) as [[H1 H2]|[?| ->]]; [|by left|right; left; by eauto].
    destruct (ok_watch _ _ _ Hok H1) as [Ha|Hr].
    + destruct (dead_ c); [by rewrite H2 in Ha|by left].
    + right; right. split; [done|]. by apply sends_not_removing.
  - rewrite Hns. unfold sends. simpl. rewrite bool_decide_eq_true_2 by done. cbn [andb]. destruct x; cbn [Z.b2z].
    + destruct (dead_ (body o)) eqn:Ed; [by destruct (Hd eq_refl) as [-> _]|].
      rewrite !busy_idle; [done| |]; [by destruct Hfree|]. apply Hidle. by right.
    + rewrite busy_busy, busy_idle; [done| |].
      * destruct Hfree as [H|H]; [|done]. by destruct (Hd H) as [_ ?].
      * intros H%Hidle. by destruct H as [[? _]|[? _]].
    + rewrite busy_busy, busy_idle; [done| |].
      * destruct Hfree as [H|H]; [|done]. by destruct (Hd H) as [_ ?].
      * intros H%Hidle. by destruct H as [[? _]|[? _]].
Qed.

(** [send] ends. *)
Lemma resume_ok s t j o c ph : linv s -> jobs s !! t = Some j -> sends (jc j) j = true -> objs (lst s) !! jc j = Some o ->
  (forall w lk, ph = JSend w lk -> w = Sent) -> ph <> JSeen -> dead_ c = dead_ (body o) -> idle c ->
  (watched c -> watched (body o) /\ forall lk, jp j <> JSend Removing lk) ->
  linv (set_jobs s (set_obj (lst s) (jc j) (set_body o c)) (<[t := Job (jc j) (jn j) ph]> (jobs s))).
Proof.
  intros Hi Hj Hs Hp Hph Hph' Hd Hidle Hw. pose proof (li_obj _ Hi _ _ Hp) as Hok.
  apply linv_send; [done|done|done|done|by rewrite Hd| |].
  - intros H. destruct (Hw H) as [H1 H2]. rewrite Hd. destruct (ok_watch _ _ _ Hok H1); auto.
  - rewrite (busy_idle c Hidle), Hs. simpl.
    assert (sends (jc j) (Job (jc j) (jn j) ph) = false) as ->.
    { unfold sends. simpl. destruct ph as [| | |w lk]; rewrite ?andb_false_r; try done. by rewrite (Hph w lk), andb_false_r. }
    assert (~ idle (body o)) as Hb; [|by rewrite busy_busy].
    intros Hb. pose proof (ok_busy _ _ _ Hok) as Hc. rewrite (busy_idle _ Hb) in Hc.
    pose proof (map_count_some (sends (jc j)) (jobs s) t j Hj Hs). lia.
Qed.

(** What the system calls answer must suit the framing code (theorems on
    [Connection] say when it does), and the connection of a plain client must be
    alive when its reply is sent. *)
Definition io_ok {AL : Allocator} (s : lsys) (e : lev) : Prop :=
  match e with
  | ERead p r1 r2 g => forall o, objs (lst s) !! p = Some o -> cb_rd (body o) = true ->
      exists x, read_cb (body o) r1 r2 (match g with GotFull => false | _ => true end) = Ret x
  | EWrite p w => forall o, objs (lst s) !! p = Some o -> cb_wr (body o) = true -> exists x, write_cb (body o) w = Ret x
  | ESend t b sz w => forall j o, jobs s !! t = Some j -> objs (lst s) !! jc j = Some o ->
      exists x, send_turn (body o) b sz w = Ret x
  | ELatest t => forall j o, jobs s !! t = Some j -> jn j = 0 -> saved s !! 0 = None ->
      objs (lst s) !! jc j = Some o -> dead_ (body o) = false
  | _ => True
  end.

Lemma job_turn_ok {AL : Allocator} s t e : linv s -> io_ok s e ->
  match e with ESave t' | ESend t' _ _ _ | ELatest t' | EResume t' | EDone t' => t' = t | _ => False end ->
  good (job_turn s t e).
Proof.
  intros Hi Hio He. unfold job_turn. destruct (jobs s !! t) as [j|] eqn:Hj; [|apply good_none].
  assert (exists o, objs (lst s) !! jc j = Some o) as [o Ho].
  { destruct (linv_get s (jc j) Hi (outside_refs _ _ (job_outside s t j Hj))) as (o & Ho & _). by exists o. }
  assert (forall w lk, jp j = JSend w lk -> w <> Sent -> sends (jc j) j = true) as Hsending.
  { intros w lk Hp Hw. unfold sends. rewrite Hp, bool_decide_eq_true_2 by done. by destruct w. }
  assert ((forall w lk, jp j = JSend w lk -> w = Sent) -> sends (jc j) j = false) as Hnot.
  { intros Hp. unfold sends. destruct (jp j) as [| | |w lk]; rewrite ?andb_false_r; try done.
    by rewrite (Hp w lk), andb_false_r. }
  destruct e; try done; subst; destruct (jp j) as [| | |[| |] lk] eqn:Hp; try apply good_none.
  - by apply save_ok.
  - apply start_send_ok; [done|done|by apply Hnot|]. intros o' Ho'. by eapply Hio.
  - apply start_send_ok; [done|done|by apply Hnot|]. intros o' Ho'. by eapply Hio.
  - apply start_send_ok; [done|done|by apply Hnot|]. intros o' Ho'. by eapply Hio.
  - apply latest_ok; [done|done|done|]. intros Hn Hs o' Ho'. by eapply Hio.
  - rewrite Ho. cbn [deref]. rsimpl. destruct (send_ready _); [|apply good_none]. apply good_some.
    eapply resume_ok; [done|done|by eapply Hsending|done|by intros w l [= <- <-]|done|done|done|]. intros H. by rewrite Hp.
  - rewrite Ho. cbn [deref]. rsimpl. apply good_some.
    eapply resume_ok; [done|done|by eapply Hsending|done|by intros w l [= <- <-]|done|done|done|]. by intros [|].
  - apply done_ok; [done|done|by apply Hnot].
  - apply done_ok; [done|done|by apply Hnot].
  - destruct lk; [apply good_some, leak_ok|apply done_ok]; (done || (apply Hnot; by intros ? ? [= <- <-])).
Qed.

(** ** The listener *)

(** Moves of the iterator: the entries, their references and the store stay. *)
Lemma linv_move s k l p : linv s -> pending p ++ (k ++ l).*2 ≡ₚ held s ->
  (forall f q, (f, q) ∈ k ++ l -> (f, q) ∈ conns s \/ forall o, objs (lst s) !! q = Some o -> f = fd_ o) ->
  (pc s = CloseWait -> False) ->
  pc_ok (set_loop s (lst s) k l p) -> linv (set_loop s (lst s) k l p).
Proof.
  intros Hi Hperm Hk Hpc Hok. set (s' := set_loop _ _ _ _ _) in *. assert (held s' ≡ₚ held s) as Hh by exact Hperm.
  assert (forall q, refs s' q = refs s q) as Hr.
  { intros q. unfold refs. by rewrite (count_perm q _ _ Hh). }
  eapply linv_step; [exact Hi| | | |exact Hk| |done|apply Hi].
  - eapply store_ok_ext; [apply Hi|exact Hr].
  - eapply shape_steps; [done|apply shape_refl|done|]. intros q [?|[? _]]; [by left|done].
  - intros q Hq. left. by rewrite Hh.
  - rewrite Hh. apply Hi.
Qed.

(** A change of the contents of the entry at the iterator. *)
Lemma linv_mark s q o c p f l : linv s -> todo s = (f, q) :: l -> objs (lst s) !! q = Some o ->
  pending (pc s) = [] -> pending p = [] -> dead_ c = true -> (idle c <-> idle (body o)) ->
  (watched c -> p = CloseWait) ->
  (p = CloseWait \/ p = CloseDrop) ->
  linv (set_loop s (set_obj (lst s) q (set_body o c)) (kept s) (todo s) p).
Proof.
  intros Hi Et Hq Hp1 Hp2 Hd Hidle Hw Hp. set (s' := set_loop _ _ _ _ _).
  assert (held s' = held s) as Hh by (unfold held; simpl; by rewrite Hp1, Hp2).
  eapply linv_step; [exact Hi| | |rewrite Hh; by left|by left|rewrite Hh; apply Hi| |apply Hi].
  - eapply store_ok_ext; [eapply store_ok_body; [apply Hi|exact Hq]|]. intros x. unfold refs. by rewrite Hh.
  - eapply body_steps; [done|exact Hq|done|done| |].
    + intros x Hx [?|[? Hhd]]; [by left|]. rewrite Et in Hhd. simpl in Hhd. congruence.
    + split; simpl; [done|done| |by rewrite (ok_busy _ _ _ (li_obj _ Hi _ _ Hq)), (busy_iff _ _ Hidle)].
      intros H. right; right. split; [by apply Hw|]. simpl. by rewrite Et.
  - unfold pc_ok. simpl. rewrite Et. assert (dead_in s' q) as Hdd.
    { intros x. simpl. rewrite lookup_insert_eq. by intros [= <-]. }
    by destruct Hp as [->| ->].
Qed.

(** The listener lets go of the entry at the iterator. *)
Lemma linv_drop s f q l p : linv s -> todo s = (f, q) :: l -> dead_in s q -> pending p = pending (pc s) ->
  (pc s = CloseWait -> False) -> match p with Test _ | Closing => True | _ => False end ->
  good (st ← decref (lst s) q; Ret (Some (set_loop s st (kept s) l p))).
Proof.
  intros Hi Et Hd Hp Hpc Hp'. pose proof (todo_held s f q l Et) as Hin.
  destruct (store_decref _ _ q (li_store _ Hi)) as (st & -> & Hst & Hsh); [by apply held_refs| |].
  { intros H1 o Ho. split; [by apply Hd|]. eapply last_idle_other; [done|done|by left|done]. }
  rsimpl. apply good_some. set (s' := set_loop _ _ _ _ _).
  assert (held s ≡ₚ q :: held s') as Hperm.
  { unfold held, conns. simpl. rewrite Et, Hp, !fmap_app, fmap_cons. simpl.
    rewrite !app_assoc. by rewrite <- Permutation_middle. }
  assert (conns s ≡ₚ (f, q) :: conns s') as Hc.
  { unfold conns. simpl. rewrite Et. by rewrite <- Permutation_middle. }
  eapply linv_step; [exact Hi| | | | | | |apply Hi].
  - eapply store_ok_ext; [exact Hst|]. intros x. unfold refs. rewrite (count_perm x _ _ Hperm), count_cons.
    change (outside s' x) with (outside s x). unfold one. lia.
  - eapply shape_steps; [done|done|done|]. intros x [?|[? _]]; [by left|done].
  - intros x. rewrite Hperm. intros [->|?]%elem_of_cons; [right|by left]. intros o Ho.
    destruct (Hsh q o Ho) as (o0 & Ho0 & -> & _). by apply Hd.
  - intros k x Hx. left. rewrite Hc. by right.
  - pose proof (li_nodup _ Hi) as Hn. rewrite Hperm in Hn. by apply NoDup_cons in Hn as [_ ?].
  - unfold pc_ok. simpl. by destruct p.
Qed.

Lemma map_put_perm k v l : k ∉ l.*1 -> map_put k v l ≡ₚ (k, v) :: l.
Proof.
  induction l as [|[k' v'] l IH]; [done|]. rewrite fmap_cons, not_elem_of_cons. simpl. intros [Hne Hn].
  destruct (k <? k'); [done|]. rewrite (proj2 (Z.eqb_neq _ _) Hne), IH by done. apply Permutation_swap.
Qed.

(** The entries have different keys, and the new connection another one. *)
Lemma key_unused s p o k : linv s -> objs (lst s) !! p = Some o -> p ∉ (conns s).*2 -> k ∈ (conns s).*1 -> k <> fd_ o.
Proof.
  intros Hi Hp Hn Hk ->. apply list_elem_of_fmap in Hk as ([k q] & Ek & Hin). simpl in Ek. subst k.
  assert (q ∈ (conns s).*2) as Hq by (apply list_elem_of_fmap; by exists (fd_ o, q)).
  destruct (linv_get s q Hi) as (o' & Ho' & _ & Hok); [apply held_refs, elem_of_app; by right|].
  assert (p = q) as ->; [|done]. apply (so_inj _ _ (li_store _ Hi) p q o o' Hp Ho'). by apply (ok_key _ _ _ Hok).
Qed.

(** The loop is over: the new connection is entered under its descriptor. *)
Lemma enter_ok s ch : linv s -> pc s = Test ch -> todo s = [] ->
  good (k ← channo (lst s) ch; Ret (Some (set_loop s (lst s) (map_put k ch (kept s)) [] Selecting))).
Proof.
  intros Hi Ep Et.
  assert (ch ∈ held s) as Hin by (unfold held; rewrite Ep; set_solver).
  destruct (linv_get s ch Hi (held_refs _ _ Hin)) as (o & Ho & _). unfold channo. rewrite Ho. cbn [deref]. rsimpl.
  assert (conns s = kept s) as Hc by (unfold conns; by rewrite Et, app_nil_r).
  pose proof (li_nodup _ Hi) as Hnd. unfold held in Hnd. rewrite Ep in Hnd. simpl in Hnd. apply NoDup_cons in Hnd as [Hnc _].
  assert (map_put (fd_ o) ch (kept s) ≡ₚ (fd_ o, ch) :: kept s) as Hperm.
  { apply map_put_perm. rewrite <- Hc. intros Hk. by eapply key_unused in Hk. }
  apply good_some, linv_move; [done| | |by rewrite Ep|done].
  - unfold held. rewrite Ep, app_nil_r, Hperm, Hc. done.
  - intros g x. rewrite app_nil_r, Hperm, Hc. intros [[= -> ->]|?]%elem_of_cons; [right|by left].
    intros o' Ho'. by simplify_eq.
Qed.

Lemma loop_turn_ok s : linv s -> good (loop_turn s).
Proof.
  intros Hi. pose proof (li_pc _ Hi) as Hpc. unfold pc_ok in Hpc. unfold loop_turn.
  assert (forall k q l, todo s = (k, q) :: l -> exists o, objs (lst s) !! q = Some o /\ refno_ o = refs s q) as Hget.
  { intros k q l Et. destruct (linv_get s q Hi) as (o & Ho & Hr & _); [by eapply held_refs, todo_held|by exists o]. }
  assert (forall x l, todo s = x :: l -> (kept s ++ [x]) ++ l = conns s) as Hmove.
  { intros x l Et. unfold conns. by rewrite Et, <- app_assoc. }
  destruct (pc s) as [|ch|ch|ch| | | |] eqn:Ep; [apply good_none| | | | | | |]; destruct (todo s) as [|[f q] l] eqn:Et;
    try apply good_none; try (destruct (Hget f q l eq_refl) as (o & Ho & Hr); unfold isdead, ref; rewrite ?Ho; cbn [deref]; rsimpl).
  - by apply enter_ok.
  - apply good_some. destruct (dead_ (body o)) eqn:Ed; apply linv_move; rewrite ?Ep; try done.
    + unfold held, conns. by rewrite Ep, Et.
    + unfold conns. rewrite Et. by left.
    + intros o' Ho'. simpl in Ho'. by simplify_eq.
    + rewrite (Hmove _ _ eq_refl). unfold held. by rewrite Ep.
    + rewrite (Hmove _ _ eq_refl). by left.
  - apply good_some. destruct (refno_ o =? 1) eqn:E1; bool_prop; apply linv_move; rewrite ?Ep; try done.
    + unfold held, conns. by rewrite Ep, Et.
    + unfold conns. rewrite Et. by left.
    + split; [exact Hpc|]. rewrite <- E1, Hr. unfold refs. f_equal. unfold held, conns. simpl. by rewrite Ep, Et.
    + rewrite (Hmove _ _ eq_refl). unfold held. by rewrite Ep.
    + rewrite (Hmove _ _ eq_refl). by left.
  - eapply linv_drop; [done|done|apply Hpc|by rewrite Ep|by rewrite Ep|done].
  - apply good_some, linv_move; rewrite ?Ep; try done.
    + unfold held, conns. by rewrite Ep, Et.
    + unfold conns. rewrite Et. by left.
  - done.
  - apply good_some. destruct (dead_ (body o)) eqn:Ed.
    + apply linv_move; rewrite ?Ep; try done; unfold held, conns; rewrite ?Ep, ?Et; [done|by left|].
      intros o' Ho'. simpl in Ho'. by simplify_eq.
    + rewrite <- Et. eapply linv_mark; try done; [by rewrite Ep|by left].
  - rewrite <- Et. apply good_some. eapply linv_mark; try done; [by rewrite Ep|by apply Hpc|by intros [|]|by right].
  - eapply linv_drop; [done|done|apply Hpc|by rewrite Ep|by rewrite Ep|done].
Qed.

Lemma accept_ok s fd now : linv s -> pc s = Selecting -> fd ∉ fds (lst s) ->
  linv (set_loop s (new_connection (lst s) fd now).1 [] (kept s) (Test (next_obj (lst s)))).
Proof.
  intros Hi Ep Hfd. pose proof (li_pc _ Hi) as Hpc. unfold pc_ok in Hpc. rewrite Ep in Hpc.
  assert (conns s = kept s) as Hc by (unfold conns; by rewrite Hpc, app_nil_r).
  set (ch := next_obj (lst s)). set (s' := set_loop _ _ _ _ _).
  assert (held s' = ch :: held s) as Hh by (unfold held, conns; simpl; by rewrite Ep, Hpc, app_nil_r).
  assert (objs (lst s) !! ch = None) as Hnone.
  { destruct (objs (lst s) !! ch) eqn:E; [|done].
    assert (ch < ch)%positive by (apply (so_next _ _ (li_store _ Hi)); by rewrite E). lia. }
  assert (refs s ch = 0) as Hr0.
  { pose proof (refs_nonneg s ch). destruct (decide (0 < refs s ch)) as [H1|]; [|lia].
    destruct (linv_get s ch Hi H1) as (o & Ho & _). congruence. }
  assert (ch ∉ held s) as Hnh by (intros H%held_refs; lia).
  split.
  - eapply store_ok_ext; [apply new_connection_ok; [apply Hi|done|apply refs_nonneg]|]. intros q. unfold refs.
    rewrite Hh, count_cons. change (outside s' q) with (outside s q). unfold one, ch. lia.
  - intros p o. simpl. destruct (decide (ch = p)) as [<-|Hne].
    + rewrite lookup_insert_eq. intros [= <-]. split; simpl.
      * rewrite Hh. set_solver.
      * by left.
      * apply map_count_nobody. intros t j Hj. unfold sends. rewrite bool_decide_eq_false_2; [done|]. intros E.
        pose proof (outside_refs _ _ (job_outside s t j Hj)) as H1. rewrite E in H1. lia.
      * intros k Hk. destruct Hnh. unfold held. apply elem_of_app. right. rewrite Hc.
        apply list_elem_of_fmap. by exists (k, ch).
    + rewrite lookup_insert_ne by done. intros Hp. destruct (li_obj _ Hi p o Hp) as [H1 H2 H3 H4]. split.
      * rewrite Hh. intros H. right. auto.
      * intros H. destruct (H2 H) as [?|[?|[? _]]]; [by left|right; by left|congruence].
      * done.
      * intros k Hk. apply H4. by rewrite Hc.
  - rewrite Hh. apply NoDup_cons. split; [done|apply Hi].
  - done.
  - apply Hi.
Qed.

(** ** Every turn *)
Lemma turn_ok {AL : Allocator} s e : linv s -> io_ok s e -> good (turn s e).
Proof.
  intros Hi Hio. destruct e; simpl.
  - destruct (pc s) eqn:Ep; try apply good_none. destruct (_ && _) eqn:E; [|apply good_none]. bool_prop.
    by apply good_some, accept_ok.
  - destruct (pc s) eqn:Ep; try apply good_none. pose proof (li_pc _ Hi) as Hpc. unfold pc_ok in Hpc. rewrite Ep in Hpc.
    apply good_some, linv_move; [done|unfold held; by rewrite Ep|by left|by rewrite Ep|done].
  - by apply loop_turn_ok.
  - by apply read_turn_ok.
  - by apply write_turn_ok.
  - by apply job_turn_ok.
  - by apply job_turn_ok.
  - by apply job_turn_ok.
  - by apply job_turn_ok.
  - by apply job_turn_ok.
Qed.

(** A turn that was taken had the answers it needed. *)
Lemma io_of_step {AL : Allocator} s e s' : linv s -> lstep s e s' -> io_ok s e.
Proof.
  intros Hi. unfold lstep. destruct e as [| | |p r1 r2 g|p w| |t b sz w|t| |]; simpl; try done.
  - intros H o Ho Hcb. unfold read_turn in H. rewrite Ho, Hcb in H. cbn [negb] in H. res_inv. eauto.
  - intros H o Ho Hcb. unfold write_turn in H. rewrite Ho, Hcb in H. cbn [negb] in H. res_inv. eauto.
  - intros H j o Hj Ho. unfold job_turn in H. rewrite Hj in H.
    destruct (jp j); try done; unfold start_send in H; rewrite Ho in H; cbn [deref] in H; res_inv; simplify_eq;
      (destruct (_ && _); [done|]); res_inv; eauto.
  - intros H j o Hj Hn Hs Ho. unfold job_turn in H. rewrite Hj in H. destruct (jp j); try done. unfold latest_conn, isdead in H.
    rewrite Ho, Hn, Hs in H. cbn [deref] in H. rewrite !res_bind_ret in H.
    destruct (dead_ (body o)); [|done]. cbn [andb] in H. rewrite bool_decide_eq_false_2 in H by done. cbn [negb] in H. by res_inv.
Qed.

Lemma linv_reachable {AL : Allocator} open tr s : reachable (linit open) lstep tr s -> linv s.
Proof.
  intros Hr. pattern tr, s. revert tr s Hr. apply reachable_invariant.
  - intros s ->. split; [|done|constructor|done|done]. split; simpl; try done. by intros p [].
  - intros tr s e s' Hi Hs. destruct (turn_ok s e Hi (io_of_step s e s' Hi Hs)) as (x & E & Hx).
    unfold lstep in Hs. rewrite Hs in E. injection E as <-. by apply Hx.
Qed.
