(* ===== verification/ListenerThms.v ===== *)
(** * Lifetimes of connections: the theorems *)

From S2P Require Import Prelude Marshall Connection Listener ListenerSpec ListenerInv ListenerSteps.

(** ** What [process_accept] collects *)

(** Dead, with the listener's reference only. *)
Definition stale (st : store) (p : positive) : bool :=
  match objs st !! p with Some o => dead_ (body o) && (refno_ o =? 1) | None => false end.

Lemma decref_stale st p o : objs st !! p = Some o -> stale st p = true -> idle (body o) ->
  decref st p = Ret (Store (delete p (objs st)) (next_obj st) (fds st ∖ {[fd_ o]})).
Proof.
  unfold stale, decref. intros Hp Hs Hi. rewrite Hp in *. cbn [deref]. bool_prop. rsimpl. cbv zeta. rewrite H0.
  simpl. rewrite H. unfold destroy. rewrite H, Hi. done.
Qed.

Lemma collect_spec st l : NoDup l.*2 ->
  (forall p, p ∈ l.*2 -> exists o, objs st !! p = Some o /\ (stale st p = true -> idle (body o))) ->
  exists st', collect st l = Ret (st', filter (fun x => stale st x.2 = false) l) /\
    forall q, objs st' !! q = if bool_decide (q ∈ l.*2) && stale st q then None else objs st !! q.
Proof.
  revert st. induction l as [|[k p] l IH]; intros st Hnd Hex.
  { exists st. split; [done|]. intros q. by rewrite bool_decide_eq_false_2 by set_solver. }
  cbn [fmap list_fmap snd] in *. apply NoDup_cons in Hnd as [Hp Hnd].
  destruct (Hex p) as (o & Ho & Hidle); [by left|]. cbn [collect]. unfold isdead, ref. rewrite Ho. cbn [deref]. rsimpl.
  assert (dead_ (body o) && (refno_ o =? 1) = stale st p) as -> by (unfold stale; by rewrite Ho).
  destruct (stale st p) eqn:Es.
  - rewrite (decref_stale st p o Ho Es (Hidle eq_refl)). rsimpl. set (st1 := Store _ _ _).
    assert (forall q, q <> p -> objs st1 !! q = objs st !! q) as Hsame by (intros q Hq; simpl; by rewrite lookup_delete_ne).
    assert (forall q, q <> p -> stale st1 q = stale st q) as Hst by (intros q Hq; unfold stale; by rewrite Hsame).
    destruct (IH st1 Hnd) as (st' & E & Hobj).
    { intros q Hq. assert (q <> p) by (by intros ->). rewrite Hsame, Hst by done. apply Hex. by right. }
    exists st'. split.
    + rewrite E, filter_cons_False by (simpl; congruence). do 2 f_equal. apply filter_ext_in. intros [k' q] Hq. simpl. rewrite Hst; [done|]. intros ->. apply Hp. apply list_elem_of_fmap. by exists (k', p).
    + intros q. rewrite Hobj. destruct (decide (q = p)) as [->|Hne].
      * rewrite (bool_decide_eq_true_2 (p ∈ p :: _)), Es by set_solver. simpl. rewrite lookup_delete_eq. by destruct (_ && _).
      * rewrite Hst, Hsame by done. by rewrite (bool_decide_ext (q ∈ p :: l.*2) (q ∈ l.*2)) by set_solver.
  - destruct (IH st Hnd) as (st' & -> & Hobj); [intros q Hq; apply Hex; by right|]. rsimpl.
    exists st'. rewrite filter_cons_True by done. split; [done|]. intros q. rewrite Hobj.
    destruct (decide (q = p)) as [->|Hne]; [by rewrite Es, !andb_false_r|].
    by rewrite (bool_decide_ext (q ∈ p :: l.*2) (q ∈ l.*2)) by set_solver.
Qed.

(** ** What the destructor closes *)
Lemma close_all_spec st R l : store_ok st R -> NoDup l.*2 ->
  (forall p, p ∈ l.*2 -> 0 < R p /\ (R p = 1 -> forall o, objs st !! p = Some o -> idle (body o))) ->
  exists st', close_all st l = Ret st' /\ store_ok st' (fun q => R q - count q l.*2).
Proof.
  revert st R. induction l as [|[k p] l IH]; intros st R Hs Hnd Hex.
  { exists st. split; [done|]. eapply store_ok_ext; [exact Hs|]. intros q. unfold count. simpl. lia. }
  cbn [fmap list_fmap snd] in *. apply NoDup_cons in Hnd as [Hp Hnd]. destruct (Hex p) as [HR Hidle]; [by left|].
  destruct (store_ok_get st R p Hs HR) as (o & Ho & _). cbn [close_all]. rewrite Ho. cbn [deref]. rsimpl.
  set (st1 := set_obj st p _). assert (store_ok st1 R) as Hs1 by (by apply store_ok_body).
  destruct (store_decref st1 R p Hs1 HR) as (st2 & -> & Hs2 & Hsh).
  { intros H1 o'. simpl. rewrite lookup_insert_eq. intros [= <-]. simpl. rewrite closeconn_parts. specialize (Hidle H1 o Ho).
    destruct (dead_ (body o)) eqn:Ed; by rewrite ?Ed. }
  rsimpl. destruct (IH st2 _ Hs2 Hnd) as (st' & E & Hs').
  - intros q Hq. assert (p <> q) as Hne by (by intros ->). cbv beta. unfold one. rewrite decide_False, Z.sub_0_r by done.
    destruct (Hex q) as [H1 H2]; [by right|]. split; [done|]. intros H o2 Ho2.
    destruct (Hsh q o2 Ho2) as (o1 & Ho1 & -> & _). simpl in Ho1. rewrite lookup_insert_ne in Ho1 by done. by apply H2.
  - exists st'. split; [done|]. eapply store_ok_ext; [exact Hs'|]. intros q. cbv beta. rewrite count_cons. unfold one. lia.
Qed.

(** ** The listener in any reachable state *)
Section thms.
Context {AL : Allocator}.

Lemma conns_keys s : linv s -> NoDup (conns s).*1.
Proof.
  intros Hi. assert (NoDup (conns s).*2) as Hn.
  { pose proof (li_nodup _ Hi) as H. unfold held in H. by apply NoDup_app in H as (_ & _ & ?). }
  assert (forall l, NoDup l.*2 -> (forall x, x ∈ l -> x ∈ conns s) -> NoDup l.*1) as Hgen; [|by apply Hgen].
  induction l as [|[k p] l IH]; cbn [fmap list_fmap fst snd]; intros Hd Hsub; [constructor|].
  apply NoDup_cons in Hd as [Hp Hd]. apply NoDup_cons. split; [|apply IH; [done|]; intros x Hx; apply Hsub; by right].
  intros ([k' q] & Ek & Hq)%list_elem_of_fmap. simpl in Ek. subst k'.
  assert (forall r, (k, r) ∈ conns s -> exists o, objs (lst s) !! r = Some o /\ k = fd_ o) as Hget.
  { intros r Hr. destruct (linv_get s r Hi) as (o & Ho & _ & Hok).
    - apply held_refs, elem_of_app. right. apply list_elem_of_fmap. by exists (k, r).
    - exists o. split; [done|]. by apply (ok_key _ _ _ Hok). }
  destruct (Hget p) as (o1 & Ho1 & E1); [apply Hsub; by left|]. destruct (Hget q) as (o2 & Ho2 & E2); [apply Hsub; by right|].
  apply Hp. rewrite (so_inj _ _ (li_store _ Hi) p q o1 o2 Ho1 Ho2) by congruence. apply list_elem_of_fmap. by exists (k, q).
Qed.

(** A turn of [accept_conn] that no other thread interrupts. *)
Lemma process_accept_ok s fd now : linv s -> pc s = Selecting -> 0 <= fd -> fd ∉ fds (lst s) ->
  exists st, accept_conn (lst s) (conns s) (SelReady false true) fd now =
      Ret (st, Some (map_put fd (next_obj (lst s)) (filter (fun x => stale (lst s) x.2 = false) (conns s)))) /\
    forall p o, objs (lst s) !! p = Some o ->
      objs st !! p = if bool_decide (p ∈ (conns s).*2) && stale (lst s) p then None else Some o.
Proof.
  intros Hi Ep Hfd Hopen. unfold accept_conn, process_accept. rewrite (proj2 (Z.ltb_ge fd 0)) by done. cbn [new_connection].
  set (st1 := Store _ _ _). set (ch := next_obj (lst s)).
  assert (forall p o, objs (lst s) !! p = Some o -> p <> ch) as Hne.
  { intros p o Hp ->. assert (ch < ch)%positive by (apply (so_next _ _ (li_store _ Hi)); by eauto). lia. }
  assert (forall p, p <> ch -> objs st1 !! p = objs (lst s) !! p) as Hsame by (intros p Hp; simpl; by rewrite lookup_insert_ne).
  assert (forall p, p <> ch -> stale st1 p = stale (lst s) p) as Hst by (intros p Hp; unfold stale; by rewrite Hsame).
  assert (forall p, p ∈ (conns s).*2 -> p ∈ held s) as Hheld by (intros p Hp; apply elem_of_app; by right).
  assert (forall p, p ∈ (conns s).*2 -> p <> ch) as Hcn.
  { intros p Hp. destruct (linv_get s p Hi (held_refs _ _ (Hheld p Hp))) as (o & Ho & _). by eapply Hne. }
  destruct (collect_spec st1 (conns s)) as (st & -> & Hobj).
  - pose proof (li_nodup _ Hi) as H. unfold held in H. by apply NoDup_app in H as (_ & _ & ?).
  - intros p Hp. rewrite Hsame, Hst by auto. destruct (linv_get s p Hi (held_refs _ _ (Hheld p Hp))) as (o & Ho & Hr & _).
    exists o. split; [done|]. unfold stale. rewrite Ho. intros H. bool_prop.
    eapply last_idle_other; [done|by rewrite <- Hr|left; auto|done].
  - rsimpl. unfold channo. rewrite Hobj, bool_decide_eq_false_2 by (intros H; by apply Hcn in H). cbn [andb]. simpl.
    rewrite lookup_insert_eq. simpl. exists st. split.
    + do 4 f_equal. apply filter_ext_in. intros [k p] Hp. simpl. rewrite Hst; [done|]. apply Hcn, list_elem_of_fmap. by exists (k, p).
    + intros p o Hp. rewrite Hobj, Hst, Hsame by (by eapply Hne). by rewrite Hp.
Qed.

(** The destructor, once the listener's thread has ended: what is left are the
    connections that the server's table and the jobs hold. *)
Lemma destructor_ok s : linv s -> pc s = Stopped ->
  exists st, close_all (lst s) (conns s) = Ret st /\ forall p, is_Some (objs st !! p) <-> 0 < outside s p.
Proof.
  intros Hi Ep. assert (held s = (conns s).*2) as Hh by (unfold held; by rewrite Ep).
  destruct (close_all_spec _ _ (conns s) (li_store _ Hi)) as (st & E & Hs).
  - rewrite <- Hh. apply Hi.
  - rewrite <- Hh. intros p Hp. split; [by apply held_refs|]. intros H1 o Ho.
    eapply last_idle_other; [done|done|by left|done].
  - exists st. split; [done|]. intros p.
    assert (outside s p = refs s p - count p (conns s).*2) as -> by (unfold refs; rewrite Hh; lia).
    split; [intros [o Ho]; by apply (so_obj _ _ Hs p o)|apply (so_live _ _ Hs)].
Qed.

(** C37: however the listener, the poll thread, the jobs and the destructor
    interleave, connections are neither leaked by the counting nor used after
    deletion: a connection exists exactly while someone holds a reference, its
    count is the number of references, a live one is in the listener's table (or
    about to be entered), which has one entry per descriptor; whatever a thread
    does next returns; [process_accept] collects exactly the dead connections
    nobody else holds, and the destructor deletes all that nobody else holds. *)
Theorem connections_safe open tr s : reachable (linit open) lstep tr s ->
  (forall p, is_Some (objs (lst s) !! p) <-> 0 < refs s p) /\
  (forall p o, objs (lst s) !! p = Some o -> refno_ o = refs s p /\ (dead_ (body o) = false -> p ∈ held s)) /\
  NoDup (conns s).*1 /\
  (forall e, io_ok s e -> exists x, turn s e = Ret x) /\
  (pc s = Selecting -> forall fd now, 0 <= fd -> fd ∉ fds (lst s) ->
     exists st, accept_conn (lst s) (conns s) (SelReady false true) fd now =
         Ret (st, Some (map_put fd (next_obj (lst s)) (filter (fun x => stale (lst s) x.2 = false) (conns s)))) /\
       forall p o, objs (lst s) !! p = Some o ->
         objs st !! p = if bool_decide (p ∈ (conns s).*2) && stale (lst s) p then None else Some o) /\
  (pc s = Stopped -> exists st, close_all (lst s) (conns s) = Ret st /\
     forall p, is_Some (objs st !! p) <-> 0 < outside s p).
Proof.
  intros Hr. pose proof (linv_reachable open tr s Hr) as Hi. pose proof (li_store _ Hi) as Hs. split_and!.
  - intros p. split; [intros [o Ho]; by apply (so_obj _ _ Hs p o)|apply (so_live _ _ Hs)].
  - intros p o Ho. split; [by apply (so_obj _ _ Hs p o)|apply (ok_alive _ _ _ (li_obj _ Hi p o Ho))].
  - by apply conns_keys.
  - intros e Hio. destruct (turn_ok s e Hi Hio) as (x & E & _). by exists x.
  - intros. by apply process_accept_ok.
  - by apply destructor_ok.
Qed.

(** The table of the latest connection of each client keeps a reference for
    ever: a dead connection in it is never collected. *)
Theorem saved_never_collected open tr s n p : reachable (linit open) lstep tr s ->
  saved s !! n = Some p -> p ∈ (conns s).*2 -> stale (lst s) p = false.
Proof.
  intros Hr Hn Hp. pose proof (linv_reachable open tr s Hr) as Hi. pose proof (saved_outside s n p Hn) as Ho.
  destruct (linv_get s p Hi (outside_refs _ _ Ho)) as (o & Hpo & Hc & _). unfold stale. rewrite Hpo.
  assert (p ∈ held s) as Hh by (apply elem_of_app; by right). apply count_pos in Hh.
  rewrite (proj2 (Z.eqb_neq _ _)), andb_false_r; [done|]. rewrite Hc. unfold refs. lia.
Qed.

(** ** Runs *)
Fixpoint run (s : lsys) (l : list lev) : option lsys :=
  match l with
  | [] => Some s
  | e :: l => match turn s e with Ret (Some s') => run s' l | _ => None end
  end.

Lemma run_reachable open tr s l s' : reachable (linit open) lstep tr s -> run s l = Some s' ->
  reachable (linit open) lstep (tr ++ l) s'.
Proof.
  revert tr s. induction l as [|e l IH]; intros tr s Hr; simpl; [intros [= <-]; by rewrite app_nil_r|].
  destruct (turn s e) as [[s1|]| |] eqn:E; try done. intros H. specialize (IH (tr ++ [e]) s1).
  rewrite <- app_assoc in IH. apply IH; [by eapply reach_step|exact H].
Qed.
End thms.

(** ** Concrete runs *)
Module ListenerExample.
#[local] Instance zeros : Allocator := fun _ => Ascii.zero.

(** The poll thread reads an eight-byte request from connection 1. *)
Definition request (t : Z) : lev := ERead 1 (RData (be32 8)) (RData (S! "abcd")) (GotJob t 7).

(** A client connects; its first reply does not fit the socket at once, and is
    finished by [write_cb]; its second request has been read. *)
Definition served : list lev :=
  [EAccept 5 (0, 0); ELoop; request 1; ESave 1; ELatest 1; ESend 1 (S! "replyreply") 10 (WBytes 4);
   EWrite 1 (WBytes 6); EResume 1; EDone 1; request 2; ESave 2].

Definition start : lsys := Lsys (Store ∅ 1 {[0; 1; 2]}) [] [] Selecting ∅ ∅ [].
Definition after (l : list lev) : lsys := default start (run start l).

Lemma start_reachable : reachable (linit {[0; 1; 2]}) lstep [] start.
Proof. by apply reach_init. Qed.

Lemma served_reachable : reachable (linit {[0; 1; 2]}) lstep served (after served).
Proof. apply (run_reachable _ [] start served); [apply start_reachable|vm_compute; reflexivity]. Defined.

(** C37, witness: after the run the connection has three references (the
    listener, the table and the job), and the next accept keeps it. *)
Lemma connections_safe_witness :
  refs (after served) 1 = 3 /\
  exists st, accept_conn (lst (after served)) (conns (after served)) (SelReady false true) 6 (1, 0) =
    Ret (st, Some [(5, 1%positive); (6, 2%positive)]).
Proof.
  split; [vm_compute; reflexivity|].
  destruct (connections_safe {[0; 1; 2]} served (after served) served_reachable) as (_ & _ & _ & _ & H & _).
  destruct (H ltac:(vm_compute; reflexivity) 6 (1, 0)) as (st & E & _).
  - done.
  - apply (bool_decide_eq_false_1 _). vm_compute. reflexivity.
  - exists st. rewrite E. vm_compute. reflexivity.
Defined.

(** [send] and [closeconn] set [dead_] before they deregister the callbacks; the
    callback for writing, which stays registered after a reply that did not fit
    at once, can run in between, and asserts that the connection is not dead. *)
Example write_callback_on_dead :
  exists s, reachable (linit {[0; 1; 2]}) lstep (served ++ [ESend 2 (S! "replyreply") 10 (WErr false)]) s /\
    turn s (EWrite 1 (WBytes 0)) = Abort.
Proof.
  exists (after (served ++ [ESend 2 (S! "replyreply") 10 (WErr false)])). split.
  - apply (run_reachable _ [] start); [apply start_reachable|vm_compute; reflexivity].
  - vm_compute. reflexivity.
Qed.

(** A client that is gone: the listener, its table and the table of the server
    keep the connection, and its descriptor stays open. *)
Example dead_client_stays :
  exists s, reachable (linit {[0; 1; 2]}) lstep (served ++ [EDone 2; ERead 1 (RNone 0 false) (RNone 0 false) GotFull;
      EAccept 6 (1, 0); ELoop; ELoop; ELoop]) s /\
    conns s = [(5, 1%positive); (6, 2%positive)] /\ pc s = Selecting /\ isdead (lst s) 1 = Ret true /\ 5 ∈ fds (lst s).
Proof.
  exists (after (served ++ [EDone 2; ERead 1 (RNone 0 false) (RNone 0 false) GotFull;
      EAccept 6 (1, 0); ELoop; ELoop; ELoop])). split_and!.
  - apply (run_reachable _ [] start); [apply start_reachable|vm_compute; reflexivity].
  - vm_compute. reflexivity.
  - vm_compute. reflexivity.
  - vm_compute. reflexivity.
  - apply (bool_decide_eq_true_1 _). vm_compute. reflexivity.
Qed.

(** A plain client (no entry in the table) that is gone is collected, and its
    descriptor closed. *)
Example plain_client_collected :
  exists s, reachable (linit {[0; 1; 2]}) lstep [EAccept 5 (0, 0); ELoop; ERead 1 (RNone 0 false) (RNone 0 false) GotFull;
      EAccept 6 (1, 0); ELoop; ELoop; ELoop; ELoop] s /\
    conns s = [(6, 2%positive)] /\ objs (lst s) !! 1%positive = None /\ 5 ∉ fds (lst s).
Proof.
  exists (after [EAccept 5 (0, 0); ELoop; ERead 1 (RNone 0 false) (RNone 0 false) GotFull;
      EAccept 6 (1, 0); ELoop; ELoop; ELoop; ELoop]). split_and!.
  - apply (run_reachable _ [] start); [apply start_reachable|vm_compute; reflexivity].
  - vm_compute. reflexivity.
  - vm_compute. reflexivity.
  - apply (bool_decide_eq_false_1 _). vm_compute. reflexivity.
Qed.
End ListenerExample.
