(* ===== verification/Fifo.v ===== *)
(** * The bounded queue: [rpc/fifo.h]

    [enq] and [deq] run under the mutex of the queue and give it up only while
    they wait for a condition: one turn of their loops is atomic.  Threads that
    call them are a step relation over the queue and the place each thread is
    at; [pthread_cond_signal] wakes one of the threads that wait, if any does,
    and a waiting thread may wake up on its own at any time. *)

From S2P Require Import Prelude.

(** ** class fifo *)
Record fifo (T : Type) := Fifo { q_ : list T; max_ : Z }.
Arguments Fifo {T} q_ max_.
Arguments q_ {T} f.
Arguments max_ {T} f.

Section operations.
Context {T : Type}.
Implicit Types (f : fifo T) (e : T).

Definition fifo_new (limit : Z) : fifo T := Fifo [] (u32 limit).

(** [size] returns a [bool]. *)
Definition size f : bool := negb (Z.of_nat (length (q_ f)) =? 0).

(** One turn of the loop of [enq]: it returns [true] after signalling
    [non_empty_c_], returns [false], or waits for [has_space_c_]. *)
Inductive enq_t := EnqTrue | EnqFalse | EnqWait.

Definition has_room f : bool := (max_ f =? 0) || (Z.of_nat (length (q_ f)) <? max_ f).

Definition enq_turn f e (blocking : bool) : fifo T * enq_t :=
  if has_room f then (Fifo (q_ f ++ [e]) (max_ f), EnqTrue)
  else if blocking then (f, EnqWait) else (f, EnqFalse).

(** One turn of the loop of [deq]: the element, and whether [has_space_c_] is
    signalled; [None] when it waits for [non_empty_c_]. *)
Definition deq_turn f : option (T * fifo T * bool) :=
  match q_ f with
  | [] => None
  | e :: q => Some (e, Fifo q (max_ f), negb (max_ f =? 0) && (Z.of_nat (length q) <? max_ f))
  end.
End operations.

(** ** Threads that use a queue *)

(** Where a thread is: about to take a turn, or waiting for a condition. *)
Inductive pc (T : Type) :=
  | Enq (e : T) (blocking : bool)
  | EnqWaiting (e : T)
  | Deq
  | DeqWaiting.
Arguments Enq {T} e blocking.
Arguments EnqWaiting {T} e.
Arguments Deq {T}.
Arguments DeqWaiting {T}.

Record fsys (T : Type) := Fsys { fq : fifo T; pcs : gmap Z (pc T) }.
Arguments Fsys {T} fq pcs.
Arguments fq {T} f.
Arguments pcs {T} f.

Inductive fevent (T : Type) :=
  | FEnqCall (t : Z) (e : T) (blocking : bool)
  | FEnq (t : Z) (e : T) (r : bool)
  | FEnqWait (t : Z)
  | FDeqCall (t : Z)
  | FDeq (t : Z) (e : T)
  | FDeqWait (t : Z)
  | FSpurious (t : Z).
Arguments FEnqCall {T} t e blocking.
Arguments FEnq {T} t e r.
Arguments FEnqWait {T} t.
Arguments FDeqCall {T} t.
Arguments FDeq {T} t e.
Arguments FDeqWait {T} t.
Arguments FSpurious {T} t.

Section threads.
Context {T : Type}.
Implicit Types (m : gmap Z (pc T)) (s : fsys T).

(** The place a waiting thread wakes up at. *)
Definition awakened (p : pc T) : option (pc T) :=
  match p with EnqWaiting e => Some (Enq e true) | DeqWaiting => Some Deq | _ => None end.

Definition waits_non_empty (p : pc T) : bool := match p with DeqWaiting => true | _ => false end.
Definition waits_space (p : pc T) : bool := match p with EnqWaiting _ => true | _ => false end.

(** [pthread_cond_signal] on the condition that the threads at [w] wait for. *)
Inductive signal (w : pc T -> bool) m : gmap Z (pc T) -> Prop :=
  | signal_nobody : (forall t p, m !! t = Some p -> w p = false) -> signal w m m
  | signal_one t p p' : m !! t = Some p -> w p = true -> awakened p = Some p' -> signal w m (<[t := p']> m).

Inductive fstep : fsys T -> fevent T -> fsys T -> Prop :=
  | fs_enq_call f m t e b : m !! t = None ->
      fstep (Fsys f m) (FEnqCall t e b) (Fsys f (<[t := Enq e b]> m))
  | fs_enq f m t e b f' m' : m !! t = Some (Enq e b) -> enq_turn f e b = (f', EnqTrue) ->
      signal waits_non_empty (delete t m) m' ->
      fstep (Fsys f m) (FEnq t e true) (Fsys f' m')
  | fs_full f m t e b f' : m !! t = Some (Enq e b) -> enq_turn f e b = (f', EnqFalse) ->
      fstep (Fsys f m) (FEnq t e false) (Fsys f' (delete t m))
  | fs_enq_wait f m t e b f' : m !! t = Some (Enq e b) -> enq_turn f e b = (f', EnqWait) ->
      fstep (Fsys f m) (FEnqWait t) (Fsys f' (<[t := EnqWaiting e]> m))
  | fs_deq_call f m t : m !! t = None ->
      fstep (Fsys f m) (FDeqCall t) (Fsys f (<[t := Deq]> m))
  | fs_deq f m t e f' (sig : bool) m' : m !! t = Some Deq -> deq_turn f = Some (e, f', sig) ->
      (if sig then signal waits_space (delete t m) m' else m' = delete t m) ->
      fstep (Fsys f m) (FDeq t e) (Fsys f' m')
  | fs_deq_wait f m t : m !! t = Some Deq -> deq_turn f = None ->
      fstep (Fsys f m) (FDeqWait t) (Fsys f (<[t := DeqWaiting]> m))
  | fs_spurious f m t p p' : m !! t = Some p -> awakened p = Some p' ->
      fstep (Fsys f m) (FSpurious t) (Fsys f (<[t := p']> m)).

Definition finit (limit : Z) (s : fsys T) : Prop := s = Fsys (fifo_new limit) ∅.

(** What was put in and taken out, in order. *)
Definition enqueued (tr : list (fevent T)) : list T :=
  omap (fun ev => match ev with FEnq _ e true => Some e | _ => None end) tr.
Definition dequeued (tr : list (fevent T)) : list T :=
  omap (fun ev => match ev with FDeq _ e => Some e | _ => None end) tr.

(** Threads awake to take an element, and to use room. *)
Definition is_deq (p : pc T) : bool := match p with Deq => true | _ => false end.
Definition is_enq (p : pc T) : bool := match p with Enq _ b => b | _ => false end.

Record fifo_inv (limit : Z) (tr : list (fevent T)) s : Prop := {
  fi_max : max_ (fq s) = u32 limit;
  fi_bound : max_ (fq s) = 0 \/ Z.of_nat (length (q_ (fq s))) <= max_ (fq s);
  fi_order : enqueued tr = dequeued tr ++ q_ (fq s);
  fi_deq : 0 < map_count waits_non_empty (pcs s) -> Z.of_nat (length (q_ (fq s))) <= map_count is_deq (pcs s);
  fi_enq : 0 < map_count waits_space (pcs s) ->
    max_ (fq s) - Z.of_nat (length (q_ (fq s))) <= map_count is_enq (pcs s) }.
End threads.
