(* ===== verification/FifoSpec.v ===== *)
(** * The bounded queue: order, bound and no lost wake-up *)

From S2P Require Import Prelude Fifo.

Section invariant.
Context {T : Type}.
Implicit Types (m : gmap Z (pc T)) (s : fsys T).

#[local] Ltac tuple := repeat match goal with |- (_, _) = (_, _) => apply f_equal2 end.

(** The threads that matter: waiting for an element, awake to take one, waiting
    for room, awake to use it. *)
Definition counts m : Z * Z * Z * Z :=
  (map_count waits_non_empty m, map_count is_deq m, map_count waits_space m, map_count is_enq m).

Lemma counts_nonneg m : let '(a, b, c, d) := counts m in 0 <= a /\ 0 <= b /\ 0 <= c /\ 0 <= d.
Proof. simpl. split_and!; apply map_count_nonneg. Qed.

(** What one thread adds to them. *)
Definition weight (p : pc T) : Z * Z * Z * Z :=
  (Z.b2z (waits_non_empty p), Z.b2z (is_deq p), Z.b2z (waits_space p), Z.b2z (is_enq p)).

Lemma counts_fresh m t p a b c d a' b' c' d' : m !! t = None -> counts m = (a, b, c, d) ->
  weight p = (a', b', c', d') -> counts (<[t := p]> m) = (a' + a, b' + b, c' + c, d' + d).
Proof.
  unfold counts, weight. intros H Ec Ew. injection Ec as <- <- <- <-. injection Ew as <- <- <- <-.
  by rewrite !map_count_fresh by done.
Qed.

Lemma counts_delete m t p a b c d a' b' c' d' : m !! t = Some p -> counts m = (a, b, c, d) ->
  weight p = (a', b', c', d') -> counts (delete t m) = (a - a', b - b', c - c', d - d').
Proof.
  unfold counts, weight. intros H Ec Ew. injection Ec as <- <- <- <-. injection Ew as <- <- <- <-.
  tuple; rewrite (map_count_delete _ m t p H); lia.
Qed.

Lemma counts_insert m t p p' a b c d a' b' c' d' a'' b'' c'' d'' : m !! t = Some p -> counts m = (a, b, c, d) ->
  weight p = (a', b', c', d') -> weight p' = (a'', b'', c'', d'') ->
  counts (<[t := p']> m) = (a'' - a' + a, b'' - b' + b, c'' - c' + c, d'' - d' + d).
Proof.
  unfold counts, weight. intros H Ec Ew Ew'. injection Ec as <- <- <- <-. injection Ew as <- <- <- <-.
  injection Ew' as <- <- <- <-. by rewrite !(map_count_insert _ m t p p' H).
Qed.

Lemma counts_signal_non_empty m m' a b c d : signal waits_non_empty m m' -> counts m = (a, b, c, d) ->
  (a = 0 /\ counts m' = (a, b, c, d)) \/ counts m' = (a - 1, b + 1, c, d).
Proof.
  intros [Hn|t p p' Hp Hw Ha] Ec.
  - left. split; [|done]. unfold counts in Ec. injection Ec as <- _ _ _. by apply map_count_nobody.
  - right. destruct p; try done. simpl in Ha. injection Ha as <-.
    rewrite (counts_insert m t DeqWaiting Deq a b c d 1 0 0 0 0 1 0 0) by done. tuple; lia.
Qed.

Lemma counts_signal_space m m' a b c d : signal waits_space m m' -> counts m = (a, b, c, d) ->
  (c = 0 /\ counts m' = (a, b, c, d)) \/ counts m' = (a, b, c - 1, d + 1).
Proof.
  intros [Hn|t p p' Hp Hw Ha] Ec.
  - left. split; [|done]. unfold counts in Ec. injection Ec as _ _ <- _. by apply map_count_nobody.
  - right. destruct p as [| e | |]; try done. simpl in Ha. injection Ha as <-.
    rewrite (counts_insert m t (EnqWaiting e) (Enq e true) a b c d 0 0 1 0 0 0 0 1) by done. tuple; lia.
Qed.

(** The wake-up half of the invariant, on the counts. *)
Definition no_lost_wakeup (len max : Z) (k : Z * Z * Z * Z) : Prop :=
  let '(a, b, c, d) := k in (0 < a -> len <= b) /\ (0 < c -> max - len <= d).

Lemma fifo_inv_intro limit tr f m :
  max_ f = u32 limit -> (max_ f = 0 \/ Z.of_nat (length (q_ f)) <= max_ f) -> enqueued tr = dequeued tr ++ q_ f ->
  no_lost_wakeup (Z.of_nat (length (q_ f))) (max_ f) (counts m) -> fifo_inv limit tr (Fsys f m).
Proof. intros ? ? ? [? ?]. by constructor. Qed.

#[local] Arguments counts : simpl never.
#[local] Arguments no_lost_wakeup : simpl never.

(** The branches of a turn. *)
Lemma enq_turn_true f (e : T) b f' : enq_turn f e b = (f', EnqTrue) ->
  f' = Fifo (q_ f ++ [e]) (max_ f) /\ (max_ f = 0 \/ Z.of_nat (length (q_ f)) < max_ f).
Proof.
  unfold enq_turn, has_room. intros E. destruct (_ || _) eqn:Er; [|by destruct b]. injection E as <-.
  split; [done|]. apply orb_true_iff in Er as [Er|Er]; bool_prop; auto.
Qed.

Lemma enq_turn_full f (e : T) b f' r : enq_turn f e b = (f', r) -> r <> EnqTrue ->
  f' = f /\ max_ f <> 0 /\ max_ f <= Z.of_nat (length (q_ f)) /\ r = (if b then EnqWait else EnqFalse).
Proof.
  unfold enq_turn, has_room. intros E Hr. destruct (_ || _) eqn:Er; [by injection E as <- <-|].
  bool_prop. destruct b; injection E as <- <-; split_and!; done.
Qed.

Lemma deq_turn_some f (e : T) f' sig : deq_turn f = Some (e, f', sig) ->
  q_ f = e :: q_ f' /\ max_ f' = max_ f /\
  sig = negb (max_ f =? 0) && (Z.of_nat (length (q_ f')) <? max_ f).
Proof.
  unfold deq_turn. intros E. destruct (q_ f) as [|x q] eqn:Eq; [done|]. by injection E as <- <- <-.
Qed.

Lemma deq_turn_none (f : fifo T) : deq_turn f = None -> q_ f = [].
Proof. unfold deq_turn. by destruct (q_ f). Qed.

(** The queue itself: bounded, first in first out. *)
Lemma fifo_queue_step limit tr s ev s' : fifo_inv limit tr s -> fstep s ev s' ->
  max_ (fq s') = u32 limit /\ (max_ (fq s') = 0 \/ Z.of_nat (length (q_ (fq s'))) <= max_ (fq s')) /\
  enqueued (tr ++ [ev]) = dequeued (tr ++ [ev]) ++ q_ (fq s').
Proof.
  intros [Hm Hb Ho _ _] Hs. unfold enqueued, dequeued in *. rewrite !omap_app, Ho.
  inversion Hs as [| f m t e b f' m' Ht E | f m t e b f' Ht E | f m t e b f' Ht E
    | | f m t e f' sig m' Ht E | | ]; subst; clear Hs; simpl in *; rewrite ?app_nil_r; try done.
  - apply enq_turn_true in E as [-> Hr]. simpl. rewrite length_app, app_assoc. simpl. split_and!; [done|lia|done].
  - by apply enq_turn_full in E as (-> & _).
  - by apply enq_turn_full in E as (-> & _).
  - apply deq_turn_some in E as (Eq & Em & _). rewrite Em. rewrite Eq in Hb |- *. simpl in Hb.
    rewrite <- app_assoc. split_and!; [done|lia|done].
Qed.

(** No wake-up is lost: whoever could go on is woken. *)
Lemma fifo_wakeup_step limit tr s ev s' : fifo_inv limit tr s -> fstep s ev s' ->
  no_lost_wakeup (Z.of_nat (length (q_ (fq s')))) (max_ (fq s')) (counts (pcs s')).
Proof.
  intros [_ Hb _ Hd He] Hs. pose proof (counts_nonneg (pcs s)) as Hn.
  assert (no_lost_wakeup (Z.of_nat (length (q_ (fq s)))) (max_ (fq s)) (counts (pcs s))) as Hw by done.
  clear Hd He. destruct (counts (pcs s)) as [[[a b] c] d] eqn:Ek. destruct Hw as [Hw1 Hw2].
  inversion Hs as [f m t e bl Ht | f m t e bl f' m' Ht E Hsig | f m t e bl f' Ht E | f m t e bl f' Ht E
    | f m t Ht | f m t e f' sig m' Ht E Hsig | f m t Ht E | f m t p p' Ht E]; subst; clear Hs; simpl in *.
  - rewrite (counts_fresh m t _ a b c d 0 0 0 (Z.b2z bl)) by done. split; destruct bl; simpl; lia.
  - apply enq_turn_true in E as [-> Hr]. simpl. rewrite length_app. simpl.
    pose proof (counts_delete m t _ a b c d 0 0 0 (Z.b2z bl) Ht Ek eq_refl) as Ek'.
    destruct (counts_signal_non_empty _ m' _ _ _ _ Hsig Ek') as [[? ->]| ->]; split; destruct bl; simpl in *; lia.
  - apply enq_turn_full in E as (-> & ? & ? & Eb); [|done]. destruct bl; [done|].
    rewrite (counts_delete m t _ a b c d 0 0 0 0 Ht Ek eq_refl). split; lia.
  - apply enq_turn_full in E as (-> & ? & ? & Eb); [|done]. destruct bl; [|done].
    pose proof (counts_nonneg (delete t m)) as Hn'.
    rewrite (counts_delete m t _ a b c d 0 0 0 1 Ht Ek eq_refl) in Hn'.
    rewrite (counts_insert m t _ (EnqWaiting e) a b c d 0 0 0 1 0 0 1 0 Ht Ek eq_refl eq_refl). split; lia.
  - rewrite (counts_fresh m t _ a b c d 0 1 0 0) by done. split; lia.
  - apply deq_turn_some in E as (Eq & Em & Es). rewrite Em. rewrite Eq in *. simpl in *.
    pose proof (counts_delete m t _ a b c d 0 1 0 0 Ht Ek eq_refl) as Ek'. destruct sig.
    + destruct (counts_signal_space _ m' _ _ _ _ Hsig Ek') as [[? ->]| ->]; split; lia.
    + subst m'. rewrite Ek'. symmetry in Es. apply andb_false_iff in Es as [Es|Es]; bool_prop; split; lia.
  - apply deq_turn_none in E. rewrite E in *. simpl in *.
    pose proof (counts_nonneg (delete t m)) as Hn'.
    rewrite (counts_delete m t _ a b c d 0 1 0 0 Ht Ek eq_refl) in Hn'.
    rewrite (counts_insert m t _ DeqWaiting a b c d 0 1 0 0 1 0 0 0 Ht Ek eq_refl eq_refl). split; lia.
  - destruct p as [| e | |]; try done; injection E as <-.
    + rewrite (counts_insert m t _ (Enq e true) a b c d 0 0 1 0 0 0 0 1 Ht Ek eq_refl eq_refl). split; lia.
    + rewrite (counts_insert m t _ Deq a b c d 1 0 0 0 0 1 0 0 Ht Ek eq_refl eq_refl). split; lia.
Qed.

Lemma fifo_inv_step limit tr s ev s' : fifo_inv limit tr s -> fstep s ev s' -> fifo_inv limit (tr ++ [ev]) s'.
Proof.
  intros Hi Hs. destruct (fifo_queue_step limit tr s ev s' Hi Hs) as (? & ? & ?).
  pose proof (fifo_wakeup_step limit tr s ev s' Hi Hs). destruct s'. by apply fifo_inv_intro.
Qed.

Lemma fifo_inv_reachable limit tr s : reachable (finit limit) fstep tr s -> fifo_inv limit tr s.
Proof.
  apply reachable_invariant; [|by intros; eapply fifo_inv_step].
  intros ? ->. apply fifo_inv_intro; simpl; [done| |done|].
  - pose proof (u32_range limit). lia.
  - unfold counts. rewrite !map_count_empty. split; lia.
Qed.

(** Whoever waits for what is there has an awake thread ahead of it. *)
Lemma fifo_progress limit tr s : fifo_inv limit tr s ->
  (q_ (fq s) <> [] -> (exists t, pcs s !! t = Some DeqWaiting) -> exists t, pcs s !! t = Some Deq) /\
  (has_room (fq s) = true -> (exists t e, pcs s !! t = Some (EnqWaiting e)) ->
     max_ (fq s) <> 0 -> exists t e, pcs s !! t = Some (Enq e true)).
Proof.
  intros [_ _ _ Hd He]. split.
  - intros Hq (t & Ht). assert (0 < map_count is_deq (pcs s)) as H.
    { pose proof (Hd (map_count_some waits_non_empty _ t _ Ht eq_refl)). destruct (q_ (fq s)); [done|simpl in *; lia]. }
    apply map_count_pos in H as (t' & p & Hp & Hx). destruct p; try done. eauto.
  - intros Hr (t & e & Ht) Hm. assert (0 < map_count is_enq (pcs s)) as H.
    { pose proof (He (map_count_some waits_space _ t _ Ht eq_refl)). unfold has_room in Hr.
      apply orb_true_iff in Hr as [Hr|Hr]; bool_prop; lia. }
    apply map_count_pos in H as (t' & p & Hp & Hx). destruct p as [e' b| | |]; try done. simpl in Hx. subst b. eauto.
Qed.
End invariant.

(** ** What a step does to the calls of other threads *)
Section calls.
Context {T : Type}.

(** The element a thread wants to put in, [None] when it wants one. *)
Definition call_of (x : pc T) : option T :=
  match x with Enq e _ | EnqWaiting e => Some e | Deq | DeqWaiting => None end.
Definition nonblocking (x : pc T) : bool := match x with Enq _ b => negb b | _ => false end.

(** The same call, a turn later. *)
Definition continues (x x' : pc T) : Prop :=
  call_of x' = call_of x /\ (nonblocking x' = true -> nonblocking x = true).

Lemma continues_refl x : continues x x.
Proof. done. Qed.

Lemma awakened_continues x x' : awakened x = Some x' -> continues x x'.
Proof. by destruct x; intros [= <-]. Qed.

Lemma signal_lookup w (m m' : gmap Z (pc T)) t : signal w m m' ->
  (m' !! t = None /\ m !! t = None) \/ (exists x x', m' !! t = Some x' /\ m !! t = Some x /\ continues x x').
Proof.
  intros [_|u x x' Hx _ Ha].
  - destruct (m !! t) eqn:E; [right; eauto using continues_refl|by left].
  - destruct (decide (u = t)) as [-> |Hne].
    + right. exists x, x'. rewrite lookup_insert_eq. auto using awakened_continues.
    + rewrite lookup_insert_ne by done. destruct (m !! t) eqn:E; [right; eauto using continues_refl|by left].
Qed.

(** A step starts a call of its thread, ends it, or leaves all calls going. *)
Definition started (ev : fevent T) : option (Z * pc T) :=
  match ev with FEnqCall t e b => Some (t, Enq e b) | FDeqCall t => Some (t, Deq) | _ => None end.
Definition ended (ev : fevent T) : option Z :=
  match ev with FEnq t _ _ | FDeq t _ => Some t | _ => None end.

Lemma insert_continues (m : gmap Z (pc T)) t x x' u : m !! t = Some x -> continues x x' ->
  (<[t := x']> m !! u = None /\ m !! u = None) \/
  (exists y y', <[t := x']> m !! u = Some y' /\ m !! u = Some y /\ continues y y').
Proof.
  intros Hx Hc. destruct (decide (t = u)) as [-> |Hne].
  - right. exists x, x'. by rewrite lookup_insert_eq.
  - rewrite lookup_insert_ne by done. destruct (m !! u) eqn:E; [right; eauto using continues_refl|by left].
Qed.

Lemma fstep_calls s ev s' u : fstep s ev s' ->
  (exists x, started ev = Some (u, x) /\ pcs s !! u = None /\ pcs s' !! u = Some x) \/
  (ended ev = Some u /\ pcs s' !! u = None /\
     match ev with
     | FEnq _ e r => exists b, pcs s !! u = Some (Enq e b) /\ (b = true -> r = true)
     | _ => pcs s !! u = Some Deq
     end) \/
  (ended ev <> Some u /\ (forall x, started ev <> Some (u, x)) /\
    ((pcs s' !! u = None /\ pcs s !! u = None) \/
     (exists x x', pcs s' !! u = Some x' /\ pcs s !! u = Some x /\ continues x x'))).
Proof.
  assert (forall m : gmap Z (pc T), (m !! u = None /\ m !! u = None) \/
    (exists x x', m !! u = Some x' /\ m !! u = Some x /\ continues x x')) as Hid.
  { intros m. destruct (m !! u) eqn:E; [right; eauto using continues_refl|by left]. }
  intros [f m t e b Ht | f m t e b f' m' Ht E Hsig | f m t e b f' Ht E | f m t e b f' Ht E
    | f m t Ht | f m t e f' sig m' Ht E Hsig | f m t Ht E | f m t x x' Ht E]; simpl.
  - destruct (decide (t = u)) as [-> |Hne].
    + left. exists (Enq e b). by rewrite lookup_insert_eq.
    + right. right. rewrite lookup_insert_ne by done. split_and!; [done|congruence|apply Hid].
  - destruct (decide (t = u)) as [-> |Hne].
    + right. left. split; [done|]. split; [|by exists b].
      destruct (signal_lookup _ _ _ u Hsig) as [[? _]|(x & x' & _ & Hx & _)]; [done|].
      by rewrite lookup_delete_eq in Hx.
    + right. right. split_and!; [congruence|congruence|].
      pose proof (signal_lookup _ _ _ u Hsig) as H. by rewrite lookup_delete_ne in H by done.
  - apply enq_turn_full in E as (_ & _ & _ & Eb); [|done]. destruct b; [done|].
    destruct (decide (t = u)) as [-> |Hne].
    + right. left. rewrite lookup_delete_eq. split_and!; [done|done|]. by exists false.
    + right. right. rewrite lookup_delete_ne by done. split_and!; [congruence|congruence|apply Hid].
  - apply enq_turn_full in E as (_ & _ & _ & Eb); [|done]. destruct b; [|done].
    right. right. split_and!; [done|congruence|]. by eapply insert_continues.
  - destruct (decide (t = u)) as [-> |Hne].
    + left. exists Deq. by rewrite lookup_insert_eq.
    + right. right. rewrite lookup_insert_ne by done. split_and!; [done|congruence|apply Hid].
  - assert (signal waits_space (delete t m) m' \/ m' = delete t m) as Hm by (destruct sig; auto).
    assert ((m' !! u = None /\ delete t m !! u = None) \/
      (exists x x', m' !! u = Some x' /\ delete t m !! u = Some x /\ continues x x')) as H.
    { destruct Hm as [Hm| ->]; [by eapply signal_lookup|apply Hid]. }
    destruct (decide (t = u)) as [-> |Hne].
    + right. left. split_and!; [done| |done].
      destruct H as [[? _]|(x & x' & _ & Hx & _)]; [done|]. by rewrite lookup_delete_eq in Hx.
    + right. right. split_and!; [congruence|congruence|]. by rewrite lookup_delete_ne in H by done.
  - right. right. split_and!; [done|congruence|]. by eapply insert_continues.
  - right. right. split_and!; [done|congruence|]. eapply insert_continues; [done|by apply awakened_continues].
Qed.

Lemma signal_uncounted (w : pc T -> bool) m : map_count w m = 0 -> signal w m m.
Proof.
  intros H. constructor. intros t x Hx. destruct (w x) eqn:E; [|done]. pose proof (map_count_some w m t x Hx E). lia.
Qed.

Lemma signal_exists (w : pc T -> bool) m : (forall x, w x = true -> is_Some (awakened x)) -> exists m', signal w m m'.
Proof.
  intros Hw. destruct (decide (0 < map_count w m)) as [H|H].
  - apply map_count_pos in H as (t & x & Hx & HP). destruct (Hw x HP) as [x' Hx'].
    exists (<[t := x']> m). by econstructor.
  - exists m. apply signal_uncounted. pose proof (map_count_nonneg w m). lia.
Qed.

(** An awake thread can always take its turn. *)
Lemma enq_can_step (s : fsys T) t e b : pcs s !! t = Some (Enq e b) ->
  exists ev s', fstep s ev s' /\ ((exists r, ev = FEnq t e r) \/ ev = FEnqWait t).
Proof.
  destruct s as [f m]. intros Ht. simpl in Ht. destruct (enq_turn f e b) as [f' r] eqn:E. destruct r.
  - destruct (signal_exists waits_non_empty (delete t m)) as [m' Hm']; [by intros []|].
    exists (FEnq t e true), (Fsys f' m'). split; [by eapply fs_enq|eauto].
  - exists (FEnq t e false), (Fsys f' (delete t m)). split; [by eapply fs_full|eauto].
  - exists (FEnqWait t), (Fsys f' (<[t := EnqWaiting e]> m)). split; [by eapply fs_enq_wait|eauto].
Qed.

Lemma deq_can_step (s : fsys T) t : pcs s !! t = Some Deq ->
  exists ev s', fstep s ev s' /\ ((exists e, ev = FDeq t e) \/ ev = FDeqWait t).
Proof.
  destruct s as [f m]. intros Ht. simpl in Ht. destruct (deq_turn f) as [[[e f'] sig]|] eqn:E.
  - assert (exists m', if sig then signal waits_space (delete t m) m' else m' = delete t m) as [m' Hm'].
    { destruct sig; [|eauto]. apply signal_exists. by intros []. }
    exists (FDeq t e), (Fsys f' m'). split; [by eapply fs_deq|eauto].
  - exists (FDeqWait t), (Fsys f (<[t := DeqWaiting]> m)). split; [by apply fs_deq_wait|eauto].
Qed.
End calls.

(** ** The guarantees of the queue *)

(** C38: the queue is bounded, first in first out, and loses no wake-up: whatever
    threads put in and take out, with waits that may end at any time, there are
    never more elements than the limit, elements come out in the order they went
    in, and while an element (or room) is there and a thread waits for one,
    another is awake to take it. *)
Theorem fifo_correct {T} limit tr (s : fsys T) :
  reachable (finit limit) fstep tr s ->
  (u32 limit = 0 \/ Z.of_nat (length (q_ (fq s))) <= u32 limit) /\
  enqueued tr = dequeued tr ++ q_ (fq s) /\
  (q_ (fq s) <> [] -> (exists t, pcs s !! t = Some DeqWaiting) -> exists t, pcs s !! t = Some Deq) /\
  (Z.of_nat (length (q_ (fq s))) < u32 limit -> (exists t e, pcs s !! t = Some (EnqWaiting e)) ->
     exists t e, pcs s !! t = Some (Enq e true)).
Proof.
  intros Hi%fifo_inv_reachable. destruct (fifo_progress limit tr s Hi) as [Hd He].
  pose proof (fi_bound _ _ _ Hi) as Hb. rewrite (fi_max _ _ _ Hi) in Hb, He.
  split_and!; [done|by eapply fi_order|done|]. intros Hl Hw. apply He; [|done|lia].
  unfold has_room. rewrite (fi_max _ _ _ Hi). apply orb_true_iff. right. by apply Z.ltb_lt.
Qed.

(** ** A concrete run: a taker waits on a queue of one; the next element wakes it *)
Module FifoExample.
Definition m1 : gmap Z (pc Z) := <[1 := Deq]> ∅.
Definition m2 : gmap Z (pc Z) := <[1 := DeqWaiting]> m1.
Definition m3 : gmap Z (pc Z) := <[2 := Enq 7 true]> m2.
Definition m4 : gmap Z (pc Z) := <[1 := Deq]> (delete 2 m3).
Definition f0 : fifo Z := fifo_new 1.

Lemma queue_run :
  reachable (finit 1) fstep [FDeqCall 1; FDeqWait 1; FEnqCall 2 7 true; FEnq 2 7 true] (Fsys (Fifo [7] 1) m4).
Proof.
  apply (reach_step _ _ [FDeqCall 1; FDeqWait 1; FEnqCall 2 7 true] (Fsys f0 m3));
    [apply (reach_step _ _ [FDeqCall 1; FDeqWait 1] (Fsys f0 m2));
     [apply (reach_step _ _ [FDeqCall 1] (Fsys f0 m1)); [apply (reach_step _ _ [] (Fsys f0 ∅)); [by constructor|]|]|]|].
  - by apply (fs_deq_call f0 ∅ 1).
  - by apply (fs_deq_wait f0 m1 1).
  - by apply (fs_enq_call f0 m2 2 7 true).
  - apply (fs_enq f0 m3 2 7 true); [done|done|]. by apply (signal_one waits_non_empty (delete 2 m3) 1 DeqWaiting Deq).
Qed.

(** C38, witness. *)
Lemma fifo_correct_witness :
  (u32 1 = 0 \/ Z.of_nat (length [7]) <= u32 1) /\
  ((exists t, m4 !! t = Some DeqWaiting) -> exists t, m4 !! t = Some Deq).
Proof.
  destruct (fifo_correct 1 _ _ queue_run) as (Hb & _ & Hd & _). split; [exact Hb|]. apply Hd. discriminate.
Defined.
End FifoExample.
