(* ===== verification/ThrPool.v ===== *)
(** * The thread pool: [rpc/thr_pool.cc]

    Workers take jobs from a bounded queue; a job without a function is the
    order to exit, and the destructor sends one to each worker.  The pool is a
    step relation over the threads that use the queue ([Fifo]): workers, threads
    that add jobs, and the thread that runs the destructor, which by the contract
    of the class starts when no other thread uses the pool any more. *)

From S2P Require Import Prelude Fifo.

(** ** class ThrPool *)

(** [job_t]: a function pointer, [None] for [NULL], and its argument. *)
Record job_t := Job { jf : option Z; ja : Z }.
#[export] Instance job_eq_dec : EqDecision job_t.
Proof. solve_decision. Defined.

Record ThrPool := Pool { nthreads_ : Z; blockadd_ : bool; jobq_ : fifo job_t; th_ : list Z }.

(** The constructor; [tids] are the threads [pthread_create] makes. *)
Definition ThrPool_new (sz : Z) (blocking : bool) (tids : list Z) : res ThrPool :=
  limit ← int_chk (100 * sz);
  Ret (Pool sz blocking (fifo_new limit) tids).

(** [addObjJob] makes a job of a method call: [x] is the call, [wrapper] the
    function that makes it. *)
Definition obj_job (wrapper x : Z) : job_t := Job (Some wrapper) x.

(** [addJob] is the call [enq(j, blockadd_)] of thread [t]; [takeJob] is [deq], and
    tells whether there is a function to call. *)
Definition addJob (p : ThrPool) (t : Z) (j : job_t) : fevent job_t := FEnqCall t j (blockadd_ p).
Definition takeJob (j : job_t) : bool := negb (bool_decide (jf j = None)).

(** The poison pill of the destructor; its argument is not initialised. *)
Definition pill (junk : Z) : job_t := Job None junk.

(** ** Workers, and everybody else *)

(** Where a worker is in [do_worker]. *)
Inductive worker := Looping | Taking | Running (j : job_t) | Exited.
#[export] Instance worker_eq_dec : EqDecision worker.
Proof. solve_decision. Defined.

(** What a worker does with what [takeJob] gave it. *)
Definition do_worker (j : job_t) : worker := if takeJob j then Running j else Exited.

(** The destructor: not started, [n] pills still to send, done. *)
Inductive dtor_t := Live | Pills (d : Z) (n : nat) | Joined.

Record psys := Psys { pq : fsys job_t; workers : gmap Z worker; dtor : dtor_t }.

Inductive pevent :=
  | PQueue (ev : fevent job_t)
  | PRan (t : Z) (j : job_t)
  | PDestroy (d : Z)
  | PJoin.

(** Steps of a thread inside a call of [enq] or [deq] that does not end in taking
    a job. *)
Definition inside (ev : fevent job_t) : bool :=
  match ev with FEnq _ _ _ | FEnqWait _ | FDeqWait _ | FSpurious _ => true | _ => false end.

Section pool.
Context (p : ThrPool) (junk : Z).

Inductive pstep : psys -> pevent -> psys -> Prop :=
  | ps_add q w t j q' : w !! t = None -> jf j <> None -> fstep q (addJob p t j) q' ->
      pstep (Psys q w Live) (PQueue (addJob p t j)) (Psys q' w Live)
  | ps_inside q w d ev q' : inside ev = true -> fstep q ev q' ->
      pstep (Psys q w d) (PQueue ev) (Psys q' w d)
  | ps_take q w d t q' : w !! t = Some Looping -> fstep q (FDeqCall t) q' ->
      pstep (Psys q w d) (PQueue (FDeqCall t)) (Psys q' (<[t := Taking]> w) d)
  | ps_took q w d t j q' : w !! t = Some Taking -> fstep q (FDeq t j) q' ->
      pstep (Psys q w d) (PQueue (FDeq t j)) (Psys q' (<[t := do_worker j]> w) d)
  | ps_ran q w d t j : w !! t = Some (Running j) ->
      pstep (Psys q w d) (PRan t j) (Psys q (<[t := Looping]> w) d)
  | ps_destroy q w d : w !! d = None -> (forall t, is_Some (pcs q !! t) -> is_Some (w !! t)) ->
      pstep (Psys q w Live) (PDestroy d) (Psys q w (Pills d (Z.to_nat (nthreads_ p))))
  | ps_pill q w d n q' : fstep q (FEnqCall d (pill junk) true) q' ->
      pstep (Psys q w (Pills d (S n))) (PQueue (FEnqCall d (pill junk) true)) (Psys q' w (Pills d n))
  | ps_join q w d : pcs q !! d = None -> (forall t x, w !! t = Some x -> x = Exited) ->
      pstep (Psys q w (Pills d 0)) PJoin (Psys q w Joined).

Definition pinit (s : psys) : Prop :=
  s = Psys (Fsys (jobq_ p) ∅) (list_to_map ((fun t => (t, Looping)) <$> th_ p)) Live.

(** A pool as the constructor makes it. *)
Definition pool_ok : Prop :=
  NoDup (th_ p) /\ Z.of_nat (length (th_ p)) = nthreads_ p /\ 0 < nthreads_ p /\
  ThrPool_new (nthreads_ p) (blockadd_ p) (th_ p) = Ret p.
End pool.

(** ** What happened *)
Definition queue_events (tr : list pevent) : list (fevent job_t) :=
  omap (fun e => match e with PQueue ev => Some ev | _ => None end) tr.

(** The jobs that were run, and those that were added: what [addJob] answered
    [true] to. *)
Definition ran (tr : list pevent) : list job_t :=
  omap (fun e => match e with PRan _ j => Some j | _ => None end) tr.
Definition added (tr : list pevent) : list job_t := filter (fun j => jf j <> None) (enqueued (queue_events tr)).
