(* ===== verification/ThrPoolThms.v ===== *)
(** * The thread pool: every job is run exactly once, and the pool shuts down *)

From S2P Require Import Prelude Fifo FifoSpec ThrPool.
From Stdlib Require Import Permutation.

Definition null (j : job_t) : bool := bool_decide (jf j = None).
Definition nulls (l : list job_t) : Z := Z.of_nat (length (filter (fun j => null j = true) l)).

Lemma nulls_app l l' : nulls (l ++ l') = nulls l + nulls l'.
Proof. unfold nulls. rewrite filter_app, length_app. lia. Qed.

Lemma nulls_nonneg l : 0 <= nulls l.
Proof. unfold nulls. lia. Qed.

Lemma nulls_jobs l : Forall (fun j => jf j <> None) l -> nulls l = 0.
Proof.
  unfold nulls. induction 1 as [|j l Hj _ IH]; [done|]. rewrite filter_cons_False; [done|].
  unfold null. by case_bool_decide.
Qed.

Lemma nulls_pills k junk : nulls (replicate k (pill junk)) = Z.of_nat k.
Proof.
  unfold nulls. induction k as [|k IH]; [done|]. cbn [replicate]. rewrite filter_cons_True by done. cbn [length]. lia.
Qed.

(** A queue behind all the pills is empty. *)
Lemma behind_pills jobs k junk out q :
  Forall (fun j => jf j <> None) jobs -> (0 < k)%nat -> jobs ++ replicate k (pill junk) = out ++ q ->
  Z.of_nat k <= nulls out -> q = [].
Proof.
  intros Hj Hk E Ho. destruct q as [|x q _] using rev_ind; [done|]. exfalso.
  pose proof (f_equal nulls E) as En. rewrite !nulls_app, (nulls_jobs jobs Hj), nulls_pills in En.
  destruct k as [|k]; [lia|]. rewrite replicate_S_end, !app_assoc in E. apply app_inj_tail in E as [_ <-].
  pose proof (nulls_nonneg q). change (nulls [pill junk]) with 1 in En. lia.
Qed.

(** ** The invariant *)
Section invariant.
Context (p : ThrPool) (junk : Z).

Definition is_exited (x : worker) : bool := bool_decide (x = Exited).
Definition is_running (j : job_t) (x : worker) : bool := bool_decide (x = Running j).

(** Is the destructor inside a call of [enq]? *)
Definition sending (m : gmap Z (pc job_t)) (d : Z) : nat := match m !! d with Some _ => 1 | None => 0 end.

(** Where a thread may be, given who it is. *)
Definition place_ok (w : gmap Z worker) (dt : dtor_t) (t : Z) (x : pc job_t) : Prop :=
  match x with
  | Deq | DeqWaiting => w !! t = Some Taking
  | Enq e _ | EnqWaiting e =>
      w !! t = None /\
      match dt with
      | Live => jf e <> None
      | Pills d _ => t = d /\ nonblocking x = false /\ e = pill junk
      | Joined => False
      end
  end.

Record pool_inv (tr : list pevent) (s : psys) : Prop := {
  pi_fifo : fifo_inv (100 * nthreads_ p) (queue_events tr) (pq s);
  pi_jobs : exists jobs k, enqueued (queue_events tr) = jobs ++ replicate k (pill junk) /\
    Forall (fun j => jf j <> None) jobs /\
    match dtor s with
    | Live => k = 0%nat
    | Pills d l => (k + l + sending (pcs (pq s)) d)%nat = Z.to_nat (nthreads_ p)
    | Joined => k = Z.to_nat (nthreads_ p)
    end;
  pi_place : forall t x, pcs (pq s) !! t = Some x -> place_ok (workers s) (dtor s) t x;
  pi_taking : forall t, workers s !! t = Some Taking -> pcs (pq s) !! t = Some Deq \/ pcs (pq s) !! t = Some DeqWaiting;
  pi_exited : map_count is_exited (workers s) = nulls (dequeued (queue_events tr));
  pi_ran : forall j, jf j <> None ->
    Z.of_nat (count_occ job_eq_dec (ran tr) j) + map_count (is_running j) (workers s) =
    Z.of_nat (count_occ job_eq_dec (dequeued (queue_events tr)) j);
  pi_size : Z.of_nat (base.size (workers s)) = nthreads_ p;
  pi_dtor : forall d l, dtor s = Pills d l -> workers s !! d = None;
  pi_joined : dtor s = Joined -> forall t x, workers s !! t = Some x -> x = Exited }.

Lemma place_continues w dt t x x' : place_ok w dt t x -> continues x x' -> place_ok w dt t x'.
Proof.
  intros H [Hc Hn]. destruct x as [e b|e| |], x' as [e' b'|e'| |]; simpl in *; try done; injection Hc as ->;
    destruct dt; try done; destruct H as (? & -> & Hx & ->); split_and!; try done;
    destruct b'; simpl in *; try done; specialize (Hn eq_refl); congruence.
Qed.

Lemma queue_events_snoc tr ev : queue_events (tr ++ [PQueue ev]) = queue_events tr ++ [ev].
Proof. unfold queue_events. by rewrite omap_app. Qed.

Lemma dequeued_snoc (tr : list (fevent job_t)) ev :
  dequeued (tr ++ [ev]) = dequeued tr ++ match ev with FDeq _ e => [e] | _ => [] end.
Proof. unfold dequeued. rewrite omap_app. by destruct ev. Qed.

Lemma enqueued_snoc (tr : list (fevent job_t)) ev :
  enqueued (tr ++ [ev]) = enqueued tr ++ match ev with FEnq _ e true => [e] | _ => [] end.
Proof. unfold enqueued. rewrite omap_app. destruct ev as [|t e []| | | | |]; done. Qed.

Lemma ran_snoc tr ev : ran (tr ++ [ev]) = ran tr ++ match ev with PRan _ j => [j] | _ => [] end.
Proof. unfold ran. rewrite omap_app. by destruct ev. Qed.

(** A step inside a call keeps every thread in the call it is in. *)
Lemma inside_place tr s ev q' : pool_inv tr s -> inside ev = true -> fstep (pq s) ev q' ->
  (forall t x, pcs q' !! t = Some x -> place_ok (workers s) (dtor s) t x) /\
  (forall t, workers s !! t = Some Taking -> pcs q' !! t = Some Deq \/ pcs q' !! t = Some DeqWaiting).
Proof.
  intros Hi Hin Hs. split.
  - intros t x' Hx. destruct (fstep_calls _ _ _ t Hs) as [(x & E & _)|[(E & Hn & _)|(_ & _ & [[Hn _]|(x & y & Hy & Hx' & Hc)])]];
      [by destruct ev|congruence|congruence|].
    rewrite Hx in Hy. injection Hy as <-. eapply place_continues; [by eapply (pi_place _ _ Hi)|done].
  - intros t Ht. destruct (pi_taking _ _ Hi t Ht) as [E|E];
      destruct (fstep_calls _ _ _ t Hs) as [(x & _ & Hn & _)|[(Ee & _ & Hn)|(_ & _ & [[_ Hn]|(x & y & Hy & Hx & Hc)])]];
      try congruence; try (destruct ev; try done; destruct Hn as (b & Hn & _); congruence);
      rewrite E in Hx; injection Hx as <-; destruct Hc as [Hc _]; rewrite Hy; destruct y; simpl in Hc; auto; done.
Qed.

(** What a step inside a call of [enq] adds to the queue. *)
Lemma inside_jobs tr s ev q' : pool_inv tr s -> inside ev = true -> fstep (pq s) ev q' ->
  exists jobs k, enqueued (queue_events tr ++ [ev]) = jobs ++ replicate k (pill junk) /\
    Forall (fun j => jf j <> None) jobs /\
    match dtor s with
    | Live => k = 0%nat
    | Pills d l => (k + l + sending (pcs q') d)%nat = Z.to_nat (nthreads_ p)
    | Joined => k = Z.to_nat (nthreads_ p)
    end.
Proof.
  intros Hi Hin Hs. destruct (pi_jobs _ _ Hi) as (jobs & k & E & Hj & Hd). rewrite enqueued_snoc, E.
  destruct (match ev with FEnq t e r => Some (t, e, r) | _ => None end) as [[[t e] r]|] eqn:Eev.
  - destruct ev; try done. injection Eev as -> -> ->.
    destruct (fstep_calls _ _ _ t Hs) as [(x & Ex & _)|[(_ & Hn & b & Hb & Hbr)|(Hne & _)]]; [done| |done].
    pose proof (pi_place _ _ Hi t _ Hb) as [_ Hp]. destruct (dtor s) as [|d l|]; [| |done].
    + subst k. exists (jobs ++ if r then [e] else []), 0%nat. cbn [replicate]. rewrite !app_nil_r.
      split_and!; [done| |done]. apply Forall_app. split; [done|]. destruct r; [by apply Forall_singleton|done].
    + destruct Hp as (-> & Hb' & ->). destruct b; [|done]. rewrite (Hbr eq_refl). exists jobs, (S k).
      rewrite replicate_S_end, app_assoc. unfold sending in *. rewrite Hb in Hd. rewrite Hn. split_and!; [done|done|lia].
  - exists jobs, k. replace (match ev with FEnq _ e true => [e] | _ => [] end) with (@nil job_t) by (by destruct ev).
    rewrite app_nil_r. split_and!; [done|done|]. destruct (dtor s) as [|d l|]; [done| |done].
    unfold sending in *.
    destruct (fstep_calls _ _ _ d Hs) as [(x & Ex & _)|[(Ee & _)|(_ & _ & [[-> H]|(x & x' & -> & H & _)])]];
      [by destruct ev|by destruct ev|by rewrite H in Hd|by rewrite H in Hd].
Qed.

(** Starting a call changes nothing for the other threads. *)
Lemma call_place tr s ev u x q' : pool_inv tr s -> started ev = Some (u, x) -> ended ev = None -> fstep (pq s) ev q' ->
  pcs (pq s) !! u = None /\ pcs q' !! u = Some x /\
  (forall t, t <> u -> pcs q' !! t = None <-> pcs (pq s) !! t = None) /\
  (forall t y, t <> u -> pcs q' !! t = Some y -> place_ok (workers s) (dtor s) t y) /\
  (forall t, t <> u -> workers s !! t = Some Taking -> pcs q' !! t = Some Deq \/ pcs q' !! t = Some DeqWaiting).
Proof.
  intros Hi Hst Hen Hs.
  assert (forall t, t <> u -> (pcs q' !! t = None /\ pcs (pq s) !! t = None) \/
    (exists y y', pcs q' !! t = Some y' /\ pcs (pq s) !! t = Some y /\ continues y y')) as Ho.
  { intros t Ht. destruct (fstep_calls _ _ _ t Hs) as [(y & E & _)|[(E & _)|(_ & _ & H)]]; [congruence|congruence|done]. }
  assert (pcs (pq s) !! u = None /\ pcs q' !! u = Some x) as [Hu Hu'].
  { destruct (fstep_calls _ _ _ u Hs) as [(y & E & H)|[(E & _)|(_ & H & _)]]; [|congruence|by destruct (H x)].
    rewrite Hst in E. by injection E as <-. }
  split_and!; [done|done| | |].
  - intros t Ht. destruct (Ho t Ht) as [[-> ->]|(y & y' & -> & -> & _)]; [done|by split].
  - intros t y Ht Hy. destruct (Ho t Ht) as [[? _]|(z & z' & Hz & Hz' & Hc)]; [congruence|].
    rewrite Hy in Hz. injection Hz as <-. eapply place_continues; [by eapply (pi_place _ _ Hi)|done].
  - intros t Ht Hw. destruct (Ho t Ht) as [[_ ?]|(z & z' & -> & Hz & Hc)];
      [destruct (pi_taking _ _ Hi t Hw); congruence|].
    destruct (pi_taking _ _ Hi t Hw) as [E|E]; rewrite E in Hz; injection Hz as <-; destruct Hc as [Hc _];
      destruct z'; simpl in Hc; auto; done.
Qed.

Lemma inv_add tr q w t j q' : pool_inv tr (Psys q w Live) -> w !! t = None -> jf j <> None ->
  fstep q (addJob p t j) q' -> pool_inv (tr ++ [PQueue (addJob p t j)]) (Psys q' w Live).
Proof.
  intros Hi Hw Hj Hs.
  destruct (call_place tr _ (addJob p t j) t (Enq j (blockadd_ p)) q' Hi eq_refl eq_refl Hs) as (_ & Hu & _ & Hp & Ht).
  destruct Hi as [Hf (jobs & k & Ej & Hjo & Hd) _ _ Hx Hr Hsz _ _]. simpl in *.
  constructor; simpl; rewrite ?queue_events_snoc, ?enqueued_snoc, ?dequeued_snoc, ?ran_snoc, ?app_nil_r; try done.
  - by eapply fifo_inv_step.
  - by exists jobs, k.
  - intros u x Hx'. destruct (decide (u = t)) as [-> |Hne]; [|by eapply Hp]. rewrite Hu in Hx'. by injection Hx' as <-.
  - intros u Hu'. destruct (decide (u = t)) as [-> |Hne]; [congruence|by eapply Ht].
Qed.

Lemma inv_inside tr q w d ev q' : pool_inv tr (Psys q w d) -> inside ev = true -> fstep q ev q' ->
  pool_inv (tr ++ [PQueue ev]) (Psys q' w d).
Proof.
  intros Hi Hin Hs. destruct (inside_place tr _ ev q' Hi Hin Hs) as [Hp Ht].
  pose proof (inside_jobs tr _ ev q' Hi Hin Hs) as Hj.
  assert (dequeued (queue_events tr ++ [ev]) = dequeued (queue_events tr)) as Hdq.
  { rewrite dequeued_snoc. destruct ev; try done; by rewrite app_nil_r. }
  destruct Hi as [Hf _ _ _ Hx Hr Hsz Hdt Hjn]. simpl in *.
  constructor; simpl; rewrite ?queue_events_snoc, ?Hdq, ?ran_snoc, ?app_nil_r; try done.
  by eapply fifo_inv_step.
Qed.

Lemma inv_take tr q w d t q' : pool_inv tr (Psys q w d) -> w !! t = Some Looping -> fstep q (FDeqCall t) q' ->
  pool_inv (tr ++ [PQueue (FDeqCall t)]) (Psys q' (<[t := Taking]> w) d).
Proof.
  intros Hi Hw Hs.
  destruct (call_place tr _ (FDeqCall t) t Deq q' Hi eq_refl eq_refl Hs) as (Hn & Hu & Hsame & Hp & Ht).
  destruct Hi as [Hf (jobs & k & Ej & Hjo & Hd) _ _ Hx Hr Hsz Hdt Hjn]. simpl in *.
  constructor; simpl; rewrite ?queue_events_snoc, ?enqueued_snoc, ?dequeued_snoc, ?ran_snoc, ?app_nil_r.
  - by eapply fifo_inv_step.
  - exists jobs, k. split_and!; [done|done|]. destruct d as [|d l|]; [done| |done]. unfold sending in *.
    destruct (decide (d = t)) as [-> |Hne]; [by rewrite (Hdt t l eq_refl) in Hw|].
    specialize (Hsame d Hne).
    destruct (pcs q !! d), (pcs q' !! d); [done|discriminate (proj1 Hsame eq_refl)|discriminate (proj2 Hsame eq_refl)|done].
  - intros u x Hx'. destruct (decide (u = t)) as [-> |Hne].
    + rewrite Hu in Hx'. injection Hx' as <-. simpl. by rewrite lookup_insert_eq.
    + specialize (Hp u x Hne Hx'). destruct x; simpl in *; by rewrite lookup_insert_ne.
  - intros u Hu'. destruct (decide (u = t)) as [-> |Hne]; [by left|]. rewrite lookup_insert_ne in Hu' by done. by eapply Ht.
  - by rewrite (map_count_insert _ _ _ _ _ Hw).
  - intros j Hj. rewrite (map_count_insert _ _ _ _ _ Hw), <- Hr by done. unfold is_running. rewrite !bool_decide_eq_false_2 by done. simpl. lia.
  - by rewrite map_size_insert_Some by done.
  - intros d' l ->. rewrite lookup_insert_ne; [by eapply Hdt|]. intros <-. by rewrite (Hdt t l eq_refl) in Hw.
  - intros ->. by specialize (Hjn eq_refl _ _ Hw).
Qed.

Lemma count_occ_snoc (l : list job_t) x j :
  Z.of_nat (count_occ job_eq_dec (l ++ [x]) j) = Z.of_nat (count_occ job_eq_dec l j) + Z.b2z (bool_decide (x = j)).
Proof.
  rewrite count_occ_app. simpl. destruct (job_eq_dec x j) as [E|E]; [rewrite bool_decide_eq_true_2 by done|
    rewrite bool_decide_eq_false_2 by done]; simpl; lia.
Qed.

Lemma took_place tr q w d t j q' : pool_inv tr (Psys q w d) -> w !! t = Some Taking -> fstep q (FDeq t j) q' ->
  (forall u, u <> t -> (pcs q' !! u = None /\ pcs q !! u = None) \/
    (exists y y', pcs q' !! u = Some y' /\ pcs q !! u = Some y /\ continues y y')) /\ pcs q' !! t = None.
Proof.
  intros Hi Hw Hs. split.
  - intros u Hu. destruct (fstep_calls _ _ _ u Hs) as [(y & E & _)|[(E & _)|(_ & _ & H)]]; [done| |done].
    simpl in E. congruence.
  - destruct (fstep_calls _ _ _ t Hs) as [(y & E & _)|[(_ & Hn & _)|(H & _)]]; done.
Qed.

Lemma inv_took tr q w d t j q' : pool_inv tr (Psys q w d) -> w !! t = Some Taking -> fstep q (FDeq t j) q' ->
  pool_inv (tr ++ [PQueue (FDeq t j)]) (Psys q' (<[t := do_worker j]> w) d).
Proof.
  intros Hi Hw Hs. destruct (took_place tr q w d t j q' Hi Hw Hs) as [Ho Hn].
  destruct Hi as [Hf (jobs & k & Ej & Hjo & Hd) Hpl Htk Hx Hr Hsz Hdt Hjn]. simpl in *.
  constructor; simpl; rewrite ?queue_events_snoc, ?enqueued_snoc, ?dequeued_snoc, ?ran_snoc, ?app_nil_r.
  - by eapply fifo_inv_step.
  - exists jobs, k. split_and!; [done|done|]. destruct d as [|d l|]; [done| |done]. unfold sending in *.
    destruct (decide (d = t)) as [-> |Hne]; [by rewrite (Hdt t l eq_refl) in Hw|].
    destruct (Ho d Hne) as [[-> H]|(y & y' & -> & H & _)]; by rewrite H in Hd.
  - intros u x Hx'. destruct (decide (u = t)) as [-> |Hne]; [congruence|].
    destruct (Ho u Hne) as [[? _]|(y & y' & Hy & Hy' & Hc)]; [congruence|].
    rewrite Hx' in Hy. injection Hy as <-. pose proof (place_continues _ _ _ _ _ (Hpl u y Hy') Hc) as Hp.
    destruct x; simpl in *; by rewrite lookup_insert_ne.
  - intros u Hu'. destruct (decide (u = t)) as [-> |Hne].
    { rewrite lookup_insert_eq in Hu'. unfold do_worker in Hu'. by destruct (takeJob j). }
    rewrite lookup_insert_ne in Hu' by done.
    destruct (Ho u Hne) as [[_ H]|(y & y' & -> & Hy & Hc)]; [destruct (Htk u Hu'); congruence|].
    destruct Hc as [Hc _]. destruct (Htk u Hu') as [E|E]; rewrite E in Hy; injection Hy as <-; destruct y'; auto; done.
  - rewrite (map_count_insert _ _ _ _ _ Hw), nulls_app, Hx. unfold do_worker, takeJob, nulls, null.
    destruct (decide (jf j = None)) as [E|E];
      [rewrite bool_decide_eq_true_2, filter_cons_True by (done || by apply bool_decide_eq_true)|
       rewrite bool_decide_eq_false_2, filter_cons_False by (done || by rewrite bool_decide_eq_true)]; simpl; lia.
  - intros i Hi. rewrite (map_count_insert _ _ _ _ _ Hw), count_occ_snoc, <- (Hr i Hi). unfold do_worker, takeJob, is_running.
    destruct (decide (jf j = None)) as [E|E].
    + rewrite (bool_decide_eq_true_2 (jf j = None)) by done. simpl.
      rewrite (bool_decide_eq_false_2 (j = i)) by congruence. simpl. lia.
    + rewrite (bool_decide_eq_false_2 (jf j = None)) by done. simpl.
      destruct (decide (j = i)) as [-> |Hne]; [rewrite !bool_decide_eq_true_2 by done|
        rewrite !(bool_decide_eq_false_2 _) by congruence]; simpl; lia.
  - by rewrite map_size_insert_Some by done.
  - intros d' l ->. rewrite lookup_insert_ne; [by eapply Hdt|]. intros <-. by rewrite (Hdt t l eq_refl) in Hw.
  - intros ->. by specialize (Hjn eq_refl _ _ Hw).
Qed.

Lemma inv_ran tr q w d t j : pool_inv tr (Psys q w d) -> w !! t = Some (Running j) ->
  pool_inv (tr ++ [PRan t j]) (Psys q (<[t := Looping]> w) d).
Proof.
  intros [Hf Hj Hpl Htk Hx Hr Hsz Hdt Hjn] Hw. simpl in *.
  assert (queue_events (tr ++ [PRan t j]) = queue_events tr) as Eq.
  { unfold queue_events. by rewrite omap_app, app_nil_r. }
  constructor; simpl; rewrite ?Eq, ?ran_snoc; try done.
  - intros u x Hx'. specialize (Hpl u x Hx'). destruct (decide (u = t)) as [-> |Hne].
    { destruct x; simpl in Hpl; rewrite Hw in Hpl; first [discriminate Hpl|discriminate (proj1 Hpl)]. }
    destruct x; simpl in *; by rewrite lookup_insert_ne.
  - intros u Hu. apply Htk. destruct (decide (u = t)) as [-> |Hne]; [by rewrite lookup_insert_eq in Hu|].
    by rewrite lookup_insert_ne in Hu.
  - by rewrite (map_count_insert _ _ _ _ _ Hw).
  - intros i Hi. rewrite (map_count_insert _ _ _ _ _ Hw), count_occ_snoc, <- (Hr i Hi). unfold is_running.
    rewrite (bool_decide_eq_false_2 (Looping = _)) by done.
    destruct (decide (j = i)) as [-> |Hne]; [rewrite !bool_decide_eq_true_2 by done|
      rewrite !(bool_decide_eq_false_2 _) by congruence]; simpl; lia.
  - by rewrite map_size_insert_Some by done.
  - intros d' l ->. rewrite lookup_insert_ne; [by eapply Hdt|]. intros <-. by rewrite (Hdt t l eq_refl) in Hw.
  - intros ->. by specialize (Hjn eq_refl _ _ Hw).
Qed.

Lemma inv_destroy tr q w d : pool_inv tr (Psys q w Live) -> w !! d = None ->
  (forall t, is_Some (pcs q !! t) -> is_Some (w !! t)) ->
  pool_inv (tr ++ [PDestroy d]) (Psys q w (Pills d (Z.to_nat (nthreads_ p)))).
Proof.
  intros [Hf (jobs & k & Ej & Hjo & Hd) Hpl Htk Hx Hr Hsz _ _] Hw Hall. simpl in *.
  assert (queue_events (tr ++ [PDestroy d]) = queue_events tr) as Eq.
  { unfold queue_events. by rewrite omap_app, app_nil_r. }
  assert (pcs q !! d = None) as Hnd.
  { destruct (pcs q !! d) eqn:E; [|done]. destruct (Hall d) as [? ?]; [by rewrite E|congruence]. }
  constructor; simpl; rewrite ?Eq, ?ran_snoc, ?app_nil_r; try done.
  - exists jobs, k. split_and!; [done|done|]. unfold sending. rewrite Hnd. lia.
  - intros t x Ht. specialize (Hpl t x Ht). destruct (Hall t) as [y Hy]; [by rewrite Ht|].
    destruct x; simpl in *; try done; destruct Hpl; congruence.
  - intros d' l [= -> _]. done.
Qed.

Lemma inv_pill tr q w d n q' : pool_inv tr (Psys q w (Pills d (S n))) -> fstep q (FEnqCall d (pill junk) true) q' ->
  pool_inv (tr ++ [PQueue (FEnqCall d (pill junk) true)]) (Psys q' w (Pills d n)).
Proof.
  intros Hi Hs.
  destruct (call_place tr _ (FEnqCall d (pill junk) true) d (Enq (pill junk) true) q' Hi eq_refl eq_refl Hs)
    as (Hn & Hu & _ & Hp & Ht).
  destruct Hi as [Hf (jobs & k & Ej & Hjo & Hd) _ _ Hx Hr Hsz Hdt _]. simpl in *.
  constructor; simpl; rewrite ?queue_events_snoc, ?enqueued_snoc, ?dequeued_snoc, ?ran_snoc, ?app_nil_r; try done.
  - by eapply fifo_inv_step.
  - exists jobs, k. split_and!; [done|done|]. unfold sending in *. rewrite Hn in Hd. rewrite Hu. lia.
  - intros t x Hx'. destruct (decide (t = d)) as [-> |Hne].
    + rewrite Hu in Hx'. injection Hx' as <-. simpl. by split; [eapply Hdt|].
    + specialize (Hp t x Hne Hx'). destruct x; simpl in *; try done; by destruct Hp as (_ & ? & _).
  - intros t Hw. destruct (decide (t = d)) as [-> |Hne]; [by rewrite (Hdt d (S n) eq_refl) in Hw|by eapply Ht].
  - intros d' l [= -> _]. by eapply Hdt.
Qed.

Lemma inv_join tr q w d : pool_inv tr (Psys q w (Pills d 0)) -> pcs q !! d = None ->
  (forall t x, w !! t = Some x -> x = Exited) -> pool_inv (tr ++ [PJoin]) (Psys q w Joined).
Proof.
  intros [Hf (jobs & k & Ej & Hjo & Hd) Hpl Htk Hx Hr Hsz Hdt _] Hn Hall. simpl in *.
  assert (queue_events (tr ++ [PJoin]) = queue_events tr) as Eq.
  { unfold queue_events. by rewrite omap_app, app_nil_r. }
  constructor; simpl; rewrite ?Eq, ?ran_snoc, ?app_nil_r; try done.
  - exists jobs, k. split_and!; [done|done|]. unfold sending in Hd. rewrite Hn in Hd. lia.
  - intros t x Ht. specialize (Hpl t x Ht). destruct x; simpl in *; try done; destruct Hpl as (_ & -> & _); congruence.
Qed.

Lemma pool_inv_step tr s ev s' : pool_inv tr s -> pstep p junk s ev s' -> pool_inv (tr ++ [ev]) s'.
Proof.
  intros Hi Hs. destruct Hs; eauto using inv_add, inv_inside, inv_take, inv_took, inv_ran, inv_destroy, inv_pill, inv_join.
Qed.

Lemma workers_lookup l t x : (list_to_map ((fun t => (t, Looping)) <$> l) : gmap Z worker) !! t = Some x -> x = Looping.
Proof.
  intros H. apply elem_of_list_to_map_2, list_elem_of_fmap in H as (y & E & _). by injection E as _ ->.
Qed.

Lemma workers_size l : NoDup l -> base.size (list_to_map ((fun t => (t, Looping)) <$> l) : gmap Z worker) = length l.
Proof.
  induction 1 as [|t l Ht _ IH]; [done|].
  rewrite fmap_cons, list_to_map_cons, map_size_insert_None, IH; [done|].
  apply not_elem_of_list_to_map_1. rewrite <- list_fmap_compose. intros (y & -> & Hy)%list_elem_of_fmap. done.
Qed.

Lemma pool_inv_reachable tr s : pool_ok p -> reachable (pinit p) (pstep p junk) tr s -> pool_inv tr s.
Proof.
  intros (Hnd & Hlen & Hpos & Hnew). apply reachable_invariant; [|by intros; eapply pool_inv_step].
  unfold ThrPool_new in Hnew. res_inv. unfold int_chk in E. case_bool_decide; [|done]. injection E as <-.
  intros ? ->. assert (jobq_ p = fifo_new (100 * nthreads_ p)) as Eq by (by rewrite <- Hnew at 1).
  constructor; simpl.
  - rewrite Eq. apply (fifo_inv_reachable _ []). by constructor.
  - exists [], 0%nat. done.
  - intros t x. by rewrite lookup_empty.
  - intros t Ht%workers_lookup. done.
  - rewrite map_count_nobody; [done|]. intros t x ->%workers_lookup. done.
  - intros j _. rewrite map_count_nobody; [done|]. intros t x ->%workers_lookup. done.
  - by rewrite workers_size.
  - done.
  - done.
Qed.

(** ** Progress of the destructor *)

(** A worker that is not blocked can go on. *)
Lemma worker_steps tr s t x : pool_inv tr s -> workers s !! t = Some x -> x <> Exited -> pcs (pq s) !! t <> Some DeqWaiting ->
  exists ev s', pstep p junk s ev s' /\ forall u, ev <> PQueue (FSpurious u).
Proof.
  intros Hi Hw Hx Hb. destruct s as [q w d]. simpl in *. destruct x as [| |j|]; [| | |done].
  - assert (pcs q !! t = None) as Hn.
    { destruct (pcs q !! t) as [y|] eqn:E; [|done]. pose proof (pi_place _ _ Hi t y E) as Hp.
      destruct y; simpl in Hp; rewrite Hw in Hp; first [discriminate Hp|discriminate (proj1 Hp)]. }
    destruct q as [f m]. exists (PQueue (FDeqCall t)), (Psys (Fsys f (<[t := Deq]> m)) (<[t := Taking]> w) d).
    split; [|done]. apply ps_take; [done|by constructor].
  - destruct (pi_taking _ _ Hi t Hw) as [E|E]; [|done]. simpl in E.
    destruct (deq_can_step q t E) as (ev & q' & Hs & [[e ->]| ->]).
    + exists (PQueue (FDeq t e)), (Psys q' (<[t := do_worker e]> w) d). split; [by apply ps_took|done].
    + exists (PQueue (FDeqWait t)), (Psys q' w d). split; [by apply ps_inside|done].
  - exists (PRan t j), (Psys q (<[t := Looping]> w) d). split; [by apply ps_ran|done].
Qed.

(** So can the destructor, while it is not blocked and has pills to send. *)
Lemma sender_steps tr s d l : pool_inv tr s -> dtor s = Pills d l ->
  (0 < l \/ sending (pcs (pq s)) d = 1)%nat -> (forall e, pcs (pq s) !! d <> Some (EnqWaiting e)) ->
  exists ev s', pstep p junk s ev s' /\ forall u, ev <> PQueue (FSpurious u).
Proof.
  intros Hi Hd Hl Hb. destruct s as [q w dt]. simpl in *. subst dt. unfold sending in Hl.
  destruct (pcs q !! d) as [x|] eqn:E.
  - pose proof (pi_place _ _ Hi d x E) as Hp. pose proof (pi_dtor _ _ Hi d l eq_refl) as Hn. simpl in Hp, Hn.
    destruct x as [e b|e| |]; simpl in Hp; [|by destruct (Hb e)|congruence|congruence].
    destruct (enq_can_step q d e b E) as (ev & q' & Hs & [[r ->]| ->]).
    + exists (PQueue (FEnq d e r)), (Psys q' w (Pills d l)). split; [by apply ps_inside|done].
    + exists (PQueue (FEnqWait d)), (Psys q' w (Pills d l)). split; [by apply ps_inside|done].
  - destruct l as [|n]; [lia|]. destruct q as [f m].
    exists (PQueue (FEnqCall d (pill junk) true)), (Psys (Fsys f (<[d := Enq (pill junk) true]> m)) w (Pills d n)).
    split; [|done]. apply ps_pill. by constructor.
Qed.

(** When no worker can go on, the queue is empty or all workers are gone. *)
Lemma blocked_workers tr s : pool_inv tr s ->
  (forall t x, workers s !! t = Some x -> x = Exited \/ pcs (pq s) !! t = Some DeqWaiting) ->
  q_ (fq (pq s)) = [] \/ map_count is_exited (workers s) = nthreads_ p.
Proof.
  intros Hi Hall. destruct (decide (0 < map_count waits_non_empty (pcs (pq s)))) as [H|H].
  - left. pose proof (fi_deq _ _ _ (pi_fifo _ _ Hi) H) as Hle.
    rewrite (map_count_nobody is_deq) in Hle; [by destruct (q_ (fq (pq s)))|].
    intros t x Hx. destruct x; try done. pose proof (pi_place _ _ Hi t _ Hx) as Hp. simpl in Hp.
    destruct (Hall t _ Hp) as [?|?]; [done|congruence].
  - right. rewrite <- (pi_size _ _ Hi). apply map_count_all. intros t x Hx. apply bool_decide_eq_true.
    destruct (Hall t x Hx) as [?|Hw]; [done|]. destruct H. by eapply map_count_some.
Qed.

Lemma pool_capacity : pool_ok p -> 0 < u32 (100 * nthreads_ p).
Proof.
  intros (_ & _ & Hpos & Hnew). unfold ThrPool_new in Hnew. res_inv. unfold int_chk in E.
  case_bool_decide; [|done]. rewrite u32_small; lia.
Qed.

(** How many pills have been sent, and how many of them were taken. *)
Lemma pills_sent tr s : pool_inv tr s -> exists k,
  map_count is_exited (workers s) + nulls (q_ (fq (pq s))) = Z.of_nat k /\
  match dtor s with
  | Live => k = 0%nat
  | Pills d l => (k + l + sending (pcs (pq s)) d)%nat = Z.to_nat (nthreads_ p)
  | Joined => k = Z.to_nat (nthreads_ p)
  end.
Proof.
  intros Hi. destruct (pi_jobs _ _ Hi) as (jobs & k & E & Hj & Hd). exists k. split; [|done].
  rewrite (pi_exited _ _ Hi), <- nulls_app, <- (fi_order _ _ _ (pi_fifo _ _ Hi)), E, nulls_app, nulls_pills, nulls_jobs; done.
Qed.

(** A destructor that waits for room is not alone: a worker can go on. *)
Lemma sender_not_stuck tr s d l e : pool_ok p -> pool_inv tr s -> dtor s = Pills d l ->
  pcs (pq s) !! d = Some (EnqWaiting e) ->
  ~ (q_ (fq (pq s)) = [] \/ map_count is_exited (workers s) = nthreads_ p).
Proof.
  intros Hok Hi Hd He [Hq|Hx].
  - pose proof (pi_fifo _ _ Hi) as Hf. pose proof (fi_enq _ _ _ Hf (map_count_some waits_space _ d _ He eq_refl)) as Hle.
    rewrite Hq, (fi_max _ _ _ Hf) in Hle. simpl in Hle. pose proof (pool_capacity Hok).
    assert (0 < map_count is_enq (pcs (pq s))) as (t & x & Ht & Hx)%map_count_pos by lia.
    destruct x as [e' b| | |]; try done. pose proof (pi_place _ _ Hi t _ Ht) as Hp. rewrite Hd in Hp.
    destruct Hp as (_ & -> & _). congruence.
  - destruct (pills_sent tr s Hi) as (k & Hk & Hs). rewrite Hd in Hs. unfold sending in Hs. rewrite He in Hs.
    pose proof (nulls_nonneg (q_ (fq (pq s)))). destruct Hok as (_ & _ & ? & _). lia.
Qed.

(** When every pill was sent and no worker can go on, all of them have exited. *)
Lemma all_exited tr s d : pool_inv tr s -> 0 < nthreads_ p -> dtor s = Pills d 0 -> sending (pcs (pq s)) d = 0%nat ->
  (q_ (fq (pq s)) = [] \/ map_count is_exited (workers s) = nthreads_ p) ->
  forall t x, workers s !! t = Some x -> x = Exited.
Proof.
  intros Hi Hpos Hd Hs Hor t x Hx. destruct (pills_sent tr s Hi) as (k & Hk & Hkn). rewrite Hd, Hs in Hkn.
  assert (is_exited x = true) as E%bool_decide_eq_true; [|done].
  eapply map_count_full; [|exact Hx]. rewrite (pi_size _ _ Hi).
  destruct Hor as [Hq|?]; [|done]. rewrite Hq in Hk. change (nulls []) with 0 in Hk. lia.
Qed.

Lemma shutdown_progress tr s d l : pool_ok p -> pool_inv tr s -> dtor s = Pills d l ->
  exists ev s', pstep p junk s ev s' /\ forall u, ev <> PQueue (FSpurious u).
Proof.
  intros Hok Hi Hd.
  destruct (decide (map_Forall (fun t x => x = Exited \/ (waits_non_empty <$> pcs (pq s) !! t) = Some true) (workers s)))
    as [Hall|(t & x & Hx & Hn)%map_not_Forall]; [| |apply _].
  2:{ eapply worker_steps; [done|exact Hx|by auto|]. intros E. rewrite E in Hn. by destruct Hn; right. }
  assert (q_ (fq (pq s)) = [] \/ map_count is_exited (workers s) = nthreads_ p) as Hor.
  { eapply blocked_workers; [done|]. intros t x Hx. destruct (Hall t x Hx) as [?|Hw]; [by left|right].
    destruct (pcs (pq s) !! t) as [[]|]; done. }
  assert (forall e, pcs (pq s) !! d <> Some (EnqWaiting e)) as Hne.
  { intros e He. by eapply sender_not_stuck. }
  destruct (decide (0 < l \/ sending (pcs (pq s)) d = 1)%nat) as [Hl|Hl]; [by eapply sender_steps|].
  assert (l = 0%nat /\ pcs (pq s) !! d = None /\ sending (pcs (pq s)) d = 0%nat) as (-> & Hnd & Hs0).
  { unfold sending in *. destruct (pcs (pq s) !! d); split_and!; lia || done. }
  pose proof (all_exited tr s d Hi (proj1 (proj2 (proj2 Hok))) Hd Hs0 Hor) as Hex.
  destruct s as [q w dt]. simpl in *. subst dt. exists PJoin, (Psys q w Joined). split; [by apply ps_join|done].
Qed.

Lemma ran_at_most_once tr s j : pool_inv tr s -> jf j <> None ->
  (count_occ job_eq_dec (ran tr) j <= count_occ job_eq_dec (enqueued (queue_events tr)) j)%nat.
Proof.
  intros Hi Hj. rewrite (fi_order _ _ _ (pi_fifo _ _ Hi)), count_occ_app.
  pose proof (pi_ran _ _ Hi j Hj). pose proof (map_count_nonneg (is_running j) (workers s)). lia.
Qed.
End invariant.

(** ** The guarantees of the pool *)

(** Only jobs with a function are run. *)
Lemma runs_jobs p junk tr s : reachable (pinit p) (pstep p junk) tr s ->
  Forall (fun j => jf j <> None) (ran tr) /\ forall t j, workers s !! t = Some (Running j) -> jf j <> None.
Proof.
  apply (reachable_invariant _ _ (fun tr s => Forall (fun j => jf j <> None) (ran tr) /\
    forall t j, workers s !! t = Some (Running j) -> jf j <> None)).
  { intros ? ->. split; [constructor|]. intros t j Ht%workers_lookup. done. }
  intros tr0 s0 ev s' [Hr Hw] Hs. rewrite ran_snoc.
  destruct Hs as [| | q w d t q' Ht | q w d t j q' Ht | q w d t j Ht | | | ]; simpl in *; rewrite ?app_nil_r;
    try (split; [done|]; done).
  - split; [done|]. intros u i. rewrite lookup_insert_Some. intros [[_ ?]|[_ ?]]; [done|by eapply Hw].
  - split; [done|]. intros u i. rewrite lookup_insert_Some. intros [[_ E]|[_ ?]]; [|by eapply Hw].
    unfold do_worker, takeJob in E. case_bool_decide; [done|]. by injection E as <-.
  - split; [apply Forall_app; split; [done|apply Forall_singleton; by eapply Hw]|].
    intros u i. rewrite lookup_insert_Some. intros [[_ ?]|[_ ?]]; [done|by eapply Hw].
Qed.

Lemma count_filter_jobs l j : jf j <> None ->
  count_occ job_eq_dec (filter (fun j => jf j <> None) l) j = count_occ job_eq_dec l j.
Proof.
  intros Hj. induction l as [|x l IH]; [done|]. destruct (decide (jf x <> None)) as [H|H].
  - rewrite filter_cons_True by done. simpl. by destruct (job_eq_dec x j); rewrite IH.
  - rewrite filter_cons_False by done. simpl. destruct (job_eq_dec x j) as [-> |_]; done.
Qed.

Lemma count_no_job l j : Forall (fun j => jf j <> None) l -> jf j = None -> count_occ job_eq_dec l j = 0%nat.
Proof. intros Hl Hj. apply count_occ_not_In. intros Hin. rewrite List.Forall_forall in Hl. by apply (Hl j). Qed.

Lemma added_jobs tr : Forall (fun j => jf j <> None) (added tr).
Proof. apply Forall_forall. intros j Hj. by apply list_elem_of_filter in Hj as [? _]. Qed.

Lemma joined_runs_all p junk tr s : pool_ok p -> reachable (pinit p) (pstep p junk) tr s -> dtor s = Joined ->
  Permutation (ran tr) (added tr) /\ q_ (fq (pq s)) = [].
Proof.
  intros Hok Hr Hd. pose proof (pool_inv_reachable p junk tr s Hok Hr) as Hi.
  destruct (pi_jobs _ _ _ _ Hi) as (jobs & k & E & Hj & Hk). rewrite Hd in Hk.
  pose proof (fi_order _ _ _ (pi_fifo _ _ _ _ Hi)) as Ho. destruct Hok as (_ & _ & Hpos & _).
  assert (q_ (fq (pq s)) = []) as Hq.
  { eapply (behind_pills jobs k junk (dequeued (queue_events tr))); [done|lia|congruence|].
    rewrite <- (pi_exited _ _ _ _ Hi), map_count_all, (pi_size _ _ _ _ Hi); [lia|].
    intros t x Hx. by rewrite (pi_joined _ _ _ _ Hi Hd t x Hx). }
  split; [|done]. rewrite Hq, app_nil_r in Ho. apply (Permutation_count_occ job_eq_dec). intros j.
  destruct (decide (jf j = None)) as [Hn|Hn].
  { by rewrite !count_no_job by (done || apply added_jobs || by eapply runs_jobs). }
  unfold added. rewrite count_filter_jobs, Ho by done. pose proof (pi_ran _ _ _ _ Hi j Hn) as Hc.
  rewrite (map_count_nobody (is_running j)) in Hc; [lia|].
  intros t x Hx. by rewrite (pi_joined _ _ _ _ Hi Hd t x Hx).
Qed.

(** C39: a pool runs every job exactly once and shuts down: no job is run more
    often than it was added; when the destructor has returned, exactly the jobs
    whose [addJob] answered [true] have been run and none is left; and until
    then the destructor and the workers never all wait for each other. *)
Theorem pool_runs_every_job p junk tr s :
  pool_ok p -> reachable (pinit p) (pstep p junk) tr s ->
  (forall j, (count_occ job_eq_dec (ran tr) j <= count_occ job_eq_dec (added tr) j)%nat) /\
  (dtor s = Joined -> Permutation (ran tr) (added tr) /\ q_ (fq (pq s)) = []) /\
  (forall d l, dtor s = Pills d l ->
     exists ev s', pstep p junk s ev s' /\ forall u, ev <> PQueue (FSpurious u)).
Proof.
  intros Hok Hr. pose proof (pool_inv_reachable p junk tr s Hok Hr) as Hi. split_and!.
  - intros j. destruct (decide (jf j = None)) as [Hn|Hn].
    + rewrite (count_no_job (ran tr)); [lia|by eapply runs_jobs|done].
    + unfold added. rewrite count_filter_jobs by done. by eapply ran_at_most_once.
  - by eapply joined_runs_all.
  - intros d l Hd. by eapply shutdown_progress.
Qed.

(** ** A concrete run: a pool of one worker runs one job and is destroyed *)
Module PoolExample.
Definition pool1 : ThrPool := Pool 1 false (fifo_new 100) [1].
Definition job1 : job_t := obj_job 77 5.

Lemma pool1_ok : pool_ok pool1.
Proof. split_and!; [by apply NoDup_singleton|done|done|reflexivity]. Qed.

(** The worker's place and the queue, after each step. *)
Definition at_work (f : list job_t) (m : gmap Z (pc job_t)) (x : worker) (d : dtor_t) : psys :=
  Psys (Fsys (Fifo f 100) m) (<[1 := x]> ∅) d.
Definition adding : gmap Z (pc job_t) := <[9 := Enq job1 false]> ∅.
Definition sending_pill : gmap Z (pc job_t) := <[9 := Enq (pill 0) true]> ∅.
Definition taking : gmap Z (pc job_t) := <[1 := Deq]> ∅.

Definition st0 : psys := at_work [] ∅ Looping Live.
Definition run1 : list (pevent * psys) :=
  [(PQueue (FEnqCall 9 job1 false), at_work [] adding Looping Live);
   (PQueue (FEnq 9 job1 true), at_work [job1] ∅ Looping Live);
   (PQueue (FDeqCall 1), at_work [job1] taking Taking Live);
   (PQueue (FDeq 1 job1), at_work [] ∅ (Running job1) Live);
   (PRan 1 job1, at_work [] ∅ Looping Live);
   (PDestroy 9, at_work [] ∅ Looping (Pills 9 1));
   (PQueue (FEnqCall 9 (pill 0) true), at_work [] sending_pill Looping (Pills 9 0));
   (PQueue (FEnq 9 (pill 0) true), at_work [pill 0] ∅ Looping (Pills 9 0));
   (PQueue (FDeqCall 1), at_work [pill 0] taking Taking (Pills 9 0));
   (PQueue (FDeq 1 (pill 0)), at_work [] ∅ Exited (Pills 9 0));
   (PJoin, at_work [] ∅ Exited Joined)].

Lemma enq_step (f : fifo job_t) m e b f' m' : m !! 9 = Some (Enq e b) -> enq_turn f e b = (f', EnqTrue) ->
  delete 9 m = m' -> map_count waits_non_empty m' = 0 -> fstep (Fsys f m) (FEnq 9 e true) (Fsys f' m').
Proof. intros H1 H2 <- H3. eapply fs_enq; [done|done|]. by apply signal_uncounted. Qed.

Lemma deq_step (f : fifo job_t) m e f' sig m' : m !! 1 = Some Deq -> deq_turn f = Some (e, f', sig) ->
  delete 1 m = m' -> map_count waits_space m' = 0 -> fstep (Fsys f m) (FDeq 1 e) (Fsys f' m').
Proof. intros H1 H2 <- H3. eapply fs_deq; [done|done|]. destruct sig; [by apply signal_uncounted|done]. Qed.

Lemma took_worker x y (q q' : fsys job_t) ev d : pstep pool1 0 (Psys q (<[1 := x]> ∅) d) ev (Psys q' (<[1 := y]> (<[1 := x]> ∅)) d) ->
  pstep pool1 0 (Psys q (<[1 := x]> ∅) d) ev (Psys q' (<[1 := y]> ∅) d).
Proof. by rewrite insert_insert_eq. Qed.

Lemma pool_run : reachable (pinit pool1) (pstep pool1 0) (run1.*1) (at_work [] ∅ Exited Joined).
Proof.
  apply (reachable_runs _ _ [] st0 run1); [by constructor|].
  unfold run1. cbn [runs]. split_and!; [| | | | | | | | | | |done].
  - apply ps_add; [done|done|by constructor].
  - apply ps_inside; [done|]. by eapply enq_step.
  - apply took_worker, ps_take; [done|by constructor].
  - apply took_worker, ps_took; [done|]. by eapply deq_step.
  - apply took_worker. by apply ps_ran.
  - apply ps_destroy; [done|]. intros t [? H]. simpl in H. by rewrite lookup_empty in H.
  - apply ps_pill. by constructor.
  - apply ps_inside; [done|]. by eapply enq_step.
  - apply took_worker, ps_take; [done|by constructor].
  - apply took_worker, ps_took; [done|]. by eapply deq_step.
  - apply ps_join; [done|]. intros t x Hx. apply lookup_insert_Some in Hx as [[_ <-]|[_ Hx]]; [done|].
    by rewrite lookup_empty in Hx.
Qed.

(** C39, witness: the job was run. *)
Lemma pool_runs_every_job_witness : Permutation (ran run1.*1) (added run1.*1) /\ added run1.*1 = [job1].
Proof.
  split; [|reflexivity].
  exact (proj1 (proj1 (proj2 (pool_runs_every_job pool1 0 _ _ pool1_ok pool_run)) eq_refl)).
Defined.
End PoolExample.
