(* ===== verification/Poll.v ===== *)
(** * The poll manager: [rpc/pollmgr.cc]

    [PollMgr] calls back whoever registered for a file descriptor that became
    ready, over an [aio_mgr] that does the waiting: [SelectAIO], the one in use,
    or [EPollAIO].  What the system calls answer is an argument: whether the
    write to the wake-up pipe or [epoll_ctl] succeeded ([ok]), and what [select]
    and [epoll_wait] report. *)

From S2P Require Import Prelude.

(** ** pollmgr.h *)
Definition MAX_POLL_FDS : Z := 128.

Definition CB_NONE : Z := 0.
Definition CB_RDONLY : Z := 1.
Definition CB_WRONLY : Z := 16.
Definition CB_RDWR : Z := 17.
Definition CB_MASK : Z := Z.lnot 17.

(** class [aio_mgr].  Waiting has two halves: what is watched is looked at
    ([wait_begin]), and the descriptors that turned out to be ready are
    returned ([wait_end]), readable ones first. *)
Class aio_mgr (A : Type) := {
  snapshot : Type;
  answer : Type;
  watch_fd : A -> Z -> Z -> bool -> res A;
  unwatch_fd : A -> Z -> Z -> bool -> res (A * bool);
  is_watched : A -> Z -> Z -> res bool;
  wait_begin : A -> snapshot;
  wait_end : A -> snapshot -> answer -> res (A * list Z * list Z) }.
Arguments snapshot A {_}.
Arguments answer A {_}.

(** ** class SelectAIO *)
Module SelectAIO.

(** An [fd_set] holds descriptors below [FD_SETSIZE]; other arguments of its
    macros are undefined. *)
Definition FD_SETSIZE : Z := 1024.
Definition fd_ok (fd : Z) : res unit := defined ((0 <=? fd) && (fd <? FD_SETSIZE)).

Record t := Select {
  rfds_ : gset Z;
  wfds_ : gset Z;
  highfds_ : Z;
  pipefd_0 : Z;
  pipe_bytes : Z }.                    (* bytes in the wake-up pipe *)

Definition FD_ISSET (fd : Z) (s : gset Z) : bool := bool_decide (fd ∈ s).

(** The constructor; [p] is the reading end of the pipe. *)
Definition new (p : Z) : res t := _ ← fd_ok p; Ret (Select {[p]} ∅ p p 0).

Definition watch_fd (a : t) (fd flag : Z) (ok : bool) : res t :=
  let high := if highfds_ a <=? fd then fd else highfds_ a in
  _ ← fd_ok fd;
  let '(r, w) :=
    if flag =? CB_RDONLY then ({[fd]} ∪ rfds_ a, wfds_ a)
    else if flag =? CB_WRONLY then (rfds_ a, {[fd]} ∪ wfds_ a)
    else ({[fd]} ∪ rfds_ a, {[fd]} ∪ wfds_ a) in
  _ ← VERIFY ok;
  Ret (Select r w high (pipefd_0 a) (pipe_bytes a + 1)).

Definition is_watched (a : t) (fd flag : Z) : res bool :=
  _ ← fd_ok fd;
  Ret (if flag =? CB_RDONLY then FD_ISSET fd (rfds_ a)
       else if flag =? CB_WRONLY then FD_ISSET fd (wfds_ a)
       else FD_ISSET fd (rfds_ a) && FD_ISSET fd (wfds_ a)).

(** The highest descriptor in use: the loop over [0 .. highfds_]. *)
Definition highest (r w : gset Z) (pipefd high : Z) : Z :=
  foldl (fun newh i => if FD_ISSET i r then i else if FD_ISSET i w then i else newh) pipefd (seqZ 0 (high + 1)).

Definition unwatch_fd (a : t) (fd flag : Z) (ok : bool) : res (t * bool) :=
  _ ← fd_ok fd;
  '(r, w) ← (if flag =? CB_RDONLY then Ret (rfds_ a ∖ {[fd]}, wfds_ a)
             else if flag =? CB_WRONLY then Ret (rfds_ a, wfds_ a ∖ {[fd]})
             else if flag =? CB_RDWR then Ret (rfds_ a ∖ {[fd]}, wfds_ a ∖ {[fd]})
             else Abort);
  let gone := negb (FD_ISSET fd r) && negb (FD_ISSET fd w) in
  let high := if gone && (fd =? highfds_ a) then highest r w (pipefd_0 a) (highfds_ a) else highfds_ a in
  bytes ← (if flag =? CB_RDWR then _ ← VERIFY ok; Ret (pipe_bytes a + 1) else Ret (pipe_bytes a));
  Ret (Select r w high (pipefd_0 a) bytes, gone).

(** What [select] is given, and what it reports. *)
Record fds := Fds { trfds : gset Z; twfds : gset Z; high : Z }.
Inductive report := Ready (r w : gset Z) | Interrupted | Failed.

Definition wait_begin (a : t) : fds := Fds (rfds_ a) (wfds_ a) (highfds_ a).

(** One turn of the loop over the descriptors. *)
Definition ready_turn (pipefd : Z) (r w : gset Z) (st : res (Z * list Z * list Z)) (fd : Z) : res (Z * list Z * list Z) :=
  '(bytes, readable, writable) ← st;
  if (fd =? pipefd) && FD_ISSET fd r then
    _ ← VERIFY (0 <? bytes);
    Ret (bytes - 1, readable, writable)
  else
    Ret (bytes, if FD_ISSET fd r then readable ++ [fd] else readable,
         if FD_ISSET fd w then writable ++ [fd] else writable).

Definition wait_end (a : t) (s : fds) (k : report) : res (t * list Z * list Z) :=
  match k with
  | Interrupted => Ret (a, [], [])
  | Failed => Abort
  | Ready r w =>
      '(bytes, readable, writable) ←
        foldl (ready_turn (pipefd_0 a) r w) (Ret (pipe_bytes a, [], [])) (seqZ 0 (high s + 1));
      Ret (Select (rfds_ a) (wfds_ a) (highfds_ a) (pipefd_0 a) bytes, readable, writable)
  end.
End SelectAIO.

#[export] Instance aio_select : aio_mgr SelectAIO.t :=
  {| snapshot := SelectAIO.fds; answer := SelectAIO.report;
     watch_fd := SelectAIO.watch_fd; unwatch_fd := SelectAIO.unwatch_fd; is_watched := SelectAIO.is_watched;
     wait_begin := SelectAIO.wait_begin; wait_end := SelectAIO.wait_end |}.

(** ** class EPollAIO *)
Module EPollAIO.
Definition EPOLLIN : Z := 1.
Definition EPOLLOUT : Z := 4.
Definition EPOLLET : Z := Z.shiftl 1 31.

Inductive op_t := EPOLL_CTL_ADD | EPOLL_CTL_MOD | EPOLL_CTL_DEL.

(** [fdstatus_], and the calls of [epoll_ctl] made so far: operation, descriptor
    and events. *)
Record t := EPoll { fdstatus_ : gmap Z Z; ctl : list (op_t * Z * Z) }.

Definition new (epoll_create : Z) : res t := _ ← VERIFY (0 <=? epoll_create); Ret (EPoll ∅ []).

Definition status (a : t) (fd : Z) : Z := default 0 (fdstatus_ a !! fd).

(** [VERIFY(fd < MAX_POLL_FDS)], and the array access that follows. *)
Definition index_ok (fd : Z) : res unit := _ ← VERIFY (fd <? MAX_POLL_FDS); defined (0 <=? fd).

Definition events (st : Z) : Z :=
  let ev := EPOLLET in
  let ev := if negb (Z.land st CB_RDONLY =? 0) then Z.lor ev EPOLLIN else ev in
  if negb (Z.land st CB_WRONLY =? 0) then Z.lor ev EPOLLOUT else ev.

(** [poll_flag_to_event], which nothing calls. *)
Definition poll_flag_to_event (flag : Z) : Z :=
  if flag =? CB_RDONLY then EPOLLIN else if flag =? CB_WRONLY then EPOLLOUT else Z.lor EPOLLIN EPOLLOUT.

Definition watch_fd (a : t) (fd flag : Z) (ok : bool) : res t :=
  _ ← index_ok fd;
  let op := if status a fd =? 0 then EPOLL_CTL_ADD else EPOLL_CTL_MOD in
  let st := Z.lor (status a fd) flag in
  _ ← VERIFY (negb (flag =? CB_RDWR) || (events st =? Z.lor (Z.lor EPOLLET EPOLLIN) EPOLLOUT));
  _ ← VERIFY ok;
  Ret (EPoll (<[fd := st]> (fdstatus_ a)) (ctl a ++ [(op, fd, events st)])).

Definition unwatch_fd (a : t) (fd flag : Z) (ok : bool) : res (t * bool) :=
  _ ← index_ok fd;
  let st := Z.land (status a fd) (Z.lnot flag) in
  let gone := st =? 0 in
  _ ← VERIFY (negb (flag =? CB_RDWR) || gone);
  _ ← VERIFY ok;
  Ret (EPoll (<[fd := st]> (fdstatus_ a)) (ctl a ++ [(if gone then EPOLL_CTL_DEL else EPOLL_CTL_MOD, fd, events st)]), gone).

Definition is_watched (a : t) (fd flag : Z) : res bool :=
  _ ← index_ok fd;
  Ret (Z.land (status a fd) CB_MASK =? flag).

(** What [epoll_wait] reports: descriptors and events. *)
Definition wait_end (a : t) (_ : unit) (ready : list (Z * Z)) : res (t * list Z * list Z) :=
  Ret (a, (filter (fun e => Z.land e.2 EPOLLIN <> 0) ready).*1, (filter (fun e => Z.land e.2 EPOLLOUT <> 0) ready).*1).
End EPollAIO.

#[export] Instance aio_epoll : aio_mgr EPollAIO.t :=
  {| snapshot := unit; answer := list (Z * Z);
     watch_fd := EPollAIO.watch_fd; unwatch_fd := EPollAIO.unwatch_fd; is_watched := EPollAIO.is_watched;
     wait_begin := fun _ => tt; wait_end := EPollAIO.wait_end |}.

(** ** class PollMgr *)
Record PollMgr (A : Type) := Poll {
  callbacks_ : gmap Z Z;               (* by descriptor; absent for NULL *)
  aio_ : A;
  pending_change_ : bool }.
Arguments Poll {A} callbacks_ aio_ pending_change_.
Arguments callbacks_ {A} p.
Arguments aio_ {A} p.
Arguments pending_change_ {A} p.

Section PollMgr.
Context {A : Type} {AM : aio_mgr A}.
Implicit Types (p : PollMgr A) (fd flag ch : Z).

(** The array [callbacks_] has [MAX_POLL_FDS] elements. *)
Definition slot_ok fd : res unit := defined ((0 <=? fd) && (fd <? MAX_POLL_FDS)).

Definition PollMgr_new (a : A) : PollMgr A := Poll ∅ a false.

Definition add_callback p fd flag ch (ok : bool) : res (PollMgr A) :=
  _ ← VERIFY (fd <? MAX_POLL_FDS);
  a ← watch_fd (aio_ p) fd flag ok;
  _ ← slot_ok fd;
  _ ← VERIFY (match callbacks_ p !! fd with Some ch' => ch' =? ch | None => true end);
  Ret (Poll (<[fd := ch]> (callbacks_ p)) a (pending_change_ p)).

(** [block_remove_fd], up to the wait for [changedone_c_] and after it. *)
Definition block_remove_begin p fd (ok : bool) : res (PollMgr A) :=
  '(a, _) ← unwatch_fd (aio_ p) fd CB_RDWR ok;
  Ret (Poll (callbacks_ p) a true).
Definition block_remove_end p fd : res (PollMgr A) :=
  _ ← slot_ok fd;
  Ret (Poll (delete fd (callbacks_ p)) (aio_ p) (pending_change_ p)).

Definition del_callback p fd flag (ok : bool) : res (PollMgr A) :=
  '(a, gone) ← unwatch_fd (aio_ p) fd flag ok;
  if (gone : bool) then _ ← slot_ok fd; Ret (Poll (delete fd (callbacks_ p)) a (pending_change_ p))
  else Ret (Poll (callbacks_ p) a (pending_change_ p)).

Definition has_callback p fd flag ch : res bool :=
  _ ← slot_ok fd;
  match callbacks_ p !! fd with
  | Some c => if c =? ch then is_watched (aio_ p) fd flag else Ret false
  | None => Ret false
  end.

(** The start of a turn of [wait_loop]: is [changedone_c_] broadcast? *)
Definition wait_loop_top p : PollMgr A * bool :=
  if pending_change_ p then (Poll (callbacks_ p) (aio_ p) false, true) else (p, false).

(** One descriptor of the readable or writable ones: the callback to call. *)
Definition wait_loop_cb p fd : res (option Z) := _ ← slot_ok fd; Ret (callbacks_ p !! fd).
End PollMgr.
