(* ===== verification/PollSpec.v ===== *)
(** * The poll manager: what an [aio_mgr] promises, and that [select] keeps it *)

From S2P Require Import Prelude Poll.

(** ** The interface [PollMgr] relies on

    [watched] are the descriptors that may be reported; [answer_ok] is what the
    manual pages of [select] and [epoll_wait] promise: only descriptors that are
    waited for are reported. *)
Class AioSpec (A : Type) {AM : aio_mgr A} := {
  watched : A -> Z -> Prop;
  in_snapshot : snapshot A -> Z -> Prop;
  answer_ok : A -> snapshot A -> answer A -> Prop;
  watch_spec a fd flag ok a' x : watch_fd a fd flag ok = Ret a' -> watched a' x -> x = fd \/ watched a x;
  unwatch_spec a fd flag ok a' gone : unwatch_fd a fd flag ok = Ret (a', gone) ->
    (forall x, watched a' x -> watched a x) /\ (flag = CB_RDWR -> ~ watched a' fd);
  begin_spec a x : in_snapshot (wait_begin a) x -> watched a x;
  end_spec a s k a' r w : wait_end a s k = Ret (a', r, w) -> answer_ok a s k ->
    (forall x, (x ∈ r) \/ (x ∈ w) -> in_snapshot s x \/ watched a x) /\ (forall x, watched a' x -> watched a x) }.

(** ** The loop over the descriptors of [SelectAIO] *)
Module Select.
Import SelectAIO.

(** The highest descriptor, after the first [n] turns. *)
Lemma highest_turns (r w : gset Z) p n : p ∈ r ∪ w -> (forall x, x ∈ r ∪ w -> 0 <= x) ->
  let acc := foldl (fun newh i => if FD_ISSET i r then i else if FD_ISSET i w then i else newh) p (seqZ 0 (Z.of_nat n)) in
  acc ∈ r ∪ w /\ forall x, x ∈ r ∪ w -> Z.of_nat n <= x \/ x <= acc.
Proof.
  intros Hp Hpos. induction n as [|n IH]; cbv zeta; [split; [done|]; intros x Hx; left; by apply Hpos|].
  rewrite seqZ_S, foldl_app. cbn [foldl]. rewrite Z.add_0_l.
  destruct IH as [IH1 IH2]. revert IH1 IH2. generalize (foldl (fun newh i => if FD_ISSET i r then i
    else if FD_ISSET i w then i else newh) p (seqZ 0 (Z.of_nat n))). intros acc IH1 IH2. unfold FD_ISSET.
  case_bool_decide; [|case_bool_decide].
  - split; [by apply elem_of_union_l|]. intros x Hx. lia.
  - split; [by apply elem_of_union_r|]. intros x Hx. lia.
  - split; [done|]. intros x Hx. destruct (IH2 x Hx) as [Hn|Hn]; [|by right]. left.
    assert (x <> Z.of_nat n) by (intros ->; apply elem_of_union in Hx; tauto). lia.
Qed.

Lemma highest_spec r w p high : p ∈ r ∪ w -> 0 <= high -> (forall x, x ∈ r ∪ w -> 0 <= x <= high) ->
  highest r w p high ∈ r ∪ w /\ forall x, x ∈ r ∪ w -> x <= highest r w p high.
Proof.
  intros Hp Hh Hx. destruct (highest_turns r w p (Z.to_nat (high + 1)) Hp) as [H1 H2]; [intros x H; by apply Hx|].
  rewrite Z2Nat.id in H1, H2 by lia. unfold highest. split; [done|]. intros x H.
  destruct (H2 x H); [|done]. specialize (Hx x H). lia.
Qed.

(** What the loop of [wait_ready] collects. *)
Lemma ready_loop p r w l bytes rd wr : NoDup l -> (p ∈ l -> p ∈ r -> 0 < bytes) ->
  exists bytes', foldl (ready_turn p r w) (Ret (bytes, rd, wr)) l =
    Ret (bytes', rd ++ filter (fun x => x ∈ r /\ x <> p) l, wr ++ filter (fun x => x ∈ w /\ ~ (x = p /\ p ∈ r)) l).
Proof.
  intros Hnd. revert bytes rd wr. induction Hnd as [|x l Hx Hnd IH]; intros bytes rd wr Hb; [exists bytes; by rewrite !app_nil_r|].
  change (foldl (ready_turn p r w) (Ret (bytes, rd, wr)) (x :: l)) with
    (foldl (ready_turn p r w) (ready_turn p r w (Ret (bytes, rd, wr)) x) l).
  destruct (decide (x = p /\ p ∈ r)) as [[-> Hr]|Hne].
  - assert (ready_turn p r w (Ret (bytes, rd, wr)) p = Ret (bytes - 1, rd, wr)) as ->.
    { unfold ready_turn, FD_ISSET. rsimpl. rewrite Z.eqb_refl, (bool_decide_eq_true_2 (p ∈ r)) by done.
      cbn [andb]. rewrite (VERIFY_true (0 <? bytes)); [done|]. apply Z.ltb_lt, Hb; [|done]. apply list_elem_of_here. }
    destruct (IH (bytes - 1) rd wr) as [b' ->]; [done|]. exists b'. by rewrite !filter_cons_False by tauto.
  - assert (ready_turn p r w (Ret (bytes, rd, wr)) x = Ret (bytes,
      if bool_decide (x ∈ r) then rd ++ [x] else rd, if bool_decide (x ∈ w) then wr ++ [x] else wr)) as ->.
    { unfold ready_turn, FD_ISSET. rsimpl. destruct (Z.eqb_spec x p) as [-> |]; [|done].
      by rewrite (bool_decide_eq_false_2 (p ∈ r)) by tauto. }
    destruct (IH bytes (if bool_decide (x ∈ r) then rd ++ [x] else rd) (if bool_decide (x ∈ w) then wr ++ [x] else wr))
      as [b' ->]; [intros H; apply Hb; by apply list_elem_of_further|]. exists b'. f_equal. f_equal; [f_equal|].
    + case_bool_decide; [rewrite filter_cons_True by (split; [done|]; intros ->; tauto); by rewrite <- app_assoc|].
      by rewrite filter_cons_False by tauto.
    + case_bool_decide; [rewrite filter_cons_True by tauto; by rewrite <- app_assoc|].
      by rewrite filter_cons_False by tauto.
Qed.

(** *** Everything that happens to a [SelectAIO]

    [PollMgr] watches and unwatches descriptors other than the wake-up pipe, and
    waits. *)
Inductive event := SWatch (fd flag : Z) | SUnwatch (fd flag : Z) | SWait.

Inductive step : t -> event -> t -> Prop :=
  | ss_watch a fd flag a' : fd <> pipefd_0 a -> SelectAIO.watch_fd a fd flag true = Ret a' -> step a (SWatch fd flag) a'
  | ss_unwatch a fd flag a' gone : fd <> pipefd_0 a -> SelectAIO.unwatch_fd a fd flag true = Ret (a', gone) ->
      step a (SUnwatch fd flag) a'
  | ss_wait a f k a' r w : SelectAIO.wait_end a f k = Ret (a', r, w) -> step a SWait a'.

Definition init (p : Z) (a : t) : Prop := new p = Ret a.

(** The descriptors asked for, to read and to write. *)
Definition reads (flag : Z) : bool := negb (flag =? CB_WRONLY).
Definition writes (flag : Z) : bool := negb (flag =? CB_RDONLY).

Definition want (rw : gset Z * gset Z) (e : event) : gset Z * gset Z :=
  match e with
  | SWatch fd flag => (if reads flag then {[fd]} ∪ rw.1 else rw.1, if writes flag then {[fd]} ∪ rw.2 else rw.2)
  | SUnwatch fd flag => (if reads flag then rw.1 ∖ {[fd]} else rw.1, if writes flag then rw.2 ∖ {[fd]} else rw.2)
  | SWait => rw
  end.
Definition wanted (tr : list event) : gset Z * gset Z := foldl want (∅, ∅) tr.

Record inv (p : Z) (tr : list event) (a : t) : Prop := {
  si_pipe : pipefd_0 a = p;
  si_range : 0 <= p;
  si_fresh : (p ∉ (wanted tr).1) /\ (p ∉ (wanted tr).2);
  si_read : rfds_ a = {[p]} ∪ (wanted tr).1;
  si_write : wfds_ a = (wanted tr).2;
  si_high : forall x, x ∈ rfds_ a ∪ wfds_ a -> 0 <= x <= highfds_ a }.

Lemma wanted_snoc tr e : wanted (tr ++ [e]) = want (wanted tr) e.
Proof. unfold wanted. by rewrite foldl_app. Qed.

Lemma inv_watch p tr a fd flag a' : inv p tr a -> fd <> pipefd_0 a -> SelectAIO.watch_fd a fd flag true = Ret a' ->
  inv p (tr ++ [SWatch fd flag]) a'.
Proof.
  intros [Hp Hr0 [Hf1 Hf2] Hr Hw Hh] Hne E. unfold SelectAIO.watch_fd, fd_ok in E. res_inv. bool_prop.
  assert (a' = Select (if reads flag then {[fd]} ∪ rfds_ a else rfds_ a) (if writes flag then {[fd]} ∪ wfds_ a else wfds_ a)
    (if highfds_ a <=? fd then fd else highfds_ a) (pipefd_0 a) (pipe_bytes a + 1)) as ->.
  { unfold reads, writes. destruct (Z.eqb_spec flag CB_RDONLY) as [-> |]; [by injection E as <-|].
    destruct (flag =? CB_WRONLY); by injection E as <-. }
  clear E. assert (forall y, y ∈ {[fd]} ∪ rfds_ a ∪ ({[fd]} ∪ wfds_ a) -> 0 <= y <= (if highfds_ a <=? fd then fd else highfds_ a)) as Hx.
  { intros y Hy. destruct (Z.leb_spec (highfds_ a) fd); destruct (decide (y = fd)) as [-> |]; try lia;
      assert (0 <= y <= highfds_ a) by (apply Hh; set_solver); lia. }
  constructor; simpl; rewrite ?wanted_snoc; simpl; [done|done| | | |].
  - destruct (reads flag), (writes flag); set_solver.
  - rewrite Hr. destruct (reads flag); [set_solver|done].
  - by rewrite Hw.
  - intros y Hy. apply Hx. destruct (reads flag), (writes flag); set_solver.
Qed.

Lemma inv_unwatch p tr a fd flag a' gone : inv p tr a -> fd <> pipefd_0 a ->
  SelectAIO.unwatch_fd a fd flag true = Ret (a', gone) -> inv p (tr ++ [SUnwatch fd flag]) a'.
Proof.
  intros [Hp Hr0 [Hf1 Hf2] Hr Hw Hh] Hne E. unfold SelectAIO.unwatch_fd, fd_ok in E. res_inv. bool_prop.
  set (R := if reads flag then rfds_ a ∖ {[fd]} else rfds_ a). set (W := if writes flag then wfds_ a ∖ {[fd]} else wfds_ a).
  assert (x0 = (R, W)) as ->.
  { unfold R, W, reads, writes. destruct (Z.eqb_spec flag CB_RDONLY) as [-> |]; [by injection E1 as <-|].
    destruct (Z.eqb_spec flag CB_WRONLY) as [-> |]; [by injection E1 as <-|].
    destruct (flag =? CB_RDWR); [by injection E1 as <-|done]. }
  clear E1. apply res_bind_Ret_inv in E as (bytes & _ & E). injection E as <- _.
  assert (R ∪ W ⊆ rfds_ a ∪ wfds_ a) as Hsub by (unfold R, W; destruct (reads flag), (writes flag); set_solver).
  assert (p ∈ R ∪ W) as HpR by (unfold R; destruct (reads flag); set_solver).
  assert (forall y, y ∈ R ∪ W -> 0 <= y <= highfds_ a) as HRW by (intros y Hy; apply Hh, Hsub, Hy).
  constructor; simpl; rewrite ?wanted_snoc; simpl; [done|done| | | |].
  - destruct (reads flag), (writes flag); set_solver.
  - unfold R. rewrite Hr. destruct (reads flag); [set_solver|done].
  - unfold W. by rewrite Hw.
  - intros y Hy. destruct (_ && _); [|by apply HRW]. split; [by apply HRW|]. rewrite Hp.
    apply highest_spec; [done| |done|done]. specialize (HRW p HpR). lia.
Qed.

Lemma inv_reachable p tr a : reachable (init p) step tr a -> inv p tr a.
Proof.
  apply reachable_invariant.
  - intros a' Hn. unfold init, new, fd_ok in Hn. res_inv. subst a'. bool_prop.
    constructor; simpl; [done|lia|set_solver|set_solver|done|]. intros y Hy. assert (y = p) as -> by set_solver. lia.
  - intros tr0 a0 e a' Hi Hs. destruct Hs as [a0 fd flag a' Hne E|a0 fd flag a' gone Hne E|a0 f k a' r w E];
      [by eapply inv_watch|by eapply inv_unwatch|].
    assert (rfds_ a' = rfds_ a0 /\ wfds_ a' = wfds_ a0 /\ highfds_ a' = highfds_ a0 /\ pipefd_0 a' = pipefd_0 a0)
      as (E1 & E2 & E3 & E4).
    { unfold SelectAIO.wait_end in E. destruct k; [|by injection E as <- _ _|done].
      apply res_bind_Ret_inv in E as ([[b rd] wr] & _ & E). by injection E as <- _ _. }
    destruct Hi as [? ? ? ? ? ?]. constructor; rewrite ?wanted_snoc, ?E1, ?E2, ?E3, ?E4; simpl; done.
Qed.
End Select.

(** ** Instances of the interface *)
Section select.
Import SelectAIO.

Definition select_answer (s : fds) (k : report) : Prop :=
  match k with Ready r w => r ⊆ trfds s /\ w ⊆ twfds s | _ => True end.

Lemma select_watch_spec a fd flag ok a' x : SelectAIO.watch_fd a fd flag ok = Ret a' ->
  x ∈ rfds_ a' ∪ wfds_ a' -> x = fd \/ x ∈ rfds_ a ∪ wfds_ a.
Proof.
  intros E Hx. unfold SelectAIO.watch_fd, fd_ok in E. apply res_bind_Ret_inv in E as (? & _ & E).
  destruct (flag =? CB_RDONLY); [|destruct (flag =? CB_WRONLY)];
    apply res_bind_Ret_inv in E as (? & _ & E); injection E as <-; simpl in Hx; set_solver.
Qed.

Lemma select_unwatch_spec a fd flag ok a' gone : SelectAIO.unwatch_fd a fd flag ok = Ret (a', gone) ->
  (forall x, x ∈ rfds_ a' ∪ wfds_ a' -> x ∈ rfds_ a ∪ wfds_ a) /\
  (flag = CB_RDWR -> fd ∉ rfds_ a' ∪ wfds_ a').
Proof.
  intros E. unfold SelectAIO.unwatch_fd, fd_ok in E.
  apply res_bind_Ret_inv in E as (? & _ & E). apply res_bind_Ret_inv in E as ([r w] & Erw & E).
  apply res_bind_Ret_inv in E as (bytes & _ & E). injection E as <- _. simpl.
  destruct (Z.eqb_spec flag CB_RDONLY) as [-> |]; [|destruct (Z.eqb_spec flag CB_WRONLY) as [-> |];
    [|destruct (Z.eqb_spec flag CB_RDWR); [|done]]]; injection Erw as <- <-; (split; [set_solver|]); try done.
  intros _. set_solver.
Qed.

(** What the loop of [wait_ready] reports was ready. *)
Lemma ready_loop_sound p R W l : forall st b rd wr, foldl (ready_turn p R W) st l = Ret (b, rd, wr) ->
  exists b0 rd0 wr0, st = Ret (b0, rd0, wr0) /\
    (forall x, x ∈ rd -> x ∈ rd0 \/ x ∈ R) /\ (forall x, x ∈ wr -> x ∈ wr0 \/ x ∈ W).
Proof.
  induction l as [|y l IH]; intros st b rd wr E; simpl in E; [exists b, rd, wr; split_and!; auto|].
  apply IH in E as (b1 & rd1 & wr1 & E & Hr & Hw). unfold ready_turn, FD_ISSET in E.
  apply res_bind_Ret_inv in E as ([[b0 rd0] wr0] & -> & E). exists b0, rd0, wr0. split; [done|].
  destruct (_ && _).
  - apply res_bind_Ret_inv in E as (? & _ & E). injection E as _ <- <-. done.
  - injection E as _ <- <-. split; intros x Hx; [destruct (Hr x Hx)|destruct (Hw x Hx)]; try (by right);
      case_bool_decide; set_solver.
Qed.

Lemma select_end_spec a s k a' r w : SelectAIO.wait_end a s k = Ret (a', r, w) -> select_answer s k ->
  (forall x, (x ∈ r) \/ (x ∈ w) -> x ∈ trfds s ∪ twfds s \/ x ∈ rfds_ a ∪ wfds_ a) /\
  (forall x, x ∈ rfds_ a' ∪ wfds_ a' -> x ∈ rfds_ a ∪ wfds_ a).
Proof.
  intros E Hk. unfold SelectAIO.wait_end in E.
  destruct k as [R W| |]; [|injection E as <- <- <-; set_solver|done]. destruct Hk as [HR HW].
  apply res_bind_Ret_inv in E as ([[b rd] wr] & El & E). injection E as <- <- <-. split; [|done].
  apply ready_loop_sound in El as (b0 & rd0 & wr0 & E & Hr & Hw). injection E as <- <- <-.
  intros x [Hx|Hx]; [destruct (Hr x Hx) as [?|?]|destruct (Hw x Hx) as [?|?]]; set_solver.
Qed.

#[export] Instance aio_select_spec : AioSpec SelectAIO.t :=
  {| watched a x := x ∈ rfds_ a ∪ wfds_ a;
     in_snapshot (s : snapshot SelectAIO.t) x := x ∈ trfds s ∪ twfds s;
     answer_ok a s k := select_answer s k;
     watch_spec := select_watch_spec; unwatch_spec := select_unwatch_spec;
     begin_spec a x H := H; end_spec := select_end_spec |}.
End select.

Section epoll.
Import EPollAIO.

Lemma status_insert a fd st l x : status (EPoll (<[fd := st]> (fdstatus_ a)) l) x = if decide (x = fd) then st else status a x.
Proof.
  unfold status. simpl. destruct (decide (x = fd)) as [-> |]; [by rewrite lookup_insert_eq|by rewrite lookup_insert_ne].
Qed.

Lemma epoll_watch_spec a fd flag ok a' x : EPollAIO.watch_fd a fd flag ok = Ret a' ->
  status a' x <> 0 -> x = fd \/ status a x <> 0.
Proof.
  intros E Hx. unfold EPollAIO.watch_fd in E. apply res_bind_Ret_inv in E as (? & _ & E).
  apply res_bind_Ret_inv in E as (? & _ & E). apply res_bind_Ret_inv in E as (? & _ & E). injection E as <-.
  rewrite status_insert in Hx. destruct (decide (x = fd)); auto.
Qed.

Lemma epoll_unwatch_spec a fd flag ok a' gone : EPollAIO.unwatch_fd a fd flag ok = Ret (a', gone) ->
  (forall x, status a' x <> 0 -> status a x <> 0) /\ (flag = CB_RDWR -> ~ status a' fd <> 0).
Proof.
  intros E. unfold EPollAIO.unwatch_fd in E. apply res_bind_Ret_inv in E as (? & _ & E).
  apply res_bind_Ret_inv in E as (? & Hv & E). apply res_bind_Ret_inv in E as (? & _ & E). injection E as <- _.
  split.
  - intros y. rewrite status_insert. destruct (decide (y = fd)) as [-> |]; [|done]. intros H H0. by rewrite H0 in H.
  - intros ->. rewrite status_insert, decide_True by done. intros H. unfold VERIFY in Hv. simpl in Hv.
    by rewrite (proj2 (Z.eqb_neq _ _) H) in Hv.
Qed.

Lemma epoll_end_spec a (s : unit) k a' r w : EPollAIO.wait_end a s k = Ret (a', r, w) ->
  Forall (fun e => status a e.1 <> 0) k ->
  (forall x, (x ∈ r) \/ (x ∈ w) -> False \/ status a x <> 0) /\ (forall x, status a' x <> 0 -> status a x <> 0).
Proof.
  intros E Hk. injection E as <- <- <-. split; [|done]. rewrite Forall_forall in Hk.
  intros x [H|H]; right; apply list_elem_of_fmap in H as (e & -> & [_ H]%list_elem_of_filter); by apply Hk.
Qed.

#[export] Instance aio_epoll_spec : AioSpec EPollAIO.t :=
  {| watched a x := status a x <> 0;
     in_snapshot (s : snapshot EPollAIO.t) x := False;
     answer_ok a s k := Forall (fun e => status a e.1 <> 0) k;
     watch_spec := epoll_watch_spec; unwatch_spec := epoll_unwatch_spec;
     begin_spec a x H := match H with end; end_spec := epoll_end_spec |}.

(** [is_watched] masks with [CB_MASK], the complement of the flags: it never finds
    a descriptor that is watched to be so. *)
Theorem epoll_is_watched_fails a fd flag : 0 <= fd < MAX_POLL_FDS ->
  status a fd = CB_RDONLY \/ status a fd = CB_WRONLY \/ status a fd = CB_RDWR -> flag <> CB_NONE ->
  EPollAIO.is_watched a fd flag = Ret false.
Proof.
  intros Hfd Hst Hfl. unfold EPollAIO.is_watched, index_ok.
  rewrite VERIFY_true by (apply Z.ltb_lt; lia). rsimpl. rewrite defined_true by (apply Z.leb_le; lia). rsimpl.
  f_equal. apply Z.eqb_neq. unfold CB_NONE in Hfl.
  destruct Hst as [-> |[-> | ->]]; replace (Z.land _ CB_MASK) with 0 by reflexivity; congruence.
Qed.
End epoll.
