(* ===== verification/PollThms.v ===== *)
(** * The poll manager: descriptors that are removed stay quiet *)

From S2P Require Import Prelude Poll PollSpec.

(** ** The loop thread and the threads that register and remove

    [wait_loop] holds the mutex of the manager only at the start of a turn; a
    callback is looked up and called in two steps.  A thread in [block_remove_fd]
    waits for [changedone_c_] without a loop around the wait: [spurious] says
    whether waits may end on their own. *)
Section manager.
Context {A : Type} {AM : aio_mgr A} {AS : AioSpec A} (spurious : bool).
Implicit Types (p : PollMgr A).

Inductive loop_pc :=
  | LTop
  | LSnap
  | LWait (s : snapshot A)
  | LRun (todo : list Z)
  | LCalling (fd ch : Z) (todo : list Z).

(** The threads in [block_remove_fd]: the descriptor, and whether they were woken. *)
Record wsys := Wsys { pm : PollMgr A; lpc : loop_pc; removing : gmap Z (Z * bool) }.

Inductive wevent :=
  | EAdd (fd : Z)
  | EDel (fd : Z)
  | ERemoveCall (t fd : Z)
  | ERemoveRet (t fd : Z)
  | ECall (fd ch : Z)
  | ELoop
  | ESpurious (t : Z).

Inductive wstep : wsys -> wevent -> wsys -> Prop :=
  | ws_add p l m fd flag ch ok p' : add_callback p fd flag ch ok = Ret p' -> wstep (Wsys p l m) (EAdd fd) (Wsys p' l m)
  | ws_del p l m fd flag ok p' : del_callback p fd flag ok = Ret p' -> wstep (Wsys p l m) (EDel fd) (Wsys p' l m)
  | ws_remove_call p l m t fd ok p' : m !! t = None -> block_remove_begin p fd ok = Ret p' ->
      wstep (Wsys p l m) (ERemoveCall t fd) (Wsys p' l (<[t := (fd, false)]> m))
  | ws_remove_ret p l m t fd p' : m !! t = Some (fd, true) -> block_remove_end p fd = Ret p' ->
      wstep (Wsys p l m) (ERemoveRet t fd) (Wsys p' l (delete t m))
  | ws_top p m p' (changed : bool) : wait_loop_top p = (p', changed) ->
      wstep (Wsys p LTop m) ELoop (Wsys p' LSnap (if changed then (fun x => (x.1, true)) <$> m else m))
  | ws_snap p m : wstep (Wsys p LSnap m) ELoop (Wsys p (LWait (wait_begin (aio_ p))) m)
  | ws_ready p s m k a r w : answer_ok (aio_ p) s k -> wait_end (aio_ p) s k = Ret (a, r, w) ->
      wstep (Wsys p (LWait s) m) ELoop (Wsys (Poll (callbacks_ p) a (pending_change_ p)) (LRun (r ++ w)) m)
  | ws_call p m fd ch todo : wait_loop_cb p fd = Ret (Some ch) ->
      wstep (Wsys p (LRun (fd :: todo)) m) (ECall fd ch) (Wsys p (LCalling fd ch todo) m)
  | ws_skip p m fd todo : wait_loop_cb p fd = Ret None ->
      wstep (Wsys p (LRun (fd :: todo)) m) ELoop (Wsys p (LRun todo) m)
  | ws_return p m fd ch todo : wstep (Wsys p (LCalling fd ch todo) m) ELoop (Wsys p (LRun todo) m)
  | ws_done p m : wstep (Wsys p (LRun []) m) ELoop (Wsys p LTop m)
  | ws_spurious p l m t fd : spurious = true -> m !! t = Some (fd, false) ->
      wstep (Wsys p l m) (ESpurious t) (Wsys p l (<[t := (fd, true)]> m)).

Definition winit (s : wsys) : Prop := exists a, s = Wsys (PollMgr_new a) LTop ∅.

(** What a trace says of a descriptor: the threads removing it since it was last
    registered, and whether one of them is done. *)
Definition note (fd : Z) (st : gset Z * bool) (e : wevent) : gset Z * bool :=
  match e with
  | EAdd fd' => if decide (fd' = fd) then (∅, false) else st
  | ERemoveCall t fd' => if decide (fd' = fd) then ({[t]} ∪ st.1, st.2) else st
  | ERemoveRet t fd' => if decide (fd' = fd) then (st.1 ∖ {[t]}, st.2 || bool_decide (t ∈ st.1)) else st
  | _ => st
  end.
Definition noted (fd : Z) (tr : list wevent) : gset Z * bool := foldl (note fd) (∅, false) tr.
Definition removed (fd : Z) (tr : list wevent) : bool := (noted fd tr).2.

(** Is the descriptor on its way to a callback? *)
Definition inflight (l : loop_pc) (fd : Z) : Prop :=
  match l with
  | LTop | LSnap => False
  | LWait s => in_snapshot s fd
  | LRun todo => fd ∈ todo
  | LCalling fd' _ todo => fd' = fd \/ fd ∈ todo
  end.

Record quiet (fd : Z) (st : gset Z * bool) (s : wsys) : Prop := {
  qt_removing : forall t, t ∈ st.1 -> exists k, removing s !! t = Some (fd, k);
  qt_watched : st.2 = true \/ (exists t, t ∈ st.1) -> ~ watched (aio_ (pm s)) fd;
  qt_inflight : st.2 = true \/ (exists t, t ∈ st.1 /\ removing s !! t = Some (fd, true)) -> ~ inflight (lpc s) fd;
  qt_pending : forall t fd', removing s !! t = Some (fd', false) -> pending_change_ (pm s) = true }.

(** A step that watches nothing new, and puts nothing new on its way. *)
Lemma quiet_weaken fd st p l p' l' m : quiet fd st (Wsys p l m) ->
  (watched (aio_ p') fd -> watched (aio_ p) fd) -> pending_change_ p' = pending_change_ p ->
  (inflight l' fd -> inflight l fd \/ watched (aio_ p) fd) -> quiet fd st (Wsys p' l' m).
Proof.
  intros [Hr Hw Hi Hp] Hwp Hpp Hl. simpl in *. constructor; simpl; [done|by intros H ?%Hwp; by apply Hw| |by rewrite Hpp].
  intros H Hin. destruct (Hl Hin) as [?|Hwa]; [by apply Hi|]. apply (fun H' => Hw H' Hwa). destruct H as [?|(t & ? & _)]; eauto.
Qed.

Lemma add_aio p fd flag ch ok p' : add_callback p fd flag ch ok = Ret p' ->
  watch_fd (aio_ p) fd flag ok = Ret (aio_ p') /\ pending_change_ p' = pending_change_ p.
Proof.
  unfold add_callback. intros E. apply res_bind_Ret_inv in E as (? & _ & E).
  apply res_bind_Ret_inv in E as (a & Ea & E). apply res_bind_Ret_inv in E as (? & _ & E).
  apply res_bind_Ret_inv in E as (? & _ & E). by injection E as <-.
Qed.

Lemma del_aio p fd flag ok p' : del_callback p fd flag ok = Ret p' ->
  exists gone, unwatch_fd (aio_ p) fd flag ok = Ret (aio_ p', gone) /\ pending_change_ p' = pending_change_ p.
Proof.
  unfold del_callback. intros E. apply res_bind_Ret_inv in E as ([a gone] & Ea & E). exists gone.
  destruct gone; [apply res_bind_Ret_inv in E as (? & _ & E)|]; by injection E as <-.
Qed.

Lemma remove_aio p fd ok p' : block_remove_begin p fd ok = Ret p' ->
  exists gone, unwatch_fd (aio_ p) fd CB_RDWR ok = Ret (aio_ p', gone) /\ pending_change_ p' = true.
Proof.
  unfold block_remove_begin. intros E. apply res_bind_Ret_inv in E as ([a gone] & Ea & E). exists gone. by injection E as <-.
Qed.

Lemma remove_end_aio p fd p' : block_remove_end p fd = Ret p' ->
  aio_ p' = aio_ p /\ pending_change_ p' = pending_change_ p.
Proof. unfold block_remove_end. intros E. apply res_bind_Ret_inv in E as (? & _ & E). by injection E as <-. Qed.

Lemma quiet_add fd st p l m fd' flag ch ok p' : quiet fd st (Wsys p l m) -> add_callback p fd' flag ch ok = Ret p' ->
  quiet fd (note fd st (EAdd fd')) (Wsys p' l m).
Proof.
  intros Hq [Ea Ep]%add_aio. simpl. destruct (decide (fd' = fd)) as [-> |Hne].
  - constructor; simpl; [set_solver|intros [?|[? ?]]; set_solver|intros [?|(? & ? & _)]; set_solver|].
    rewrite Ep. by apply (qt_pending _ _ _ Hq).
  - eapply quiet_weaken; [done| |done|by left]. intros H. destruct (watch_spec _ _ _ _ _ _ Ea H); [congruence|done].
Qed.

Lemma quiet_remove_call fd st p l m t fd' ok p' : quiet fd st (Wsys p l m) -> m !! t = None ->
  block_remove_begin p fd' ok = Ret p' ->
  quiet fd (note fd st (ERemoveCall t fd')) (Wsys p' l (<[t := (fd', false)]> m)).
Proof.
  intros [Hr Hw Hi Hp] Ht (gone & Ea & Ep)%remove_aio. destruct (unwatch_spec _ _ _ _ _ _ Ea) as [Hsub Hgone].
  simpl in *. assert (t ∉ st.1) as Hnt by (intros [k ?]%Hr; congruence).
  assert (forall u, u ∈ st.1 -> <[t := (fd', false)]> m !! u = m !! u) as Hsame.
  { intros u Hu. apply lookup_insert_ne. by intros ->. }
  assert (st.2 = true \/ (exists u, u ∈ st.1 /\ <[t := (fd', false)]> m !! u = Some (fd, true)) -> ~ inflight l fd) as Hin.
  { intros [?|(u & Hu & E)]; apply Hi; [by left|right]. exists u. by rewrite <- Hsame. }
  destruct (decide (fd' = fd)) as [-> |Hne]; constructor; simpl.
  - intros u [->%elem_of_singleton|Hu]%elem_of_union; [exists false; by rewrite lookup_insert_eq|].
    rewrite Hsame by done. by apply Hr.
  - intros _. by apply Hgone.
  - intros [?|(u & [->%elem_of_singleton|Hu]%elem_of_union & E)]; [by apply Hin; left| |by apply Hin; eauto].
    by rewrite lookup_insert_eq in E.
  - done.
  - intros u Hu. rewrite Hsame by done. by apply Hr.
  - intros H Hx. apply (Hw H). by apply Hsub.
  - done.
  - done.
Qed.

Lemma quiet_remove_ret fd st p l m t fd' p' : quiet fd st (Wsys p l m) -> m !! t = Some (fd', true) ->
  block_remove_end p fd' = Ret p' -> quiet fd (note fd st (ERemoveRet t fd')) (Wsys p' l (delete t m)).
Proof.
  intros [Hr Hw Hi Hp] Ht [Ea Ep]%remove_end_aio. simpl in *.
  assert (forall u, u ∈ st.1 -> u <> t -> delete t m !! u = m !! u) as Hsame by (intros; by apply lookup_delete_ne).
  assert (forall u f, delete t m !! u = Some (f, false) -> pending_change_ p' = true) as Hpend.
  { intros u f [_ Hu]%lookup_delete_Some. rewrite Ep. by eapply Hp. }
  destruct (decide (fd' = fd)) as [-> |Hne]; constructor; simpl; rewrite ?Ea; try done.
  - intros u Hu. rewrite Hsame by set_solver. apply Hr. set_solver.
  - intros [[?|?%bool_decide_eq_true]%orb_true_iff|[u Hu]]; apply Hw; [by left|by right; exists t|right; exists u; set_solver].
  - intros [[?|?%bool_decide_eq_true]%orb_true_iff|(u & Hu & E)]; apply Hi; [by left|right; by exists t|right].
    exists u. rewrite Hsame in E by set_solver. set_solver.
  - intros u Hu. rewrite Hsame; [by apply Hr|done|]. intros ->. destruct (Hr t Hu). congruence.
  - intros [?|(u & Hu & E)]; apply Hi; [by left|right]. exists u. split; [done|]. by apply lookup_delete_Some in E as [_ E].
Qed.

Lemma quiet_top fd st p m p' (changed : bool) : quiet fd st (Wsys p LTop m) -> wait_loop_top p = (p', changed) ->
  quiet fd st (Wsys p' LSnap (if changed then (fun x => (x.1, true)) <$> m else m)).
Proof.
  intros [Hr Hw Hi Hp] E. simpl in *. unfold wait_loop_top in E.
  destruct (pending_change_ p) eqn:Ep; injection E as <- <-; constructor; simpl; try done; try tauto.
  - intros t Ht. destruct (Hr t Ht) as [k Hk]. exists true. rewrite lookup_fmap, Hk. done.
  - intros t fd'. rewrite lookup_fmap. by destruct (m !! t) as [[? ?]|].
  - intros t fd' H. specialize (Hp t fd' H). congruence.
Qed.

Lemma quiet_step fd st s e s' : spurious = false -> quiet fd st s -> wstep s e s' -> quiet fd (note fd st e) s'.
Proof.
  intros Hsp Hq Hs.
  destruct Hs as [p l m fd' flag ch ok p' E|p l m fd' flag ok p' E|p l m t fd' ok p' Ht E|p l m t fd' p' Ht E
    |p m p' changed E|p m|p sn m k a r w Hk E|p m fd' ch todo E|p m fd' todo E|p m fd' ch todo|p m|p l m t fd' Hsp'];
    [by eapply quiet_add| |by eapply quiet_remove_call|by eapply quiet_remove_ret|by eapply quiet_top| | | | | | |congruence];
    cbn [note].
  - apply del_aio in E as (gone & Ea & Ep). eapply quiet_weaken; [done| |done|by left].
    by apply (unwatch_spec _ _ _ _ _ _ Ea).
  - eapply quiet_weaken; [done|done|done|]. simpl. intros H. right. by apply begin_spec.
  - destruct (end_spec _ _ _ _ _ _ E Hk) as [Hx Hwa]. eapply quiet_weaken; [done|apply Hwa|done|].
    simpl. intros H. apply Hx. by apply elem_of_app.
  - eapply quiet_weaken; [done|done|done|]. simpl. intros [-> |H]; left; set_solver.
  - eapply quiet_weaken; [done|done|done|]. simpl. intros H. left. set_solver.
  - eapply quiet_weaken; [done|done|done|]. simpl. intros H. by left; right.
  - by eapply quiet_weaken.
Qed.

Lemma quiet_reachable fd tr s : spurious = false -> reachable winit wstep tr s -> quiet fd (noted fd tr) s.
Proof.
  intros Hsp. apply (reachable_invariant _ _ (fun tr s => quiet fd (noted fd tr) s)).
  - intros ? [a ->]. constructor; simpl; [set_solver|intros [?|[? ?]]; set_solver|tauto|by intros].
  - intros tr0 s0 e s' Hq Hs. unfold noted. rewrite foldl_app. by eapply quiet_step.
Qed.
End manager.

(** ** The guarantees *)

(** C32: [SelectAIO] watches exactly what it is asked to: after any sequence of
    [watch_fd], [unwatch_fd] and waits, the two sets given to [select] are those
    of the descriptors asked for (and the wake-up pipe), [is_watched] answers
    accordingly, and whatever of them [select] reports ready is returned, all of
    it, once each, and nothing else. *)
Theorem select_exact pipe tr a :
  reachable (Select.init pipe) Select.step tr a ->
  let '(R, W) := Select.wanted tr in
  (SelectAIO.rfds_ a = {[pipe]} ∪ R /\ SelectAIO.wfds_ a = W) /\
  (forall fd flag, 0 <= fd < SelectAIO.FD_SETSIZE -> fd <> pipe ->
     SelectAIO.is_watched a fd flag =
     Ret ((negb (Select.reads flag) || bool_decide (fd ∈ R)) && (negb (Select.writes flag) || bool_decide (fd ∈ W)))) /\
  (forall r w, r ⊆ {[pipe]} ∪ R -> w ⊆ W -> (pipe ∈ r -> 0 < SelectAIO.pipe_bytes a) ->
     exists a' rd wr,
       SelectAIO.wait_end a (SelectAIO.wait_begin a) (SelectAIO.Ready r w) = Ret (a', rd, wr) /\
       NoDup rd /\ NoDup wr /\ (forall x, x ∈ rd <-> x ∈ r /\ x <> pipe) /\ (forall x, x ∈ wr <-> x ∈ w)).
Proof.
  intros Hi%Select.inv_reachable. destruct Hi as [Hp Hr0 [Hf1 Hf2] Hr Hw Hh].
  destruct (Select.wanted tr) as [R W]. simpl in *. split_and!; [done|done| |].
  - intros fd flag Hfd Hne. unfold SelectAIO.is_watched, SelectAIO.fd_ok, Select.reads, Select.writes, SelectAIO.FD_ISSET.
    rewrite defined_true by (apply andb_true_iff; rewrite Z.leb_le, Z.ltb_lt; lia). rsimpl.
    assert (bool_decide (fd ∈ SelectAIO.rfds_ a) = bool_decide (fd ∈ R)) as ->.
    { apply bool_decide_ext. rewrite Hr. set_solver. }
    rewrite Hw. destruct (Z.eqb_spec flag CB_RDONLY) as [-> |]; [simpl; by rewrite andb_true_r|].
    by destruct (flag =? CB_WRONLY).
  - intros r w Hrr Hww Hb.
    assert (0 <= SelectAIO.highfds_ a) as Hpos.
    { enough (0 <= pipe <= SelectAIO.highfds_ a) by lia. apply Hh. rewrite Hr. set_solver. }
    assert (NoDup (seqZ 0 (SelectAIO.highfds_ a + 1))) as Hnd by apply NoDup_seqZ.
    assert (forall x, x ∈ r ∪ w -> x ∈ seqZ 0 (SelectAIO.highfds_ a + 1)) as Hin.
    { intros x Hx. apply elem_of_seqZ. enough (0 <= x <= SelectAIO.highfds_ a) by lia. apply Hh. set_solver. }
    destruct (Select.ready_loop pipe r w _ (SelectAIO.pipe_bytes a) [] [] Hnd) as [b' E]; [by intros _|].
    rewrite !app_nil_l in E. unfold SelectAIO.wait_end. rewrite Hp. simpl. rewrite E. rsimpl. eexists _, _, _. split; [reflexivity|].
    split_and!; [by apply NoDup_filter|by apply NoDup_filter| |]; intros x; rewrite list_elem_of_filter.
    + split; [by intros [? _]|]. intros [? ?]. split; [done|]. apply Hin. set_solver.
    + split; [by intros [[? _] _]|]. intros Hx. split_and!; [done| |apply Hin; set_solver]. intros [-> _]. set_solver.
Qed.


(** ** A concrete run: descriptor 5 is registered, becomes ready, is called back and removed *)
Module PollExample.
Import SelectAIO.

Definition a0 : t := Select {[3]} ∅ 3 3 0.
Definition a1 : t := match SelectAIO.watch_fd a0 5 CB_RDONLY true with Ret a => a | _ => a0 end.
Definition a2 : t := match SelectAIO.unwatch_fd a1 5 CB_RDWR true with Ret (a, _) => a | _ => a1 end.

(** C32, witness: descriptor 5 is watched to read, and reported. *)
Lemma select_exact_witness : SelectAIO.is_watched a1 5 CB_RDONLY = Ret true /\
  exists a' rd wr, SelectAIO.wait_end a1 (SelectAIO.wait_begin a1) (Ready {[5]} ∅) = Ret (a', rd, wr) /\
    (forall x, x ∈ rd <-> x ∈ ({[5]} : gset Z) /\ x <> 3).
Proof.
  assert (reachable (Select.init 3) Select.step [Select.SWatch 5 CB_RDONLY] a1) as Hr.
  { apply (reach_step _ _ [] a0); [by constructor|]. by apply Select.ss_watch. }
  destruct (select_exact 3 _ a1 Hr) as (_ & Hw & Hk). split.
  - rewrite (Hw 5 CB_RDONLY); [reflexivity|by vm_compute|done].
  - destruct (Hk {[5]} ∅) as (a' & rd & wr & E & _ & _ & Hrd & _); [set_solver|set_solver|set_solver|].
    exists a', rd, wr. by split.
Defined.

Definition p0 : PollMgr t := PollMgr_new a0.
Definition p1 : PollMgr t := Poll (<[5 := 42]> ∅) a1 false.
Definition p2 : PollMgr t := Poll (<[5 := 42]> ∅) a2 true.
Definition p3 : PollMgr t := Poll (delete 5 (<[5 := 42]> ∅)) a2 true.
Definition p2' : PollMgr t := Poll (<[5 := 42]> ∅) a2 false.
Definition p3' : PollMgr t := Poll (delete 5 (<[5 := 42]> ∅)) a2 false.
Definition taken (b : bool) : gmap Z (Z * bool) := <[1 := (5, b)]> ∅.

(** The removal waits for the turn of the loop that is under way. *)
Definition quiet_run : list (wevent * wsys (A := t)) :=
  [(EAdd 5, Wsys p1 LTop ∅);
   (ERemoveCall 1 5, Wsys p2 LTop (taken false));
   (ELoop, Wsys p2' LSnap ((fun x => (x.1, true)) <$> taken false));
   (ERemoveRet 1 5, Wsys p3' LSnap (delete 1 ((fun x => (x.1, true)) <$> taken false)))].

Lemma quiet_run_ok :
  reachable winit (wstep false) quiet_run.*1 (Wsys p3' LSnap (delete 1 ((fun x => (x.1, true)) <$> taken false))).
Proof.
  apply (reachable_runs _ _ [] (Wsys p0 LTop ∅) quiet_run); [constructor; by exists a0|].
  unfold quiet_run. cbn [runs]. split_and!; [| | | |done].
  - by eapply (ws_add _ p0 LTop ∅ 5 CB_RDONLY 42 true).
  - by eapply (ws_remove_call _ p1 LTop ∅ 1 5 true).
  - by eapply (ws_top _ p2 (taken false) p2' true).
  - by eapply ws_remove_ret.
Qed.


(** [block_remove_fd] does not check why its wait ended.  With a wait that ends on
    its own, it returns while the callback of the descriptor is running. *)
Definition spurious_run : list (wevent * wsys (A := t)) :=
  [(EAdd 5, Wsys p1 LTop ∅);
   (ELoop, Wsys p1 LSnap ∅);
   (ELoop, Wsys p1 (LWait (A := t) (SelectAIO.wait_begin a1)) ∅);
   (ELoop, Wsys p1 (LRun [5]) ∅);
   (ECall 5 42, Wsys p1 (LCalling 5 42 []) ∅);
   (ERemoveCall 1 5, Wsys p2 (LCalling 5 42 []) (taken false));
   (ESpurious 1, Wsys p2 (LCalling 5 42 []) (<[1 := (5, true)]> (taken false)));
   (ERemoveRet 1 5, Wsys p3 (LCalling 5 42 []) (delete 1 (<[1 := (5, true)]> (taken false))))].

Theorem spurious_wakeup_breaks_removal :
  exists s : wsys (A := t), reachable winit (wstep true) spurious_run.*1 s /\ removed 5 spurious_run.*1 = true /\ lpc s = LCalling 5 42 [].
Proof.
  eexists. split; [|split; [vm_compute; reflexivity|]].
  - apply (reachable_runs _ _ [] (Wsys p0 LTop ∅) spurious_run); [constructor; by exists a0|].
    unfold spurious_run. cbn [runs]. split_and!; [| | | | | | | |done].
    + by eapply (ws_add _ p0 LTop ∅ 5 CB_RDONLY 42 true).
    + by eapply (ws_top _ p1 ∅ p1 false).
    + exact (ws_snap (A := t) true p1 ∅).
    + refine (ws_ready (A := t) (AM := aio_select) (AS := aio_select_spec) true p1 _ ∅ (Ready {[5]} ∅) a1 [5] [] _ _);
        [split; set_solver|vm_compute; reflexivity].
    + by apply ws_call.
    + by eapply (ws_remove_call _ p1 _ ∅ 1 5 true).
    + by apply ws_spurious.
    + by eapply ws_remove_ret.
  - reflexivity.
Qed.
End PollExample.
