(* ===== verification/LockServers.v ===== *)
(** * The lock servers: [lock_server.cc] and [lock_server_cache.cc]

    Every operation runs under a mutex of the server.  [None] as the outcome of an
    operation means that the calling thread is left waiting. *)

From S2P Require Import Prelude.

(** ** lock_protocol.h *)
Module lock_protocol.
Definition OK : Z := 0.
Definition RETRY : Z := 1.
Definition RPCERR : Z := 2.
Definition NOENT : Z := 3.
Definition IOERR : Z := 4.
Definition acquire : Z := 28673.    (* 0x7001 *)
Definition release : Z := 28674.
Definition attach : Z := 28675.
Definition unattach : Z := 28676.
Definition stat : Z := 28677.
Definition revoke : Z := 32769.     (* rlock_protocol: 0x8001 *)
Definition retry : Z := 32770.
End lock_protocol.

(** ** class lock_server *)
Module lock_server.

(** [threadStatusMap] is a [map<int,int>]: its keys are lock ids cut to 32 bits. *)
Record t := Mk { nacquire : Z; threadStatusMap : gmap Z Z }.

Definition new : t := Mk 0 ∅.

Definition stat (s : t) (clt lid : Z) : Z * Z := (lock_protocol.OK, nacquire s).

(** [lock_server::acquire], one turn: [None] is the wait on [statusCheckCond]
    while the lock is taken; a woken thread runs the turn again. *)
Definition acquire (s : t) (clt lid : Z) : option (t * Z) :=
  let k := s32 lid in
  match threadStatusMap s !! k with
  | Some v =>
      if v =? 0 then Some (Mk (nacquire s) (<[k := 1]> (threadStatusMap s)), lock_protocol.OK)
      else if v =? 1 then None
      else Some (Mk (nacquire s) (<[k := 1]> (threadStatusMap s)), lock_protocol.OK)
  | None => Some (Mk (nacquire s) (<[k := 1]> (threadStatusMap s)), lock_protocol.OK)
  end.

Definition release (s : t) (clt lid : Z) : t * Z :=
  let k := s32 lid in
  match threadStatusMap s !! k with
  | Some v =>
      if v =? 1 then (Mk (nacquire s) (<[k := 0]> (threadStatusMap s)), lock_protocol.OK)
      else (s, lock_protocol.NOENT)
  | None => (s, lock_protocol.NOENT)
  end.

End lock_server.

(** ** class lock_server_cache *)
Module lock_server_cache.

(** The values of [status]. *)
Inductive status_t := OPEN | LOCKED.

#[global] Instance status_eq_dec : EqDecision status_t.
Proof. solve_decision. Defined.

(** [struct lock_status]. *)
Record Lock_status := LockStatus {
  status : status_t;
  waiting_client : list str;
  lock_client : str;
  revoke_map : gmap str bool }.

(** [revoke_map[id]]: false when absent. *)
Definition revoked (l : Lock_status) (id : str) : bool := default false (revoke_map l !! id).

(** [struct lock_client]: whom to call about which lock. *)
Definition Lock_client : Type := str * Z.

(** [statusMutex] is true when some thread has left it locked for good. *)
Record t := Mk {
  statusMutex : bool;
  lock_status_map : gmap Z Lock_status;
  retry_list : list Lock_client;
  revoke_list : list Lock_client;
  client_map : gset str }.

Definition new : t := Mk false ∅ [] [] ∅.

Definition set_lock (s : t) (lid : Z) (l : Lock_status) (retries revokes : list Lock_client) : t :=
  Mk (statusMutex s) (<[lid := l]> (lock_status_map s)) retries revokes (client_map s).

(** [lock_server_cache::acquire(lid, id, r)]. *)
Definition acquire (s : t) (lid : Z) (id : str) : option (t * Z) :=
  if statusMutex s then None
  else
    match lock_status_map s !! lid with
    | Some l =>
        match status l with
        | OPEN =>
            if bool_decide (waiting_client l <> []) then
              Some (set_lock s lid (LockStatus LOCKED (waiting_client l) id (<[id := true]> (revoke_map l)))
                      (retry_list s) (revoke_list s ++ [(id, lid)]), lock_protocol.OK)
            else
              Some (set_lock s lid (LockStatus LOCKED (waiting_client l) id (<[id := false]> (revoke_map l)))
                      (retry_list s) (revoke_list s), lock_protocol.OK)
        | LOCKED =>
            let holder := lock_client l in
            let '(rm, revokes) :=
              if negb (revoked l holder)
              then (<[holder := true]> (revoke_map l), revoke_list s ++ [(holder, lid)])
              else (revoke_map l, revoke_list s) in
            Some (set_lock s lid (LockStatus LOCKED (waiting_client l ++ [id]) holder rm)
                    (retry_list s) revokes, lock_protocol.RETRY)
        end
    | None =>
        Some (set_lock s lid (LockStatus LOCKED [] id {[id := false]}) (retry_list s) (revoke_list s),
              lock_protocol.OK)
    end.

(** [lock_server_cache::release(lid, id, r)]: the first branch locks
    [statusMutex] and returns with it.  [ret] is what the uninitialised result
    holds when the lock is not locked. *)
Definition release (s : t) (lid : Z) (id : str) (ret : Z) : option (t * Z) :=
  match lock_status_map s !! lid with
  | Some l =>
      match status l with
      | OPEN => Some (s, ret)
      | LOCKED =>
          if statusMutex s then None
          else
            let rm := <[id := false]> (revoke_map l) in
            match waiting_client l with
            | [] =>
                Some (Mk true (<[lid := LockStatus OPEN [] [] rm]> (lock_status_map s))
                        (retry_list s) (revoke_list s) (client_map s), lock_protocol.OK)
            | waiting_clnt :: rest =>
                Some (set_lock s lid (LockStatus OPEN rest [] rm)
                        (retry_list s ++ [(waiting_clnt, lid)]) (revoke_list s), lock_protocol.OK)
            end
      end
  | None => Some (s, ret)
  end.

(** [attach] and [unattach]; the latter locks [statusMutex] a second time
    instead of unlocking it. *)
Definition attach (s : t) (id : str) : option (t * Z) :=
  if statusMutex s then None
  else Some (Mk false (lock_status_map s) (retry_list s) (revoke_list s) ({[id]} ∪ client_map s),
             lock_protocol.OK).
Definition unattach (s : t) (id : str) : option (t * Z) := None.

(** [stat]; [nacquire] is never set. *)
Definition stat (s : t) (nacquire lid : Z) : t * Z * Z := (s, lock_protocol.OK, nacquire).

(** One turn of the [revoker] and [retryer] threads: whom they call, and the list
    after [pop_front]. *)
Definition revoker (s : t) : option (Lock_client * t) :=
  match revoke_list s with
  | [] => None
  | x :: rest => Some (x, Mk (statusMutex s) (lock_status_map s) (retry_list s) rest (client_map s))
  end.
Definition retryer (s : t) : option (Lock_client * t) :=
  match retry_list s with
  | [] => None
  | x :: rest => Some (x, Mk (statusMutex s) (lock_status_map s) rest (revoke_list s) (client_map s))
  end.

End lock_server_cache.
