(* ===== verification/Threads.v ===== *)
(** * Threads: [method_thread.h], and two small programs that use them

    [method_thread] passes an object, a method and its arguments to a new thread
    in a wrapper on the heap, which the thread frees.  The second part is the
    program [pthreadCondition.c], two counting threads and one that waits for the
    count; the third is [lock_demo.cc]. *)

From S2P Require Import Prelude LockServers.

(** ** method_thread.h *)
Section method_thread.
Context {O M V : Type}.

(** The wrapper [XXX]: the object, the method, and none to three arguments. *)
Record XXX := Wrapper { x_o : O; x_m : M; x_args : list V }.
Definition mcall : Type := O * M * list V.
Definition mcall_of (x : XXX) : mcall := (x_o x, x_m x, x_args x).

(** The wrappers on the heap, and the threads that [pthread_create] has made and
    that have not begun, with the argument they were given. *)
Record tstate := Tstate { wrappers : gmap Z XXX; fresh_threads : gmap Z Z }.

(** [err] and [derr] are what [pthread_create] and [pthread_detach] return; an
    error of the first ends the program. *)
Definition method_thread_parent (s : tstate) (arg : Z) (detach : bool) (err derr th : Z) : res (tstate * Z) :=
  if negb (err =? 0) then Abort
  else
    let s := Tstate (wrappers s) (<[th := arg]> (fresh_threads s)) in
    _ ← (if detach then VERIFY (derr =? 0) else Ret tt);
    Ret (s, th).

(** [pthread_setcancelstate] and [pthread_setcanceltype]. *)
Definition method_thread_child (e1 e2 : Z) : res unit :=
  _ ← VERIFY (e1 =? 0);
  VERIFY (e2 =? 0).

(** [new XXX] returned the pointer [x]. *)
Definition start_with (s : tstate) (x : Z) (w : XXX) (detach : bool) (err derr th : Z) : res (tstate * Z) :=
  method_thread_parent (Tstate (<[x := w]> (wrappers s)) (fresh_threads s)) x detach err derr th.

Definition method_thread_0 (s : tstate) (x : Z) (o : O) (detach : bool) (m : M) := start_with s x (Wrapper o m []) detach.
Definition method_thread_1 (s : tstate) (x : Z) (o : O) (detach : bool) (m : M) (a : V) :=
  start_with s x (Wrapper o m [a]) detach.
Definition method_thread_2 (s : tstate) (x : Z) (o : O) (detach : bool) (m : M) (a1 a2 : V) :=
  start_with s x (Wrapper o m [a1; a2]) detach.
Definition method_thread_3 (s : tstate) (x : Z) (o : O) (detach : bool) (m : M) (a1 a2 a3 : V) :=
  start_with s x (Wrapper o m [a1; a2; a3]) detach.

(** The thread begins: it reads the wrapper, frees it and makes the call. *)
Definition yyy (s : tstate) (th : Z) (e1 e2 : Z) : res (tstate * mcall) :=
  match fresh_threads s !! th with
  | None => Undef
  | Some x =>
      match wrappers s !! x with
      | None => Undef
      | Some w =>
          let s := Tstate (delete x (wrappers s)) (delete th (fresh_threads s)) in
          _ ← method_thread_child e1 e2;
          Ret (s, mcall_of w)
      end
  end.

(** Threads are started and begin in any order; thread ids are used again. *)
Inductive mevent := MStart (c : mcall) | MRun (c : mcall).

Inductive mstep : tstate -> mevent -> tstate -> Prop :=
  | ms_0 s x o detach m derr th s' :
      wrappers s !! x = None -> fresh_threads s !! th = None ->
      method_thread_0 s x o detach m 0 derr th = Ret (s', th) -> mstep s (MStart (o, m, [])) s'
  | ms_1 s x o detach m a derr th s' :
      wrappers s !! x = None -> fresh_threads s !! th = None ->
      method_thread_1 s x o detach m a 0 derr th = Ret (s', th) -> mstep s (MStart (o, m, [a])) s'
  | ms_2 s x o detach m a1 a2 derr th s' :
      wrappers s !! x = None -> fresh_threads s !! th = None ->
      method_thread_2 s x o detach m a1 a2 0 derr th = Ret (s', th) -> mstep s (MStart (o, m, [a1; a2])) s'
  | ms_3 s x o detach m a1 a2 a3 derr th s' :
      wrappers s !! x = None -> fresh_threads s !! th = None ->
      method_thread_3 s x o detach m a1 a2 a3 0 derr th = Ret (s', th) -> mstep s (MStart (o, m, [a1; a2; a3])) s'
  | ms_run s th s' c :
      yyy s th 0 0 = Ret (s', c) -> mstep s (MRun c) s'.

Definition minit (s : tstate) : Prop := s = Tstate ∅ ∅.

Definition starts (tr : list mevent) : list mcall := omap (fun e => match e with MStart c => Some c | _ => None end) tr.
Definition runs_of (tr : list mevent) : list mcall := omap (fun e => match e with MRun c => Some c | _ => None end) tr.

(** The calls that threads which have not begun will make. *)
Definition waiting_calls (s : tstate) : list mcall := mcall_of <$> (map_to_list (wrappers s)).*2.

(** Each new thread has a wrapper of its own, and each wrapper a thread. *)
Record minv (tr : list mevent) (s : tstate) : Prop := {
  mi_there : forall th x, fresh_threads s !! th = Some x -> is_Some (wrappers s !! x);
  mi_one : forall th th' x, fresh_threads s !! th = Some x -> fresh_threads s !! th' = Some x -> th = th';
  mi_used : forall x, is_Some (wrappers s !! x) -> exists th, fresh_threads s !! th = Some x;
  mi_calls : starts tr ≡ₚ runs_of tr ++ waiting_calls s }.

Lemma start_inv tr s x w detach derr th s' :
  minv tr s -> wrappers s !! x = None -> fresh_threads s !! th = None ->
  start_with s x w detach 0 derr th = Ret (s', th) -> minv (tr ++ [MStart (mcall_of w)]) s'.
Proof.
  intros [H1 H2 H3 H4] Hx Hth E. unfold start_with, method_thread_parent in E. cbn [Z.eqb negb] in E.
  assert (s' = Tstate (<[x := w]> (wrappers s)) (<[th := x]> (fresh_threads s))) as ->.
  { destruct detach; [|by injection E as <-]. destruct (derr =? 0); [|done]. by injection E as <-. }
  split; simpl.
  - intros th' x'. rewrite !lookup_insert_Some, lookup_insert_is_Some. intros [[_ <-]|[_ Ht]]; [by left|].
    destruct (decide (x = x')); [by left|right; split; [done|by eapply H1]].
  - intros t1 t2 x'. rewrite !lookup_insert_Some. intros [[<- <-]|[N1 E1]] [[<- E2]|[N2 E2]]; [done|..].
    + apply H1 in E2 as [? E2]. congruence.
    + subst x'. apply H1 in E1 as [? E1]. congruence.
    + by eapply H2.
  - intros x' Hx'. apply lookup_insert_is_Some in Hx' as [<-|[Hne Hx']]; [exists th; by rewrite lookup_insert_eq|].
    destruct (H3 x' Hx') as [t Ht]. exists t. rewrite lookup_insert_ne; [done|]. congruence.
  - unfold starts, runs_of, waiting_calls. rewrite !omap_app. simpl. rewrite app_nil_r.
    rewrite map_to_list_insert by done. cbn [fmap list_fmap fst snd]. rewrite <- Permutation_middle, app_nil_r.
    rewrite <- Permutation_middle. by constructor.
Qed.

Lemma run_inv tr s th s' c : minv tr s -> yyy s th 0 0 = Ret (s', c) -> minv (tr ++ [MRun c]) s'.
Proof.
  intros [H1 H2 H3 H4] E. unfold yyy in E. destruct (fresh_threads s !! th) as [x|] eqn:Et; [|done].
  destruct (wrappers s !! x) as [w|] eqn:Ex; [|done]. injection E as <- <-. split; simpl.
  - intros th' x' [Hne Ht]%lookup_delete_Some. rewrite lookup_delete_ne; [by eapply H1|]. intros ->. by destruct Hne; apply (H2 th th' x').
  - intros t1 t2 x' [_ E1]%lookup_delete_Some [_ E2]%lookup_delete_Some. by eapply H2.
  - intros x' [w' [Hne Hx']%lookup_delete_Some]. destruct (H3 x' ltac:(by eexists)) as [t Ht]. exists t.
    rewrite lookup_delete_ne; [done|]. congruence.
  - unfold starts, runs_of, waiting_calls in *. rewrite !omap_app. simpl. rewrite app_nil_r, H4, <- app_assoc. simpl.
    f_equiv. by rewrite <- (map_to_list_delete (wrappers s) x w Ex).
Qed.

Lemma minv_reachable tr s : reachable minit mstep tr s -> minv tr s.
Proof.
  apply reachable_invariant; clear tr s.
  - intros s ->. split; simpl; try done. intros x [? Hx]. by rewrite lookup_empty in Hx.
  - intros tr s e s' Hi Hs. destruct Hs as [s x o d m derr th s' Hx Ht E|s x o d m a derr th s' Hx Ht E
      |s x o d m a1 a2 derr th s' Hx Ht E|s x o d m a1 a2 a3 derr th s' Hx Ht E|s th s' c E].
    + by apply (start_inv tr s x (Wrapper o m []) d derr th).
    + by apply (start_inv tr s x (Wrapper o m [a]) d derr th).
    + by apply (start_inv tr s x (Wrapper o m [a1; a2]) d derr th).
    + by apply (start_inv tr s x (Wrapper o m [a1; a2; a3]) d derr th).
    + by eapply run_inv.
Qed.

(** [method_thread] runs what it is given: however the creation of threads and
    their beginnings interleave, a thread that begins finds its wrapper, the calls
    made are calls asked for, each at most once and with its own object and
    arguments, and when every thread has begun each was made exactly once and no
    wrapper is left on the heap. *)
Theorem method_thread_runs tr s :
  reachable minit mstep tr s ->
  (forall th, is_Some (fresh_threads s !! th) -> exists s' c, yyy s th 0 0 = Ret (s', c)) /\
  (exists rest, starts tr ≡ₚ runs_of tr ++ rest) /\
  (fresh_threads s = ∅ -> starts tr ≡ₚ runs_of tr /\ wrappers s = ∅).
Proof.
  intros Hr. apply minv_reachable in Hr as [H1 H2 H3 H4]. split; [|split].
  - intros th [x Ht]. destruct (H1 th x Ht) as [w Hw]. unfold yyy. rewrite Ht, Hw. rsimpl. by do 2 eexists.
  - eauto.
  - intros He. assert (wrappers s = ∅) as Hw.
    { apply map_empty. intros x. destruct (wrappers s !! x) eqn:Ex; [|done].
      destruct (H3 x ltac:(by eexists)) as [th Ht]. by rewrite He, lookup_empty in Ht. }
    split; [|done]. unfold waiting_calls in H4. by rewrite Hw, map_to_list_empty, app_nil_r in H4.
Qed.
End method_thread.

Arguments Wrapper {O M V} _ _ _.
Arguments Tstate {O M V} _ _.

Module ThreadsExample.
Definition s1 : tstate (O := Z) (M := Z) (V := Z) := Tstate {[100 := Wrapper 7 8 [9]]} {[1 := 100]}.
Definition s2 : tstate (O := Z) (M := Z) (V := Z) := Tstate ∅ ∅.
Definition events : list (mevent (O := Z) (M := Z) (V := Z)) := [MStart (7, 8, [9]); MRun (7, 8, [9])].

Lemma events_run : reachable minit mstep events s2.
Proof.
  apply (reach_step _ _ [MStart (7, 8, [9])] s1); [apply (reach_step _ _ [] s2); [by constructor|]|].
  - apply (ms_1 s2 100 7 true 8 9 0 1); vm_compute; reflexivity.
  - apply (ms_run s1 1). vm_compute. reflexivity.
Qed.

(** One thread is started and begins. *)
Lemma method_thread_runs_witness : starts events ≡ₚ runs_of events /\ wrappers s2 = ∅.
Proof. exact (proj2 (proj2 (method_thread_runs events s2 events_run)) eq_refl). Defined.
End ThreadsExample.

(** ** pthreadCondition.c *)
Module pthreadCondition.
Definition TCOUNT : nat := 10.
Definition COUNT_LIMIT : Z := 12.

(** The watching thread: not begun, in [pthread_cond_wait], woken, or done. *)
Inductive watcher := NotBegun | Waiting | Woken | Done.
#[global] Instance watcher_eq_dec : EqDecision watcher.
Proof. solve_decision. Defined.

(** [todo1] and [todo2] are the turns the two counting threads have left. *)
Record t := Mk { count : Z; watch : watcher; todo1 : nat; todo2 : nat }.

(** A turn of the loop of [inc_count], under the mutex. *)
Definition inc_turn (count : Z) (w : watcher) : Z * watcher :=
  let count := count + 1 in
  if count =? COUNT_LIMIT then (count, if bool_decide (w = Waiting) then Woken else w) else (count, w).

(** The test of the loop of [watch_count]. *)
Definition watch_test (count : Z) : watcher := if count <? COUNT_LIMIT then Waiting else Done.

Inductive step : t -> unit -> t -> Prop :=
  | inc1 c w n1 n2 : step (Mk c w (S n1) n2) tt (Mk (inc_turn c w).1 (inc_turn c w).2 n1 n2)
  | inc2 c w n1 n2 : step (Mk c w n1 (S n2)) tt (Mk (inc_turn c w).1 (inc_turn c w).2 n1 n2)
  | watch_begins c n1 n2 : step (Mk c NotBegun n1 n2) tt (Mk c (watch_test c) n1 n2)
  | wakes_up c n1 n2 : step (Mk c Woken n1 n2) tt (Mk (c + 125) (watch_test (c + 125)) n1 n2)
  | spurious c n1 n2 : step (Mk c Waiting n1 n2) tt (Mk c Woken n1 n2).

Definition init (s : t) : Prop := s = Mk 0 NotBegun TCOUNT TCOUNT.

Definition counted (s : t) : Z := 20 - Z.of_nat (todo1 s) - Z.of_nat (todo2 s).

Definition inv (s : t) : Prop :=
  (todo1 s <= 10 /\ todo2 s <= 10)%nat /\
  match watch s with
  | NotBegun | Woken => count s = counted s
  | Waiting => count s = counted s /\ count s < COUNT_LIMIT
  | Done => count s = counted s \/ count s = counted s + 125
  end.

Lemma inc_inv c w n1 n2 n1' n2' :
  inv (Mk c w n1 n2) -> (n1' <= n1 /\ n2' <= n2)%nat -> (n1' + n2' + 1 = n1 + n2)%nat ->
  inv (Mk (inc_turn c w).1 (inc_turn c w).2 n1' n2').
Proof.
  unfold inv, counted, inc_turn. simpl. intros [Hn Hw] Hle Hs.
  destruct (Z.eqb_spec (c + 1) COUNT_LIMIT) as [E|E]; cbn [fst snd]; (split; [lia|]); unfold COUNT_LIMIT in *.
  - destruct w; [rewrite bool_decide_eq_false_2 by done|rewrite bool_decide_eq_true_2 by done
      |rewrite bool_decide_eq_false_2 by done|rewrite bool_decide_eq_false_2 by done]; lia.
  - destruct w; lia.
Qed.

Lemma count_inv_reachable tr s : reachable init step tr s -> inv s.
Proof.
  apply (reachable_invariant init step (fun _ => inv)); clear tr s.
  - intros s ->. by split.
  - intros tr s e s' Hi Hs. destruct Hs as [c w n1 n2|c w n1 n2|c n1 n2|c n1 n2|c n1 n2].
    + eapply inc_inv; [exact Hi|lia|lia].
    + eapply inc_inv; [exact Hi|lia|lia].
    + revert Hi. unfold inv, watch_test, counted. simpl. intros [Hn Hw]. split; [done|].
      destruct (Z.ltb_spec c COUNT_LIMIT); auto.
    + revert Hi. unfold inv, watch_test, counted. simpl. intros [Hn Hw]. split; [done|].
      destruct (Z.ltb_spec (c + 125) COUNT_LIMIT); unfold COUNT_LIMIT in *; lia.
    + revert Hi. unfold inv, counted. simpl. intros [Hn Hw]. split; [done|]. lia.
Qed.

(** No wake-up is lost: when the counting threads are done and the watching thread
    has no step left that the program takes, it is done too, and the count is 20,
    or 145 when it had waited. *)
Theorem count_final tr s :
  reachable init step tr s -> todo1 s = 0%nat -> todo2 s = 0%nat -> watch s <> NotBegun -> watch s <> Woken ->
  watch s = Done /\ (count s = 20 \/ count s = 145).
Proof.
  intros Hr H1 H2 Hn Hw. apply count_inv_reachable in Hr as [_ Hr]. unfold counted in Hr. rewrite H1, H2 in Hr.
  unfold COUNT_LIMIT in Hr. destruct (watch s); [done|lia|done|]. split; [done|lia].
Qed.
End pthreadCondition.

(** ** lock_demo.cc *)
Module lock_demo.
(** The calls of [main], each answered by the lock server; [None] when a call does
    not return.  [clt] is the number of the client. *)
Definition main (s : lock_server.t) (clt : Z) : option (lock_server.t * list Z) :=
  '(s, r1) ← lock_server.acquire s clt 1;
  '(s, r2) ← lock_server.acquire s clt 1;
  let '(s, r3) := lock_server.release s clt 1 in
  '(s, r4) ← lock_server.acquire s clt 2;
  let '(s, r5) := lock_server.release s clt 1 in
  let '(s, r6) := lock_server.release s clt 2 in
  Some (s, [r1; r2; r3; r4; r5; r6]).

(** The demo stops at its second call: the only thread waits for the lock it
    holds. *)
Theorem demo_blocks clt : main lock_server.new clt = None.
Proof. reflexivity. Qed.
End lock_demo.
