(* ===== verification/LockClient.v ===== *)
(** * The caching lock client: [lock_client_cache.cc]

    Each client keeps a status per lock, under the mutex [lockMap], which is held
    during its calls to the server.  A thread in [acquire] waits on a condition
    variable between turns; the turns are the definitions below, with the
    server's answer as an argument where a turn calls it. *)

From S2P Require Import Prelude LockServers.

Module lock_client_cache.

Inductive lock_st := NONE | FREE | LOCKED | ACQUIRING | RELEASING.

#[global] Instance lock_st_eq_dec : EqDecision lock_st.
Proof. solve_decision. Defined.

Record t := Mk {
  lock_map : gmap Z lock_st;
  retry_map : gmap Z bool;
  revoke_list : list Z;
  revokerThreadStatus : bool }.

Definition new : t := Mk ∅ ∅ [] false.

Definition set_status (c : t) (lid : Z) (st : lock_st) : t :=
  Mk (<[lid := st]> (lock_map c)) (retry_map c) (revoke_list c) (revokerThreadStatus c).
Definition set_retry (c : t) (lid : Z) (b : bool) : t :=
  Mk (lock_map c) (<[lid := b]> (retry_map c)) (revoke_list c) (revokerThreadStatus c).

(** What a thread inside [acquire(lid)] does next: it has the lock, waits on
    [lock_check_cond] (and will look at the status again), or waits on
    [retry_check_cond] in the inner loop. *)
Inductive next := Acquired | WaitStatus | WaitRetry.

(** The first part of [acquire]: the lock gets an entry. *)
Definition acquire_enter (c : t) (lid : Z) : t :=
  match lock_map c !! lid with
  | None => set_retry (set_status c lid NONE) lid false
  | Some _ => c
  end.

(** Does a turn of the outer loop call the server? *)
Definition must_call (c : t) (lid : Z) : bool := bool_decide (lock_map c !! lid = Some NONE).

(** One turn of [while(1)]; [answer] is what the server's [acquire] returned, used
    when the status is [NONE].  A null entry would be dereferenced: [Undef]. *)
Definition acquire_turn (c : t) (lid : Z) (answer : Z) : res (t * next) :=
  match lock_map c !! lid with
  | None => Undef
  | Some NONE =>
      if answer =? lock_protocol.OK then Ret (set_status c lid LOCKED, Acquired)
      else if answer =? lock_protocol.RETRY then Ret (set_status c lid ACQUIRING, WaitRetry)
      else Ret (c, Acquired)
  | Some FREE => Ret (set_status c lid LOCKED, Acquired)
  | Some _ => Ret (c, WaitStatus)
  end.

(** Has a retry arrived?  Then a turn of the inner loop calls the server. *)
Definition retry_arrived (c : t) (lid : Z) : bool := default false (retry_map c !! lid).

(** One turn of [while(server_lock_status == RETRY)]. *)
Definition retry_turn (c : t) (lid : Z) (answer : Z) : t * next :=
  let c := set_status c lid ACQUIRING in
  if retry_arrived c lid then
    if answer =? lock_protocol.OK then (set_retry (set_status c lid LOCKED) lid false, Acquired)
    else
      let c := set_retry c lid false in
      if answer =? lock_protocol.RETRY then (c, WaitRetry) else (c, Acquired)
  else (c, WaitRetry).

(** [lock_client_cache::release]. *)
Definition release (c : t) (lid : Z) : res t :=
  match lock_map c !! lid with
  | None => Undef
  | Some _ =>
      if bool_decide (lid ∈ revoke_list c)
      then Ret (Mk (<[lid := RELEASING]> (lock_map c)) (retry_map c) (revoke_list c) true)
      else Ret (set_status c lid FREE)
  end.

(** [revoke_handler] and [retry_handler]. *)
Definition revoke_handler (c : t) (lid : Z) : res t :=
  match lock_map c !! lid with
  | None => Undef
  | Some FREE => Ret (Mk (<[lid := RELEASING]> (lock_map c)) (retry_map c) (revoke_list c ++ [lid]) true)
  | Some _ => Ret (Mk (lock_map c) (retry_map c) (revoke_list c ++ [lid]) (revokerThreadStatus c))
  end.
Definition retry_handler (c : t) (lid : Z) : t := set_retry c lid true.

(** The scan of [releaser]: the first revoked lock that is [RELEASING], the list
    without it; an entry without status is dereferenced. *)
Fixpoint releaser_scan (m : gmap Z lock_st) (l : list Z) : res (option (Z * list Z)) :=
  match l with
  | [] => Ret None
  | lid :: l' =>
      match m !! lid with
      | None => Undef
      | Some RELEASING => Ret (Some (lid, l'))
      | Some _ =>
          r ← releaser_scan m l';
          Ret match r with Some (x, rest) => Some (x, lid :: rest) | None => None end
      end
  end.

(** One turn of the [releaser] thread: the lock to give back to the server (after
    [lu->dorelease]), if any. *)
Definition releaser (c : t) : res (t * option Z) :=
  r ← releaser_scan (lock_map c) (revoke_list c);
  match r with
  | Some (lid, rest) =>
      Ret (Mk (<[lid := NONE]> (lock_map c)) (retry_map c) rest false, Some lid)
  | None => Ret (Mk (lock_map c) (retry_map c) (revoke_list c) false, None)
  end.

(** The destructor gives back every lock, in the order of their numbers, and calls
    [unattach], which must succeed: the locks released, and the state left. *)
Definition destroy (c : t) (unattach : Z) : res (t * list Z) :=
  let held := filter (fun x => x.2 <> NONE) (map_to_list (lock_map c)) in
  _ ← VERIFY (unattach =? lock_protocol.OK);
  Ret (Mk ((fun _ => NONE) <$> lock_map c) (retry_map c) (revoke_list c) (revokerThreadStatus c),
       merge_sort Z.le held.*1).

End lock_client_cache.
