(* ===== verification/LockSystem.v ===== *)
(** * The lock service: caching clients and their server

    The machine interleaves, one critical section at a time, the threads that
    call [acquire] and [release] on any number of clients, the clients' releaser
    threads, and the server's revoker and retryer threads.  A client holds its
    mutex during a call to the server, so a call is part of the turn that makes
    it. *)

From S2P Require Import Prelude LockServers LockClient.

Module Srv := lock_server_cache.
Module Clt := lock_client_cache.

(** A thread inside [acquire(lid)], in its inner loop, or holding the lock. *)
Inductive pc := Trying (lid : Z) | Retrying (lid : Z) | Holding (lid : Z).

Record sys := Sys {
  server : Srv.t;
  clients : gmap str Clt.t;
  threads : gmap (str * Z) pc }.

Definition pc_after (lid : Z) (n : Clt.next) : pc :=
  match n with
  | Clt.Acquired => Holding lid
  | Clt.WaitStatus => Trying lid
  | Clt.WaitRetry => Retrying lid
  end.

(** The server's answer, when the turn asks for it. *)
Definition ask (must : bool) (s : Srv.t) (lid : Z) (id : str) : option (Srv.t * Z) :=
  if must then Srv.acquire s lid id else Some (s, 0).

Definition sys_init (s : sys) : Prop :=
  server s = Srv.new /\ clients s = ∅ /\ threads s = ∅.

(** A step gives a lock back to the server, or does anything else. *)
Inductive levent := LOther | LGiveBack (id : str) (lid : Z).

Inductive lock_step : sys -> levent -> sys -> Prop :=
  | ls_attach s cs ts id s' r :
      cs !! id = None -> Srv.attach s id = Some (s', r) ->
      lock_step (Sys s cs ts) LOther (Sys s' (<[id := Clt.new]> cs) ts)
  | ls_enter s cs ts id c t lid :
      cs !! id = Some c -> ts !! (id, t) = None ->
      lock_step (Sys s cs ts) LOther
        (Sys s (<[id := Clt.acquire_enter c lid]> cs) (<[(id, t) := Trying lid]> ts))
  | ls_turn s cs ts id c t lid s' answer c' n :
      cs !! id = Some c -> ts !! (id, t) = Some (Trying lid) ->
      ask (Clt.must_call c lid) s lid id = Some (s', answer) ->
      Clt.acquire_turn c lid answer = Ret (c', n) ->
      lock_step (Sys s cs ts) LOther (Sys s' (<[id := c']> cs) (<[(id, t) := pc_after lid n]> ts))
  | ls_retry_turn s cs ts id c t lid s' answer c' n :
      cs !! id = Some c -> ts !! (id, t) = Some (Retrying lid) ->
      ask (Clt.retry_arrived c lid) s lid id = Some (s', answer) ->
      Clt.retry_turn c lid answer = (c', n) ->
      lock_step (Sys s cs ts) LOther (Sys s' (<[id := c']> cs) (<[(id, t) := pc_after lid n]> ts))
  | ls_release s cs ts id c t lid c' :
      cs !! id = Some c -> ts !! (id, t) = Some (Holding lid) ->
      Clt.release c lid = Ret c' ->
      lock_step (Sys s cs ts) LOther (Sys s (<[id := c']> cs) (delete (id, t) ts))
  | ls_revoke s cs ts id lid c s' c' :
      Srv.revoker s = Some ((id, lid), s') -> cs !! id = Some c ->
      Clt.revoke_handler c lid = Ret c' ->
      lock_step (Sys s cs ts) LOther (Sys s' (<[id := c']> cs) ts)
  | ls_retry s cs ts id lid c s' :
      Srv.retryer s = Some ((id, lid), s') -> cs !! id = Some c ->
      lock_step (Sys s cs ts) LOther (Sys s' (<[id := Clt.retry_handler c lid]> cs) ts)
  | ls_releaser_idle s cs ts id c c' :
      cs !! id = Some c -> Clt.releaser c = Ret (c', None) ->
      lock_step (Sys s cs ts) LOther (Sys s (<[id := c']> cs) ts)
  | ls_releaser s cs ts id c c' lid ret s' r :
      cs !! id = Some c -> Clt.releaser c = Ret (c', Some lid) ->
      Srv.release s lid id ret = Some (s', r) ->
      lock_step (Sys s cs ts) (LGiveBack id lid) (Sys s' (<[id := c']> cs) ts).

(** ** Counting *)

Definition cnt {A} `{EqDecision A} (x : A) (l : list A) : nat := length (filter (fun y => y = x) l).

Lemma cnt_app {A} `{EqDecision A} (x : A) l l' : cnt x (l ++ l') = (cnt x l + cnt x l')%nat.
Proof. unfold cnt. by rewrite filter_app, length_app. Qed.

Lemma cnt_cons {A} `{EqDecision A} (x y : A) l :
  cnt x (y :: l) = ((if decide (y = x) then 1 else 0) + cnt x l)%nat.
Proof. unfold cnt. rewrite filter_cons. by case_decide. Qed.

Lemma cnt_singleton {A} `{EqDecision A} (x y : A) :
  cnt x [y] = (if decide (y = x) then 1 else 0)%nat.
Proof. rewrite cnt_cons. unfold cnt. simpl. lia. Qed.

Lemma cnt_elem {A} `{EqDecision A} (x : A) l : x ∈ l -> (1 <= cnt x l)%nat.
Proof.
  intros (l1 & l2 & ->)%list_elem_of_split. rewrite cnt_app, cnt_cons, decide_True by done. lia.
Qed.

(** ** The server alone *)

(** A revoke has been issued to the holder exactly when somebody waits, and to
    nobody else. *)
Record lock_ok (l : Srv.Lock_status) : Prop := {
  lo_waiting : Srv.status l = Srv.LOCKED ->
    (Srv.revoked l (Srv.lock_client l) = true <-> Srv.waiting_client l <> []);
  lo_revoked : forall id, Srv.revoked l id = true ->
    Srv.status l = Srv.LOCKED /\ id = Srv.lock_client l }.

Definition held_by (s : Srv.t) (lid : Z) (id : str) : Prop :=
  exists l, Srv.lock_status_map s !! lid = Some l /\ Srv.status l = Srv.LOCKED /\ Srv.lock_client l = id.

Definition revoked_now (s : Srv.t) (id : str) (lid : Z) : bool :=
  match Srv.lock_status_map s !! lid with Some l => Srv.revoked l id | None => false end.

Definition srv_ok (s : Srv.t) : Prop :=
  Srv.statusMutex s = false /\ forall lid l, Srv.lock_status_map s !! lid = Some l -> lock_ok l.

Lemma revoked_insert l st w h id b id' :
  Srv.revoked (Srv.LockStatus st w h (<[id := b]> (Srv.revoke_map l))) id' =
  if decide (id = id') then b else Srv.revoked l id'.
Proof.
  unfold Srv.revoked. simpl. case_decide; [subst; by rewrite lookup_insert_eq|].
  by rewrite lookup_insert_ne.
Qed.

(** What an acquire does: it grants a free lock, or queues the caller behind the
    holder; every revoke it issues is queued. *)
Record acquire_post (s s' : Srv.t) (lid : Z) (id : str) (answer : Z) : Prop := {
  ap_ok : srv_ok s';
  ap_other : forall lid', lid' <> lid ->
    Srv.lock_status_map s' !! lid' = Srv.lock_status_map s !! lid';
  ap_answer : (answer = lock_protocol.OK /\ (forall h, ~ held_by s lid h) /\ (forall h, held_by s' lid h <-> h = id)) \/
    (answer = lock_protocol.RETRY /\ exists h0, forall h, (held_by s lid h <-> h = h0) /\ (held_by s' lid h <-> h = h0));
  ap_balance : forall id' lid',
    (cnt (id', lid') (Srv.revoke_list s') + Nat.b2n (revoked_now s id' lid') =
     cnt (id', lid') (Srv.revoke_list s) + Nat.b2n (revoked_now s' id' lid'))%nat }.

Lemma held_by_insert s lid l lid' h rt rv :
  held_by (Srv.set_lock s lid l rt rv) lid' h <->
  if decide (lid = lid') then Srv.status l = Srv.LOCKED /\ Srv.lock_client l = h else held_by s lid' h.
Proof.
  unfold held_by, Srv.set_lock. simpl. case_decide as E.
  - subst. rewrite lookup_insert_eq. split; [by intros (? & [= <-] & ?)|eauto].
  - by rewrite lookup_insert_ne.
Qed.

Lemma revoked_now_insert s lid l rt rv id' lid' :
  revoked_now (Srv.set_lock s lid l rt rv) id' lid' =
  if decide (lid = lid') then Srv.revoked l id' else revoked_now s id' lid'.
Proof.
  unfold revoked_now, Srv.set_lock. simpl. case_decide as E.
  - subst. by rewrite lookup_insert_eq.
  - by rewrite lookup_insert_ne.
Qed.

Lemma srv_ok_insert s lid l rt rv : srv_ok s -> lock_ok l -> srv_ok (Srv.set_lock s lid l rt rv).
Proof.
  intros [Hm Hl] Hok. split; [done|]. simpl. intros lid' l'. rewrite lookup_insert_Some.
  intros [[_ <-]|[_ E]]; eauto.
Qed.

Lemma not_held_open s lid l h :
  Srv.lock_status_map s !! lid = Some l -> Srv.status l = Srv.OPEN -> ~ held_by s lid h.
Proof. intros El Eo (l' & El' & Es & _). congruence. Qed.

Lemma set_lock_other s lid l rt rv lid' : lid' <> lid ->
  Srv.lock_status_map (Srv.set_lock s lid l rt rv) !! lid' = Srv.lock_status_map s !! lid'.
Proof. intros Hne. simpl. by rewrite lookup_insert_ne. Qed.

(** A lock nobody asked for yet, an open one, and one that is held. *)
Lemma acquire_fresh_spec s lid id : srv_ok s -> Srv.lock_status_map s !! lid = None ->
  exists s' answer, Srv.acquire s lid id = Some (s', answer) /\ acquire_post s s' lid id answer.
Proof.
  intros Hs El. pose proof Hs as [Hm _]. unfold Srv.acquire. rewrite Hm, El. do 2 eexists. split; [reflexivity|]. split.
  - apply srv_ok_insert; [done|]. split; simpl.
    + intros _. unfold Srv.revoked. simpl. rewrite lookup_singleton_eq. naive_solver.
    + intros i. unfold Srv.revoked. simpl. rewrite lookup_singleton. case_decide; by simpl.
  - by apply set_lock_other.
  - left. split; [done|]. split; [intros h (l' & El' & _); congruence|].
    intros h. rewrite held_by_insert, decide_True by done. simpl. naive_solver.
  - intros i lid'. rewrite revoked_now_insert. simpl. unfold revoked_now at 1.
    case_decide; [subst; rewrite El|unfold revoked_now; lia].
    unfold Srv.revoked. simpl. rewrite lookup_singleton. case_decide; simpl; lia.
Qed.

Lemma acquire_open_spec s lid id l : srv_ok s -> Srv.lock_status_map s !! lid = Some l -> Srv.status l = Srv.OPEN ->
  exists s' answer, Srv.acquire s lid id = Some (s', answer) /\ acquire_post s s' lid id answer.
Proof.
  intros Hs El Es. pose proof Hs as [Hm Hl]. specialize (Hl lid l El). unfold Srv.acquire. rewrite Hm, El, Es.
  assert (forall i, Srv.revoked l i = false) as Hnr.
  { intros i. destruct (Srv.revoked l i) eqn:Ei; [|done]. apply (lo_revoked _ Hl) in Ei as [Ei _]. congruence. }
  case_bool_decide as Ew; do 2 eexists; (split; [reflexivity|]); split; try (by apply set_lock_other);
    try (left; split; [done|]; split; [intros h; by eapply not_held_open|];
         intros h; rewrite held_by_insert, decide_True by done; simpl; naive_solver).
  - apply srv_ok_insert; [done|]. split.
    + intros _. rewrite revoked_insert. simpl. by rewrite decide_True.
    + intros i. rewrite revoked_insert. simpl. case_decide; [by subst|by rewrite Hnr].
  - intros i lid'. rewrite revoked_now_insert, revoked_insert. simpl. rewrite cnt_app, cnt_singleton.
    unfold revoked_now at 1. repeat case_decide; simplify_eq; rewrite ?El, ?Hnr; unfold revoked_now; simpl; lia.
  - apply srv_ok_insert; [done|]. split.
    + intros _. rewrite revoked_insert. simpl. rewrite decide_True by done. naive_solver.
    + intros i. rewrite revoked_insert. simpl. case_decide; [done|by rewrite Hnr].
  - intros i lid'. rewrite revoked_now_insert, revoked_insert. simpl.
    unfold revoked_now at 1. case_decide; [subst; rewrite El, Hnr|unfold revoked_now; lia].
    case_decide; rewrite ?Hnr; lia.
Qed.

Lemma acquire_locked_spec s lid id l : srv_ok s -> Srv.lock_status_map s !! lid = Some l -> Srv.status l = Srv.LOCKED ->
  exists s' answer, Srv.acquire s lid id = Some (s', answer) /\ acquire_post s s' lid id answer.
Proof.
  intros Hs El Es. pose proof Hs as [Hm Hl]. specialize (Hl lid l El). unfold Srv.acquire. rewrite Hm, El, Es.
  set (h0 := Srv.lock_client l).
  assert (forall h, held_by s lid h <-> h = h0) as Hh0.
  { intros h. split; [intros (l' & El' & _ & <-); rewrite El in El'; by injection El' as ->|intros ->; by exists l]. }
  destruct (Srv.revoked l h0) eqn:Er; cbn [negb]; do 2 eexists; (split; [reflexivity|]); split;
    try (by apply set_lock_other);
    try (right; split; [done|]; exists h0; intros h; split; [done|];
         rewrite held_by_insert, decide_True by done; simpl; naive_solver).
  - apply srv_ok_insert; [done|]. split; simpl.
    + intros _. split; [intros _; by destruct (Srv.waiting_client l)|done].
    + intros i Hi. by apply (lo_revoked _ Hl) in Hi as [_ ->].
  - intros i lid'. rewrite revoked_now_insert. simpl. unfold revoked_now at 1. case_decide; [subst; by rewrite El|done].
  - apply srv_ok_insert; [done|]. split; simpl.
    + intros _. rewrite revoked_insert, decide_True by done. split; [intros _; by destruct (Srv.waiting_client l)|done].
    + intros i. rewrite revoked_insert. case_decide; [by subst|]. intros Hi. by apply (lo_revoked _ Hl) in Hi as [_ ->].
  - intros i lid'. rewrite revoked_now_insert, revoked_insert. simpl. rewrite cnt_app, cnt_singleton.
    unfold revoked_now at 1. repeat case_decide; simplify_eq; rewrite ?El, ?Er; unfold revoked_now; simpl; lia.
Qed.

Lemma acquire_spec s lid id :
  srv_ok s -> exists s' answer, Srv.acquire s lid id = Some (s', answer) /\ acquire_post s s' lid id answer.
Proof.
  intros Hs. destruct (Srv.lock_status_map s !! lid) as [l|] eqn:El; [destruct (Srv.status l) eqn:Es|];
    eauto using acquire_fresh_spec, acquire_open_spec, acquire_locked_spec.
Qed.

(** A release by the holder, when somebody waits: the lock is open, the mutex
    free again, and the holder's revoke used up. *)
Lemma release_spec s lid id ret s' r :
  srv_ok s -> held_by s lid id -> revoked_now s id lid = true -> Srv.release s lid id ret = Some (s', r) ->
  srv_ok s' /\ (forall lid', lid' <> lid -> Srv.lock_status_map s' !! lid' = Srv.lock_status_map s !! lid') /\
  (forall h, ~ held_by s' lid h) /\ Srv.revoke_list s' = Srv.revoke_list s /\
  (forall id', revoked_now s' id' lid = false).
Proof.
  intros Hs (l & El & Es & Ec) Hr E. pose proof Hs as [Hm Hl]. specialize (Hl lid l El).
  unfold revoked_now in Hr. rewrite El in Hr. unfold Srv.release in E. rewrite El, Es, Hm in E.
  assert (Srv.waiting_client l <> []) as Hw.
  { apply (lo_waiting _ Hl); [done|]. by rewrite Ec. }
  destruct (Srv.waiting_client l) as [|w rest]; [done|]. injection E as <- _.
  assert (forall id', Srv.revoked (Srv.LockStatus Srv.OPEN rest [] (<[id := false]> (Srv.revoke_map l))) id' = false)
    as Hnr.
  { intros id'. rewrite revoked_insert. case_decide as Ei; [done|].
    destruct (Srv.revoked l id') eqn:Er; [|done]. apply (lo_revoked _ Hl) in Er as [_ ->]. congruence. }
  split_and!.
  - apply srv_ok_insert; [done|]. split; [done|]. intros id'. by rewrite Hnr.
  - intros lid' Hne. simpl. by rewrite lookup_insert_ne.
  - intros h. rewrite held_by_insert, decide_True by done. by intros [? _].
  - done.
  - intros id'. rewrite revoked_now_insert, decide_True by done. apply Hnr.
Qed.

(** ** The whole system *)

Definition cst (s : sys) (id : str) (lid : Z) : option Clt.lock_st :=
  match clients s !! id with Some c => Clt.lock_map c !! lid | None => None end.

(** The client has the lock cached. *)
Definition cached (st : option Clt.lock_st) : Prop :=
  st = Some Clt.FREE \/ st = Some Clt.LOCKED \/ st = Some Clt.RELEASING.

(** Revokes of the lock that the client has not honoured yet. *)
Definition pending (s : sys) (id : str) (lid : Z) : nat :=
  (cnt (id, lid) (Srv.revoke_list (server s)) +
   match clients s !! id with Some c => cnt lid (Clt.revoke_list c) | None => 0 end)%nat.

Definition pc_ok (s : sys) (id : str) (p : pc) : Prop :=
  match p with
  | Trying lid => is_Some (cst s id lid)
  | Retrying lid => cst s id lid = Some Clt.ACQUIRING
  | Holding lid => cst s id lid = Some Clt.LOCKED
  end.

(** The lock a thread has claimed from its client. *)
Definition claims (p : pc) (lid : Z) : Prop := p = Retrying lid \/ p = Holding lid.

Record lock_inv (s : sys) : Prop := {
  li_srv : srv_ok (server s);
  li_agree : forall id lid, cached (cst s id lid) <-> held_by (server s) lid id;
  li_pending : forall id lid, pending s id lid = Nat.b2n (revoked_now (server s) id lid);
  li_pc : forall id t p, threads s !! (id, t) = Some p -> pc_ok s id p;
  li_unique : forall id t t' p p' lid, threads s !! (id, t) = Some p -> threads s !! (id, t') = Some p' ->
    claims p lid -> claims p' lid -> t = t' }.

Lemma cst_insert s cs ts id c id' lid :
  cst (Sys s (<[id := c]> cs) ts) id' lid =
  if decide (id = id') then Clt.lock_map c !! lid else cst (Sys s cs ts) id' lid.
Proof.
  unfold cst. simpl. case_decide as E; [subst; by rewrite lookup_insert_eq|by rewrite lookup_insert_ne].
Qed.

Lemma pending_insert s cs ts id c id' lid :
  pending (Sys s (<[id := c]> cs) ts) id' lid =
  if decide (id = id') then (cnt (id', lid) (Srv.revoke_list s) + cnt lid (Clt.revoke_list c))%nat
  else pending (Sys s cs ts) id' lid.
Proof.
  unfold pending. simpl. case_decide as E; [subst; by rewrite lookup_insert_eq|by rewrite lookup_insert_ne].
Qed.

(** ** The threads of one client *)

Definition pc_on (m : gmap Z Clt.lock_st) (p : pc) : Prop :=
  match p with
  | Trying lid => is_Some (m !! lid)
  | Retrying lid => m !! lid = Some Clt.ACQUIRING
  | Holding lid => m !! lid = Some Clt.LOCKED
  end.

Definition pc_lid (p : pc) : Z := match p with Trying l | Retrying l | Holding l => l end.

Record threads_ok (m : gmap Z Clt.lock_st) (ts : gmap (str * Z) pc) (id : str) : Prop := {
  to_pc : forall t p, ts !! (id, t) = Some p -> pc_on m p;
  to_unique : forall t t' p p' lid, ts !! (id, t) = Some p -> ts !! (id, t') = Some p' ->
    claims p lid -> claims p' lid -> t = t' }.

Lemma claims_status m ts id t p lid :
  threads_ok m ts id -> ts !! (id, t) = Some p -> claims p lid ->
  m !! lid = Some Clt.LOCKED \/ m !! lid = Some Clt.ACQUIRING.
Proof. intros [Hp _] Ht [-> | ->]; apply Hp in Ht; simpl in Ht; auto. Qed.

(** The status of one lock changes, together with the thread that owns or claims
    it; the lock must not be claimed by another thread. *)
Lemma threads_ok_status m ts id lid st :
  threads_ok m ts id -> is_Some (m !! lid) -> (forall t p, ts !! (id, t) = Some p -> ~ claims p lid) ->
  threads_ok (<[lid := st]> m) ts id.
Proof.
  intros [Hp Hu] Hs Hn. split; [|done]. intros t p Ht. pose proof (Hp t p Ht) as Hok.
  destruct (decide (lid = pc_lid p)) as [->|Hne].
  - destruct p as [l|l|l]; simpl; [rewrite lookup_insert_eq; eauto| |].
    + destruct (Hn t _ Ht). by left.
    + destruct (Hn t _ Ht). by right.
  - destruct p as [l|l|l]; simpl in *; by rewrite lookup_insert_ne.
Qed.

Lemma threads_ok_delete m ts id t : threads_ok m ts id -> threads_ok m (delete (id, t) ts) id.
Proof.
  intros [Hp Hu]. split.
  - intros t' p. rewrite lookup_delete_Some. intros [_ ?]. eauto.
  - intros t1 t2 p p' lid. rewrite !lookup_delete_Some. intros [_ ?] [_ ?]. eauto.
Qed.

Lemma threads_ok_insert m ts id t p :
  threads_ok m ts id -> pc_on m p ->
  (forall t' p' lid, t' <> t -> ts !! (id, t') = Some p' -> claims p lid -> ~ claims p' lid) ->
  threads_ok m (<[(id, t) := p]> ts) id.
Proof.
  intros [Hp Hu] Hok Hn. split.
  - intros t' p'. rewrite lookup_insert_Some. intros [[_ <-]|[_ ?]]; eauto.
  - intros t1 t2 p1 p2 lid. rewrite !lookup_insert_Some.
    intros [[E1 <-]|[_ ?]] [[E2 <-]|[_ ?]] Hc1 Hc2; simplify_eq; [done| | |by eauto].
    + destruct (decide (t2 = t1)); [done|]. by destruct (Hn t2 p2 lid).
    + destruct (decide (t1 = t2)); [done|]. by destruct (Hn t1 p1 lid).
Qed.

(** Thread [t] moves to [p] while its lock takes status [st]. *)
Lemma threads_ok_move m ts id t p0 p st :
  threads_ok m ts id -> ts !! (id, t) = Some p0 -> pc_lid p0 = pc_lid p -> is_Some (m !! pc_lid p) ->
  claims p0 (pc_lid p) \/ (m !! pc_lid p <> Some Clt.LOCKED /\ m !! pc_lid p <> Some Clt.ACQUIRING) ->
  pc_on (<[pc_lid p := st]> m) p ->
  threads_ok (<[pc_lid p := st]> m) (<[(id, t) := p]> ts) id.
Proof.
  intros Hok Ht El Hs Hc Hp.
  assert (forall t' p', t' <> t -> ts !! (id, t') = Some p' -> ~ claims p' (pc_lid p)) as Hn.
  { intros t' p' Hne Ht' Hcl. destruct Hc as [Hc|[H1 H2]].
    - apply Hne. by apply (to_unique _ _ _ Hok t' t p' p0 (pc_lid p)).
    - destruct (claims_status _ _ _ _ _ _ Hok Ht' Hcl); congruence. }
  rewrite <- (insert_delete_eq ts). apply threads_ok_insert; [|done|].
  - apply threads_ok_status; [by apply threads_ok_delete|done|]. intros t' p'.
    rewrite lookup_delete_Some. intros [Hne Ht']. apply (Hn t'); congruence.
  - intros t' p' lid' Hne. rewrite lookup_delete_Some. intros [_ Ht'] Hcl.
    assert (lid' = pc_lid p) as -> by (by destruct Hcl as [-> | ->]). by apply (Hn t').
Qed.

Lemma inv_threads s id c :
  lock_inv s -> clients s !! id = Some c -> threads_ok (Clt.lock_map c) (threads s) id.
Proof.
  intros Hi Hc. split.
  - intros t p Ht. apply (li_pc _ Hi) in Ht. unfold pc_ok, cst in Ht. by rewrite Hc in Ht.
  - intros t t' p p' lid. apply (li_unique _ Hi).
Qed.

(** A step of one client, with the server's part of it: what must be checked. *)
Lemma inv_step s s' cs ts ts' id c c' lid :
  lock_inv (Sys s cs ts) -> cs !! id = Some c ->
  (forall lid', lid' <> lid -> Clt.lock_map c' !! lid' = Clt.lock_map c !! lid') ->
  srv_ok s' ->
  (forall lid' h, (lid', h) <> (lid, id) -> held_by s' lid' h <-> held_by s lid' h) ->
  (cached (Clt.lock_map c' !! lid) <-> held_by s' lid id) ->
  (forall id' lid', let own c := if decide (id = id') then cnt lid' (Clt.revoke_list c) else 0%nat in
     (cnt (id', lid') (Srv.revoke_list s') + Nat.b2n (revoked_now s id' lid') + own c' =
      cnt (id', lid') (Srv.revoke_list s) + Nat.b2n (revoked_now s' id' lid') + own c)%nat) ->
  threads_ok (Clt.lock_map c') ts' id ->
  (forall id' t, id' <> id -> ts' !! (id', t) = ts !! (id', t)) ->
  lock_inv (Sys s' (<[id := c']> cs) ts').
Proof.
  intros Hi Hc Hmap Hsrv Hheld Hcached Hbal Hth Hts.
  assert (forall id' lid', (lid', id') <> (lid, id) ->
    cst (Sys s' (<[id := c']> cs) ts') id' lid' = cst (Sys s cs ts) id' lid') as Hcst.
  { intros id' lid' Hne. rewrite cst_insert. unfold cst. simpl. case_decide; [subst id'|done].
    rewrite Hc. apply Hmap. congruence. }
  split; simpl.
  - done.
  - intros id' lid'. destruct (decide ((lid', id') = (lid, id))) as [[= -> ->]|Hne].
    + rewrite cst_insert, decide_True by done. done.
    + rewrite Hcst, Hheld by done. apply (li_agree _ Hi).
  - intros id' lid'. pose proof (li_pending _ Hi id' lid') as Hp. simpl in Hp.
    specialize (Hbal id' lid'). cbv beta zeta in Hbal. rewrite pending_insert. unfold pending in *. simpl in *.
    case_decide; [subst id'; rewrite Hc in Hp|]; lia.
  - intros id' t p Ht. destruct (decide (id' = id)) as [->|Hne].
    + apply (to_pc _ _ _ Hth) in Ht. unfold pc_ok. destruct p; rewrite cst_insert, decide_True by done; done.
    + rewrite Hts in Ht by done. apply (li_pc _ Hi) in Ht. unfold pc_ok in *.
      destruct p; rewrite Hcst by congruence; done.
  - intros id' t t' p p' lid' H1 H2. destruct (decide (id' = id)) as [->|Hne].
    + by apply (to_unique _ _ _ Hth).
    + rewrite Hts in H1, H2 by done. by apply (li_unique _ Hi id').
Qed.

Lemma cached_cases : cached (Some Clt.FREE) /\ cached (Some Clt.LOCKED) /\ cached (Some Clt.RELEASING) /\
  ~ cached (Some Clt.NONE) /\ ~ cached (Some Clt.ACQUIRING) /\ ~ cached None.
Proof. unfold cached. naive_solver. Qed.

(** The client's own view of the lock agrees with the server's. *)
Lemma inv_cached s id c lid :
  lock_inv s -> clients s !! id = Some c ->
  cached (Clt.lock_map c !! lid) <-> held_by (server s) lid id.
Proof. intros Hi Hc. rewrite <- (li_agree _ Hi). unfold cst. by rewrite Hc. Qed.

(** A step in which the server does not take part. *)
Lemma inv_local s cs ts ts' id c c' lid :
  lock_inv (Sys s cs ts) -> cs !! id = Some c ->
  (forall lid', lid' <> lid -> Clt.lock_map c' !! lid' = Clt.lock_map c !! lid') ->
  (cached (Clt.lock_map c' !! lid) <-> cached (Clt.lock_map c !! lid)) ->
  Clt.revoke_list c' = Clt.revoke_list c ->
  threads_ok (Clt.lock_map c') ts' id ->
  (forall id' t, id' <> id -> ts' !! (id', t) = ts !! (id', t)) ->
  lock_inv (Sys s (<[id := c']> cs) ts').
Proof.
  intros Hi Hc Hm Hca Hr Hth Hts. apply (inv_step s s cs ts ts' id c c' lid); try done.
  - apply Hi.
  - rewrite Hca. by apply (inv_cached (Sys s cs ts)).
  - intros id' lid'. cbv beta zeta. by rewrite Hr.
Qed.

(** A step in which the client asked the server for the lock and moved a thread. *)
Lemma inv_asked s s' cs ts id c c' t p0 p st answer :
  lock_inv (Sys s cs ts) -> cs !! id = Some c -> ts !! (id, t) = Some p0 ->
  acquire_post s s' (pc_lid p) id answer ->
  ~ cached (Clt.lock_map c !! pc_lid p) -> is_Some (Clt.lock_map c !! pc_lid p) ->
  pc_lid p0 = pc_lid p ->
  claims p0 (pc_lid p) \/ Clt.lock_map c !! pc_lid p = Some Clt.NONE ->
  Clt.lock_map c' = <[pc_lid p := st]> (Clt.lock_map c) -> Clt.revoke_list c' = Clt.revoke_list c ->
  (answer = lock_protocol.OK /\ st = Clt.LOCKED \/ answer = lock_protocol.RETRY /\ st = Clt.ACQUIRING) ->
  pc_on (Clt.lock_map c') p ->
  lock_inv (Sys s' (<[id := c']> cs) (<[(id, t) := p]> ts)).
Proof.
  intros Hi Hc Ht Hp Hnc Hs El Hcl Hm Hr Hans Hpc.
  pose proof (inv_cached _ id c (pc_lid p) Hi Hc) as Hag. simpl in Hag.
  destruct cached_cases as (_ & CL & _ & _ & CA & _).
  apply (inv_step s s' cs ts _ id c c' (pc_lid p)); try done.
  - intros lid' Hne. by rewrite Hm, lookup_insert_ne.
  - apply Hp.
  - intros lid' h Hne. destruct (decide (lid' = pc_lid p)) as [->|Hl].
    + destruct (ap_answer _ _ _ _ _ Hp) as [(_ & H1 & H2)|(_ & h0 & H0)].
      * rewrite H2. split; [congruence|]. by intros ?%H1.
      * destruct (H0 h) as [H1 H2]. by rewrite H1, H2.
    + unfold held_by. by rewrite (ap_other _ _ _ _ _ Hp).
  - rewrite Hm, lookup_insert_eq.
    destruct (ap_answer _ _ _ _ _ Hp) as [(E & _ & H2)|(E & h0 & H0)];
      destruct Hans as [[E' ->]|[E' ->]]; try (rewrite E in E'; done).
    + rewrite H2. by split.
    + destruct (H0 id) as [H1 H2]. rewrite H2, <- H1. tauto.
  - intros id' lid'. cbv beta zeta. rewrite Hr. pose proof (ap_balance _ _ _ _ _ Hp id' lid'). lia.
  - rewrite Hm in *. apply threads_ok_move with p0; try done.
    + by apply (inv_threads (Sys s cs ts)).
    + destruct Hcl as [?|E]; [by left|right]. rewrite E. by split.
  - intros id' t' Hne. by rewrite lookup_insert_ne by congruence.
Qed.

Lemma turn_preserves s cs ts id c t lid s' answer c' n :
  lock_inv (Sys s cs ts) -> cs !! id = Some c -> ts !! (id, t) = Some (Trying lid) ->
  ask (Clt.must_call c lid) s lid id = Some (s', answer) -> Clt.acquire_turn c lid answer = Ret (c', n) ->
  lock_inv (Sys s' (<[id := c']> cs) (<[(id, t) := pc_after lid n]> ts)).
Proof.
  intros Hi Hc Ht Ha E. destruct cached_cases as (CF & CL & CR & CN & CA & C0).
  pose proof (inv_threads (Sys s cs ts) id c Hi Hc) as Hth. simpl in Hth.
  unfold Clt.acquire_turn in E. unfold ask, Clt.must_call in Ha.
  destruct (Clt.lock_map c !! lid) as [st|] eqn:Est; [|done].
  destruct (decide (st = Clt.NONE)) as [->|Hnn].
  { rewrite bool_decide_eq_true_2 in Ha by done.
    destruct (acquire_spec s lid id (li_srv _ Hi)) as (s2 & a2 & Ea & Hp).
    rewrite Ea in Ha. injection Ha as -> ->.
    destruct (ap_answer _ _ _ _ _ Hp) as [(-> & _)|(-> & _)]; simpl in E; injection E as <- <-; simpl.
    - eapply (inv_asked s s' cs ts id c _ t (Trying lid) (Holding lid) Clt.LOCKED); simpl; try done;
        rewrite ?Est, ?lookup_insert_eq; auto; done.
    - eapply (inv_asked s s' cs ts id c _ t (Trying lid) (Retrying lid) Clt.ACQUIRING); simpl; try done;
        rewrite ?Est, ?lookup_insert_eq; auto; done. }
  rewrite bool_decide_eq_false_2 in Ha by congruence. injection Ha as <- <-.
  assert (forall id' t' p, id' <> id -> <[(id, t) := p]> ts !! (id', t') = ts !! (id', t')) as Hts.
  { intros id' t' p Hne. by rewrite lookup_insert_ne by congruence. }
  destruct st; try done; injection E as <- <-; simpl.
  { apply (inv_local s cs ts _ id c _ lid); simpl; try done; rewrite ?lookup_insert_eq.
    - intros lid' Hne. by rewrite lookup_insert_ne.
    - by rewrite Est.
    - apply (threads_ok_move _ ts id t (Trying lid) (Holding lid)); simpl; rewrite ?Est; try done.
      + by right.
      + by rewrite lookup_insert_eq.
    - intros id' t' Hne. by apply Hts. }
  all: apply (inv_local s cs ts _ id c c lid); try done;
    [apply threads_ok_insert; [done|simpl; by rewrite Est|by intros ? ? ? ? ? [?|?]]|
     intros id' t' Hne; by apply Hts].
Qed.

Lemma retry_turn_preserves s cs ts id c t lid s' answer c' n :
  lock_inv (Sys s cs ts) -> cs !! id = Some c -> ts !! (id, t) = Some (Retrying lid) ->
  ask (Clt.retry_arrived c lid) s lid id = Some (s', answer) -> Clt.retry_turn c lid answer = (c', n) ->
  lock_inv (Sys s' (<[id := c']> cs) (<[(id, t) := pc_after lid n]> ts)).
Proof.
  intros Hi Hc Ht Ha E. destruct cached_cases as (CF & CL & CR & CN & CA & C0).
  pose proof (inv_threads (Sys s cs ts) id c Hi Hc) as Hth. simpl in Hth.
  pose proof (to_pc _ _ _ Hth t _ Ht) as Est. simpl in Est.
  unfold Clt.retry_turn in E. change (Clt.retry_arrived (Clt.set_status c lid Clt.ACQUIRING) lid)
    with (Clt.retry_arrived c lid) in E.
  destruct (Clt.retry_arrived c lid); simpl in Ha.
  - destruct (acquire_spec s lid id (li_srv _ Hi)) as (s2 & a2 & Ea & Hp).
    rewrite Ea in Ha. injection Ha as -> ->.
    destruct (ap_answer _ _ _ _ _ Hp) as [(-> & _)|(-> & _)]; simpl in E; injection E as <- <-; simpl.
    + eapply (inv_asked s s' cs ts id c _ t (Retrying lid) (Holding lid) Clt.LOCKED); simpl; try done;
        rewrite ?Est, ?lookup_insert_eq, ?insert_insert_eq; try done; [by left; left|by left].
    + eapply (inv_asked s s' cs ts id c _ t (Retrying lid) (Retrying lid) Clt.ACQUIRING); simpl; try done;
        rewrite ?Est, ?lookup_insert_eq; try done; [by left; left|by right].
  - injection Ha as <- <-. injection E as <- <-. simpl.
    apply (inv_local s cs ts _ id c _ lid); simpl; try done; rewrite ?lookup_insert_eq.
    + intros lid' Hne. by rewrite lookup_insert_ne.
    + by rewrite Est.
    + apply (threads_ok_move _ ts id t (Retrying lid) (Retrying lid)); simpl; rewrite ?Est; try done.
      * left. by left.
      * by rewrite lookup_insert_eq.
    + intros id' t' Hne. by rewrite lookup_insert_ne by congruence.
Qed.

Lemma release_preserves s cs ts id c t lid c' :
  lock_inv (Sys s cs ts) -> cs !! id = Some c -> ts !! (id, t) = Some (Holding lid) ->
  Clt.release c lid = Ret c' -> lock_inv (Sys s (<[id := c']> cs) (delete (id, t) ts)).
Proof.
  intros Hi Hc Ht E. destruct cached_cases as (CF & CL & CR & _).
  pose proof (inv_threads (Sys s cs ts) id c Hi Hc) as Hth. simpl in Hth.
  pose proof (to_pc _ _ _ Hth t _ Ht) as Est. simpl in Est.
  unfold Clt.release in E. rewrite Est in E.
  assert (forall t' p, delete (id, t) ts !! (id, t') = Some p -> ~ claims p lid) as Hno.
  { intros t' p. rewrite lookup_delete_Some. intros [Hne Ht'] Hcl. apply Hne. f_equal.
    apply (to_unique _ _ _ Hth t t' (Holding lid) p lid); try done. by right. }
  case_bool_decide; injection E as <-;
    (apply (inv_local s cs ts _ id c _ lid); simpl; try done; rewrite ?lookup_insert_eq, ?Est;
     [intros lid' Hne; by rewrite lookup_insert_ne|done| |
      intros id' t' Hne; by rewrite lookup_delete_ne by congruence];
     apply threads_ok_status; [by apply threads_ok_delete|by rewrite Est|done]).
Qed.

Lemma revoke_preserves s cs ts id lid c s' c' :
  lock_inv (Sys s cs ts) -> Srv.revoker s = Some ((id, lid), s') -> cs !! id = Some c ->
  Clt.revoke_handler c lid = Ret c' -> lock_inv (Sys s' (<[id := c']> cs) ts).
Proof.
  intros Hi Er Hc E. destruct cached_cases as (CF & CL & CR & CN & CA & C0).
  pose proof (inv_threads (Sys s cs ts) id c Hi Hc) as Hth. simpl in Hth.
  pose proof (inv_cached _ id c lid Hi Hc) as Hag. simpl in Hag.
  unfold Srv.revoker in Er. destruct (Srv.revoke_list s) as [|x rest] eqn:El; [done|].
  injection Er as -> <-.
  assert (Clt.revoke_list c' = Clt.revoke_list c ++ [lid] /\
    (forall lid', lid' <> lid -> Clt.lock_map c' !! lid' = Clt.lock_map c !! lid') /\
    (cached (Clt.lock_map c' !! lid) <-> cached (Clt.lock_map c !! lid)) /\
    threads_ok (Clt.lock_map c') ts id) as (Hr & Hm & Hca & Hth').
  { unfold Clt.revoke_handler in E. destruct (Clt.lock_map c !! lid) as [[]|] eqn:Est; simplify_eq; simpl;
      rewrite ?Est; try done.
    rewrite lookup_insert_eq. split_and!; try done.
    - intros lid' Hne. by rewrite lookup_insert_ne.
    - apply threads_ok_status; [done|by rewrite Est|]. intros t p Ht Hcl.
      destruct (claims_status _ _ _ _ _ _ Hth Ht Hcl); congruence. }
  apply (inv_step s _ cs ts ts id c c' lid); try done.
  - apply Hi.
  - rewrite Hca. done.
  - intros id' lid'. cbv beta zeta. rewrite Hr, El, cnt_cons. simpl. unfold revoked_now. simpl.
    rewrite cnt_app, cnt_singleton. repeat case_decide; simplify_eq; lia.
Qed.

Lemma retry_preserves s cs ts id lid c s' :
  lock_inv (Sys s cs ts) -> Srv.retryer s = Some ((id, lid), s') -> cs !! id = Some c ->
  lock_inv (Sys s' (<[id := Clt.retry_handler c lid]> cs) ts).
Proof.
  intros Hi Er Hc. unfold Srv.retryer in Er. destruct (Srv.retry_list s) as [|x rest]; [done|].
  injection Er as -> <-.
  apply (inv_step s _ cs ts ts id c _ lid); try done.
  - apply Hi.
  - exact (inv_cached _ id c lid Hi Hc).
  - exact (inv_threads _ id c Hi Hc).
Qed.

Lemma releaser_scan_spec m l r :
  Clt.releaser_scan m l = Ret r ->
  match r with
  | Some (lid, rest) => m !! lid = Some Clt.RELEASING /\
      forall x, cnt x l = ((if decide (lid = x) then 1 else 0) + cnt x rest)%nat
  | None => True
  end.
Proof.
  revert r. induction l as [|y l IH]; intros r E; simpl in E; [by injection E as <-|].
  destruct (m !! y) as [st|] eqn:Ey; [|done].
  destruct (decide (st = Clt.RELEASING)) as [->|Hn].
  { injection E as <-. split; [done|]. intros x. by rewrite cnt_cons. }
  assert ((r' ← Clt.releaser_scan m l;
    Ret match r' with Some (x, rest) => Some (x, y :: rest) | None => None end) = Ret r) as E'.
  { by destruct st. }
  res_inv. specialize (IH x E0). destruct x as [[lid rest]|]; subst r; [|done].
  destruct IH as [Hm Hc]. split; [done|]. intros z. rewrite !cnt_cons, Hc. lia.
Qed.

(** What the releaser gives back is a lock the client holds, and whose revoke it
    has received. *)
Lemma releaser_holds s cs ts id c c' lid :
  lock_inv (Sys s cs ts) -> cs !! id = Some c -> Clt.releaser c = Ret (c', Some lid) ->
  exists rest, c' = Clt.Mk (<[lid := Clt.NONE]> (Clt.lock_map c)) (Clt.retry_map c) rest false /\
    Clt.lock_map c !! lid = Some Clt.RELEASING /\
    (forall x, cnt x (Clt.revoke_list c) = ((if decide (lid = x) then 1 else 0) + cnt x rest)%nat) /\
    held_by s lid id /\ revoked_now s id lid = true.
Proof.
  intros Hi Hc E. unfold Clt.releaser in E. res_inv. destruct x as [[lid' rest]|]; [|by res_inv].
  injection E as <- ->. apply releaser_scan_spec in E0 as [Est Hcnt]. exists rest. split_and!; try done.
  - apply (inv_cached _ id c lid Hi Hc). rewrite Est. right. by right.
  - pose proof (li_pending _ Hi id lid) as Hp. unfold pending in Hp. simpl in Hp. rewrite Hc, Hcnt in Hp.
    rewrite decide_True in Hp by done. destruct (revoked_now s id lid); [done|simpl in Hp; lia].
Qed.

Lemma releaser_preserves s cs ts id c c' lid ret s' r :
  lock_inv (Sys s cs ts) -> cs !! id = Some c -> Clt.releaser c = Ret (c', Some lid) ->
  Srv.release s lid id ret = Some (s', r) -> lock_inv (Sys s' (<[id := c']> cs) ts).
Proof.
  intros Hi Hc E Er. destruct cached_cases as (CF & CL & CR & CN & CA & C0).
  pose proof (inv_threads (Sys s cs ts) id c Hi Hc) as Hth. simpl in Hth.
  destruct (releaser_holds s cs ts id c c' lid Hi Hc E) as (rest & -> & Est & Hcnt & Hh & Hrev).
  destruct (release_spec s lid id ret s' r (li_srv _ Hi) Hh Hrev Er) as (Hok & Hother & Hnh & Hrl & Hnr).
  apply (inv_step s s' cs ts ts id c _ lid); try done; simpl.
  - intros lid' Hne. by rewrite lookup_insert_ne.
  - intros lid' h Hne. unfold held_by. destruct (decide (lid' = lid)) as [->|Hl]; [|by rewrite Hother].
    split; [by intros ?%Hnh|]. intros (l & El & Es & Eh). destruct Hh as (l' & El' & Es' & Eh').
    simpl in *. congruence.
  - rewrite lookup_insert_eq. split; [done|by intros ?%Hnh].
  - intros id' lid'. cbv beta zeta. rewrite Hrl, Hcnt. destruct (decide (lid' = lid)) as [->|Hl].
    + rewrite Hnr. rewrite (decide_True (P := lid = lid)) by done. case_decide as Ei; [subst; rewrite Hrev; simpl; lia|].
      destruct (revoked_now s id' lid) eqn:Er'; [|simpl; lia]. exfalso.
      unfold revoked_now in Er'. destruct Hh as (l & El & _ & Eh). simpl in El. rewrite El in Er'.
      destruct (li_srv _ Hi) as [_ Hl]. apply (lo_revoked _ (Hl lid l El)) in Er' as [_ ->]. congruence.
    + unfold revoked_now. rewrite Hother by done. rewrite (decide_False (P := lid = lid')) by congruence.
      case_decide; lia.
  - apply threads_ok_status; [done|by rewrite Est|]. intros t p Ht Hcl.
    destruct (claims_status _ _ _ _ _ _ Hth Ht Hcl); congruence.
Qed.

Lemma attach_preserves s cs ts id s' r : lock_inv (Sys s cs ts) -> cs !! id = None -> Srv.attach s id = Some (s', r) ->
  lock_inv (Sys s' (<[id := Clt.new]> cs) ts).
Proof.
  intros Hi Hn Ha. unfold Srv.attach in Ha. pose proof (li_srv _ Hi) as [Hm _]. simpl in Hm. rewrite Hm in Ha.
  injection Ha as <- _. destruct cached_cases as (_ & _ & _ & _ & _ & C0).
  assert (forall id' lid, cst (Sys s (<[id := Clt.new]> cs) ts) id' lid = cst (Sys s cs ts) id' lid) as Hcst.
  { intros id' lid. rewrite cst_insert. case_decide; [subst|done]. unfold cst. simpl. by rewrite Hn. }
  split; simpl.
  - split; [done|apply (li_srv _ Hi)].
  - intros id' lid. pose proof (li_agree _ Hi id' lid) as Ha. rewrite <- Hcst in Ha. exact Ha.
  - intros id' lid. pose proof (li_pending _ Hi id' lid) as Hp. rewrite pending_insert.
    unfold pending in *. simpl in *. case_decide; [subst; rewrite Hn in Hp|]; exact Hp.
  - intros id' t p Ht. apply (li_pc _ Hi) in Ht. unfold pc_ok in *. destruct p; rewrite <- Hcst in Ht; done.
  - apply (li_unique _ Hi).
Qed.

Lemma enter_preserves s cs ts id c t lid : lock_inv (Sys s cs ts) -> cs !! id = Some c -> ts !! (id, t) = None ->
  lock_inv (Sys s (<[id := Clt.acquire_enter c lid]> cs) (<[(id, t) := Trying lid]> ts)).
Proof.
  intros Hi Hc Ht. pose proof (inv_threads (Sys s cs ts) id c Hi Hc) as Hth. simpl in Hth.
  assert (forall id' t' p, id' <> id -> <[(id, t) := p]> ts !! (id', t') = ts !! (id', t')) as Hts.
  { intros id' t' p Hne. by rewrite lookup_insert_ne by congruence. }
  unfold Clt.acquire_enter. destruct (Clt.lock_map c !! lid) as [st|] eqn:Est.
  - apply (inv_local s cs ts _ id c c lid); try done; [|intros; by apply Hts].
    apply threads_ok_insert; [done|simpl; by rewrite Est|by intros ? ? ? ? ? [?|?]].
  - destruct cached_cases as (_ & _ & _ & CN & _ & C0).
    apply (inv_local s cs ts _ id c _ lid); simpl; try done; [| | |intros; by apply Hts].
    + intros lid' Hne. by rewrite lookup_insert_ne.
    + rewrite lookup_insert_eq, Est. tauto.
    + apply threads_ok_insert; [|simpl; by rewrite lookup_insert_eq|by intros ? ? ? ? ? [?|?]].
      split; [|apply Hth]. intros t' p Ht'. pose proof (to_pc _ _ _ Hth t' p Ht') as Hp.
      destruct (decide (lid = pc_lid p)) as [->|Hne].
      * destruct p; simpl in *; rewrite Est in Hp; [by destruct Hp|done|done].
      * destruct p; simpl in *; by rewrite lookup_insert_ne.
Qed.

Lemma lock_inv_init s : sys_init s -> lock_inv s.
Proof.
  destruct s as [s cs ts]. intros (Es & Ec & Et). simpl in *. subst.
  destruct cached_cases as (_ & _ & _ & _ & _ & C0). split; simpl.
  - split; [done|]. intros lid l. simpl. by rewrite lookup_empty.
  - intros id lid. unfold cst. simpl. rewrite lookup_empty. split; [done|].
    intros (l & El & _). simpl in El. by rewrite lookup_empty in El.
  - intros id lid. unfold pending, revoked_now. simpl. by rewrite !lookup_empty.
  - intros id t p. by rewrite lookup_empty.
  - intros id t t' p p' lid. by rewrite lookup_empty.
Qed.

Lemma lock_step_inv x e x' : lock_inv x -> lock_step x e x' -> lock_inv x'.
Proof.
  intros Hi Hs. destruct Hs as
    [s0 cs ts id s' r Hn Ha|s0 cs ts id c t lid Hc Ht|s0 cs ts id c t lid s' a c' n Hc Ht Ha E
    |s0 cs ts id c t lid s' a c' n Hc Ht Ha E|s0 cs ts id c t lid c' Hc Ht E|s0 cs ts id lid c s' c' Er Hc E
    |s0 cs ts id lid c s' Er Hc|s0 cs ts id c c' Hc E|s0 cs ts id c c' lid ret s' r Hc E Er];
    [by eapply attach_preserves|by apply enter_preserves|by eapply turn_preserves|by eapply retry_turn_preserves
    |by eapply release_preserves|by eapply revoke_preserves|by eapply retry_preserves| |by eapply releaser_preserves].
  pose proof (inv_threads (Sys s0 cs ts) id c Hi Hc) as Hth. unfold Clt.releaser in E.
  apply res_bind_Ret_inv in E as (y & Ey & E). destruct y as [[? ?]|]; [done|]. injection E as <-.
  by apply (inv_local s0 cs ts _ id c _ 0).
Qed.

Lemma lock_inv_reachable tr s : reachable sys_init lock_step tr s -> lock_inv s.
Proof.
  apply (reachable_invariant sys_init lock_step (fun _ => lock_inv)); [apply lock_inv_init|].
  intros tr0 x e x'. apply lock_step_inv.
Qed.

(** ** The guarantees of the lock service *)

Lemma holder_unique s id t id' t' lid :
  lock_inv s -> threads s !! (id, t) = Some (Holding lid) -> threads s !! (id', t') = Some (Holding lid) ->
  id = id' /\ t = t'.
Proof.
  intros Hi H1 H2.
  assert (forall i u, threads s !! (i, u) = Some (Holding lid) -> held_by (server s) lid i) as Hh.
  { intros i u H. apply (li_agree _ Hi). apply (li_pc _ Hi) in H. simpl in H. rewrite H.
    right. by left. }
  destruct (Hh id t H1) as (l & El & _ & <-), (Hh id' t' H2) as (l' & El' & _ & <-).
  rewrite El in El'. injection El' as <-. split; [done|].
  eapply (li_unique _ Hi); [exact H1|exact H2|by right|by right].
Qed.

(** C13: mutual exclusion: however calls, revokes, retries and releases of all
    clients interleave, two threads, of the same or of different clients, never
    hold the same lock. *)
Theorem mutual_exclusion tr s id t id' t' lid :
  reachable sys_init lock_step tr s ->
  threads s !! (id, t) = Some (Holding lid) -> threads s !! (id', t') = Some (Holding lid) ->
  id = id' /\ t = t'.
Proof. intros Hr. apply holder_unique. by eapply lock_inv_reachable. Qed.

(** C14: no waiter is forgotten: while a lock is held and clients wait for it,
    exactly one revoke is on its way to the holder or waits there to be
    honoured. *)
Theorem waiters_have_revoke tr s lid l :
  reachable sys_init lock_step tr s -> Srv.lock_status_map (server s) !! lid = Some l ->
  Srv.status l = Srv.LOCKED -> Srv.waiting_client l <> [] ->
  pending s (Srv.lock_client l) lid = 1%nat.
Proof.
  intros Hr El Es Hw. pose proof (lock_inv_reachable tr s Hr) as Hi. rewrite (li_pending _ Hi).
  unfold revoked_now. rewrite El. destruct (li_srv _ Hi) as [_ Hl].
  by rewrite (proj2 (lo_waiting _ (Hl lid l El) Es) Hw).
Qed.

(** C15: the service never gets stuck on its own mutex or on a missing entry: in
    every reachable state [acquire] answers every client, a queued revoke finds
    its client's entry, and the releaser's call to the server returns. *)
Theorem lock_service_progress tr s :
  reachable sys_init lock_step tr s ->
  (forall lid id, exists s' r, Srv.acquire (server s) lid id = Some (s', r)) /\
  (forall id lid s', Srv.revoker (server s) = Some ((id, lid), s') ->
     exists c c', clients s !! id = Some c /\ Clt.revoke_handler c lid = Ret c') /\
  (forall id c c' lid ret, clients s !! id = Some c -> Clt.releaser c = Ret (c', Some lid) ->
     exists s' r, Srv.release (server s) lid id ret = Some (s', r) /\ Srv.statusMutex s' = false).
Proof.
  intros Hr. pose proof (lock_inv_reachable tr s Hr) as Hi. pose proof (li_srv _ Hi) as Hs. split_and!.
  - intros lid id. destruct (acquire_spec (server s) lid id Hs) as (s' & r & E & _). eauto.
  - intros id lid s' Er. unfold Srv.revoker in Er.
    destruct (Srv.revoke_list (server s)) as [|x rest] eqn:El; [done|]. injection Er as -> _.
    pose proof (li_pending _ Hi id lid) as Hp. unfold pending in Hp. rewrite El, cnt_cons, decide_True in Hp by done.
    destruct (revoked_now (server s) id lid) eqn:Erv; [|simpl in Hp; lia].
    unfold revoked_now in Erv. destruct (Srv.lock_status_map (server s) !! lid) as [l|] eqn:Elk; [|done].
    destruct Hs as [_ Hl]. apply (lo_revoked _ (Hl lid l Elk)) in Erv as [Est ->].
    assert (held_by (server s) lid (Srv.lock_client l)) as Hh by (by exists l).
    apply (li_agree _ Hi) in Hh. unfold cst in Hh.
    destruct (clients s !! Srv.lock_client l) as [c|]; [|by destruct Hh as [?|[?|?]]].
    exists c. unfold Clt.revoke_handler. destruct Hh as [Ec|[Ec|Ec]]; rewrite Ec; eauto.
  - intros id c c' lid ret Hc E. destruct s as [s cs ts]. simpl in *.
    destruct (releaser_holds s cs ts id c c' lid Hi Hc E) as (_ & _ & _ & _ & Hh & Hrev).
    assert (exists s' r, Srv.release s lid id ret = Some (s', r)) as (s' & r & Er).
    { pose proof Hh as (l & El & Es & _). unfold Srv.release. rewrite El, Es, (proj1 Hs).
      destruct (Srv.waiting_client l); eauto. }
    destruct (release_spec s lid id ret s' r Hs Hh Hrev Er) as ([Hm _] & _). eauto.
Qed.

(** ** A concrete run: client [a] takes lock 5, client [b] waits for it *)
Module LockExample.

Definition a : str := S! "127.0.0.1:1".
Definition b : str := S! "127.0.0.1:2".

Definition get_srv (r : option (Srv.t * Z)) : Srv.t := match r with Some (s, _) => s | None => Srv.new end.

Definition v1 : Srv.t := get_srv (Srv.attach Srv.new a).
Definition v2 : Srv.t := get_srv (Srv.attach v1 b).
Definition v3 : Srv.t := get_srv (Srv.acquire v2 5 a).
Definition v4 : Srv.t := get_srv (Srv.acquire v3 5 b).
Definition c1 : Clt.t := Clt.acquire_enter Clt.new 5.

Definition w0 : sys := Sys Srv.new ∅ ∅.
Definition w1 : sys := Sys v1 (<[a := Clt.new]> ∅) ∅.
Definition w2 : sys := Sys v2 (<[b := Clt.new]> (clients w1)) ∅.
Definition w3 : sys := Sys v2 (<[a := c1]> (clients w2)) (<[(a, 1) := Trying 5]> ∅).
Definition w4 : sys :=
  Sys v3 (<[a := Clt.set_status c1 5 Clt.LOCKED]> (clients w3)) (<[(a, 1) := Holding 5]> (threads w3)).
Definition w5 : sys := Sys v3 (<[b := c1]> (clients w4)) (<[(b, 1) := Trying 5]> (threads w4)).
Definition w6 : sys :=
  Sys v4 (<[b := Clt.set_status c1 5 Clt.ACQUIRING]> (clients w5)) (<[(b, 1) := Retrying 5]> (threads w5)).

Lemma lock_run : reachable sys_init lock_step (replicate 6 LOther) w6.
Proof.
  apply (reach_step _ _ (replicate 5 LOther) w5 LOther);
    [apply (reach_step _ _ (replicate 4 LOther) w4 LOther);
     [apply (reach_step _ _ (replicate 3 LOther) w3 LOther);
      [apply (reach_step _ _ (replicate 2 LOther) w2 LOther);
       [apply (reach_step _ _ (replicate 1 LOther) w1 LOther); [apply (reach_step _ _ [] w0 LOther); [by constructor|]|]|]|]|]|].
  - apply (ls_attach Srv.new ∅ ∅ a v1 0); vm_compute; reflexivity.
  - apply (ls_attach v1 (clients w1) ∅ b v2 0); vm_compute; reflexivity.
  - apply (ls_enter v2 (clients w2) ∅ a Clt.new 1 5); vm_compute; reflexivity.
  - apply (ls_turn v2 (clients w3) (threads w3) a c1 1 5 v3 0 _ Clt.Acquired); vm_compute; reflexivity.
  - apply (ls_enter v3 (clients w4) (threads w4) b Clt.new 1 5); vm_compute; reflexivity.
  - apply (ls_turn v3 (clients w5) (threads w5) b c1 1 5 v4 1 _ Clt.WaitRetry); vm_compute; reflexivity.
Qed.

(** C13, witness: the only holder in that run. *)
Lemma mutual_exclusion_witness :
  threads w6 !! (a, 1) = Some (Holding 5) /\
  forall id t, threads w6 !! (id, t) = Some (Holding 5) -> id = a /\ t = 1.
Proof.
  split; [reflexivity|]. intros id t H.
  exact (mutual_exclusion _ w6 id t a 1 5 lock_run H eq_refl).
Defined.

(** C14, witness: [b] waits, so a revoke for [a] is pending. *)
Lemma waiters_have_revoke_witness : pending w6 a 5 = 1%nat.
Proof.
  apply (waiters_have_revoke _ w6 5 (Srv.LockStatus Srv.LOCKED [b] a (<[a := true]> {[a := false]})) lock_run);
    [vm_compute; reflexivity|reflexivity|discriminate].
Defined.

(** C15, witness: the server answers [b] again. *)
Lemma lock_service_progress_witness : exists s' r, Srv.acquire (server w6) 5 b = Some (s', r).
Proof. exact (proj1 (lock_service_progress _ w6 lock_run) 5 b). Defined.

(** A release that finds nobody waiting (a client's destructor) leaves
    [statusMutex] locked: the next [acquire] never returns. *)
Theorem release_without_waiters_deadlocks :
  exists s', Srv.release v3 5 a 0 = Some (s', lock_protocol.OK) /\ Srv.acquire s' 5 b = None.
Proof. eexists. split; [vm_compute; reflexivity|]. vm_compute. reflexivity. Qed.

(** The releaser gives back one lock a turn and then waits to be woken: when two
    free locks are revoked before it runs, the second stays [RELEASING], with
    nobody left to wake the releaser for it. *)
Theorem releaser_leaves_second c l1 l2 :
  l1 <> l2 -> Clt.lock_map c !! l1 = Some Clt.FREE -> Clt.lock_map c !! l2 = Some Clt.FREE -> Clt.revoke_list c = [] ->
  exists c1 c2 c3, Clt.revoke_handler c l1 = Ret c1 /\ Clt.revoke_handler c1 l2 = Ret c2 /\
    Clt.releaser c2 = Ret (c3, Some l1) /\
    Clt.lock_map c3 !! l2 = Some Clt.RELEASING /\ Clt.revoke_list c3 = [l2] /\ Clt.revokerThreadStatus c3 = false.
Proof.
  intros Hne H1 H2 Hr. unfold Clt.revoke_handler. rewrite H1. do 3 eexists. split; [reflexivity|]. simpl.
  rewrite lookup_insert_ne, H2, Hr by done. split; [reflexivity|]. unfold Clt.releaser. simpl.
  rewrite lookup_insert_ne, lookup_insert_eq by done. split; [reflexivity|]. simpl.
  by rewrite lookup_insert_ne, lookup_insert_eq by done.
Qed.

(** When the server's answer is neither [OK] nor [RETRY] (an RPC failure),
    [acquire] still reports success, and the client does not have the lock. *)
Theorem acquire_failure_reported_as_success answer :
  answer <> lock_protocol.OK -> answer <> lock_protocol.RETRY ->
  Clt.acquire_turn c1 5 answer = Ret (c1, Clt.Acquired) /\ Clt.lock_map c1 !! 5 = Some Clt.NONE.
Proof.
  intros H1 H2. split; [|done]. unfold Clt.acquire_turn. simpl.
  by rewrite (proj2 (Z.eqb_neq _ _) H1), (proj2 (Z.eqb_neq _ _) H2).
Qed.
End LockExample.

(** ** The plain lock server *)

(** The locks held, as the server sees them: 32-bit keys. *)
Definition taken (s : lock_server.t) (k : Z) : Prop := lock_server.threadStatusMap s !! k = Some 1.

(** The plain server keeps one lock per 32-bit key: [acquire] succeeds
    exactly when the key is not taken, takes it, and leaves the others alone;
    [release] of a taken key frees it and reports [NOENT] otherwise. *)
Lemma lock_server_functional s clt lid :
  (taken s (s32 lid) -> lock_server.acquire s clt lid = None) /\
  (~ taken s (s32 lid) -> exists s', lock_server.acquire s clt lid = Some (s', lock_protocol.OK) /\
     forall k, taken s' k <-> k = s32 lid \/ taken s k) /\
  (taken s (s32 lid) -> exists s', lock_server.release s clt lid = (s', lock_protocol.OK) /\
     forall k, taken s' k <-> k <> s32 lid /\ taken s k) /\
  (~ taken s (s32 lid) -> lock_server.release s clt lid = (s, lock_protocol.NOENT)).
Proof.
  unfold taken, lock_server.acquire, lock_server.release.
  assert (forall v k, <[s32 lid := v]> (lock_server.threadStatusMap s) !! k = Some 1 <->
    (k = s32 lid /\ v = 1) \/ (k <> s32 lid /\ lock_server.threadStatusMap s !! k = Some 1)) as Hins.
  { intros v k. rewrite lookup_insert_Some. naive_solver. }
  split_and!; intros Ht.
  - by rewrite Ht.
  - exists (lock_server.Mk (lock_server.nacquire s) (<[s32 lid := 1]> (lock_server.threadStatusMap s))).
    split; [|intros k; simpl; rewrite Hins; destruct (decide (k = s32 lid)); naive_solver].
    destruct (lock_server.threadStatusMap s !! s32 lid) as [v|]; [|done].
    destruct (Z.eqb_spec v 0); [done|]. by rewrite (proj2 (Z.eqb_neq v 1)) by congruence.
  - rewrite Ht. eexists. split; [reflexivity|]. intros k. simpl. rewrite Hins. naive_solver.
  - destruct (lock_server.threadStatusMap s !! s32 lid) as [v|]; [|done].
    by rewrite (proj2 (Z.eqb_neq v 1)) by congruence.
Qed.

(** Lock ids that agree in their low 32 bits are the same lock. *)
Theorem lock_ids_collide s clt lid s' r :
  lock_server.acquire s clt lid = Some (s', r) -> lock_server.acquire s' clt (lid + 4294967296) = None.
Proof.
  intros E. assert (s32 (lid + 4294967296) = s32 lid) as Hk.
  { unfold s32. replace (lid + 4294967296 + two31) with (lid + two31 + 1 * two32) by lia.
    by rewrite Z.mod_add. }
  unfold lock_server.acquire in *. rewrite Hk.
  destruct (lock_server.threadStatusMap s !! s32 lid) as [v|]; [destruct (v =? 0); [|destruct (v =? 1)]|];
    simplify_eq; simpl; by rewrite lookup_insert_eq.
Qed.
