(* ===== verification/LockRpc.v ===== *)
(** * The plain lock service: [lock_client.cc] over RPC to [lock_server.cc]

    Each method of [lock_client] is one remote call; here the calls travel through
    the client and server of [RpcSystem] to the methods of [lock_server]. *)

From S2P Require Import Prelude Marshall MarshallSpec RpcStubs RpcServer RpcServerSpec.
From S2P Require Import RpcClient RpcClientSpec RpcSystem RpcThms LockServers LockSystem.

(** ** class lock_client

    [id] is [cl->id()], the client's nonce; [r] is what the uninitialised result
    variable holds. *)
Module lock_client.
Section stubs.
Context `{Allocator} {S : Type} (call1 : transport S) (id : Z) (r : Z).

Definition stat (st : S) (lid : Z) : res (S * Z) :=
  '(st, ret, r) ← call_2 call1 st lock_protocol.stat (UInt id) (ULL lid) (SInt r);
  _ ← VERIFY (ret =? lock_protocol.OK);
  Ret (st, sint_val r).

Definition acquire (st : S) (lid : Z) : res (S * Z) :=
  '(st, ret, _) ← call_2 call1 st lock_protocol.acquire (UInt id) (ULL lid) (SInt r);
  Ret (st, ret).

Definition release (st : S) (lid : Z) : res (S * Z) :=
  '(st, ret, _) ← call_2 call1 st lock_protocol.release (UInt id) (ULL lid) (SInt r);
  Ret (st, ret).
End stubs.
End lock_client.

(** ** The server's methods, as they are registered

    A call that waits for the lock does not return; it is not a result of this
    model, and no theorem below speaks of it. *)
Definition stat_meth (o : lock_server.t) (clt : sint) (lid : ull) (r : sint) : res (lock_server.t * Z * sint) :=
  let '(ret, n) := lock_server.stat o (sint_val clt) (ull_val lid) in Ret (o, ret, SInt n).

Definition acquire_meth (o : lock_server.t) (clt : sint) (lid : ull) (r : sint) : res (lock_server.t * Z * sint) :=
  match lock_server.acquire o (sint_val clt) (ull_val lid) with
  | Some (o, ret) => Ret (o, ret, r)
  | None => Abort
  end.

Definition release_meth (o : lock_server.t) (clt : sint) (lid : ull) (r : sint) : res (lock_server.t * Z * sint) :=
  let '(o, ret) := lock_server.release o (sint_val clt) (ull_val lid) in Ret (o, ret, r).

Section service.
Context `{Allocator} (create_time : conn -> Z * Z) (isdead : conn -> bool) (k : conn) (r0 : Z).

(** The procedures a lock server registers. *)
Definition lock_procs (s : rpcs (St := lock_server.t)) : Prop :=
  procs_ s !! lock_protocol.stat = Some (fn_2 (SInt r0) stat_meth) /\
  procs_ s !! lock_protocol.acquire = Some (fn_2 (SInt r0) acquire_meth) /\
  procs_ s !! lock_protocol.release = Some (fn_2 (SInt r0) release_meth).

Lemma uint_as_sint x : 0 <= x < two32 -> enc (UInt x) = enc (SInt (s32 x)).
Proof. intros Hx. simpl. by rewrite u32_s32, u32_small. Qed.

(** One remote call on the lock server: the nonce is read as a signed number. *)
Lemma lock_call c (s : rpcs (St := lock_server.t)) o proc meth lid r_old o' ret r :
  linked create_time isdead k true c s -> xid_ c < two32 - 2 -> 0 <= clt_nonce c < two32 -> 0 <= lid < two64 ->
  proc <> rpc_const.bind -> 0 <= proc < two31 -> procs_ s !! proc = Some (fn_2 (SInt r0) meth) ->
  meth o (SInt (s32 (clt_nonce c))) (ULL lid) (SInt r0) = Ret (o', ret, SInt r) ->
  0 <= ret < two31 -> - two31 <= r < two31 ->
  exists c' s', call_2 (loopback create_time isdead k) (c, s, o) proc (UInt (clt_nonce c)) (ULL lid) (SInt r_old)
    = Ret (c', s', o', ret, SInt r) /\ next_call create_time isdead k true c s c' s'.
Proof.
  intros Hl Hx Hid Hlid Hp Hpr Hf Hmeth Hret Hr.
  eapply (rpc_call2_ok create_time isdead k (SInt r0) meth c s o proc _ _ (SInt (s32 (clt_nonce c))) (ULL lid));
    [exact Hl|exact Hx|exact Hp|exact Hpr|exact Hf|exact Hid|exact Hlid| |exact Hlid| |reflexivity|exact Hmeth|exact Hret|exact Hr|reflexivity].
  - simpl. unfold s32. pose proof (Z.mod_pos_bound (clt_nonce c + two31) two32). lia.
  - by rewrite (uint_as_sint (clt_nonce c)).
Qed.

End service.

(** ** A lock server and its first client *)
Module LockRpcExample.
#[local] Instance zeros : Allocator := fun _ => Ascii.zero.

Definition lc : rpcc := (bind_end (rpcc_new true 7 0) 0 42).1.
Definition ls : rpcs (St := lock_server.t) :=
  Rpcs 42 ∅ (Heap ∅ 1) ∅ ∅ 0 0 ∅
    {[ lock_protocol.stat := fn_2 (SInt 0) stat_meth; lock_protocol.acquire := fn_2 (SInt 0) acquire_meth;
       lock_protocol.release := fn_2 (SInt 0) release_meth ]} true [].

Lemma lc_ls_linked : linked (fun _ => (0, 0)) (fun _ => false) 3 true lc ls.
Proof.
  split; [by eexists; apply RpcExample.c0_reachable|done|done| |done|by right|constructor].
  exists [], []. constructor. split_and!; [done| |done|done|done]. intros a [b Hb]. done.
Qed.

End LockRpcExample.
