(* ===== verification/LockTester.v ===== *)
(** * The lock tester: [lock_tester.cc]

    Several threads acquire and release locks through caching lock clients and
    count, in one array, the locks they have been granted; a count that is not
    what it should be ends the program with an error.  The tests are lists of
    calls, run by threads over the lock service of [LockSystem]. *)

From S2P Require Import Prelude LockServers LockClient LockSystem.

(** ** check_grant and check_release

    [ct] is the array of 256 counters. *)
Definition slot (lid : Z) : nat := Z.to_nat (Z.land lid 255).

Definition check_grant (ct : list Z) (lid : Z) : res (list Z) :=
  match ct !! slot lid with
  | None => Undef
  | Some v => if negb (v =? 0) then Abort else v ← int_chk (v + 1); Ret (<[slot lid := v]> ct)
  end.

Definition check_release (ct : list Z) (lid : Z) : res (list Z) :=
  match ct !! slot lid with
  | None => Undef
  | Some v => if negb (v =? 1) then Abort else v ← int_chk (v - 1); Ret (<[slot lid := v]> ct)
  end.

(** ** The tests: what a thread calls, in order *)
Inductive act := Acquire (lid : Z) | Grant (lid : Z) | Check (lid : Z) | Release (lid : Z).

Definition a : Z := 1.
Definition b : Z := 2.

(** Run by the main thread, before the others: here the lock is released before
    the count is checked. *)
Definition test1 : list act :=
  [Acquire a; Grant a; Release a; Check a; Acquire a; Grant a; Release a; Check a;
   Acquire a; Grant a; Acquire b; Grant b; Release b; Check b; Release a; Check a].

Definition test2 : list act := [Acquire a; Grant a; Check a; Release a].

Fixpoint repeat_test (n : nat) : list act := match n with O => [] | S n => test2 ++ repeat_test n end.

(** The bodies of [test3], [test4] and [test5] differ only in the client they use. *)
Definition test3 : list act := repeat_test 10.

(** What [main] starts for a test: how many threads, what each of them runs, and
    the number of the client it uses. *)
Definition test_threads (test : Z) : nat := if test =? 4 then 2 else 6.
Definition test_prog (test : Z) : list act := if test =? 2 then test2 else test3.
Definition test_client (test i : Z) : Z :=
  if test =? 4 then 0 else if test =? 5 then (if i <? 5 then 0 else 1) else i.
Definition main_progs (test : Z) : gmap Z (list act) :=
  list_to_map ((fun i => (Z.of_nat i, test_prog test)) <$> seq 0 (test_threads test)).

(** ** The threads over the lock service *)
Section tester.
(** The client thread [i] uses, by its name. *)
Context (client : Z -> str).

Record tsys := Tsys { locks : sys; ct : list Z; progs : gmap Z (list act) }.

(** A turn inside the service: no thread calls or returns from it. *)
Definition internal (l l' : sys) : Prop :=
  (forall k, threads l !! k = None -> threads l' !! k = None) /\
  (forall k lid, threads l !! k = Some (Holding lid) -> threads l' !! k = Some (Holding lid)).

Inductive tstep : tsys -> unit -> tsys -> Prop :=
  | ts_service l e l' c ps :
      lock_step l e l' -> internal l l' -> tstep (Tsys l c ps) tt (Tsys l' c ps)
  | ts_call l l' c ps i lid p :
      ps !! i = Some (Acquire lid :: p) -> lock_step l LOther l' ->
      threads l !! (client i, i) = None -> threads l' = <[(client i, i) := Trying lid]> (threads l) ->
      tstep (Tsys l c ps) tt (Tsys l' c ps)
  | ts_acquired l c ps i lid p :
      ps !! i = Some (Acquire lid :: p) -> threads l !! (client i, i) = Some (Holding lid) ->
      tstep (Tsys l c ps) tt (Tsys l c (<[i := p]> ps))
  | ts_grant l c c' ps i lid p :
      ps !! i = Some (Grant lid :: p) -> check_grant c lid = Ret c' ->
      tstep (Tsys l c ps) tt (Tsys l c' (<[i := p]> ps))
  | ts_check l c c' ps i lid p :
      ps !! i = Some (Check lid :: p) -> check_release c lid = Ret c' ->
      tstep (Tsys l c ps) tt (Tsys l c' (<[i := p]> ps))
  | ts_release l l' c ps i lid p :
      ps !! i = Some (Release lid :: p) -> lock_step l LOther l' ->
      threads l !! (client i, i) = Some (Holding lid) -> threads l' = delete (client i, i) (threads l) ->
      tstep (Tsys l c ps) tt (Tsys l' c (<[i := p]> ps)).

(** ** What a test must look like *)
Definition act_lid (x : act) : Z := match x with Acquire l | Grant l | Check l | Release l => l end.

(** Blocks of acquire, count, check, release on one lock. *)
Fixpoint blocks (p : list act) : bool :=
  match p with
  | [] => true
  | Acquire l :: q => match q with Grant l' :: _ => (l =? l') && blocks q | _ => false end
  | Grant l :: q => match q with Check l' :: _ => (l =? l') && blocks q | _ => false end
  | Check l :: q => match q with Release l' :: _ => (l =? l') && blocks q | _ => false end
  | Release l :: q => match q with [] | Acquire _ :: _ => blocks q | _ => false end
  end.

(** The lock a thread must hold, and the one it has counted. *)
Definition inside (p : list act) : option Z :=
  match p with (Grant l | Check l | Release l) :: _ => Some l | _ => None end.
Definition counted (p : list act) : option Z := match p with Check l :: _ => Some l | _ => None end.

Lemma counted_inside p l : counted p = Some l -> inside p = Some l.
Proof. by destruct p as [|[]]. Qed.

Lemma inside_lid p l (Q : Z -> Prop) : inside p = Some l -> Forall (fun x => Q (act_lid x)) p -> Q l.
Proof. destruct p as [|[] p]; intros [= ->] [H _]%Forall_cons; exact H. Qed.

Lemma blocks_acquire l p : blocks (Acquire l :: p) = true -> inside p = Some l /\ counted p = None /\ blocks p = true.
Proof. destruct p as [|[|l'| |] p]; cbn [blocks]; try done. intros [->%Z.eqb_eq ?]%andb_true_iff. done. Qed.
Lemma blocks_grant l p : blocks (Grant l :: p) = true -> inside p = Some l /\ counted p = Some l /\ blocks p = true.
Proof. destruct p as [|[| |l'|] p]; cbn [blocks]; try done. intros [->%Z.eqb_eq ?]%andb_true_iff. done. Qed.
Lemma blocks_check l p : blocks (Check l :: p) = true -> inside p = Some l /\ counted p = None /\ blocks p = true.
Proof. destruct p as [|[| | |l'] p]; cbn [blocks]; try done. intros [->%Z.eqb_eq ?]%andb_true_iff. done. Qed.
Lemma blocks_release l p : blocks (Release l :: p) = true -> inside p = None /\ counted p = None /\ blocks p = true.
Proof. by destruct p as [|[] p]. Qed.

(** ** The invariant *)
Context (lids : list Z).
(** The tester's assumption: lock names are distinct in the first byte. *)
Hypothesis distinct : forall l l', l ∈ lids -> l' ∈ lids -> slot l = slot l' -> l = l'.

Record tinv (s : tsys) : Prop := {
  ti_locks : lock_inv (locks s);
  ti_len : length (ct s) = 256%nat;
  ti_blocks : forall i p, progs s !! i = Some p -> blocks p = true /\ Forall (fun x => act_lid x ∈ lids) p;
  ti_hold : forall i p l, progs s !! i = Some p -> inside p = Some l -> threads (locks s) !! (client i, i) = Some (Holding l);
  ti_one : forall i p l, progs s !! i = Some p -> counted p = Some l -> ct s !! slot l = Some 1;
  ti_zero : forall x v, ct s !! x = Some v -> v = 0 \/
    exists i p l, progs s !! i = Some p /\ counted p = Some l /\ slot l = x }.

Lemma slot_lt lid : (slot lid < 256)%nat.
Proof.
  unfold slot. change 255 with (Z.ones 8). rewrite Z.land_ones by lia.
  pose proof (Z.mod_pos_bound lid (2 ^ 8)). lia.
Qed.

Lemma only_one s i p l j q l' :
  tinv s -> progs s !! i = Some p -> inside p = Some l -> progs s !! j = Some q -> counted q = Some l' ->
  slot l = slot l' -> i = j.
Proof.
  intros Hi Hp Hl Hq Hl' Es. apply counted_inside in Hl'.
  assert (l = l') as <-.
  { apply distinct; [| |done].
    - by eapply (inside_lid p l (.∈ lids)), (ti_blocks s Hi).
    - by eapply (inside_lid q l' (.∈ lids)), (ti_blocks s Hi). }
  by destruct (holder_unique _ _ _ _ _ _ (ti_locks s Hi) (ti_hold s Hi i p l Hp Hl) (ti_hold s Hi j q l Hq Hl')).
Qed.

(** The two checks pass. *)
Lemma grant_passes s i lid p :
  tinv s -> progs s !! i = Some (Grant lid :: p) -> check_grant (ct s) lid = Ret (<[slot lid := 1]> (ct s)).
Proof.
  intros Hi Hp. unfold check_grant.
  destruct (lookup_lt_is_Some_2 (ct s) (slot lid)) as [v Ev]; [rewrite (ti_len s Hi); apply slot_lt|].
  rewrite Ev. destruct (ti_zero s Hi _ _ Ev) as [->|(j & q & l' & Hq & Hl' & Es)]; [done|].
  rewrite (only_one s i _ lid j q l' Hi Hp eq_refl Hq Hl' (eq_sym Es)) in Hp. rewrite Hp in Hq. by injection Hq as <-.
Qed.

Lemma check_passes s i lid p :
  tinv s -> progs s !! i = Some (Check lid :: p) -> check_release (ct s) lid = Ret (<[slot lid := 0]> (ct s)).
Proof. intros Hi Hp. unfold check_release. by rewrite (ti_one s Hi i _ lid Hp eq_refl). Qed.

(** Replacing the program of a thread by what is left of it. *)
Lemma tinv_advance l c ps i p p' l' c' :
  tinv (Tsys l c ps) -> ps !! i = Some p -> lock_inv l' ->
  blocks p' = true -> Forall (fun x => act_lid x ∈ lids) p' -> length c' = 256%nat ->
  (forall lid, inside p' = Some lid -> threads l' !! (client i, i) = Some (Holding lid)) ->
  (forall j q lid, j <> i -> ps !! j = Some q -> inside q = Some lid -> threads l' !! (client j, j) = Some (Holding lid)) ->
  (forall lid, counted p' = Some lid -> c' !! slot lid = Some 1) ->
  (forall j q lid, j <> i -> ps !! j = Some q -> counted q = Some lid -> c' !! slot lid = Some 1) ->
  (forall x v, c' !! x = Some v -> v = 0 \/ (exists lid, counted p' = Some lid /\ slot lid = x) \/
     (exists j q lid, j <> i /\ ps !! j = Some q /\ counted q = Some lid /\ slot lid = x)) ->
  tinv (Tsys l' c' (<[i := p']> ps)).
Proof.
  intros [H1 H2 H3 H4 H5 H6] Hp Hl' Hb Hf Hlen Hin Hin' Hc Hc' Hz. simpl in *. split; simpl; [done|done|..].
  - intros j q [[<- <-]|[_ Hq]]%lookup_insert_Some; [done|by apply (H3 j)].
  - intros j q lid [[<- <-]|[Hne Hq]]%lookup_insert_Some; [by apply Hin|]. by apply Hin'.
  - intros j q lid [[<- <-]|[Hne Hq]]%lookup_insert_Some; [by apply Hc|]. by eapply Hc'.
  - intros x v Hx. destruct (Hz x v Hx) as [?|[(lid & ? & ?)|(j & q & lid & ? & ? & ?)]]; [by left|right|right].
    + exists i, p', lid. by rewrite lookup_insert_eq.
    + exists j, q, lid. by rewrite lookup_insert_ne.
Qed.

Lemma others_zero l c ps i p x v :
  tinv (Tsys l c ps) -> ps !! i = Some p -> c !! x = Some v -> (forall lid, counted p = Some lid -> slot lid <> x) ->
  v = 0 \/ exists j q lid, j <> i /\ ps !! j = Some q /\ counted q = Some lid /\ slot lid = x.
Proof.
  intros Hi Hp Hx Hc. destruct (ti_zero _ Hi x v Hx) as [?|(j & q & lid & Hq & Hcq & Hs)]; [by left|right].
  exists j, q, lid. split; [|done]. intros ->. simpl in Hq. rewrite Hp in Hq. injection Hq as <-. by apply (Hc lid).
Qed.

(** Counting: the slot of the lock is set, which no other thread has counted. *)
Lemma tinv_count l c ps i p p' lid v :
  tinv (Tsys l c ps) -> ps !! i = Some p -> inside p = Some lid ->
  blocks p' = true -> Forall (fun x => act_lid x ∈ lids) p' -> inside p' = Some lid ->
  (counted p' = Some lid /\ v = 1 \/ counted p' = None /\ v = 0) ->
  tinv (Tsys l (<[slot lid := v]> c) (<[i := p']> ps)).
Proof.
  intros Hi Hp Hl Hb Hf Hin Hv.
  assert ((slot lid < length c)%nat) as Hlen by (pose proof (ti_len _ Hi) as E; cbn [ct] in E; rewrite E; apply slot_lt).
  assert (forall lid', counted p = Some lid' -> lid' = lid) as Hcp.
  { intros lid' E%counted_inside. rewrite E in Hl. by injection Hl. }
  eapply tinv_advance; [exact Hi|exact Hp|apply (ti_locks _ Hi)|done|done|rewrite length_insert; apply (ti_len _ Hi)| | | | |].
  - intros lid' E. rewrite Hin in E. injection E as <-. by apply (ti_hold _ Hi i p lid).
  - intros j q lid' _. apply (ti_hold _ Hi).
  - intros lid' E. destruct Hv as [[Hc ->]|[Hc _]]; rewrite Hc in E; [|done]. injection E as <-. by apply list_lookup_insert_eq.
  - intros j q lid' Hne Hq Hcq. rewrite list_lookup_insert_ne; [by apply (ti_one _ Hi j q)|].
    intros Es. apply Hne. symmetry. by eapply (only_one _ i p lid j q lid' Hi Hp).
  - intros x w Hx. destruct (decide (x = slot lid)) as [->|Hne].
    + rewrite list_lookup_insert_eq in Hx by done. injection Hx as <-.
      destruct Hv as [[Hc _]|[_ ->]]; [right; left; by exists lid|by left].
    + rewrite list_lookup_insert_ne in Hx by done.
      destruct (others_zero l c ps i p x w Hi Hp Hx) as [?|?]; [|by left|by right; right].
      intros lid' ->%Hcp. by intros <-.
Qed.

Lemma tinv_step s e s' : tinv s -> tstep s e s' -> tinv s'.
Proof.
  intros Hi Hst. destruct Hst as
    [l e l' c ps Hl [_ Hk]|l l' c ps i lid p Hp Hl Hn Et|l c ps i lid p Hp Ht|l c c' ps i lid p Hp E|l c c' ps i lid p Hp E
    |l l' c ps i lid p Hp Hl Ht Et].
  - destruct Hi as [H1 H2 H3 H4 H5 H6]. split; [by eapply lock_step_inv|done|done| |done|done].
    intros i p lid Hp Hin. by apply Hk, (H4 i p).
  - destruct Hi as [H1 H2 H3 H4 H5 H6]. split; [by eapply lock_step_inv|done|done| |done|done].
    intros j q lid' Hq Hin. simpl. rewrite Et. pose proof (H4 j q lid' Hq Hin) as Hh. simpl in Hh.
    rewrite lookup_insert_ne; [done|]. intros [= E1 E2]. subst j. by rewrite Hn in Hh.
  - destruct (ti_blocks _ Hi i _ Hp) as [Hb [_ Hf]%Forall_cons]. apply blocks_acquire in Hb as (Hin & Hc & Hb).
    eapply tinv_advance; [exact Hi|exact Hp|apply (ti_locks _ Hi)|done|done|apply (ti_len _ Hi)| | | | |].
    + intros lid' E. rewrite Hin in E. by injection E as <-.
    + intros j q lid' _. apply (ti_hold _ Hi).
    + intros lid' E. by rewrite Hc in E.
    + intros j q lid' _. apply (ti_one _ Hi).
    + intros x v Hx. destruct (others_zero _ _ _ i _ x v Hi Hp Hx) as [?|?]; [done|by left|by right; right].
  - pose proof (grant_passes _ i lid p Hi Hp) as G. cbn [ct] in G. rewrite G in E. injection E as <-.
    destruct (ti_blocks _ Hi i _ Hp) as [Hb [_ Hf]%Forall_cons]. apply blocks_grant in Hb as (Hin & Hc & Hb).
    eapply tinv_count; [exact Hi|exact Hp|done|done|done|done|by left].
  - pose proof (check_passes _ i lid p Hi Hp) as G. cbn [ct] in G. rewrite G in E. injection E as <-.
    destruct (ti_blocks _ Hi i _ Hp) as [Hb [_ Hf]%Forall_cons]. apply blocks_check in Hb as (Hin & Hc & Hb).
    eapply tinv_count; [exact Hi|exact Hp|done|done|done|done|by right].
  - destruct (ti_blocks _ Hi i _ Hp) as [Hb [_ Hf]%Forall_cons]. apply blocks_release in Hb as (Hin & Hc & Hb).
    eapply tinv_advance; [exact Hi|exact Hp|eapply lock_step_inv; [apply (ti_locks _ Hi)|done]|done|done|apply (ti_len _ Hi)| | | | |].
    + intros lid' E. by rewrite Hin in E.
    + intros j q lid' Hne Hq Hinq. rewrite Et, lookup_delete_ne; [by apply (ti_hold _ Hi j q)|]. by intros [= _ ->].
    + intros lid' E. by rewrite Hc in E.
    + intros j q lid' _. apply (ti_one _ Hi).
    + intros x v Hx. destruct (others_zero _ _ _ i _ x v Hi Hp Hx) as [?|?]; [done|by left|by right; right].
Qed.

(** Threads about to run tests, over a service that has served others before. *)
Definition tinit (s : tsys) : Prop :=
  (exists tr, reachable sys_init lock_step tr (locks s)) /\ ct s = replicate 256 0 /\
  forall i p, progs s !! i = Some p -> blocks p = true /\ Forall (fun x => act_lid x ∈ lids) p /\ inside p = None.

Lemma tinv_reachable tr s : reachable tinit tstep tr s -> tinv s.
Proof.
  apply (reachable_invariant tinit tstep (fun _ => tinv)); clear tr s; [|intros ? ? ? ?; apply tinv_step].
  intros s ([tr Hl] & Hc & Hp). split.
  - by eapply lock_inv_reachable.
  - rewrite Hc. apply length_replicate.
  - intros i p Hi. by destruct (Hp i p Hi) as (? & ? & _).
  - intros i p l Hi Hin. destruct (Hp i p Hi) as (_ & _ & E). by rewrite E in Hin.
  - intros i p l Hi Hin%counted_inside. destruct (Hp i p Hi) as (_ & _ & E). by rewrite E in Hin.
  - intros x v. rewrite Hc. intros [-> _]%lookup_replicate. by left.
Qed.

Lemma blocks_pass tr s i lid p :
  reachable tinit tstep tr s ->
  (progs s !! i = Some (Grant lid :: p) -> exists c, check_grant (ct s) lid = Ret c) /\
  (progs s !! i = Some (Check lid :: p) -> exists c, check_release (ct s) lid = Ret c).
Proof.
  intros Hi%tinv_reachable. split; intros Hp; eexists; [by eapply grant_passes|by eapply check_passes].
Qed.
End tester.

(** ** The program's own tests *)

(** The state in which [main] starts a test: the counters are 0, and the clients
    may have been used by the tests before. *)
Definition main_starts (test : Z) (s : tsys) : Prop :=
  (exists tr, reachable sys_init lock_step tr (locks s)) /\ ct s = replicate 256 0 /\ progs s = main_progs test.

Lemma main_starts_tinit test s : main_starts test s -> tinit [a] s.
Proof.
  intros (Hl & Hc & Hp). split; [done|]. split; [done|]. intros i p. rewrite Hp. unfold main_progs.
  intros Hi%elem_of_list_to_map_2. apply list_elem_of_fmap in Hi as (n & [= -> ->] & _).
  unfold test_prog. destruct (test =? 2); (split; [done|]; split; [|done]); repeat constructor.
Qed.

(** C20: the lock tester never complains: in each of its concurrent tests, however
    its threads interleave with each other and with the lock service, whatever the
    names of the clients, the counter of a lock just granted is 0 and that of a
    lock about to be released is 1. *)
Theorem tester_passes test (lc : Z -> str) tr s i lid p :
  reachable (main_starts test) (tstep (fun i => lc (test_client test i))) tr s ->
  (progs s !! i = Some (Grant lid :: p) -> exists c, check_grant (ct s) lid = Ret c) /\
  (progs s !! i = Some (Check lid :: p) -> exists c, check_release (ct s) lid = Ret c).
Proof.
  intros Hr. apply (fun d => blocks_pass (fun i => lc (test_client test i)) [a] d tr).
  - intros l l' ->%list_elem_of_singleton ->%list_elem_of_singleton. done.
  - induction Hr as [s Hs|tr s e s' Hr IH Hst]; [constructor; by eapply main_starts_tinit|by eapply reach_step].
Qed.

(** The checks of [test1], which is run alone, pass one after the other. *)
Fixpoint run_checks (ct : list Z) (p : list act) : res (list Z) :=
  match p with
  | [] => Ret ct
  | Grant lid :: p => ct ← check_grant ct lid; run_checks ct p
  | Check lid :: p => ct ← check_release ct lid; run_checks ct p
  | _ :: p => run_checks ct p
  end.


Theorem test1_passes : run_checks (replicate 256 0) test1 = Ret (replicate 256 0).
Proof. vm_compute. reflexivity. Qed.

(** ** A run: in test 4, the first thread acquires lock 1 *)
Module TesterExample.
Import LockExample.

Definition v2' : Srv.t := get_srv (Srv.acquire v1 1 a).
Definition e1 : Clt.t := Clt.acquire_enter Clt.new 1.
Definition l2 : sys := Sys v1 (<[a := e1]> (clients w1)) (<[(a, 1) := Trying 1]> ∅).
Definition l3 : sys := Sys v2' (<[a := Clt.set_status e1 1 Clt.LOCKED]> (clients l2)) (<[(a, 1) := Holding 1]> (threads l2)).
Definition zeros : list Z := replicate 256 0.
Definition who (_ : Z) : str := a.
Definition ps : gmap Z (list act) := main_progs 4.
Definition t0 : tsys := Tsys w0 zeros ps.
Definition tsteps : list (unit * tsys) :=
  [(tt, Tsys w1 zeros ps);
   (tt, Tsys l2 zeros ps);
   (tt, Tsys l3 zeros ps);
   (tt, Tsys l3 zeros (<[1 := drop 1 test3]> ps))].

Lemma tester_run : runs (tstep who) t0 tsteps.
Proof.
  split; [|split; [|split; [|split; [|done]]]].
  - apply (ts_service who w0 LOther w1); [apply (ls_attach Srv.new ∅ ∅ a v1 0); vm_compute; reflexivity|].
    split; [done|]. intros k lid Hk. exact Hk.
  - apply (ts_call who w1 l2 zeros ps 1 1 (drop 1 test3)); [reflexivity| |reflexivity|reflexivity].
    apply (ls_enter v1 (clients w1) ∅ a Clt.new 1 1); vm_compute; reflexivity.
  - apply (ts_service who l2 LOther l3).
    + apply (ls_turn v1 (clients l2) (threads l2) a e1 1 1 v2' 0 _ Clt.Acquired); vm_compute; reflexivity.
    + split; intros k; unfold l3, l2; cbn [threads]; [intros [E1 E2]%lookup_insert_None|intros lid Hk].
      * by rewrite !lookup_insert_ne.
      * destruct (decide ((a, 1) = k)) as [<-|Hne]; [by rewrite lookup_insert_eq in Hk|].
        rewrite lookup_insert_ne in Hk by done. by rewrite !lookup_insert_ne.
  - apply (ts_acquired who l3 zeros ps 1 1 (drop 1 test3)); reflexivity.
Qed.

Lemma t0_init : main_starts 4 t0.
Proof. split; [|done]. exists []. constructor. by split. Qed.

(** C20, witness: the count after the grant. *)
Lemma tester_passes_witness : exists c, check_grant zeros 1 = Ret c.
Proof.
  refine (proj1 (tester_passes 4 who _ (Tsys l3 zeros (<[1 := drop 1 test3]> ps)) 1 1 (drop 2 test3)
    (reachable_runs _ _ [] t0 tsteps (reach_init _ _ _ t0_init) tester_run)) _).
  reflexivity.
Defined.
End TesterExample.
