(* ===== verification/Protocols.v ===== *)
(** * The structures of [paxos_protocol.h] and [rsm_protocol.h]

    Each structure is marshalled field by field, in the order its [operator<<]
    names them; [fields] is that list of fields.  A structure inherits the
    marshalling contract of its fields. *)

From S2P Require Import Prelude Marshall MarshallSpec.

(** ** Structures *)
Section struct.
Context `{Allocator} {A B : Type} {MB : Marshal B} (fields : A -> B) (of_fields : B -> A).

Definition Marshal_struct (d : A) : Marshal A :=
  {| dflt := d;
     put m a := put m (fields a);
     get old u := '(x, u) ← get (fields old) u; Ret (of_fields x, u) |}.

Context {SB : MarshalSpec B} (of_fields_fields : forall a, of_fields (fields a) = a).

#[local] Obligation Tactic := idtac.
Program Definition MarshalSpec_struct (d : A) : @MarshalSpec _ A (Marshal_struct d) :=
  {| enc a := enc (fields a); valid a := valid (fields a) |}.
Next Obligation. intros d m0 c a Hm Hv Hl. exact (put_ok m0 c (fields a) Hm Hv Hl). Qed.
Next Obligation.
  intros d old u a r Hu Hv. destruct (get_ok (fields old) u (fields a) r Hu Hv) as (u' & E & Hu').
  exists u'. simpl. rewrite E. rsimpl. by rewrite of_fields_fields.
Qed.
Next Obligation.
  intros d old u a r Hu Hv Hp. destruct (get_truncated (fields old) u (fields a) r Hu Hv Hp) as (x & u' & r' & E & Hu').
  exists (of_fields x), u', r'. simpl. by rewrite E.
Qed.
Next Obligation.
  intros d old u r Hu. destruct (get_failed (fields old) u r Hu) as (x & u' & r' & E & Hu').
  exists (of_fields x), u', r'. simpl. by rewrite E.
Qed.
End struct.

(** ** paxos_protocol.h *)
Record prop_t := Prop_t { n : Z; m : str }.

(** [operator>] and [operator>=] of [paxos.cc]. *)
Definition prop_gt (a b : prop_t) : bool := (n b <? n a) || ((n a =? n b) && str_gtb (m a) (m b)).
Definition prop_ge (a b : prop_t) : bool := (n b <? n a) || ((n a =? n b) && str_geb (m a) (m b)).

Definition prop_fields (p : prop_t) : uint * str := (UInt (n p), m p).
Definition prop_of (x : uint * str) : prop_t := Prop_t (uint_val x.1) x.2.

Module paxos_protocol.
Definition OK : Z := 0.
Definition ERR : Z := 1.
Record preparearg := Preparearg { pa_instance : Z; pa_n : prop_t }.
Record prepareres := Prepareres { oldinstance : bool; accept : bool; pr_n_a : prop_t; pr_v_a : str }.
Record acceptarg := Acceptarg { aa_instance : Z; aa_n : prop_t; aa_v : str }.
Record decidearg := Decidearg { da_instance : Z; da_v : str }.
End paxos_protocol.
Import paxos_protocol.

(** ** rsm_protocol.h *)
Record viewstamp := Viewstamp { vid : Z; seqno : Z }.
Definition viewstamp_eqb (a b : viewstamp) : bool := (vid a =? vid b) && (seqno a =? seqno b).
Definition viewstamp_gt (a b : viewstamp) : bool := (vid b <? vid a) || ((vid a =? vid b) && (seqno b <? seqno a)).
Definition viewstamp_neb (a b : viewstamp) : bool := negb (vid a =? vid b) || negb (seqno a =? seqno b).

Module rsm_protocol.
Definition OK : Z := 0.
Definition ERR : Z := 1.
Definition BUSY : Z := 2.
Record transferres := Transferres { state : str; last : viewstamp }.
Record joinres := Joinres { log : str }.
End rsm_protocol.
Import rsm_protocol.

(** ** Marshalling *)
Section instances.
Context `{Allocator}.

#[export] Instance Marshal_prop : Marshal prop_t := Marshal_struct prop_fields prop_of (Prop_t 0 []).
#[export] Instance MarshalSpec_prop : MarshalSpec prop_t.
Proof. apply MarshalSpec_struct; [apply _|by intros []]. Defined.

Definition preparearg_fields (a : preparearg) : uint * prop_t := (UInt (pa_instance a), pa_n a).
#[export] Instance Marshal_preparearg : Marshal preparearg :=
  Marshal_struct preparearg_fields (fun x => Preparearg (uint_val x.1) x.2) (Preparearg 0 (Prop_t 0 [])).
#[export] Instance MarshalSpec_preparearg : MarshalSpec preparearg.
Proof. apply MarshalSpec_struct; [apply _|by intros []]. Defined.

Definition prepareres_fields (r : prepareres) : bool * (bool * (prop_t * str)) :=
  (oldinstance r, (accept r, (pr_n_a r, pr_v_a r))).
#[export] Instance Marshal_prepareres : Marshal prepareres :=
  Marshal_struct prepareres_fields (fun x => Prepareres x.1 x.2.1 x.2.2.1 x.2.2.2)
    (Prepareres false false (Prop_t 0 []) []).
#[export] Instance MarshalSpec_prepareres : MarshalSpec prepareres.
Proof. apply MarshalSpec_struct; [apply _|by intros []]. Defined.

Definition acceptarg_fields (a : acceptarg) : uint * (prop_t * str) := (UInt (aa_instance a), (aa_n a, aa_v a)).
#[export] Instance Marshal_acceptarg : Marshal acceptarg :=
  Marshal_struct acceptarg_fields (fun x => Acceptarg (uint_val x.1) x.2.1 x.2.2) (Acceptarg 0 (Prop_t 0 []) []).
#[export] Instance MarshalSpec_acceptarg : MarshalSpec acceptarg.
Proof. apply MarshalSpec_struct; [apply _|by intros []]. Defined.

Definition decidearg_fields (a : decidearg) : uint * str := (UInt (da_instance a), da_v a).
#[export] Instance Marshal_decidearg : Marshal decidearg :=
  Marshal_struct decidearg_fields (fun x => Decidearg (uint_val x.1) x.2) (Decidearg 0 []).
#[export] Instance MarshalSpec_decidearg : MarshalSpec decidearg.
Proof. apply MarshalSpec_struct; [apply _|by intros []]. Defined.

Definition viewstamp_fields (v : viewstamp) : uint * uint := (UInt (vid v), UInt (seqno v)).
#[export] Instance Marshal_viewstamp : Marshal viewstamp :=
  Marshal_struct viewstamp_fields (fun x => Viewstamp (uint_val x.1) (uint_val x.2)) (Viewstamp 0 0).
#[export] Instance MarshalSpec_viewstamp : MarshalSpec viewstamp.
Proof. apply MarshalSpec_struct; [apply _|by intros []]. Defined.

Definition transferres_fields (r : transferres) : str * viewstamp := (state r, last r).
#[export] Instance Marshal_transferres : Marshal transferres :=
  Marshal_struct transferres_fields (fun x => Transferres x.1 x.2) (Transferres [] (Viewstamp 0 0)).
#[export] Instance MarshalSpec_transferres : MarshalSpec transferres.
Proof. apply MarshalSpec_struct; [apply _|by intros []]. Defined.

#[export] Instance Marshal_joinres : Marshal joinres := Marshal_struct log Joinres (Joinres []).
#[export] Instance MarshalSpec_joinres : MarshalSpec joinres.
Proof. apply MarshalSpec_struct; [apply _|by intros []]. Defined.
End instances.
