(* ===== verification/Extent.v ===== *)
(** * Extents: [extent_protocol.h], [extent_server.cc] and [extent_client.cc]

    The server stores whole files by id; the client caches them and writes them
    back when the lock of the extent is given up ([flush], called by
    [lock_release_cache_user::dorelease]).  [now] is what [time(NULL)] returns,
    [junk_atime] what a freshly allocated [attr] holds in the field [put] does not
    set.  A call of the client to the server is the server's method here;
    [ExtentRpc] has the calls themselves and shows that they are. *)

From S2P Require Import Prelude Marshall MarshallSpec RpcStubs.

(** ** extent_protocol.h *)
Module extent_protocol.
Definition OK : Z := 0.
Definition RPCERR : Z := 1.
Definition NOENT : Z := 2.
Definition IOERR : Z := 3.
Module rpc_numbers.
Definition put : Z := 24577.     (* 0x6001 *)
Definition get : Z := 24578.
Definition getattr : Z := 24579.
Definition remove : Z := 24580.
End rpc_numbers.

Record attr := Attr { atime : Z; mtime : Z; ctime : Z; size : Z }.

(** The fields in the order [operator<<] writes and [operator>>] reads them. *)
Definition attr_fields (a : attr) : uint * uint * uint * uint :=
  (UInt (atime a), UInt (mtime a), UInt (ctime a), UInt (size a)).
Definition attr_of (x : uint * uint * uint * uint) : attr :=
  let '(a, m, c, s) := x in Attr (uint_val a) (uint_val m) (uint_val c) (uint_val s).

#[global] Instance Marshal_attr `{Allocator} : Marshal attr :=
  {| dflt := Attr 0 0 0 0;
     put m a := put m (attr_fields a);
     get old u := '(x, u) ← get (attr_fields old) u; Ret (attr_of x, u) |}.
End extent_protocol.
Import extent_protocol (attr, Attr, atime, mtime, ctime, size).

(** ** class extent_server *)
Module extent_server.

Record filedata := Filedata { file_content : str; file_attr : attr }.
Abbreviation t := (gmap Z filedata).

Definition is_inum_present (s : t) (inum : Z) : bool := bool_decide (is_Some (s !! inum)).

Definition put (s : t) (id : Z) (buf : str) (now junk_atime : Z) : t * Z :=
  let sz := u32 (Z.of_nat (length buf)) in
  match s !! id with
  | Some f => (<[id := Filedata buf (Attr (atime (file_attr f)) now now sz)]> s, extent_protocol.OK)
  | None => (<[id := Filedata buf (Attr junk_atime now now sz)]> s, extent_protocol.OK)
  end.

(** [get]: the status, and the new value of the result [buf]. *)
Definition get (s : t) (id : Z) (buf : str) (now : Z) : t * Z * str :=
  match s !! id with
  | Some f =>
      let a := file_attr f in
      (<[id := Filedata (file_content f) (Attr now (mtime a) (ctime a) (size a))]> s,
       extent_protocol.OK, file_content f)
  | None => (s, extent_protocol.IOERR, buf)
  end.

Definition getattr (s : t) (id : Z) (a : attr) : Z * attr :=
  match s !! id with
  | Some f => (extent_protocol.OK, file_attr f)
  | None => (extent_protocol.IOERR, a)
  end.

Definition remove (s : t) (id : Z) : t * Z :=
  match s !! id with
  | Some _ => (delete id s, extent_protocol.OK)
  | None => (s, extent_protocol.OK)
  end.

(** [inum & 0x80000000]. *)
Definition isfile (inum : Z) : bool := negb (Z.land inum 2147483648 =? 0).
Definition isdir (inum : Z) : bool := negb (isfile inum).
End extent_server.

(** ** class extent_client *)
Module extent_client.

Record filedata := Filedata {
  file_content : str; file_attr : attr; is_dirty : bool; is_removed : bool }.
Abbreviation t := (gmap Z filedata).

Section ops.
Context `{Allocator} (now junk_atime : Z).

Definition getattr (c : t) (s : extent_server.t) (eid : Z) (a : attr) : res (Z * attr) :=
  match c !! eid with
  | Some f => Ret (extent_protocol.OK, file_attr f)
  | None =>
      let '(ret, a) := extent_server.getattr s eid a in
      _ ← VERIFY (ret =? extent_protocol.OK);
      Ret (ret, a)
  end.

(** [get]: caches what the server returns. *)
Definition get (c : t) (s : extent_server.t) (eid : Z) (buf : str)
  : res (t * extent_server.t * Z * str) :=
  match c !! eid with
  | Some f =>
      let a := file_attr f in
      let f' := Filedata (file_content f) (Attr now (mtime a) (ctime a) (size a)) (is_dirty f) (is_removed f) in
      Ret (<[eid := f']> c, s, extent_protocol.OK, file_content f)
  | None =>
      let '(s, ret, buf) := extent_server.get s eid buf now in
      _ ← VERIFY (ret =? extent_protocol.OK);
      '(_, temp_attr) ← getattr c s eid (Attr 0 0 0 0);
      Ret (<[eid := Filedata buf temp_attr false false]> c, s, ret, buf)
  end.

Definition put (c : t) (eid : Z) (buf : str) : t * Z :=
  let sz := u32 (Z.of_nat (length buf)) in
  match c !! eid with
  | Some f =>
      (<[eid := Filedata buf (Attr (atime (file_attr f)) now now sz) true (is_removed f)]> c,
       extent_protocol.OK)
  | None => (<[eid := Filedata buf (Attr junk_atime now now sz) true false]> c, extent_protocol.OK)
  end.

Definition remove (c : t) (eid : Z) : t * Z :=
  match c !! eid with
  | Some f => (<[eid := Filedata (file_content f) (file_attr f) (is_dirty f) true]> c, extent_protocol.OK)
  | None => (c, extent_protocol.IOERR)
  end.

(** [cl->call(extent_protocol::remove, eid)]: overload resolution takes [eid] for
    the result, so the request carries no argument; the server runs the handler
    of its one-argument method on it and then checks what it returned
    ([rpcs::dispatch]). *)
Definition call_remove_without_argument (s : extent_server.t) : res (extent_server.t * Z) :=
  '(s, ret, _) ← fn_1 (SInt 0) (fun s (id : ull) (r : sint) =>
                    let '(s, ret) := extent_server.remove s (ull_val id) in Ret (s, ret, r))
                  s (take_content []) marshall_new;
  _ ← VERIFY (negb (ret =? rpc_const.unmarshal_args_failure));
  Ret (s, ret).

Definition flush (c : t) (s : extent_server.t) (eid : Z) : res (t * extent_server.t * Z) :=
  match c !! eid with
  | Some f =>
      s ← (if is_removed f then
             '(s, ret) ← call_remove_without_argument s;
             _ ← VERIFY (ret =? extent_protocol.OK);
             Ret s
           else if is_dirty f then
             let '(s, ret) := extent_server.put s eid (file_content f) now junk_atime in
             _ ← VERIFY (ret =? extent_protocol.OK);
             Ret s
           else Ret s);
      Ret (delete eid c, s, extent_protocol.OK)
  | None => Ret (c, s, extent_protocol.OK)
  end.
End ops.
End extent_client.

(** [lock_release_cache_user::dorelease]. *)
Definition dorelease `{Allocator} (now junk_atime : Z) (c : extent_client.t) (s : extent_server.t) (lid : Z)
  : res (extent_client.t * extent_server.t) :=
  '(c, s, _) ← extent_client.flush now junk_atime c s lid; Ret (c, s).
