(* ===== verification/ExtentSpec.v ===== *)
(** * The extent service: what clients read is what was last written

    Clients use an extent only while they hold its lock, and flush it when they
    give the lock up.  The machine below has any number of clients, one server,
    and the owner of each extent's lock. *)

From S2P Require Import Prelude Marshall MarshallSpec RpcStubs Extent.
Import extent_protocol (attr, Attr).

Section coherence.
Context `{Allocator} {I : Type} `{Countable I} (now junk_atime : Z).

(** Clients are known by a name of type [I]. *)
Record xsys := Xsys {
  caches : gmap I extent_client.t;
  xserver : extent_server.t;
  owner : gmap Z I }.

Definition cache (s : xsys) (i : I) : extent_client.t := default ∅ (caches s !! i).

Inductive xevent := XPut (eid : Z) (buf : str) | XOther.

Inductive xstep : xsys -> xevent -> xsys -> Prop :=
  | xs_acquire s i eid :
      owner s !! eid = None ->
      xstep s XOther (Xsys (caches s) (xserver s) (<[eid := i]> (owner s)))
  | xs_release s i eid c' v' :
      owner s !! eid = Some i -> dorelease now junk_atime (cache s i) (xserver s) eid = Ret (c', v') ->
      xstep s XOther (Xsys (<[i := c']> (caches s)) v' (delete eid (owner s)))
  | xs_put s i eid buf c' r :
      owner s !! eid = Some i -> extent_client.put now junk_atime (cache s i) eid buf = (c', r) ->
      xstep s (XPut eid buf) (Xsys (<[i := c']> (caches s)) (xserver s) (owner s))
  | xs_get s i eid old c' v' r buf :
      owner s !! eid = Some i -> extent_client.get now (cache s i) (xserver s) eid old = Ret (c', v', r, buf) ->
      xstep s XOther (Xsys (<[i := c']> (caches s)) v' (owner s))
  | xs_remove s i eid c' r :
      owner s !! eid = Some i -> extent_client.remove (cache s i) eid = (c', r) ->
      xstep s XOther (Xsys (<[i := c']> (caches s)) (xserver s) (owner s)).

Definition xinit (s : xsys) : Prop := caches s = ∅ /\ xserver s = ∅ /\ owner s = ∅.

(** What was last put into each extent, by anybody. *)
Definition put_event (m : gmap Z str) (e : xevent) : gmap Z str :=
  match e with XPut eid buf => <[eid := buf]> m | XOther => m end.
Definition last_put (tr : list xevent) : gmap Z str := foldl put_event ∅ tr.

(** Contents and recorded size of an extent, at a client and at the server. *)
Definition cdata (f : extent_client.filedata) : str * Z :=
  (extent_client.file_content f, extent_protocol.size (extent_client.file_attr f)).
Definition sdata (f : extent_server.filedata) : str * Z :=
  (extent_server.file_content f, extent_protocol.size (extent_server.file_attr f)).
Definition with_size (b : str) : str * Z := (b, u32 (Z.of_nat (length b))).

(** Where the current contents of an extent are. *)
Definition contents (s : xsys) (eid : Z) : option (str * Z) :=
  match owner s !! eid with
  | Some i =>
      match cache s i !! eid with
      | Some f => Some (cdata f)
      | None => sdata <$> xserver s !! eid
      end
  | None => sdata <$> xserver s !! eid
  end.

Record xinv (tr : list xevent) (s : xsys) : Prop := {
  xi_contents : forall eid, contents s eid = with_size <$> last_put tr !! eid;
  xi_cache : forall i eid f, cache s i !! eid = Some f ->
    owner s !! eid = Some i /\
    (extent_client.is_dirty f = false -> sdata <$> xserver s !! eid = Some (cdata f)) }.

Lemma cache_insert cs v o i c i' :
  cache (Xsys (<[i := c]> cs) v o) i' = if decide (i = i') then c else cache (Xsys cs v o) i'.
Proof.
  unfold cache. simpl. case_decide; [subst; by rewrite lookup_insert_eq|by rewrite lookup_insert_ne].
Qed.

(** A step of client [i] on extent [eid] that leaves the other extents alone. *)
Lemma xinv_step tr e s i eid c' v' o' :
  xinv tr s ->
  (forall eid', eid' <> eid -> c' !! eid' = cache s i !! eid' /\ o' !! eid' = owner s !! eid' /\
     sdata <$> v' !! eid' = sdata <$> xserver s !! eid' /\
     last_put (tr ++ [e]) !! eid' = last_put tr !! eid') ->
  (forall i', i' <> i -> cache s i' !! eid = None) ->
  let s' := Xsys (<[i := c']> (caches s)) v' o' in
  contents s' eid = with_size <$> last_put (tr ++ [e]) !! eid ->
  (forall f, c' !! eid = Some f -> o' !! eid = Some i /\
    (extent_client.is_dirty f = false ->
     sdata <$> v' !! eid = Some (cdata f))) ->
  xinv (tr ++ [e]) s'.
Proof.
  intros [Hc Hx] Hoth Hnone s' Heid Hf.
  assert (forall i' eid', eid' <> eid -> cache s' i' !! eid' = cache s i' !! eid') as Hcache.
  { intros i' eid' Hne. subst s'. rewrite cache_insert. case_decide; [subst; by apply Hoth|done]. }
  split.
  - intros eid'. destruct (decide (eid' = eid)) as [->|Hne]; [done|].
    destruct (Hoth eid' Hne) as (_ & Ho & Hv & Hl). rewrite Hl, <- (Hc eid').
    unfold contents. subst s'. simpl. rewrite Ho, Hv. destruct (owner s !! eid'); [|done].
    by rewrite Hcache.
  - intros i' eid' f Hi'. destruct (decide (eid' = eid)) as [->|Hne].
    + subst s'. rewrite cache_insert in Hi'. case_decide; [subst; by apply Hf|].
      unfold cache in Hi'. simpl in Hi'. fold (cache s i') in Hi'. by rewrite Hnone in Hi'.
    + rewrite Hcache in Hi' by done. destruct (Hoth eid' Hne) as (_ & Ho & Hv & _).
      destruct (Hx i' eid' f Hi') as (H1 & H3). subst s'. simpl. by rewrite Ho, Hv.
Qed.

Lemma last_put_other tr eid : last_put (tr ++ [XOther]) !! eid = last_put tr !! eid.
Proof. unfold last_put. by rewrite foldl_snoc. Qed.

Lemma others_uncached tr s i eid :
  xinv tr s -> owner s !! eid = Some i \/ owner s !! eid = None ->
  forall i', i' <> i -> cache s i' !! eid = None.
Proof.
  intros Hi Ho i' Hne. destruct (cache s i' !! eid) as [f|] eqn:E; [|done].
  apply (xi_cache _ _ Hi) in E as (E & _). destruct Ho; congruence.
Qed.

Lemma server_put_other v eid buf eid' :
  eid' <> eid -> (extent_server.put v eid buf now junk_atime).1 !! eid' = v !! eid'.
Proof.
  intros Hne. unfold extent_server.put.
  destruct (v !! eid); cbn [fst]; by rewrite lookup_insert_ne.
Qed.

Lemma server_put_same v eid buf :
  sdata <$> (extent_server.put v eid buf now junk_atime).1 !! eid = Some (with_size buf).
Proof.
  unfold extent_server.put. destruct (v !! eid); cbn [fst]; by rewrite lookup_insert_eq.
Qed.

Lemma contents_owned s i eid :
  owner s !! eid = Some i -> contents s eid =
  match cache s i !! eid with
  | Some f => Some (cdata f)
  | None => sdata <$> xserver s !! eid
  end.
Proof. intros E. unfold contents. by rewrite E. Qed.

Lemma with_size_of tr s i eid f :
  xinv tr s -> owner s !! eid = Some i -> cache s i !! eid = Some f ->
  with_size (extent_client.file_content f) = cdata f.
Proof.
  intros Hi Ho Ef. pose proof (contents_owned s i eid Ho) as Hcon. rewrite (xi_contents _ _ Hi), Ef in Hcon.
  destruct (last_put tr !! eid) as [b|]; [|done]. unfold with_size, cdata in *. simpl in Hcon. by injection Hcon as <- <-.
Qed.

Ltac xstep_at eid tr :=
  apply xinv_step with eid; [done| |by apply (others_uncached tr); [|left]| |];
  [let eid' := fresh "eid'" in let Hne := fresh "Hne" in intros eid' Hne|..].

Lemma xinv_release tr s i eid c' v' :
  xinv tr s -> owner s !! eid = Some i -> dorelease now junk_atime (cache s i) (xserver s) eid = Ret (c', v') ->
  xinv (tr ++ [XOther]) (Xsys (<[i := c']> (caches s)) v' (delete eid (owner s))).
Proof.
  intros Hi Ho E. pose proof (contents_owned s i eid Ho) as Hcon. rewrite (xi_contents _ _ Hi) in Hcon.
  unfold dorelease, extent_client.flush in E. destruct (cache s i !! eid) as [f|] eqn:Ef.
  - destruct (xi_cache _ _ Hi i eid f Ef) as (_ & Hd).
    destruct (extent_client.is_removed f); [done|].
    assert (c' = delete eid (cache s i) /\ (forall eid', eid' <> eid -> v' !! eid' = xserver s !! eid') /\
      sdata <$> v' !! eid = Some (cdata f)) as (-> & Hv & Hve).
    { destruct (extent_client.is_dirty f).
      - pose proof (server_put_other (xserver s) eid (extent_client.file_content f)) as H1.
        pose proof (server_put_same (xserver s) eid (extent_client.file_content f)) as H2.
        rewrite (with_size_of tr s i eid f) in H2 by done.
        destruct (extent_server.put _ _ _ _ _) as [v2 r2]. destruct (r2 =? extent_protocol.OK); [|done].
        injection E as <- <-. simpl in H1, H2. by split_and!.
      - injection E as <- <-. by split_and!; [| |apply Hd]. }
    xstep_at eid tr.
    + rewrite !lookup_delete_ne, Hv, last_put_other by done. done.
    + unfold contents. simpl. rewrite lookup_delete_eq, Hve, last_put_other. congruence.
    + intros f'. by rewrite lookup_delete_eq.
  - injection E as <- <-. xstep_at eid tr.
    + rewrite !lookup_delete_ne, last_put_other by done. done.
    + unfold contents. simpl. rewrite lookup_delete_eq, last_put_other. congruence.
    + intros f'. by rewrite Ef.
Qed.

(** A step that leaves the data of the extent as it is, in the cache. *)
Lemma xinv_same tr s i eid g d v' :
  xinv tr s -> owner s !! eid = Some i -> contents s eid = Some (cdata g) ->
  (forall eid', sdata <$> v' !! eid' = sdata <$> xserver s !! eid') ->
  (extent_client.is_dirty g = false -> sdata <$> xserver s !! eid = Some (cdata g)) ->
  d = <[eid := g]> (cache s i) ->
  xinv (tr ++ [XOther]) (Xsys (<[i := d]> (caches s)) v' (owner s)).
Proof.
  intros Hi Ho Hcon Hv Hd ->. rewrite (xi_contents _ _ Hi) in Hcon. xstep_at eid tr.
  - rewrite lookup_insert_ne, last_put_other by done. done.
  - rewrite (contents_owned _ i) by done. rewrite cache_insert, decide_True, lookup_insert_eq by done.
    by rewrite last_put_other.
  - intros f'. rewrite lookup_insert_eq, Hv. by intros [= <-].
Qed.

Lemma xinv_get tr s i eid old c' v' r buf :
  xinv tr s -> owner s !! eid = Some i ->
  extent_client.get now (cache s i) (xserver s) eid old = Ret (c', v', r, buf) ->
  xinv (tr ++ [XOther]) (Xsys (<[i := c']> (caches s)) v' (owner s)).
Proof.
  intros Hi Ho E. pose proof (contents_owned s i eid Ho) as Hcon.
  unfold extent_client.get in E. destruct (cache s i !! eid) as [f|] eqn:Ef.
  - injection E as <- <- _ _. destruct (xi_cache _ _ Hi i eid f Ef) as (_ & Hd).
    by eapply xinv_same; [done|done| | | |reflexivity].
  - unfold extent_server.get in E. destruct (xserver s !! eid) as [g|] eqn:Eg; [|done].
    simpl in E. res_inv. destruct x as [ra ta]. res_inv. subst.
    unfold extent_client.getattr, extent_server.getattr in E0. rewrite Ef, lookup_insert_eq in E0.
    injection E0 as <- <-. eapply xinv_same; [done|done| | | |reflexivity]; [done| |by rewrite Eg].
    intros eid'. destruct (decide (eid = eid')) as [<-|Hne]; [by rewrite lookup_insert_eq, Eg|].
    by rewrite lookup_insert_ne.
Qed.

Lemma xinv_put tr s i eid buf c' r :
  xinv tr s -> owner s !! eid = Some i -> extent_client.put now junk_atime (cache s i) eid buf = (c', r) ->
  xinv (tr ++ [XPut eid buf]) (Xsys (<[i := c']> (caches s)) (xserver s) (owner s)).
Proof.
  intros Hi Ho E.
  assert (exists f, c' = <[eid := f]> (cache s i) /\ cdata f = with_size buf /\ extent_client.is_dirty f = true)
    as (f & -> & Hb & Hd).
  { unfold extent_client.put in E. destruct (cache s i !! eid); injection E as <- _; by eexists. }
  xstep_at eid tr.
  - unfold last_put. rewrite foldl_snoc. simpl. by rewrite !lookup_insert_ne.
  - rewrite (contents_owned _ i) by done. rewrite cache_insert, decide_True, lookup_insert_eq by done.
    unfold last_put. rewrite foldl_snoc. simpl. by rewrite lookup_insert_eq, Hb.
  - intros f'. rewrite lookup_insert_eq. intros [= <-]. by rewrite Hd.
Qed.

Lemma xinv_remove tr s i eid c' r :
  xinv tr s -> owner s !! eid = Some i -> extent_client.remove (cache s i) eid = (c', r) ->
  xinv (tr ++ [XOther]) (Xsys (<[i := c']> (caches s)) (xserver s) (owner s)).
Proof.
  intros Hi Ho E. pose proof (contents_owned s i eid Ho) as Hcon. unfold extent_client.remove in E.
  destruct (cache s i !! eid) as [f|] eqn:Ef; injection E as <- _.
  - destruct (xi_cache _ _ Hi i eid f Ef) as (_ & Hd).
    by eapply xinv_same; [done|done| | | |reflexivity].
  - rewrite (xi_contents _ _ Hi) in Hcon. xstep_at eid tr.
    + by rewrite last_put_other.
    + rewrite (contents_owned _ i) by done. rewrite cache_insert, decide_True, Ef by done.
      by rewrite last_put_other.
    + intros f'. by rewrite Ef.
Qed.

Lemma xinv_reachable tr s : reachable xinit xstep tr s -> xinv tr s.
Proof.
  apply reachable_invariant; clear tr s.
  - intros s (E1 & E2 & E3). split.
    + intros eid. unfold contents, last_put. by rewrite E3, lookup_empty, E2, lookup_empty.
    + intros i eid f. unfold cache. by rewrite E1, lookup_empty.
  - intros tr s e s' Hi Hs. destruct Hs as
      [s i eid Ho|s i eid c' v' Ho E|s i eid buf c' r Ho E|s i eid old c' v' r buf Ho E|s i eid c' r Ho E].
    + destruct Hi as [Hc Hx]. split.
      * intros eid'. rewrite last_put_other, <- Hc. unfold contents. simpl.
        destruct (decide (eid = eid')) as [<-|Hne]; [|by rewrite lookup_insert_ne].
        rewrite lookup_insert_eq, Ho. unfold cache. simpl. fold (cache s i).
        destruct (cache s i !! eid) as [f|] eqn:Ef; [|done]. apply Hx in Ef as (Ef & _). congruence.
      * intros i' eid' f Hf. destruct (Hx i' eid' f Hf) as (H1 & H3). simpl. split; [|done].
        rewrite lookup_insert_ne; [done|congruence].
    + by eapply xinv_release.
    + by eapply xinv_put.
    + by eapply xinv_get.
    + by eapply xinv_remove.
Qed.

(** Cache coherence: in every reachable state, the holder of an extent's
    lock that reads it gets exactly the contents last written to it by any
    client, whether cached, flushed or fetched anew, and its attributes carry
    the size of those contents. *)
Theorem cache_coherent tr s i eid old a b :
  reachable xinit xstep tr s -> owner s !! eid = Some i -> last_put tr !! eid = Some b ->
  (exists c' v', extent_client.get now (cache s i) (xserver s) eid old = Ret (c', v', extent_protocol.OK, b)) /\
  (exists a', extent_client.getattr (cache s i) (xserver s) eid a = Ret (extent_protocol.OK, a') /\
    extent_protocol.size a' = u32 (Z.of_nat (length b))).
Proof.
  intros Hr Ho Hl. pose proof (xinv_reachable tr s Hr) as Hi.
  pose proof (contents_owned s i eid Ho) as Hcon. rewrite (xi_contents _ _ Hi), Hl in Hcon.
  unfold extent_client.get, extent_client.getattr, extent_server.get, extent_server.getattr.
  destruct (cache s i !! eid) as [f|] eqn:Ef.
  - injection Hcon as -> ->. split; [by do 2 eexists|by eexists].
  - destruct (xserver s !! eid) as [g|] eqn:Eg; [|done].
    injection Hcon as -> ->. rsimpl. rewrite lookup_insert_eq. rsimpl.
    split; [by do 2 eexists|by eexists].
Qed.
End coherence.

Module ExtentExample.
#[local] Instance zero_alloc : Allocator := fun _ => Ascii.zero.

Definition hello : str := S! "hello".
Definition g1 : extent_client.t := (extent_client.put 9 0 ∅ 5 hello).1.
Definition flushed : extent_client.t * extent_server.t :=
  match dorelease 9 0 g1 ∅ 5 with Ret r => r | _ => (∅, ∅) end.
Definition y0 : xsys (I := Z) := Xsys ∅ ∅ ∅.
Definition y1 : xsys (I := Z) := Xsys ∅ ∅ (<[5 := 1]> ∅).
Definition y2 : xsys (I := Z) := Xsys (<[1 := g1]> ∅) ∅ (<[5 := 1]> ∅).
Definition y3 : xsys (I := Z) := Xsys (<[1 := flushed.1]> (<[1 := g1]> ∅)) flushed.2 (delete 5 (<[5 := 1]> ∅)).
Definition y4 : xsys (I := Z) := Xsys (caches y3) (xserver y3) (<[5 := 2]> (owner y3)).
Definition ytrace : list xevent := [XOther; XPut 5 hello; XOther; XOther].

Lemma yrun : reachable xinit (xstep 9 0) ytrace y4.
Proof.
  apply (reach_step _ _ [XOther; XPut 5 hello; XOther] y3);
    [apply (reach_step _ _ [XOther; XPut 5 hello] y2);
     [apply (reach_step _ _ [XOther] y1); [apply (reach_step _ _ [] y0); [by constructor|]|]|]|].
  - apply (xs_acquire 9 0 y0 1 5). vm_compute. reflexivity.
  - apply (xs_put 9 0 y1 1 5 hello g1 0); vm_compute; reflexivity.
  - apply (xs_release 9 0 y2 1 5 flushed.1 flushed.2); vm_compute; reflexivity.
  - apply (xs_acquire 9 0 y3 2 5). vm_compute. reflexivity.
Qed.

(** An instance: client 2 reads what client 1 wrote and flushed. *)
Lemma cache_coherent_witness :
  (exists c' v', extent_client.get 9 (cache y4 2) (xserver y4) 5 [] = Ret (c', v', extent_protocol.OK, hello)) /\
  (exists a', extent_client.getattr (cache y4 2) (xserver y4) 5 (Attr 0 0 0 0) = Ret (extent_protocol.OK, a') /\
    extent_protocol.size a' = 5).
Proof.
  apply (cache_coherent 9 0 ytrace y4 2 5 [] (Attr 0 0 0 0) hello yrun); vm_compute; reflexivity.
Defined.

(** Flushing an extent that was removed brings the extent server down: the
    request carries no argument. *)
Theorem flush_of_removed_aborts c s eid f :
  c !! eid = Some f -> extent_client.is_removed f = true ->
  extent_client.flush 9 0 c s eid = Abort.
Proof. intros Ef Hr. unfold extent_client.flush. by rewrite Ef, Hr. Qed.

(** Removing an extent that is not cached does nothing at all. *)
Theorem remove_uncached_ignored c eid :
  c !! eid = None -> extent_client.remove c eid = (c, extent_protocol.IOERR).
Proof. intros E. unfold extent_client.remove. by rewrite E. Qed.
End ExtentExample.
