(* ===== verification/LockExtent.v ===== *)
(** * The lock service and the extent service together

    [ExtentSpec] shows the caches coherent when every extent has one owner, which
    flushes it before it stops being the owner.  Here the owners are those of the
    lock service of [LockSystem]: threads use an extent while they hold its lock,
    and the releaser flushes it ([dorelease]) before it gives the lock back. *)

From S2P Require Import Prelude Marshall RpcStubs LockServers LockClient LockSystem Extent ExtentSpec.
Import extent_protocol (attr, Attr).

(** Who holds each lock, at the server. *)
Definition owners (s : Srv.t) : gmap Z str :=
  omap (fun l => if decide (Srv.status l = Srv.LOCKED) then Some (Srv.lock_client l) else None) (Srv.lock_status_map s).

Lemma owners_held s lid id : owners s !! lid = Some id <-> held_by s lid id.
Proof.
  unfold owners, held_by. rewrite lookup_omap. destruct (Srv.lock_status_map s !! lid) as [l|]; simpl; [|naive_solver].
  case_decide; naive_solver.
Qed.

Lemma owners_none s lid : owners s !! lid = None <-> forall id, ~ held_by s lid id.
Proof.
  split.
  - intros E id Hh%owners_held. congruence.
  - intros Hn. destruct (owners s !! lid) as [id|] eqn:E; [|done]. apply owners_held in E. by apply Hn in E.
Qed.

Lemma owners_ext s s' : (forall lid id, held_by s' lid id <-> held_by s lid id) -> owners s' = owners s.
Proof.
  intros Hh. apply map_eq. intros lid. apply option_eq. intros id. by rewrite !owners_held.
Qed.

(** Asking the server for a lock either changes no owner or gives the lock. *)
Lemma ask_owners must s lid id s' answer :
  srv_ok s -> ask must s lid id = Some (s', answer) ->
  owners s' = owners s \/ (owners s !! lid = None /\ owners s' = <[lid := id]> (owners s)).
Proof.
  intros Hs E. unfold ask in E. destruct must; [|injection E as <- _; by left].
  destruct (acquire_spec s lid id Hs) as (s2 & a2 & E2 & Hp). rewrite E in E2. injection E2 as <- <-.
  assert (forall lid' h, lid' <> lid -> held_by s' lid' h <-> held_by s lid' h) as Hoth.
  { intros lid' h Hne. unfold held_by. by rewrite (ap_other _ _ _ _ _ Hp). }
  destruct (ap_answer _ _ _ _ _ Hp) as [(_ & Hfree & Hheld)|(_ & h0 & Hsame)].
  - right. split; [by apply owners_none|]. apply map_eq. intros lid'. destruct (decide (lid' = lid)) as [->|Hne].
    + rewrite lookup_insert_eq. by apply owners_held, Hheld.
    + rewrite lookup_insert_ne by done. apply option_eq. intros h. rewrite !owners_held. by apply Hoth.
  - left. apply owners_ext. intros lid' h. destruct (decide (lid' = lid)) as [->|Hne]; [|by apply Hoth].
    destruct (Hsame h) as [H1 H2]. by rewrite H1, H2.
Qed.

Lemma other_owners s s' :
  lock_inv s -> lock_step s LOther s' ->
  owners (server s') = owners (server s) \/
  exists lid id, owners (server s) !! lid = None /\ owners (server s') = <[lid := id]> (owners (server s)).
Proof.
  intros Hi Hs. pose proof (li_srv _ Hi) as Hok. inversion Hs as
    [v cs ts id v' r Hn Ha|v cs ts id c t lid Hc Ht|v cs ts id c t lid v' a c' n Hc Ht Ha E
    |v cs ts id c t lid v' a c' n Hc Ht Ha E|v cs ts id c t lid c' Hc Ht E|v cs ts id lid c v' c' Er Hc E
    |v cs ts id lid c v' Er Hc|v cs ts id c c' Hc E|]; subst; simpl in *; try (by left).
  - left. unfold Srv.attach in Ha. rewrite (proj1 Hok) in Ha. by injection Ha as <- _.
  - destruct (ask_owners _ _ _ _ _ _ Hok Ha) as [?|[? ?]]; [by left|right; eauto].
  - destruct (ask_owners _ _ _ _ _ _ Hok Ha) as [?|[? ?]]; [by left|right; eauto].
  - left. unfold Srv.revoker in Er. destruct (Srv.revoke_list v); [done|]. by injection Er as _ <-.
  - left. unfold Srv.retryer in Er. destruct (Srv.retry_list v); [done|]. by injection Er as _ <-.
Qed.

Lemma give_back_owners s s' id lid :
  lock_inv s -> lock_step s (LGiveBack id lid) s' ->
  owners (server s) !! lid = Some id /\ owners (server s') = delete lid (owners (server s)).
Proof.
  intros Hi Hs. inversion Hs as [| | | | | | | |v cs ts id' c c' lid' ret v' r Hc E Er]; subst. simpl.
  destruct (releaser_holds v cs ts id c c' lid Hi Hc E) as (_ & _ & _ & _ & Hh & Hrev).
  destruct (release_spec v lid id ret v' r (li_srv _ Hi) Hh Hrev Er) as (_ & Hoth & Hnh & _).
  split; [by apply owners_held|]. apply map_eq. intros lid'. destruct (decide (lid' = lid)) as [->|Hne].
  - rewrite lookup_delete_eq. by apply owners_none.
  - rewrite lookup_delete_ne by done. unfold owners. by rewrite !lookup_omap, Hoth.
Qed.

(** ** The machine *)
Section service.
Context `{AL : Allocator} (now junk_atime : Z).

Record svc := Svc {
  locks : sys;
  xcaches : gmap str extent_client.t;     (* of the extent client of each process *)
  extents : extent_server.t }.

Definition xcache (s : svc) (id : str) : extent_client.t := default ∅ (xcaches s !! id).
Definition holds_extent (s : svc) (id : str) (t eid : Z) : Prop :=
  threads (locks s) !! (id, t) = Some (Holding eid).

Inductive svc_step : svc -> xevent -> svc -> Prop :=
  | sv_lock s l' :
      lock_step (locks s) LOther l' ->
      svc_step s XOther (Svc l' (xcaches s) (extents s))
  | sv_give_back s l' id lid c' v' :
      lock_step (locks s) (LGiveBack id lid) l' ->
      dorelease now junk_atime (xcache s id) (extents s) lid = Ret (c', v') ->
      svc_step s XOther (Svc l' (<[id := c']> (xcaches s)) v')
  | sv_put s id t eid buf c' r :
      holds_extent s id t eid -> extent_client.put now junk_atime (xcache s id) eid buf = (c', r) ->
      svc_step s (XPut eid buf) (Svc (locks s) (<[id := c']> (xcaches s)) (extents s))
  | sv_get s id t eid old c' v' r buf :
      holds_extent s id t eid -> extent_client.get now (xcache s id) (extents s) eid old = Ret (c', v', r, buf) ->
      svc_step s XOther (Svc (locks s) (<[id := c']> (xcaches s)) v')
  | sv_remove s id t eid c' r :
      holds_extent s id t eid -> extent_client.remove (xcache s id) eid = (c', r) ->
      svc_step s XOther (Svc (locks s) (<[id := c']> (xcaches s)) (extents s)).

Definition svc_init (s : svc) : Prop := sys_init (locks s) /\ xcaches s = ∅ /\ extents s = ∅.

(** Seen from the extents: caches, server and owners. *)
Definition abs (s : svc) : xsys (I := str) := Xsys (xcaches s) (extents s) (owners (server (locks s))).

Lemma holds_owner s id t eid : lock_inv (locks s) -> holds_extent s id t eid -> owner (abs s) !! eid = Some id.
Proof.
  intros Hi Ht. apply owners_held, (li_agree _ Hi). apply (li_pc _ Hi) in Ht. simpl in Ht. rewrite Ht. right. by left.
Qed.

Lemma last_put_snoc tr tr' e : last_put tr' = last_put tr -> last_put (tr' ++ [e]) = last_put (tr ++ [e]).
Proof. intros E. unfold last_put in *. by rewrite !foldl_snoc, E. Qed.

(** One step, as zero or one steps of [ExtentSpec]'s machine. *)
Lemma svc_refines s e s' :
  lock_inv (locks s) -> svc_step s e s' ->
  xstep now junk_atime (abs s) e (abs s') \/ (e = XOther /\ abs s' = abs s).
Proof.
  intros Hi Hs. destruct Hs as [s l' Hl|s l' id lid c' v' Hl E|s id t eid buf c' r Ht E|s id t eid old c' v' r buf Ht E|s id t eid c' r Ht E].
  - destruct (other_owners _ _ Hi Hl) as [Ho|(lid & id & Hn & Ho)]; unfold abs; simpl; rewrite Ho; [by right|left].
    exact (xs_acquire now junk_atime (abs s) id lid Hn).
  - left. destruct (give_back_owners _ _ _ _ Hi Hl) as [Ho Hd]. unfold abs; simpl. rewrite Hd.
    by apply (xs_release now junk_atime (abs s) id lid c' v').
  - left. apply (xs_put now junk_atime (abs s) id eid buf c' r); [by eapply holds_owner|done].
  - left. apply (xs_get now junk_atime (abs s) id eid old c' v' r buf); [by eapply holds_owner|done].
  - left. apply (xs_remove now junk_atime (abs s) id eid c' r); [by eapply holds_owner|done].
Qed.

Lemma svc_lock_inv s e s' : lock_inv (locks s) -> svc_step s e s' -> lock_inv (locks s').
Proof.
  intros Hi Hs. destruct Hs; simpl; [by eapply lock_step_inv|by eapply lock_step_inv|done..].
Qed.

Lemma svc_sim tr s :
  reachable svc_init svc_step tr s ->
  lock_inv (locks s) /\ exists tr', reachable xinit (xstep now junk_atime) tr' (abs s) /\ last_put tr' = last_put tr.
Proof.
  induction 1 as [s (Hl & Hc & Hx)|tr s e s' Hr (Hi & tr' & Hr' & Hp) Hs].
  - split; [by apply lock_inv_init|]. exists []. split; [|done]. constructor.
    destruct Hl as (Hs & _). unfold xinit, abs. simpl. rewrite Hc, Hx, Hs. split_and!; [done|done|].
    unfold owners. apply map_eq. intros lid. by rewrite lookup_omap, !lookup_empty.
  - split; [by eapply svc_lock_inv|]. destruct (svc_refines s e s' Hi Hs) as [Hx|[-> Ha]].
    + exists (tr' ++ [e]). split; [by eapply reach_step|by apply last_put_snoc].
    + exists tr'. rewrite Ha. split; [done|]. unfold last_put in *. by rewrite foldl_snoc.
Qed.

(** C17: files stay coherent under the lock protocol itself: however the clients'
    threads, releasers and the lock server's revoker and retryer interleave, a
    thread that holds a lock reads from its extent exactly what was last written
    to it by any client, whether cached, flushed or fetched anew, and attributes
    that carry the size of those contents. *)
Theorem lock_coherence tr s id t eid old a b :
  reachable svc_init svc_step tr s -> holds_extent s id t eid -> last_put tr !! eid = Some b ->
  (exists c' v', extent_client.get now (xcache s id) (extents s) eid old = Ret (c', v', extent_protocol.OK, b)) /\
  (exists a', extent_client.getattr (xcache s id) (extents s) eid a = Ret (extent_protocol.OK, a') /\
    extent_protocol.size a' = u32 (Z.of_nat (length b))).
Proof.
  intros Hr Ht Hb. destruct (svc_sim tr s Hr) as (Hi & tr' & Hr' & Hp). rewrite <- Hp in Hb.
  exact (cache_coherent now junk_atime tr' (abs s) id eid old a b Hr' (holds_owner s id t eid Hi Ht) Hb).
Qed.
End service.

(** ** A hand-over: client [a] writes under lock 5, client [b] asks for the lock,
    which [a] gives back, and reads *)
Module LockExtentExample.
#[local] Instance zeros : Allocator := fun _ => Ascii.zero.
Import LockExample.

Definition hello : str := S! "hello".
Definition ca : extent_client.t := (extent_client.put 9 0 ∅ 5 hello).1.
Definition flushed : extent_client.t * extent_server.t :=
  match dorelease 9 0 ca ∅ 5 with Ret r => r | _ => (∅, ∅) end.

Definition clt_ret (r : res Clt.t) : Clt.t := match r with Ret c => c | _ => Clt.new end.
Definition srv_next (r : option (str * Z * Srv.t)) : Srv.t := match r with Some (_, s) => s | None => Srv.new end.

Definition a4 : Clt.t := Clt.set_status c1 5 Clt.LOCKED.
Definition a7 : Clt.t := clt_ret (Clt.release a4 5).
Definition v8 : Srv.t := srv_next (Srv.revoker v4).
Definition a8 : Clt.t := clt_ret (Clt.revoke_handler a7 5).
Definition a9 : Clt.t := match Clt.releaser a8 with Ret (c, _) => c | _ => Clt.new end.
Definition v9 : Srv.t := get_srv (Srv.release v8 5 a 0).
Definition v10 : Srv.t := srv_next (Srv.retryer v9).
Definition b6 : Clt.t := Clt.set_status c1 5 Clt.ACQUIRING.
Definition b10 : Clt.t := Clt.retry_handler b6 5.
Definition v11 : Srv.t := get_srv (Srv.acquire v10 5 b).
Definition b11 : Clt.t := (Clt.retry_turn b10 5 lock_protocol.OK).1.

Definition w7 : sys := Sys v4 (<[a := a7]> (clients w6)) (delete (a, 1) (threads w6)).
Definition w8 : sys := Sys v8 (<[a := a8]> (clients w7)) (threads w7).
Definition w9 : sys := Sys v9 (<[a := a9]> (clients w8)) (threads w8).
Definition w10 : sys := Sys v10 (<[b := b10]> (clients w9)) (threads w9).
Definition w11 : sys := Sys v11 (<[b := b11]> (clients w10)) (<[(b, 1) := Holding 5]> (threads w10)).

Definition xs : gmap str extent_client.t := <[a := ca]> ∅.
Definition xs' : gmap str extent_client.t := <[a := flushed.1]> xs.

(** A run of the lock service alone. *)
Lemma locks_run tr w : reachable sys_init lock_step tr w -> Forall (fun e => e = LOther) tr ->
  reachable svc_init (svc_step 9 0) ((fun _ => XOther) <$> tr) (Svc w ∅ ∅).
Proof.
  induction 1 as [w Hw|tr w e w' Hr IH Hs]; intros Hf; [by constructor|].
  apply Forall_app in Hf as [Hf He]. apply Forall_cons in He as [-> _]. rewrite fmap_app.
  eapply reach_step; [by apply IH|]. by apply (sv_lock 9 0 (Svc w ∅ ∅)).
Qed.

Definition xtrace : list xevent := [XOther; XOther; XOther; XOther; XOther; XOther; XPut 5 hello; XOther; XOther; XOther; XOther; XOther].

Lemma hand_over : reachable svc_init (svc_step 9 0) xtrace (Svc w11 xs' flushed.2).
Proof.
  apply (reach_step _ _ (take 11 xtrace) (Svc w10 xs' flushed.2));
   [apply (reach_step _ _ (take 10 xtrace) (Svc w9 xs' flushed.2));
    [apply (reach_step _ _ (take 9 xtrace) (Svc w8 xs ∅));
     [apply (reach_step _ _ (take 8 xtrace) (Svc w7 xs ∅));
      [apply (reach_step _ _ (take 7 xtrace) (Svc w6 xs ∅));
       [apply (reach_step _ _ (take 6 xtrace) (Svc w6 ∅ ∅));
        [exact (locks_run _ _ lock_run ltac:(by repeat constructor))|]|]|]|]|]|].
  - apply (sv_put 9 0 (Svc w6 ∅ ∅) a 1 5 hello ca 0); vm_compute; reflexivity.
  - apply (sv_lock 9 0 (Svc w6 xs ∅)), (ls_release v4 (clients w6) (threads w6) a a4 1 5 a7); vm_compute; reflexivity.
  - apply (sv_lock 9 0 (Svc w7 xs ∅)), (ls_revoke v4 (clients w7) (threads w7) a 5 a7 v8 a8); vm_compute; reflexivity.
  - apply (sv_give_back 9 0 (Svc w8 xs ∅) w9 a 5 flushed.1 flushed.2); [|vm_compute; reflexivity].
    apply (ls_releaser v8 (clients w8) (threads w8) a a8 a9 5 0 v9 0); vm_compute; reflexivity.
  - apply (sv_lock 9 0 (Svc w9 xs' flushed.2)), (ls_retry v9 (clients w9) (threads w9) b 5 b6 v10); vm_compute; reflexivity.
  - apply (sv_lock 9 0 (Svc w10 xs' flushed.2)),
      (ls_retry_turn v10 (clients w10) (threads w10) b b10 1 5 v11 lock_protocol.OK b11 Clt.Acquired); vm_compute; reflexivity.
Qed.

(** C17, witness: [b] reads what [a] wrote. *)
Lemma lock_coherence_witness :
  (exists c' v', extent_client.get 9 (xcache (Svc w11 xs' flushed.2) b) flushed.2 5 [] =
     Ret (c', v', extent_protocol.OK, hello)) /\
  (exists a', extent_client.getattr (xcache (Svc w11 xs' flushed.2) b) flushed.2 5 (Attr 0 0 0 0) =
     Ret (extent_protocol.OK, a') /\ extent_protocol.size a' = 5).
Proof.
  apply (lock_coherence 9 0 xtrace (Svc w11 xs' flushed.2) b 1 5 [] (Attr 0 0 0 0) hello hand_over); vm_compute; reflexivity.
Defined.
End LockExtentExample.
