(* ===== verification/Directory.v ===== *)
(** * The text of directories: [yfs_client.cc] and [fuse.cc]

    A directory is one extent whose contents are entries "inum:name;".  This
    file models the operations of [std::string] the code uses, the printing and
    parsing of inums, and what [lookup], [unlink] and [fuseserver_readdir] do
    with the text; [YfsClient] puts them between the locks and the extents. *)

From S2P Require Import Prelude.

Abbreviation colon := ":"%char.
Abbreviation semi := ";"%char.

(** ** std::string *)

(** [s.find(pat)]; [None] is [npos]. *)
Fixpoint str_find (pat s : str) : option nat :=
  if bool_decide (pat `prefix_of` s) then Some 0%nat
  else match s with [] => None | _ :: s' => S <$> str_find pat s' end.

(** [s.substr(pos, n)]: throws, which nothing catches, when [pos > size()]. *)
Definition substr (s : str) (pos n : Z) : res str :=
  let pos := u64 pos in let n := u64 n in let len := Z.of_nat (length s) in
  if len <? pos then Abort
  else Ret (take (Z.to_nat (Z.min n len)) (drop (Z.to_nat pos) s)).

(** [s.at(i)]. *)
Definition str_at (s : str) (i : Z) : res ascii :=
  let i := u64 i in
  if i <? Z.of_nat (length s) then
    match s !! Z.to_nat i with Some c => Ret c | None => Abort end
  else Abort.

(** ** Inums as text *)
Definition isdigit (c : ascii) : bool := (48 <=? Z_of_byte c) && (Z_of_byte c <=? 57).
Definition isspace (c : ascii) : bool :=
  (Z_of_byte c =? 32) || ((9 <=? Z_of_byte c) && (Z_of_byte c <=? 13)).

Fixpoint dec_digits (fuel : nat) (n : Z) (acc : str) : str :=
  match fuel with
  | O => acc
  | S fuel =>
      let acc := byte_of_Z (48 + n mod 10) :: acc in
      if n <? 10 then acc else dec_digits fuel (n / 10) acc
  end.

(** [filename(inum)]: 20 digits are enough for 64 bits. *)
Definition filename (inum : Z) : str := dec_digits 20 inum [].

Fixpoint scan_digits (acc : Z) (s : str) : Z :=
  match s with
  | c :: s' => if isdigit c then scan_digits (10 * acc + (Z_of_byte c - 48)) s' else acc
  | [] => acc
  end.

Fixpoint skip_space (s : str) : str :=
  match s with
  | c :: s' => if isspace c then skip_space s' else s
  | [] => []
  end.

(** An unsigned number at the head of the stream: 0 when there is none, the
    largest value when it does not fit. *)
Definition scan_unsigned (s : str) : Z :=
  let v := scan_digits 0 s in
  if v <? two64 then v else two64 - 1.

(** [n2i]: [istringstream >> unsigned long long]. *)
Definition n2i (n : str) : Z :=
  match skip_space n with
  | c :: s =>
      if Z_of_byte c =? 45 then
        (if scan_digits 0 s <? two64 then u64 (- scan_digits 0 s) else two64 - 1)
      else if Z_of_byte c =? 43 then scan_unsigned s
      else scan_unsigned (c :: s)
  | [] => 0
  end.

(** ** Looking up a name *)

(** The loop of [lookup] that goes back from the name to the end of the entry
    before it. *)
Fixpoint lookup_scan (fuel : nat) (buffer : str) (indexer : Z) : res Z :=
  match fuel with
  | O => Abort
  | S fuel =>
      if indexer =? -1 then Ret (-1) else
      c ← str_at buffer indexer;
      if bool_decide (c = semi) then Ret indexer else lookup_scan fuel buffer (indexer - 1)
  end.

(** [lookup] on the text it read: the inum, or [None] when the name is not found. *)
Definition dir_lookup (buffer file_name : str) : res (option Z) :=
  match str_find (file_name ++ [semi]) buffer with
  | Some start =>
      let file_name_start := Z.of_nat start in
      indexer ← lookup_scan (S (length buffer)) buffer (s32 (file_name_start - 1));
      file_inum ← (if negb (indexer =? -1)
                   then substr buffer (indexer + 1) (file_name_start - 1 - indexer)
                   else substr buffer (indexer + 1) (file_name_start - 1));
      Ret (Some (n2i file_inum))
  | None => Ret None
  end.

(** ** Removing an entry *)

(** [unlink] on the text it read: iterators made from [npos], or in the wrong
    order, are undefined. *)
Definition dir_unlink (parent_buffer file_name : str) (file_inum : Z) : res str :=
  match str_find (file_name ++ [semi]) parent_buffer, str_find (filename file_inum) parent_buffer with
  | Some file_name_position, Some file_inum_position =>
      match str_find [semi] (drop file_name_position parent_buffer) with
      | Some k =>
          let file_token_end_position := (file_name_position + k)%nat in
          if bool_decide (file_inum_position <= S file_token_end_position)%nat
          then Ret (take file_inum_position parent_buffer ++ drop (S file_token_end_position) parent_buffer)
          else Undef
      | None => Undef
      end
  | _, _ => Undef
  end.

(** ** Listing a directory *)

(** The loop of [fuseserver_readdir] over the remaining text: [i], [start_pos],
    [delim_pos] ([None] while it is not initialised) and [file_inum].  The
    positions kept are [int]s. *)
Fixpoint readdir_loop (buffer : str) (rest : str) (i start_pos : Z) (delim_pos : option Z) (file_inum : str)
  : res (list (str * Z)) :=
  match rest with
  | [] => Ret []
  | c :: rest =>
      '(delim_pos, file_inum) ←
        (if bool_decide (c = colon) then
           file_inum ← substr buffer (start_pos + 1) (i - start_pos - 1); Ret (Some (s32 i), file_inum)
         else Ret (delim_pos, file_inum));
      if bool_decide (c = semi) then
        match delim_pos with
        | None => Undef
        | Some dp =>
            file_name ← substr buffer (dp + 1) (i - dp - 1);
            more ← readdir_loop buffer rest (i + 1) (s32 i) delim_pos file_inum;
            Ret ((file_name, n2i file_inum) :: more)
        end
      else readdir_loop buffer rest (i + 1) start_pos delim_pos file_inum
  end.

Definition readdir_entries (buffer : str) : res (list (str * Z)) :=
  readdir_loop buffer buffer 0 (-1) None [].

(** ** The text of a list of entries *)
Definition encode_entry (e : Z * str) : str := filename (e.1) ++ [colon] ++ e.2 ++ [semi].
Definition encode (d : list (Z * str)) : str := mjoin (encode_entry <$> d).
