(* ===== verification/DirectorySpec.v ===== *)
(** * What the directory code does with well-formed directories

    Names are plain when they hold neither of the two separators.  For plain
    names the searches of [lookup], [unlink] and [fuseserver_readdir] through the
    text agree with searches through the list of entries. *)

From S2P Require Import Prelude Directory.

(** ** Searching text *)

Definition free (c : ascii) (s : str) : Prop := c ∉ s.
Definition plain (s : str) : Prop := colon ∉ s /\ semi ∉ s.

Lemma prefix_sep c (pat a b : str) :
  c ∉ pat -> c ∉ a -> (pat ++ [c]) `prefix_of` (a ++ c :: b) <-> pat = a.
Proof.
  revert a. induction pat as [|x pat IH]; intros a Hp Ha.
  - split; [|intros <-; apply prefix_cons, prefix_nil]. simpl. intros H.
    destruct a as [|y a]; [done|]. apply prefix_cons_inv_1 in H. set_solver.
  - destruct a as [|y a]; simpl.
    + split; [|done]. intros H. apply prefix_cons_inv_1 in H. set_solver.
    + split.
      * intros H. pose proof (prefix_cons_inv_1 _ _ _ _ H) as ->. apply prefix_cons_inv_2 in H.
        f_equal. apply IH; [set_solver|set_solver|done].
      * intros [= -> ->]. apply prefix_cons. apply IH; [set_solver|set_solver|done].
Qed.

Lemma prefix_before c (pat a b : str) :
  c ∉ pat -> pat `prefix_of` (a ++ c :: b) <-> pat `prefix_of` a.
Proof.
  revert a. induction pat as [|x pat IH]; intros a Hp.
  - split; intros _; apply prefix_nil.
  - destruct a as [|y a]; simpl.
    + split; intros H; [|by apply prefix_nil_not in H]. apply prefix_cons_inv_1 in H. set_solver.
    + assert (c ∉ pat) as Hc by set_solver.
      split; intros H; pose proof (prefix_cons_inv_1 _ _ _ _ H) as ->; apply prefix_cons_inv_2 in H;
        apply prefix_cons; by apply (IH a Hc).
Qed.

Lemma suffix_cons_or (pat b : str) x : pat `suffix_of` x :: b -> pat = x :: b \/ pat `suffix_of` b.
Proof. destruct pat; [right; apply suffix_nil|apply suffix_cons_inv]. Qed.

Lemma str_find_eq pat s :
  str_find pat s = if bool_decide (pat `prefix_of` s) then Some 0%nat
                   else match s with [] => None | _ :: s' => S <$> str_find pat s' end.
Proof. by destruct s. Qed.

(** The terminated name is found in a field exactly when it ends the field. *)
Lemma find_terminated c (name b rest : str) :
  c ∉ name -> c ∉ b ->
  str_find (name ++ [c]) (b ++ c :: rest) =
  if bool_decide (name `suffix_of` b) then Some (length b - length name)%nat
  else (fun k => length b + S k)%nat <$> str_find (name ++ [c]) rest.
Proof.
  intros Hn. induction b as [|x b IH]; intros Hb; rewrite str_find_eq.
  - rewrite (bool_decide_ext _ (name = [])) by (apply (prefix_sep c name []); set_solver).
    rewrite (bool_decide_ext (name `suffix_of` []) (name = [])).
    2:{ split; [apply suffix_nil_inv|intros ->; apply suffix_nil]. }
    destruct (bool_decide (name = [])); simpl; [done|]. by destruct (str_find _ _).
  - rewrite (bool_decide_ext _ (name = x :: b)) by (apply (prefix_sep c name (x :: b)); set_solver).
    destruct (decide (name = x :: b)) as [->|Hne].
    + rewrite !bool_decide_eq_true_2 by done. f_equal. lia.
    + rewrite bool_decide_eq_false_2 by done. cbn [app]. rewrite IH by set_solver.
      rewrite (bool_decide_ext (name `suffix_of` x :: b) (name `suffix_of` b)).
      2:{ split; [|apply suffix_cons_r]. by intros [?|?]%suffix_cons_or. }
      case_bool_decide as Hs; simpl.
      * f_equal. apply suffix_length in Hs. lia.
      * by destruct (str_find (name ++ [c]) rest).
Qed.

(** A pattern without the separator is found in one field or the other. *)
Lemma find_across c (pat a b : str) :
  c ∉ pat -> pat <> [] ->
  str_find pat (a ++ c :: b) =
  match str_find pat a with
  | Some k => Some k
  | None => (fun k => length a + S k)%nat <$> str_find pat b
  end.
Proof.
  intros Hp Hne. induction a as [|x a IH].
  - rewrite str_find_eq, (str_find_eq pat []).
    rewrite !(bool_decide_eq_false_2 (pat `prefix_of` _)).
    + simpl. by destruct (str_find pat b).
    + intros H. by apply prefix_nil_inv in H.
    + intros H. apply (prefix_before c pat []) in H; [|done]. by apply prefix_nil_inv in H.
  - rewrite str_find_eq, (str_find_eq pat (x :: a)).
    rewrite (bool_decide_ext _ (pat `prefix_of` x :: a)) by (by apply prefix_before).
    destruct (bool_decide _); [done|]. cbn [app]. rewrite IH.
    destruct (str_find pat a); [done|]. simpl. by destruct (str_find pat b).
Qed.

Lemma find_here pat s : str_find pat (pat ++ s) = Some 0%nat.
Proof. rewrite str_find_eq. rewrite bool_decide_eq_true_2; [done|]. by apply prefix_app_r. Qed.

Lemma find_sep c (a b : str) : c ∉ a -> str_find [c] (a ++ c :: b) = Some (length a).
Proof.
  intros Ha. pose proof (find_terminated c [] a b) as H. cbn [app] in H. rewrite H by set_solver.
  rewrite bool_decide_eq_true_2 by apply suffix_nil. f_equal. simpl. lia.
Qed.

Lemma find_suffix pat s : pat `suffix_of` s -> str_find pat s <> None.
Proof.
  induction s as [|x s IH]; rewrite str_find_eq.
  - intros ->%suffix_nil_inv. by rewrite bool_decide_eq_true_2.
  - intros [->|H]%suffix_cons_or; [by rewrite bool_decide_eq_true_2|].
    case_bool_decide; [done|]. apply IH in H. by destruct (str_find pat s).
Qed.

(** ** Inums *)

Lemma isdigit_dec n : isdigit (byte_of_Z (48 + n mod 10)) = true.
Proof.
  unfold isdigit. rewrite Z_of_byte_of_Z. unfold u8. pose proof (Z.mod_pos_bound n 10).
  rewrite (Z.mod_small (48 + n mod 10)) by lia. apply andb_true_iff. rewrite !Z.leb_le. lia.
Qed.

Lemma digit_value n : Z_of_byte (byte_of_Z (48 + n mod 10)) - 48 = n mod 10.
Proof.
  rewrite Z_of_byte_of_Z. unfold u8. pose proof (Z.mod_pos_bound n 10).
  rewrite (Z.mod_small (48 + n mod 10)); lia.
Qed.

Lemma dec_digits_S fuel n acc :
  dec_digits (S fuel) n acc =
  if n <? 10 then byte_of_Z (48 + n mod 10) :: acc
  else dec_digits fuel (n / 10) (byte_of_Z (48 + n mod 10) :: acc).
Proof. reflexivity. Qed.

Lemma dec_digits_app fuel n acc : dec_digits fuel n acc = dec_digits fuel n [] ++ acc.
Proof.
  revert n acc. induction fuel as [|fuel IH]; intros n acc; [done|].
  rewrite !dec_digits_S. destruct (n <? 10); [done|].
  rewrite (IH _ (_ :: acc)), (IH _ [_]). by rewrite <- app_assoc.
Qed.

Lemma dec_digits_all fuel n : Forall (fun c => isdigit c = true) (dec_digits fuel n []).
Proof.
  revert n. induction fuel as [|fuel IH]; intros n; [done|].
  rewrite dec_digits_S. destruct (n <? 10).
  - constructor; [apply isdigit_dec|done].
  - rewrite dec_digits_app. apply Forall_app. split; [done|]. constructor; [apply isdigit_dec|done].
Qed.

Lemma scan_dec fuel n rest :
  0 <= n < 10 ^ Z.of_nat fuel ->
  scan_digits 0 (dec_digits fuel n rest) = scan_digits n rest.
Proof.
  revert n rest. induction fuel as [|fuel IH]; intros n rest Hn.
  - change (10 ^ Z.of_nat 0) with 1 in Hn. simpl. by replace n with 0 by lia.
  - rewrite dec_digits_S. destruct (Z.ltb_spec n 10).
    + simpl. rewrite isdigit_dec, digit_value. by rewrite Z.mod_small by lia.
    + rewrite IH.
      * simpl. rewrite isdigit_dec, digit_value. f_equal. pose proof (Z.div_mod n 10). lia.
      * rewrite Nat2Z.inj_succ, Z.pow_succ_r in Hn by lia.
        split; [apply Z.div_pos; lia|apply Z.div_lt_upper_bound; lia].
Qed.

Lemma filename_digits i : Forall (fun c => isdigit c = true) (filename i).
Proof. apply dec_digits_all. Qed.

Lemma filename_nonempty i : exists c s, filename i = c :: s /\ isdigit c = true.
Proof.
  pose proof (filename_digits i) as H. destruct (filename i) as [|c s] eqn:E.
  - exfalso. unfold filename in E. rewrite dec_digits_S in E. destruct (i <? 10); [done|].
    rewrite dec_digits_app in E. by destruct (dec_digits _ _ _).
  - inversion H; eauto.
Qed.

Lemma filename_plain i : plain (filename i).
Proof. split; intros H%(proj1 (Forall_forall _ _) (filename_digits i)); done. Qed.

Definition no_digit_first (s : str) : Prop := match s with c :: _ => isdigit c = false | [] => True end.

Lemma scan_stop n s : no_digit_first s -> scan_digits n s = n.
Proof. destruct s as [|c s]; [done|]. simpl. by intros ->. Qed.

(** What [filename] prints, [n2i] reads back, whatever follows. *)
Lemma n2i_filename i rest : 0 <= i < two64 -> no_digit_first rest -> n2i (filename i ++ rest) = i.
Proof.
  intros Hi Hr. destruct (filename_nonempty i) as (c & s & E & Hc).
  assert (scan_unsigned (filename i ++ rest) = i) as Hs.
  { unfold scan_unsigned, filename. rewrite <- dec_digits_app, scan_dec, scan_stop; [|done|].
    - destruct (Z.ltb_spec i two64); lia.
    - change (10 ^ Z.of_nat 20) with 100000000000000000000. lia. }
  rewrite E in *. unfold n2i. simpl. unfold isdigit in Hc. bool_prop.
  unfold isspace. destruct (Z.eqb_spec (Z_of_byte c) 32); [lia|].
  destruct (Z.leb_spec (Z_of_byte c) 13); [lia|]. rewrite andb_false_r. simpl.
  destruct (Z.eqb_spec (Z_of_byte c) 45); [lia|]. destruct (Z.eqb_spec (Z_of_byte c) 43); [lia|done].
Qed.

(** ** Entries *)

Definition body (e : Z * str) : str := filename (e.1) ++ [colon] ++ e.2.
Definition entry_ok (e : Z * str) : Prop := 0 <= e.1 < two64 /\ plain (e.2).
Definition ends_with (name : str) (e : Z * str) : Prop := name `suffix_of` e.2.
#[export] Instance ends_with_dec name e : Decision (ends_with name e).
Proof. unfold ends_with. apply _. Defined.

(** The entry [lookup] looks for: the first whose name ends with the given one. *)
Definition first_ending (name : str) (d : list (Z * str)) : option (Z * str) :=
  snd <$> list_find (ends_with name) d.

Lemma encode_cons e d : encode (e :: d) = body e ++ semi :: encode d.
Proof. unfold encode. simpl. unfold encode_entry, body. by rewrite <- !app_assoc. Qed.

Lemma encode_one e : encode [e] = encode_entry e.
Proof. apply app_nil_r. Qed.

Lemma encode_app d d' : encode (d ++ d') = encode d ++ encode d'.
Proof. unfold encode. by rewrite fmap_app, join_app. Qed.

Lemma body_free e : entry_ok e -> semi ∉ body e.
Proof.
  intros [_ [_ Hs]]. pose proof (filename_plain (e.1)) as [_ Hf]. unfold body. set_solver.
Qed.

Lemma suffix_after_colon (name a n : str) :
  colon ∉ name -> name `suffix_of` (a ++ [colon] ++ n) <-> name `suffix_of` n.
Proof.
  intros Hc. split.
  - induction a as [|x a IH]; simpl; intros [->|H]%suffix_cons_or; [|done| |auto]; set_solver.
  - intros H. by do 2 apply suffix_app_r.
Qed.

Lemma find_entry name e rest :
  plain name -> entry_ok e ->
  str_find (name ++ [semi]) (body e ++ semi :: rest) =
  if bool_decide (ends_with name e) then Some (length (body e) - length name)%nat
  else (fun k => length (body e) + S k)%nat <$> str_find (name ++ [semi]) rest.
Proof.
  intros [Hc Hs] He. rewrite find_terminated by (done || by apply body_free).
  by rewrite (bool_decide_ext _ (ends_with name e)) by (by apply suffix_after_colon).
Qed.

Lemma find_missing name d :
  plain name -> Forall entry_ok d -> Forall (fun e => ~ ends_with name e) d ->
  str_find (name ++ [semi]) (encode d) = None.
Proof.
  intros Hn Hd. induction Hd as [|e d He Hd IH]; intros Hm.
  - rewrite str_find_eq. simpl. rewrite bool_decide_eq_false_2; [done|].
    intros H%prefix_nil_inv. by destruct name.
  - inversion Hm; subst. rewrite encode_cons, find_entry by done.
    rewrite bool_decide_eq_false_2 by done. by rewrite IH.
Qed.

Lemma find_present name pre e post :
  plain name -> Forall entry_ok pre -> entry_ok e ->
  Forall (fun e => ~ ends_with name e) pre -> ends_with name e ->
  str_find (name ++ [semi]) (encode (pre ++ e :: post)) =
  Some (length (encode pre) + (length (body e) - length name))%nat.
Proof.
  intros Hn Hd He Hm Hs. induction Hd as [|e' d He' Hd IH]; simpl.
  - rewrite encode_cons, find_entry by done. by rewrite bool_decide_eq_true_2.
  - inversion Hm; subst. rewrite encode_cons, find_entry by done.
    rewrite bool_decide_eq_false_2, IH by done. simpl. f_equal.
    rewrite encode_cons, length_app. simpl. lia.
Qed.

(** ** lookup *)

Lemma str_at_ok (s : str) (i : nat) c :
  s !! i = Some c -> Z.of_nat (length s) < two64 -> str_at s (Z.of_nat i) = Ret c.
Proof.
  intros H Hl. apply lookup_lt_Some in H as Hlt. unfold str_at.
  rewrite u64_small by lia. rewrite Nat2Z.id, H. by destruct (Z.ltb_spec (Z.of_nat i) (Z.of_nat (length s))); [|lia].
Qed.

Lemma substr_ok (s : str) (p n : nat) :
  (p + n <= length s)%nat -> Z.of_nat (length s) < two64 ->
  substr s (Z.of_nat p) (Z.of_nat n) = Ret (take n (drop p s)).
Proof.
  intros H Hl. unfold substr. rewrite !u64_small by lia.
  destruct (Z.ltb_spec (Z.of_nat (length s)) (Z.of_nat p)); [lia|].
  f_equal. f_equal; [lia|]. f_equal. lia.
Qed.

(** Going back from inside an entry stops just before it. *)
Lemma lookup_scan_ok pre mid tail j fuel :
  semi ∉ mid -> (pre = [] \/ exists p, pre = p ++ [semi]) ->
  (j <= length mid)%nat -> (j < fuel)%nat ->
  Z.of_nat (length (pre ++ mid ++ tail)) < two64 ->
  lookup_scan fuel (pre ++ mid ++ tail) (Z.of_nat (length pre + j) - 1) = Ret (Z.of_nat (length pre) - 1).
Proof.
  intros Hm Hp Hj Hf Hl. revert fuel Hf. induction j as [|j IH]; intros [|fuel] Hf; [lia| |lia|].
  - rewrite Nat.add_0_r. simpl. destruct Hp as [->|(p & ->)]; [done|].
    rewrite length_app. simpl. destruct (Z.eqb_spec (Z.of_nat (length p + 1) - 1) (-1)); [lia|].
    replace (Z.of_nat (length p + 1) - 1) with (Z.of_nat (length p)) by lia.
    rewrite (str_at_ok _ _ semi); [by rewrite res_bind_ret, bool_decide_eq_true_2| |done].
    rewrite <- app_assoc. apply list_lookup_middle. done.
  - simpl. destruct (Z.eqb_spec (Z.of_nat (length pre + S j) - 1) (-1)); [lia|].
    replace (Z.of_nat (length pre + S j) - 1) with (Z.of_nat (length pre + j)) by lia.
    destruct (lookup_lt_is_Some_2 mid j) as [c Hc]; [lia|].
    rewrite (str_at_ok _ _ c); [| |done].
    + rewrite res_bind_ret, bool_decide_eq_false_2; [apply IH; lia|].
      intros ->. apply Hm. by eapply list_elem_of_lookup_2.
    + rewrite lookup_app_r by lia. replace (length pre + j - length pre)%nat with j by lia.
      by rewrite lookup_app_l by lia.
Qed.

Lemma encode_ends d : encode d = [] \/ exists p, encode d = p ++ [semi].
Proof.
  destruct d as [|e d] using rev_ind; [by left|right].
  rewrite encode_app, encode_cons. exists (encode d ++ body e). by rewrite <- app_assoc.
Qed.

Lemma ends_with_length name e : ends_with name e -> (length name <= length (e.2))%nat.
Proof. intros H. by apply suffix_length in H. Qed.

Lemma length_body e : length (body e) = (length (filename (e.1)) + S (length (e.2)))%nat.
Proof. unfold body. by rewrite !length_app. Qed.

Lemma dir_lookup_present name pre e post :
  plain name -> Forall entry_ok pre -> entry_ok e ->
  Forall (fun e => ~ ends_with name e) pre -> ends_with name e ->
  Z.of_nat (length (encode (pre ++ e :: post))) < two31 ->
  dir_lookup (encode (pre ++ e :: post)) name = Ret (Some (e.1)).
Proof.
  intros Hn Hpre He Hm Hs Hl. unfold dir_lookup. rewrite find_present by done.
  apply ends_with_length in Hs. pose proof (length_body e) as Hb.
  set (j := (length (body e) - length name)%nat).
  assert (encode (pre ++ e :: post) = encode pre ++ body e ++ semi :: encode post) as E
    by (by rewrite encode_app, encode_cons).
  rewrite E in *. rewrite !length_app in Hl. cbn [length] in Hl.
  replace (s32 (Z.of_nat (length (encode pre) + j) - 1)) with (Z.of_nat (length (encode pre) + j) - 1)
    by (symmetry; apply s32_small; lia).
  rewrite (lookup_scan_ok (encode pre) (body e) (semi :: encode post) j);
    [rsimpl|by apply body_free|apply encode_ends|lia|rewrite !length_app; cbn [length]; lia..].
  destruct (Z.eqb_spec (Z.of_nat (length (encode pre)) - 1) (-1)) as [Hz|Hz]; cbn [negb].
  - assert (encode pre = []) as -> by (apply nil_length_inv; lia). simpl length.
    replace (Z.of_nat 0 - 1 + 1) with (Z.of_nat 0) by lia.
    replace (Z.of_nat (0 + j) - 1) with (Z.of_nat (j - 1)) by lia.
    rewrite substr_ok by (rewrite ?length_app; cbn [length]; lia). rsimpl. do 2 f_equal.
    rewrite drop_0, app_nil_l, take_app_le by lia. unfold body. rewrite take_app_ge by lia.
    apply n2i_filename; [apply He|]. by destruct (j - 1 - length (filename (e.1)))%nat.
  - replace (Z.of_nat (length (encode pre)) - 1 + 1) with (Z.of_nat (length (encode pre))) by lia.
    replace (Z.of_nat (length (encode pre) + j) - 1 - (Z.of_nat (length (encode pre)) - 1))
      with (Z.of_nat j) by lia.
    rewrite substr_ok by (rewrite ?length_app; cbn [length]; lia). rsimpl. do 2 f_equal.
    rewrite drop_app_length, take_app_le by lia. unfold body. rewrite take_app_ge by lia.
    apply n2i_filename; [apply He|]. by destruct (j - length (filename (e.1)))%nat.
Qed.

Lemma first_ending_split name d :
  match first_ending name d with
  | Some e => exists pre post, d = pre ++ e :: post /\ ends_with name e /\ Forall (fun e => ~ ends_with name e) pre
  | None => Forall (fun e => ~ ends_with name e) d
  end.
Proof.
  unfold first_ending. induction d as [|e d IH]; simpl; [done|].
  destruct (decide (ends_with name e)); simpl; [by exists [], d|].
  destruct (list_find (ends_with name) d) as [[k e']|]; simpl in *; [|by constructor].
  destruct IH as (pre & post & -> & ? & ?). exists (e :: pre), post. split; [done|].
  split; [done|by constructor].
Qed.

(** [lookup] finds the first entry whose name ends with the given one. *)
Lemma dir_lookup_spec name d :
  plain name -> Forall entry_ok d -> Z.of_nat (length (encode d)) < two31 ->
  dir_lookup (encode d) name = Ret (fst <$> first_ending name d).
Proof.
  intros Hn Hd Hl. pose proof (first_ending_split name d) as H.
  destruct (first_ending name d) as [e|].
  - destruct H as (pre & post & -> & He & Hm). apply Forall_app in Hd as [Hpre Hd]. inversion Hd; subst.
    by apply dir_lookup_present.
  - unfold dir_lookup. by rewrite find_missing.
Qed.

(** ** Names already in the text *)

(** [create] refuses a name that occurs anywhere in the text: in an inum or
    within a name. *)
Definition occurs (name : str) (e : Z * str) : Prop :=
  str_find name (filename (e.1)) <> None \/ str_find name (e.2) <> None.
#[export] Instance occurs_dec name e : Decision (occurs name e).
Proof. unfold occurs. apply _. Defined.

Lemma find_body name e :
  plain name -> name <> [] -> str_find name (body e) = None <-> ~ occurs name e.
Proof.
  intros [Hc _] Hne. unfold body, occurs. cbn [app]. rewrite find_across by done.
  destruct (str_find name (filename (e.1))); [split; [done|intros H; exfalso; apply H; by left]|].
  destruct (str_find name (e.2)); simpl; [|by split; [intros _ [?|?]|]].
  split; [done|]. intros H. exfalso. apply H. by right.
Qed.

Lemma find_absent name d :
  plain name -> name <> [] -> Forall (fun e => ~ occurs name e) d ->
  str_find name (encode d) = None.
Proof.
  intros Hn Hne Hd. induction Hd as [|e d He Hd IH].
  - rewrite str_find_eq. simpl. rewrite bool_decide_eq_false_2; [done|]. by intros ?%prefix_nil_inv.
  - rewrite encode_cons, find_across by (done || apply Hn).
    apply find_body in He; [|done|done]. by rewrite He, IH.
Qed.

Lemma find_absent_inv name d :
  plain name -> name <> [] -> str_find name (encode d) = None -> Forall (fun e => ~ occurs name e) d.
Proof.
  intros Hn Hne. induction d as [|e d IH]; [by constructor|].
  rewrite encode_cons, find_across by (done || apply Hn).
  destruct (str_find name (body e)) eqn:E; [done|]. apply find_body in E; [|done|done].
  intros H. constructor; [done|]. apply IH. by destruct (str_find name (encode d)).
Qed.

Lemma occurs_ends name e : ends_with name e -> occurs name e.
Proof. intros H. right. by apply find_suffix. Qed.

(** The first occurrence of an inum no earlier entry mentions. *)
Lemma find_inum pre e post :
  Forall (fun e' => ~ occurs (filename (e.1)) e') pre ->
  str_find (filename (e.1)) (encode (pre ++ e :: post)) = Some (length (encode pre)).
Proof.
  pose proof (filename_plain (e.1)) as Hp.
  assert (filename (e.1) <> []) as Hne by (destruct (filename_nonempty (e.1)) as (? & ? & -> & _); done).
  intros H. induction H as [|e' pre He' Hpre IH]; cbn [app].
  - rewrite encode_cons. unfold body. rewrite <- app_assoc. apply find_here.
  - rewrite !encode_cons, find_across by (done || apply Hp). apply find_body in He'; [|done|done].
    rewrite He', IH, length_app. simpl. f_equal; lia.
Qed.

(** ** unlink *)

Lemma drop_to_name name e rest :
  ends_with name e -> drop (length (body e) - length name) (body e ++ rest) = name ++ rest.
Proof.
  intros [p Hp]. unfold body. rewrite Hp, !app_assoc, <- (app_assoc _ name rest).
  apply drop_app_length'. rewrite !length_app. lia.
Qed.

Lemma dir_unlink_spec name pre e post :
  plain name -> Forall entry_ok pre -> entry_ok e ->
  Forall (fun e => ~ ends_with name e) pre -> ends_with name e ->
  Forall (fun e' => ~ occurs (filename (e.1)) e') pre ->
  dir_unlink (encode (pre ++ e :: post)) name (e.1) = Ret (encode (pre ++ post)).
Proof.
  intros Hn Hpre He Hm Hs Ho. unfold dir_unlink. rewrite find_present, find_inum by done.
  pose proof (ends_with_length _ _ Hs) as Hl. pose proof (length_body e) as Hb.
  rewrite !encode_app, encode_cons, <- drop_drop, drop_app_length, drop_to_name by done.
  rewrite find_sep by apply Hn. rewrite bool_decide_eq_true_2 by lia. f_equal.
  rewrite take_app_length. f_equal. rewrite app_assoc, cons_middle, app_assoc.
  apply drop_app_length'. rewrite !length_app. simpl. lia.
Qed.

(** ** readdir *)

Lemma readdir_skip buf a rest i sp dp fi :
  plain a -> readdir_loop buf (a ++ rest) i sp dp fi = readdir_loop buf rest (i + Z.of_nat (length a)) sp dp fi.
Proof.
  intros [Hc Hs]. revert i. induction a as [|x a IH]; intros i; simpl.
  - by rewrite Z.add_0_r.
  - rewrite !bool_decide_eq_false_2 by set_solver. rsimpl. rewrite IH by set_solver. f_equal. lia.
Qed.

Lemma substr_mid (a b c : str) :
  Z.of_nat (length (a ++ b ++ c)) < two64 ->
  substr (a ++ b ++ c) (Z.of_nat (length a)) (Z.of_nat (length b)) = Ret b.
Proof.
  intros H. rewrite substr_ok by (done || rewrite !length_app; lia).
  by rewrite drop_app_length, take_app_length.
Qed.

Lemma readdir_loop_spec pre post dp fi :
  Forall entry_ok post -> Z.of_nat (length (encode (pre ++ post))) < two31 ->
  readdir_loop (encode (pre ++ post)) (encode post) (Z.of_nat (length (encode pre)))
    (Z.of_nat (length (encode pre)) - 1) dp fi
  = Ret ((fun e => (e.2, e.1)) <$> post).
Proof.
  intros Hd. revert pre dp fi. induction Hd as [|e post He Hd IH]; intros pre dp fi Hl; [done|].
  destruct He as [Hi Hn]. specialize (IH (pre ++ [e])). rewrite <- app_assoc in IH. cbn [app] in IH.
  set (buf := encode (pre ++ e :: post)) in *.
  set (L := Z.of_nat (length (encode pre))). set (F := Z.of_nat (length (filename (e.1)))).
  assert (buf = encode pre ++ filename (e.1) ++ (colon :: e.2 ++ semi :: encode post)) as E1.
  { unfold buf. rewrite encode_app, encode_cons. unfold body. by rewrite <- !app_assoc. }
  assert (buf = (encode pre ++ filename (e.1) ++ [colon]) ++ e.2 ++ (semi :: encode post)) as E2.
  { rewrite E1, <- !app_assoc. done. }
  assert (Z.of_nat (length (encode (pre ++ [e]))) = L + F + 1 + Z.of_nat (length (e.2)) + 1) as EL.
  { rewrite encode_app, length_app, encode_cons, length_app, length_body. simpl. unfold L, F. lia. }
  assert (L + F + 1 + Z.of_nat (length (e.2)) + 1 < two31) as Hb.
  { revert Hl. rewrite E1, !length_app. cbn [length]. rewrite length_app. cbn [length]. unfold L, F. lia. }
  rewrite encode_cons. unfold body. rewrite <- !app_assoc. rewrite readdir_skip by apply filename_plain.
  cbn [app readdir_loop]. rewrite (bool_decide_eq_true_2 (colon = colon)), (bool_decide_eq_false_2 (colon = semi)) by done.
  fold L F. replace (L - 1 + 1) with L by lia. replace (L + F - (L - 1) - 1) with F by lia.
  unfold L at 1, F at 1. rewrite E1 at 1. rewrite substr_mid by (rewrite <- E1; lia). rsimpl.
  rewrite readdir_skip by done.
  cbn [app readdir_loop]. 
  rewrite (bool_decide_eq_false_2 (semi = colon)), (bool_decide_eq_true_2 (semi = semi)) by done. rsimpl.
  fold L F. rewrite (s32_small (L + F)) by (unfold L, F; lia).
  replace (L + F + 1 + Z.of_nat (length (e.2)) - (L + F) - 1) with (Z.of_nat (length (e.2))) by lia.
  replace (L + F + 1) with (Z.of_nat (length (encode pre ++ filename (e.1) ++ [colon]))) at 1
    by (rewrite !length_app; cbn [length]; unfold L, F; lia).
  rewrite E2 at 1. rewrite substr_mid by (rewrite <- E2; lia). rsimpl.
  rewrite (s32_small _) by (unfold L, F in *; lia). rewrite EL in IH.
  replace (L + F + 1 + Z.of_nat (length (e.2)) + 1 - 1) with (L + F + 1 + Z.of_nat (length (e.2))) in IH by lia.
  rewrite IH by done. rsimpl. simpl. do 3 f_equal.
  rewrite <- (app_nil_r (filename (e.1))). by apply n2i_filename.
Qed.

Lemma readdir_entries_spec d :
  Forall entry_ok d -> Z.of_nat (length (encode d)) < two31 ->
  readdir_entries (encode d) = Ret ((fun e => (e.2, e.1)) <$> d).
Proof. intros Hd Hl. by apply (readdir_loop_spec [] d None []). Qed.
