(* ===== verification/YfsClient.v ===== *)
(** * The file system client: [yfs_client.cc]

    The operations run against an extent store and a lock client.  What they use
    of the store is the class [ExtentStore]; [YfsSpec] states its laws and shows
    that the caching extent client of [Extent] satisfies them.  What they use of
    the lock client is in the class too ([YfsShared] runs them over the lock
    service).  The locks taken and given back, and the extents touched in between,
    are recorded in a trace. *)

From S2P Require Import Prelude Extent Directory.
Import extent_protocol (attr, Attr).

(** ** The interface to the extent client and the lock client *)
Class ExtentStore (W : Type) := {
  ec_get : Z -> str -> W -> res (Z * str * W);
  ec_getattr : Z -> attr -> W -> res (Z * attr * W);
  ec_put : Z -> str -> W -> res (Z * W);
  ec_remove : Z -> W -> res (Z * W);
  lc_acquire : Z -> W -> res W;
  lc_release : Z -> W -> res W }.

Inductive yevent := YAcquire (lid : Z) | YRelease (lid : Z) | YAccess (eid : Z) | YRemove (eid : Z).

Record yworld (W : Type) := Yworld { store : W; trace : list yevent }.
Arguments Yworld {W} _ _.
Arguments store {W} _.
Arguments trace {W} _.

(** Code that uses the store and the locks. *)
Definition Y (W A : Type) : Type := yworld W -> res (A * yworld W).
#[export] Instance Y_ret W : MRet (Y W) := fun A a w => Ret (a, w).
#[export] Instance Y_bind W : MBind (Y W) := fun A B f m w =>
  match m w with Ret (a, w') => f a w' | Abort => Abort | Undef => Undef end.
Definition lift {W A} (r : res A) : Y W A := fun w => a ← r; Ret (a, w).

Module yfs_client.
Definition OK : Z := 0.
Definition RPCERR : Z := 1.
Definition NOENT : Z := 2.
Definition IOERR : Z := 3.
Definition EXIST : Z := 4.

Record fileinfo := Fileinfo { size : Z; atime : Z; mtime : Z; ctime : Z }.
Record dirinfo := Dirinfo { d_atime : Z; d_mtime : Z; d_ctime : Z }.

Definition isfile (inum : Z) : bool := negb (Z.land inum 2147483648 =? 0).
Definition isdir (inum : Z) : bool := negb (isfile inum).

(** [generate_inum] and its two uses; [rnd] is what [rand()] returns. *)
Definition generate_inum (rnd : Z) : Z := Z.lor 0 (u64 rnd).
Definition generate_file_inum (rnd : Z) : Z := Z.lor (generate_inum rnd) 2147483648.
Definition generate_dir_inum (rnd : Z) : Z := Z.land (generate_inum rnd) 2147483647.

(** The contents [setattr] stores. *)
Definition resize (buffer : str) (file_size : Z) : str :=
  let sz := Z.of_nat (length buffer) in
  if file_size <? sz then take (Z.to_nat file_size) buffer
  else if sz <? file_size then buffer ++ replicate (Z.to_nat (file_size - sz)) Ascii.zero
  else buffer.

(** [string buffer_str = buffer]: the bytes from the pointer to the first zero
    byte; undefined when there is none. *)
Fixpoint c_string (mem : str) : res str :=
  match mem with
  | [] => Undef
  | c :: mem => if bool_decide (c = Ascii.zero) then Ret [] else s ← c_string mem; Ret (c :: s)
  end.

(** The contents [write] stores, from those it read. *)
Definition write_contents (file_data buffer_str : str) (buffer_size offset : Z) : str :=
  let bs := Z.of_nat (length buffer_str) in
  let fs := Z.of_nat (length file_data) in
  let write_string :=
    if buffer_size <=? bs then take (Z.to_nat buffer_size) buffer_str
    else buffer_str ++ replicate (Z.to_nat (buffer_size - bs)) Ascii.zero in
  if fs <? offset then file_data ++ replicate (Z.to_nat (offset - fs)) Ascii.zero ++ write_string
  else if fs <=? u64 (offset + buffer_size) then take (Z.to_nat offset) file_data ++ write_string
  else take (Z.to_nat offset) file_data ++ write_string ++ drop (Z.to_nat (offset + buffer_size)) file_data.

Section ops.
Context {W : Type} `{ExtentStore W}.

(** [lc->acquire] and [lc->release]. *)
Definition acquire (lid : Z) : Y W unit := fun w =>
  s ← lc_acquire lid (store w); Ret (tt, Yworld s (trace w ++ [YAcquire lid])).
Definition release (lid : Z) : Y W unit := fun w =>
  s ← lc_release lid (store w); Ret (tt, Yworld s (trace w ++ [YRelease lid])).

(** A call of the extent client, and what it leaves in the trace. *)
Definition ec_call {A} (ev : yevent) (op : W -> res (A * W)) : Y W A := fun w =>
  '(a, s) ← op (store w); Ret (a, Yworld s (trace w ++ [ev])).
Definition ec {A} (eid : Z) : (W -> res (A * W)) -> Y W A := ec_call (YAccess eid).

Definition yfs_client_new : Y W unit :=
  acquire 1;;
  ec 1 (ec_put 1 []);;
  release 1.

Definition getfile (inum : Z) (fin : fileinfo) : Y W (Z * fileinfo) :=
  acquire inum;;
  '(st, a) ← ec inum (ec_getattr inum (Attr 0 0 0 0));
  let res := if negb (st =? extent_protocol.OK) then (IOERR, fin)
             else (OK, Fileinfo (extent_protocol.size a) (extent_protocol.atime a)
                                (extent_protocol.mtime a) (extent_protocol.ctime a)) in
  release inum;;
  mret res.

Definition getdir (inum : Z) (din : dirinfo) : Y W (Z * dirinfo) :=
  acquire inum;;
  '(st, a) ← ec inum (ec_getattr inum (Attr 0 0 0 0));
  let res := if negb (st =? extent_protocol.OK) then (IOERR, din)
             else (OK, Dirinfo (extent_protocol.atime a) (extent_protocol.mtime a) (extent_protocol.ctime a)) in
  release inum;;
  mret res.

(** The common body of [create] and [create_dir], on the inum generated. *)
Definition add_entry (inum : Z) (name : str) (file_inum : Z) : Y W Z :=
  acquire inum;;
  '(_, buffer) ← ec inum (ec_get inum []);
  return_status ←
    match str_find name buffer with
    | Some _ => mret EXIST
    | None =>
        acquire file_inum;;
        ec file_inum (ec_put file_inum []);;
        release file_inum;;
        let dir_content := buffer ++ filename file_inum ++ [colon] ++ name ++ [semi] in
        ec inum (ec_put inum dir_content);;
        mret OK
    end;
  release inum;;
  mret return_status.

Definition create (inum : Z) (name : str) (rnd : Z) : Y W (Z * Z) :=
  let file_inum := generate_file_inum rnd in
  return_status ← add_entry inum name file_inum;
  mret (return_status, file_inum).

Definition create_dir (parent_inum : Z) (dir_name : str) (rnd : Z) : Y W (Z * Z) :=
  let dir_inum := generate_dir_inum rnd in
  return_status ← add_entry parent_inum dir_name dir_inum;
  mret (return_status, dir_inum).

(** [get_file] and [readdir] read the whole extent. *)
Definition get_file (file_inum : Z) (buffer : str) : Y W str :=
  acquire file_inum;;
  '(_, buffer) ← ec file_inum (ec_get file_inum buffer);
  release file_inum;;
  mret buffer.

Definition readdir (file_inum : Z) (buffer : str) : Y W str :=
  acquire file_inum;;
  '(_, buffer) ← ec file_inum (ec_get file_inum buffer);
  release file_inum;;
  mret buffer.

Definition lookup (parent_inum : Z) (file_name : str) : Y W (Z * option Z) :=
  acquire parent_inum;;
  '(_, buffer) ← ec parent_inum (ec_get parent_inum []);
  release parent_inum;;
  r ← lift (dir_lookup buffer file_name);
  mret match r with Some finum => (OK, Some finum) | None => (IOERR, None) end.

Definition removeFiles (file_inum : Z) : Y W unit :=
  acquire file_inum;;
  (if isfile file_inum then _ ← ec_call (YRemove file_inum) (ec_remove file_inum); mret tt else mret tt);;
  release file_inum.

Definition unlink (parent_inum : Z) (file_name : str) : Y W Z :=
  '(status, finum) ← lookup parent_inum file_name;
  match finum with
  | Some file_inum =>
      acquire parent_inum;;
      '(_, parent_buffer) ← ec parent_inum (ec_get parent_inum []);
      dir_list ← lift (dir_unlink parent_buffer file_name file_inum);
      ec parent_inum (ec_put parent_inum dir_list);;
      removeFiles file_inum;;
      release parent_inum;;
      mret OK
  | None => mret NOENT
  end.

Definition setattr (file_inum : Z) (file_size : Z) : Y W Z :=
  buffer ← get_file file_inum [];
  let final_buffer := resize buffer (u32 file_size) in
  acquire file_inum;;
  status ← ec file_inum (ec_put file_inum final_buffer);
  release file_inum;;
  mret status.

Definition read (file_inum offset buffer_size : Z) : Y W str :=
  file_data ← get_file file_inum [];
  if offset <? Z.of_nat (length file_data) then lift (substr file_data offset buffer_size) else mret [].

Definition write (file_inum : Z) (buffer : str) (buffer_size offset : Z) : Y W unit :=
  buffer_str ← lift (c_string buffer);
  acquire file_inum;;
  '(_, file_data) ← ec file_inum (ec_get file_inum []);
  ec file_inum (ec_put file_inum (write_contents file_data buffer_str buffer_size offset));;
  release file_inum.
End ops.
End yfs_client.
