(* ===== verification/Fuse.v ===== *)
(** * The FUSE handlers: [fuse.cc]

    A handler is the reply it sends.  The two functions of the FUSE library that
    lay out directory entries, [fuse_dirent_size] and [fuse_add_dirent], are
    parameters. *)

From S2P Require Import Prelude Extent Directory YfsClient.
Import yfs_client.

Definition ENOENT : Z := 2.
Definition EEXIST : Z := 17.
Definition ENOTDIR : Z := 20.
Definition ENOSYS : Z := 38.
Definition S_IFREG_0666 : Z := 33206.   (* S_IFREG | 0666 *)
Definition S_IFDIR_0777 : Z := 16895.   (* S_IFDIR | 0777 *)
Definition FUSE_SET_ATTR_SIZE : Z := 8.

Record stat := Stat { st_ino : Z; st_mode : Z; st_nlink : Z; st_atime : Z; st_mtime : Z; st_ctime : Z; st_size : Z }.
Definition zero_stat : stat := Stat 0 0 0 0 0 0 0.

(** [struct fuse_entry_param]: the timeouts and the generation are always 0. *)
Record entry_param := Entry_param { e_ino : Z; e_attr : stat }.

Inductive reply :=
  | Reply_err (errno : Z)
  | Reply_attr (st : stat)
  | Reply_buf (bytes : str)
  | Reply_write (n : Z)
  | Reply_entry (e : entry_param)
  | Reply_create (e : entry_param)
  | Reply_open
  | Reply_statfs (f_namemax f_bsize : Z).

(** [dirbuf_add] and [reply_buf_limited]. *)
Section dirbuf.
Context (fuse_dirent_size : Z -> Z) (fuse_add_dirent : str -> Z -> Z -> str).

(** The C string of a [std::string]. *)
Fixpoint c_str (s : str) : str :=
  match s with
  | c :: s => if bool_decide (c = Ascii.zero) then [] else c :: c_str s
  | [] => []
  end.

Definition dirbuf_add (b : str) (name : str) (ino : Z) : str :=
  let size := Z.of_nat (length b) + fuse_dirent_size (Z.of_nat (length (c_str name))) in
  b ++ fuse_add_dirent (c_str name) ino size.

Definition reply_buf_limited (buf : str) (off maxsize : Z) : reply :=
  let bufsize := Z.of_nat (length buf) in
  if u64 off <? bufsize
  then Reply_buf (take (Z.to_nat (Z.min (bufsize - off) maxsize)) (drop (Z.to_nat off) buf))
  else Reply_buf [].

Definition dirbuf_of (es : list (str * Z)) : str :=
  foldl (fun b e => dirbuf_add b (e.1) (e.2)) [] es.
End dirbuf.

Section handlers.
Context {W : Type} `{ExtentStore W}.
Context (fuse_dirent_size : Z -> Z) (fuse_add_dirent : str -> Z -> Z -> str).

Definition getattr (inum : Z) : Y W (Z * stat) :=
  if isfile inum then
    '(ret, info) ← getfile inum (Fileinfo 0 0 0 0);
    if negb (ret =? OK) then mret (ret, Stat inum 0 0 0 0 0 0)
    else mret (OK, Stat inum S_IFREG_0666 1 (atime info) (mtime info) (ctime info) (size info))
  else
    '(ret, info) ← getdir inum (Dirinfo 0 0 0);
    if negb (ret =? OK) then mret (ret, Stat inum 0 0 0 0 0 0)
    else mret (OK, Stat inum S_IFDIR_0777 2 (d_atime info) (d_mtime info) (d_ctime info) 0).

Definition fuseserver_getattr (ino : Z) : Y W reply :=
  '(ret, st) ← getattr ino;
  if negb (ret =? OK) then mret (Reply_err ENOENT) else mret (Reply_attr st).

Definition fuseserver_setattr (ino : Z) (attr_size : Z) (to_set : Z) : Y W reply :=
  if negb (Z.land FUSE_SET_ATTR_SIZE to_set =? 0) then
    status ← setattr ino attr_size;
    if status =? OK then '(_, st) ← getattr ino; mret (Reply_attr st)
    else mret (Reply_err ENOSYS)
  else mret (Reply_err ENOSYS).

Definition fuseserver_read (ino size off : Z) : Y W reply :=
  buf ← read ino (u64 off) size;
  mret (Reply_buf buf).

Definition fuseserver_write (ino : Z) (buf : str) (size off : Z) : Y W reply :=
  write ino buf size (u64 off);;
  mret (Reply_write size).

Definition fuseserver_createhelper (parent : Z) (name : str) (rnd : Z) : Y W (Z * entry_param) :=
  '(status, fileinum) ← create parent name rnd;
  if status =? OK then
    '(_, st) ← getattr fileinum; mret (status, Entry_param fileinum st)
  else mret (status, Entry_param 0 zero_stat).

Definition fuseserver_create (parent : Z) (name : str) (rnd : Z) : Y W reply :=
  '(ret, e) ← fuseserver_createhelper parent name rnd;
  if ret =? OK then mret (Reply_create e)
  else if ret =? EXIST then mret (Reply_err EEXIST) else mret (Reply_err ENOENT).

Definition fuseserver_mknod (parent : Z) (name : str) (rnd : Z) : Y W reply :=
  '(ret, e) ← fuseserver_createhelper parent name rnd;
  if ret =? OK then mret (Reply_entry e)
  else if ret =? EXIST then mret (Reply_err EEXIST) else mret (Reply_err ENOENT).

Definition fuseserver_lookup (parent : Z) (name : str) : Y W reply :=
  '(status, file_ino) ← lookup parent name;
  match file_ino with
  | Some ino => '(_, st) ← getattr ino; mret (Reply_entry (Entry_param ino st))
  | None => mret (Reply_err ENOENT)
  end.

Definition fuseserver_readdir (ino size off : Z) : Y W reply :=
  if negb (isdir ino) then mret (Reply_err ENOTDIR) else
  buffer ← readdir ino [];
  es ← lift (readdir_entries buffer);
  mret (reply_buf_limited (dirbuf_of fuse_dirent_size fuse_add_dirent es) off size).

Definition fuseserver_open : Y W reply := mret Reply_open.

Definition fuseserver_mkdir (parent : Z) (name : str) (rnd : Z) : Y W reply :=
  '(status, dirinum) ← create_dir parent name rnd;
  if status =? OK then '(_, st) ← getattr dirinum; mret (Reply_entry (Entry_param dirinum st))
  else if status =? EXIST then mret (Reply_err EEXIST) else mret (Reply_err ENOSYS).

Definition fuseserver_unlink (parent : Z) (name : str) : Y W reply :=
  status ← unlink parent name;
  if status =? OK then mret (Reply_err 0) else mret (Reply_err ENOENT).

Definition fuseserver_statfs : Y W reply := mret (Reply_statfs 255 512).
End handlers.
