(* ===== verification/YfsSpec.v ===== *)
(** * The file system client refines a map of files and directories

    [ExtentLaws] is what the client relies on from the extent store; the caching
    extent client satisfies it ([ec_laws]).  Against the laws, each operation of
    [yfs_client] does what an abstract file system does: a map from inums to
    files (their bytes) and directories (their entries). *)

From S2P Require Import Prelude Marshall RpcStubs Extent ExtentSpec Directory DirectorySpec YfsClient.
Import extent_protocol (attr, Attr).

(** ** What the client relies on

    [view]: the contents and the size of each extent.  [allowed w tr]: the world
    lets the client do what [tr] says next.  A world without other clients allows
    everything; one with the lock service under it asks for the lock of an extent
    to be held. *)
Class ExtentLaws (W : Type) `{ExtentStore W} := {
  view : W -> Z -> option (str * Z);
  allowed : W -> list yevent -> Prop;
  law_get : forall w e old b n tr, allowed w (YAccess e :: tr) -> view w e = Some (b, n) ->
    exists w', ec_get e old w = Ret (extent_protocol.OK, b, w') /\ allowed w' tr /\ forall e', view w' e' = view w e';
  law_getattr : forall w e a b n, view w e = Some (b, n) ->
    exists a', extent_protocol.size a' = n /\ forall tr, allowed w (YAccess e :: tr) ->
    exists w', ec_getattr e a w = Ret (extent_protocol.OK, a', w') /\ allowed w' tr /\
      forall e', view w' e' = view w e';
  law_put : forall w e b tr, allowed w (YAccess e :: tr) ->
    exists w', ec_put e b w = Ret (extent_protocol.OK, w') /\ allowed w' tr /\
      forall e', view w' e' = if decide (e' = e) then Some (with_size b) else view w e';
  law_remove : forall w e, exists r, forall tr, allowed w (YRemove e :: tr) ->
    exists w', ec_remove e w = Ret (r, w') /\ allowed w' tr /\ forall e', view w' e' = view w e';
  law_acquire : forall w l tr, allowed w (YAcquire l :: tr) ->
    exists w', lc_acquire l w = Ret w' /\ allowed w' tr /\ forall e', view w' e' = view w e';
  law_release : forall w l tr, allowed w (YRelease l :: tr) ->
    exists w', lc_release l w = Ret w' /\ allowed w' tr /\ forall e', view w' e' = view w e' }.

(** The caching client over the extent server.  Each call finds the next time,
    and the next value of uninitialised memory. *)
Record cached := Cached { cc : extent_client.t; cs : extent_server.t; clock : nat -> Z * Z }.
Definition tick (w : cached) : nat -> Z * Z := fun n => clock w (S n).

#[export] Instance ec_store : ExtentStore cached := {|
  ec_get e old w :=
    '(c, s, r, b) ← extent_client.get (clock w 0).1 (cc w) (cs w) e old; Ret (r, b, Cached c s (tick w));
  ec_getattr e a w := '(r, a) ← extent_client.getattr (cc w) (cs w) e a; Ret (r, a, w);
  ec_put e b w :=
    let '(c, r) := extent_client.put (clock w 0).1 (clock w 0).2 (cc w) e b in Ret (r, Cached c (cs w) (tick w));
  ec_remove e w := let '(c, r) := extent_client.remove (cc w) e in Ret (r, Cached c (cs w) (clock w));
  lc_acquire _ w := Ret w;
  lc_release _ w := Ret w |}.

Definition cached_view (w : cached) (e : Z) : option (str * Z) :=
  match cc w !! e with Some f => Some (cdata f) | None => sdata <$> cs w !! e end.

Lemma insert_view w e f k e' :
  cached_view (Cached (<[e := f]> (cc w)) (cs w) k) e' = if decide (e' = e) then Some (cdata f) else cached_view w e'.
Proof.
  unfold cached_view. simpl. case_decide; [subst; by rewrite lookup_insert_eq|by rewrite lookup_insert_ne].
Qed.

Lemma cached_get w e old b n :
  cached_view w e = Some (b, n) ->
  exists w', ec_get e old w = Ret (extent_protocol.OK, b, w') /\ forall e', cached_view w' e' = cached_view w e'.
Proof.
  intros Hv. pose proof Hv as Hv0. unfold cached_view in Hv. simpl. unfold extent_client.get.
  destruct (cc w !! e) as [f|] eqn:Ef.
  - injection Hv as <- <-. rsimpl. eexists; split; [done|]. intros e'.
    rewrite insert_view. case_decide; [by subst|done].
  - unfold extent_server.get. destruct (cs w !! e) as [g|] eqn:Eg; [|done]. injection Hv as <- <-. rsimpl.
    unfold extent_client.getattr, extent_server.getattr. rewrite Ef, lookup_insert_eq. rsimpl.
    eexists; split; [done|]. intros e'. unfold cached_view at 1. simpl.
    destruct (decide (e' = e)) as [->|Hne]; [by rewrite lookup_insert_eq|].
    by rewrite !lookup_insert_ne.
Qed.

Lemma cached_put w e b :
  exists w', ec_put e b w = Ret (extent_protocol.OK, w') /\
    forall e', cached_view w' e' = if decide (e' = e) then Some (with_size b) else cached_view w e'.
Proof.
  simpl. unfold extent_client.put.
  destruct (cc w !! e) as [f|]; (eexists; split; [done|]); intros e'; by rewrite insert_view.
Qed.

#[export, refine] Instance ec_laws : ExtentLaws cached := {| view := cached_view; allowed := fun _ _ => True |}.
Proof.
  - intros w e old b n tr _ Hv. destruct (cached_get w e old b n Hv) as (w' & E & Hw'). by exists w'.
  - intros w e a b n Hv. unfold cached_view in Hv. simpl. unfold extent_client.getattr, extent_server.getattr.
    destruct (cc w !! e) as [f|].
    + injection Hv as <- <-. rsimpl. eexists; split; [done|]. intros tr _. by eexists.
    + destruct (cs w !! e) as [g|]; [|done]. injection Hv as <- <-. rsimpl. eexists; split; [done|]. intros tr _. by eexists.
  - intros w e b tr _. destruct (cached_put w e b) as (w' & E & Hw'). by exists w'.
  - intros w e. simpl. unfold extent_client.remove. destruct (cc w !! e) as [f|] eqn:Ef.
    + eexists. intros tr _. eexists; split; [done|]. split; [done|]. intros e'. rewrite insert_view. case_decide; [|done].
      subst. unfold cached_view. by rewrite Ef.
    + eexists. intros tr _. eexists; split; [done|]. split; [done|]. by destruct w.
  - intros w l tr _. by exists w.
  - intros w l tr _. by exists w.
Defined.

(** ** Reasoning about runs *)
Section runs.
Context {W : Type} `{ExtentLaws W}.

(** From the store [s], where the events [tr] are allowed, [m] returns [a], adds
    [tr] to the trace, and leaves the extents as [v] says. *)
Definition does {A} (m : Y W A) (s : W) (a : A) (tr : list yevent) (v : Z -> option (str * Z)) : Prop :=
  forall tr0 rest, allowed s (tr ++ rest) ->
  exists s', m (Yworld s tr0) = Ret (a, Yworld s' (tr0 ++ tr)) /\ allowed s' rest /\ forall e, view s' e = v e.

Lemma does_ret {A} (a : A) s : does (mret a) s a [] (view s).
Proof. intros tr0 rest Ha. exists s. by rewrite app_nil_r. Qed.

Lemma does_lift {A} (r : res A) (a : A) s : r = Ret a -> does (lift r) s a [] (view s).
Proof. intros ->. apply does_ret. Qed.

Lemma does_bind {A B} (m : Y W A) (k : A -> Y W B) s a b t1 t2 v1 v2 :
  does m s a t1 v1 -> (forall s1, (forall e, view s1 e = v1 e) -> does (k a) s1 b t2 v2) ->
  does (m ≫= k) s b (t1 ++ t2) v2.
Proof.
  intros Hm Hk tr0 rest Ha. rewrite <- app_assoc in Ha. destruct (Hm tr0 _ Ha) as (s1 & E1 & Ha1 & Hv1).
  destruct (Hk s1 Hv1 (tr0 ++ t1) _ Ha1) as (s2 & E2 & Hv2).
  exists s2. unfold mbind, Y_bind. rewrite E1, E2, <- app_assoc. done.
Qed.

Lemma does_then {A B} (m : Y W A) (k : A -> Y W B) s a b tr v :
  does m s a tr v -> k a = mret b -> does (m ≫= k) s b tr v.
Proof.
  intros Hm Hk tr0 rest Ha. destruct (Hm tr0 rest Ha) as (s' & E & Hs'). exists s'.
  unfold mbind, Y_bind. by rewrite E, Hk.
Qed.

(** The usual cases: the first part is a call that leaves one event, or none. *)
Lemma does_call {A B} (m : Y W A) (k : A -> Y W B) s a b ev t2 v1 v2 :
  does m s a [ev] v1 -> (forall s1, (forall e, view s1 e = v1 e) -> does (k a) s1 b t2 v2) ->
  does (m ≫= k) s b (ev :: t2) v2.
Proof. apply (does_bind m k s a b [ev] t2). Qed.

Lemma does_pure {A B} (r : res A) (k : A -> Y W B) s a b t2 v2 :
  r = Ret a -> does (k a) s b t2 v2 -> does (lift r ≫= k) s b t2 v2.
Proof. by intros ->. Qed.

Lemma does_assoc {A B C} (m : Y W A) (f : A -> Y W B) (g : B -> Y W C) s c tr v :
  does (m ≫= (fun x => f x ≫= g)) s c tr v -> does ((m ≫= f) ≫= g) s c tr v.
Proof.
  intros Hd tr0 rest Ha. destruct (Hd tr0 rest Ha) as (s' & E & Hs'). exists s'. split; [|done]. rewrite <- E.
  unfold mbind, Y_bind. by destruct (m (Yworld s tr0)) as [[a w]| |].
Qed.

Lemma does_ret_bind {A B} (a : A) (k : A -> Y W B) s b tr v :
  does (k a) s b tr v -> does (mret a ≫= k) s b tr v.
Proof. done. Qed.

(** A call of the store. *)
Lemma does_ec {A} ev (op : W -> res (A * W)) s a v :
  (forall tr, allowed s (ev :: tr) -> exists s', op s = Ret (a, s') /\ allowed s' tr /\ forall e, view s' e = v e) ->
  does (yfs_client.ec_call ev op) s a [ev] v.
Proof.
  intros Hop tr0 rest Ha. destruct (Hop rest Ha) as (s' & E & Hs'). exists s'. split; [|done].
  unfold yfs_client.ec_call. cbn [store trace]. by rewrite E.
Qed.

Lemma does_acquire l s : does (yfs_client.acquire l) s tt [YAcquire l] (view s).
Proof.
  intros tr0 rest Ha. destruct (law_acquire s l rest Ha) as (s' & E & Hs'). exists s'. split; [|done].
  unfold yfs_client.acquire. cbn [store trace]. by rewrite E.
Qed.
Lemma does_release l s : does (yfs_client.release l) s tt [YRelease l] (view s).
Proof.
  intros tr0 rest Ha. destruct (law_release s l rest Ha) as (s' & E & Hs'). exists s'. split; [|done].
  unfold yfs_client.release. cbn [store trace]. by rewrite E.
Qed.

Lemma does_get e old s b n :
  view s e = Some (b, n) ->
  does (yfs_client.ec e (ec_get e old)) s (extent_protocol.OK, b) [YAccess e] (view s).
Proof. intros Hv. apply does_ec. intros tr Ha. by apply (law_get s e old b n tr). Qed.

Lemma does_put e b s :
  does (yfs_client.ec e (ec_put e b)) s extent_protocol.OK [YAccess e]
    (fun e' => if decide (e' = e) then Some (with_size b) else view s e').
Proof. apply does_ec. intros tr Ha. by apply law_put. Qed.

Lemma does_getattr e a s b n :
  view s e = Some (b, n) ->
  exists a', extent_protocol.size a' = n /\
    does (yfs_client.ec e (ec_getattr e a)) s (extent_protocol.OK, a') [YAccess e] (view s).
Proof.
  intros Hv. destruct (law_getattr s e a b n Hv) as (a' & Hn & Hl). exists a'. split; [done|]. by apply does_ec.
Qed.

Lemma does_remove e s :
  exists r, does (yfs_client.ec_call (YRemove e) (ec_remove e)) s r [YRemove e] (view s).
Proof. destruct (law_remove s e) as (r & Hl). exists r. by apply does_ec. Qed.

Lemma does_ext {A} (m : Y W A) s a tr v v' :
  does m s a tr v -> (forall e, v e = v' e) -> does m s a tr v'.
Proof.
  intros Hm Hv tr0 rest Ha. destruct (Hm tr0 rest Ha) as (s' & E & Ha' & Hs'). exists s'. split; [done|].
  split; [done|]. intros e. by rewrite Hs'.
Qed.

(** Code that takes a lock and then returns something it finds in the extent. *)
Lemma does_acquire_reading {A} l (m : Y W A) s (P : A -> Prop) (a0 : A) t2 :
  P a0 -> (forall s1, view s1 l = view s l -> exists a, P a /\ does m s1 a t2 (view s1)) ->
  exists a, P a /\ does (yfs_client.acquire l;; m) s a (YAcquire l :: t2) (view s).
Proof.
  intros Hp Hm. destruct (lc_acquire l s) as [s1| |] eqn:E1; [destruct (decide (view s1 l = view s l)) as [Hl|Hl]|..].
  - destruct (Hm s1 Hl) as (a & Ha & Hd). exists a. split; [done|]. intros tr0 rest Hal.
    destruct (law_acquire s l _ Hal) as (s1' & E1' & Hal1 & Hv1). rewrite E1 in E1'. injection E1' as <-.
    destruct (Hd (tr0 ++ [YAcquire l]) rest Hal1) as (s2 & E2 & Hal2 & Hv2). exists s2. split; [|split; [done|]].
    + unfold mbind, Y_bind at 1, yfs_client.acquire. cbn [store trace]. rewrite E1. rsimpl. rewrite E2. by rewrite <- app_assoc.
    + intros e. by rewrite Hv2, Hv1.
  - exists a0. split; [done|]. intros tr0 rest Hal.
    destruct (law_acquire s l _ Hal) as (s1' & E1' & _ & Hv1). rewrite E1 in E1'. injection E1' as <-. by rewrite Hv1 in Hl.
  - exists a0. split; [done|]. intros tr0 rest Hal. destruct (law_acquire s l _ Hal) as (s1' & E1' & _). congruence.
  - exists a0. split; [done|]. intros tr0 rest Hal. destruct (law_acquire s l _ Hal) as (s1' & E1' & _). congruence.
Qed.
End runs.
