(* ===== verification/YfsFs.v ===== *)
(** * The abstract file system

    Inums map to files and directories.  [fs_step] says what each request
    answers and how it changes the map; [None] when the request is outside what
    the code supports (a missing inum, a name with a separator in it, a directory
    of 2^31 bytes, an inum whose digits occur in an earlier entry). *)

From S2P Require Import Prelude Directory DirectorySpec YfsClient.
Import yfs_client.

Inductive node := File (b : str) | Dir (d : list (Z * str)).
Abbreviation fs := (gmap Z node).

Definition text (n : node) : str := match n with File b => b | Dir d => encode d end.

Inductive request :=
  | RCreate (parent : Z) (name : str) (rnd : Z)
  | RMkdir (parent : Z) (name : str) (rnd : Z)
  | RLookup (parent : Z) (name : str)
  | RUnlink (parent : Z) (name : str)
  | RReaddir (dir : Z)
  | RSetattr (inum : Z) (file_size : Z)
  | RRead (inum offset buffer_size : Z)
  | RWrite (inum : Z) (buffer : str) (buffer_size offset : Z)
  | RGetfile (inum : Z).

Inductive answer :=
  | AStatus (status : Z) (inum : option Z)
  | AEntries (es : list (str * Z))
  | ABytes (b : str)
  | ASize (status n : Z)
  | ADone.

(** What the client does on a request. *)
Definition run_request {W} `{ExtentStore W} (r : request) : Y W answer :=
  match r with
  | RCreate p name rnd => '(st, i) ← create p name rnd; mret (AStatus st (Some i))
  | RMkdir p name rnd => '(st, i) ← create_dir p name rnd; mret (AStatus st (Some i))
  | RLookup p name => '(st, i) ← lookup p name; mret (AStatus st i)
  | RUnlink p name => st ← unlink p name; mret (AStatus st None)
  | RReaddir p => buffer ← readdir p []; es ← lift (readdir_entries buffer); mret (AEntries es)
  | RSetattr i sz => st ← setattr i sz; mret (AStatus st None)
  | RRead i off sz => b ← read i off sz; mret (ABytes b)
  | RWrite i buf sz off => write i buf sz off;; mret ADone
  | RGetfile i => '(st, info) ← getfile i (Fileinfo 0 0 0 0); mret (ASize st (yfs_client.size info))
  end.

(** ** Files *)

(** The first [n] bytes of [b], zero bytes where it has none. *)
Definition fit (n : nat) (b : str) : str := take n b ++ replicate (n - length b) Ascii.zero.

(** POSIX [pwrite]. *)
Definition pwrite (b : str) (off : nat) (data : str) : str :=
  fit off b ++ data ++ drop (off + length data) b.

(** ** Directories *)

#[export] Instance plain_dec name : Decision (plain name).
Proof. unfold plain. apply _. Defined.

Definition name_ok (name : str) : Prop := plain name /\ name <> [].
Definition small (d : list (Z * str)) : Prop := Z.of_nat (length (encode d)) < two31.
#[export] Instance name_ok_dec name : Decision (name_ok name).
Proof. unfold name_ok. apply _. Defined.
#[export] Instance small_dec d : Decision (small d).
Proof. unfold small. apply _. Defined.

Definition add_node (a : fs) (p : Z) (d : list (Z * str)) (name : str) (i : Z) (n : node) : option (answer * fs) :=
  if bool_decide (Exists (occurs name) d) then Some (AStatus EXIST (Some i), a)
  else Some (AStatus OK (Some i), <[p := Dir (d ++ [(i, name)])]> (<[i := n]> a)).

Definition fs_step (a : fs) (r : request) : option (answer * fs) :=
  match r with
  | RCreate p name rnd =>
      match a !! p with
      | Some (Dir d) =>
          let i := generate_file_inum rnd in
          if bool_decide (name_ok name /\ 0 <= rnd < two31 /\ i <> p) then add_node a p d name i (File []) else None
      | _ => None
      end
  | RMkdir p name rnd =>
      match a !! p with
      | Some (Dir d) =>
          let i := generate_dir_inum rnd in
          if bool_decide (name_ok name /\ 0 <= rnd < two31 /\ i <> p) then add_node a p d name i (Dir []) else None
      | _ => None
      end
  | RLookup p name =>
      match a !! p with
      | Some (Dir d) =>
          if bool_decide (name_ok name /\ small d) then
            Some (match first_ending name d with
                  | Some e => AStatus OK (Some e.1)
                  | None => AStatus IOERR None
                  end, a)
          else None
      | _ => None
      end
  | RUnlink p name =>
      match a !! p with
      | Some (Dir d) =>
          if bool_decide (name_ok name /\ small d) then
            match list_find (ends_with name) d with
            | Some (k, e) =>
                if bool_decide (e.1 <> p /\ Forall (fun e' => ~ occurs (filename e.1) e') (take k d))
                then Some (AStatus OK None, <[p := Dir (delete k d)]> a) else None
            | None => Some (AStatus NOENT None, a)
            end
          else None
      | _ => None
      end
  | RReaddir p =>
      match a !! p with
      | Some (Dir d) => if bool_decide (small d) then Some (AEntries ((fun e => (e.2, e.1)) <$> d), a) else None
      | _ => None
      end
  | RSetattr i sz =>
      match a !! i with
      | Some (File b) =>
          if bool_decide (0 <= sz < two32)
          then Some (AStatus OK None, <[i := File (fit (Z.to_nat sz) b)]> a) else None
      | _ => None
      end
  | RRead i off sz =>
      match a !! i with
      | Some (File b) =>
          if bool_decide (0 <= off < two64 /\ 0 <= sz < two64)
          then Some (ABytes (take (Z.to_nat sz) (drop (Z.to_nat off) b)), a) else None
      | _ => None
      end
  | RWrite i buf sz off =>
      match a !! i, c_string buf with
      | Some (File b), Ret s =>
          if bool_decide (0 <= sz /\ 0 <= off /\ off + sz < two64)
          then Some (ADone, <[i := File (pwrite b (Z.to_nat off) (fit (Z.to_nat sz) s))]> a) else None
      | _, _ => None
      end
  | RGetfile i =>
      match a !! i with
      | Some (File b) => Some (ASize OK (u32 (Z.of_nat (length b))), a)
      | _ => None
      end
  end.

(** The inum a request names, the one it may create, and the one it removes. *)
Definition req_inum (r : request) : Z :=
  match r with
  | RCreate i _ _ | RMkdir i _ _ | RLookup i _ | RUnlink i _ | RReaddir i | RSetattr i _ | RRead i _ _
  | RWrite i _ _ _ | RGetfile i => i
  end.
Definition created_by (r : request) : gset Z :=
  match r with
  | RCreate _ _ rnd => {[generate_file_inum rnd]}
  | RMkdir _ _ rnd => {[generate_dir_inum rnd]}
  | _ => ∅
  end.
Definition removed_by (a : fs) (r : request) : gset Z :=
  match r with
  | RUnlink p name =>
      match a !! p with
      | Some (Dir d) => match list_find (ends_with name) d with Some (_, e) => {[e.1]} | None => ∅ end
      | _ => ∅
      end
  | _ => ∅
  end.
(** The locks it takes are among these. *)
Definition touched_by (a : fs) (r : request) : gset Z := {[req_inum r]} ∪ created_by r ∪ removed_by a r.

(** Requests in sequence. *)
Fixpoint fs_run (a : fs) (rs : list request) : option (list answer * fs) :=
  match rs with
  | [] => Some ([], a)
  | r :: rs =>
      '(y, a) ← fs_step a r;
      '(ys, a) ← fs_run a rs;
      Some (y :: ys, a)
  end.

Fixpoint run_requests {W} `{ExtentStore W} (rs : list request) : Y W (list answer) :=
  match rs with
  | [] => mret []
  | r :: rs => y ← run_request r; ys ← run_requests rs; mret (y :: ys)
  end.

(** ** Locks held around every access, given back in the opposite order *)
Fixpoint disciplined (held : list Z) (tr : list yevent) : bool :=
  match tr with
  | [] => bool_decide (held = [])
  | YAcquire l :: tr => bool_decide (l ∉ held) && disciplined (l :: held) tr
  | YRelease l :: tr =>
      match held with
      | h :: held => bool_decide (h = l) && disciplined held tr
      | [] => false
      end
  | YAccess e :: tr | YRemove e :: tr => bool_decide (e ∈ held) && disciplined held tr
  end.

(** The locks taken are in [T], the extents removed in [R]. *)
Definition within (T R : gset Z) (tr : list yevent) : Prop :=
  Forall (fun ev => match ev with YAcquire l => l ∈ T | YRemove e => e ∈ R | _ => True end) tr.

(** ** Well-formed directories: a name does not occur in earlier entries *)
Definition named (d : list (Z * str)) : Prop :=
  Forall entry_ok d /\ Forall (fun e => name_ok e.2) d /\ ForallOrdPairs (fun e' e => ~ occurs e.2 e') d.
Definition fs_wf (a : fs) : Prop :=
  forall p d, a !! p = Some (Dir d) -> named d.
