(* ===== verification/YfsThms.v ===== *)
(** * The file system client refines the abstract file system *)

From S2P Require Import Prelude Marshall RpcStubs Extent ExtentSpec Directory DirectorySpec YfsClient YfsSpec YfsFs.
Import yfs_client.

(** ** Contents of files *)

Lemma resize_fit b n : resize b (Z.of_nat n) = fit n b.
Proof.
  unfold resize, fit. destruct (Z.ltb_spec (Z.of_nat n) (Z.of_nat (length b))).
  - rewrite Nat2Z.id. replace (n - length b)%nat with 0%nat by lia. by rewrite app_nil_r.
  - rewrite take_ge by lia. destruct (Z.ltb_spec (Z.of_nat (length b)) (Z.of_nat n)).
    + by replace (Z.to_nat (Z.of_nat n - Z.of_nat (length b))) with (n - length b)%nat by lia.
    + replace (n - length b)%nat with 0%nat by lia. by rewrite app_nil_r.
Qed.

Lemma length_fit n b : length (fit n b) = n.
Proof. unfold fit. rewrite length_app, length_take, length_replicate. lia. Qed.

(** [write] stores what [pwrite] would: the three cases of the code agree. *)
Lemma write_contents_pwrite b s sz off :
  0 <= sz -> 0 <= off -> off + sz < two64 ->
  write_contents b s sz off = pwrite b (Z.to_nat off) (fit (Z.to_nat sz) s).
Proof.
  intros Hs Ho Hb. unfold write_contents.
  set (ws := if sz <=? Z.of_nat (length s) then _ else _).
  assert (ws = fit (Z.to_nat sz) s) as ->.
  { unfold ws, fit. destruct (Z.leb_spec sz (Z.of_nat (length s))).
    - replace (Z.to_nat sz - length s)%nat with 0%nat by lia. by rewrite app_nil_r.
    - rewrite take_ge by lia. by replace (Z.to_nat (sz - Z.of_nat (length s))) with (Z.to_nat sz - length s)%nat by lia. }
  rewrite u64_small by lia. unfold pwrite. rewrite length_fit. set (ws' := fit (Z.to_nat sz) s). unfold fit.
  destruct (Z.ltb_spec (Z.of_nat (length b)) off).
  - rewrite take_ge, drop_ge, app_nil_r, <- app_assoc by lia.
    by replace (Z.to_nat (off - Z.of_nat (length b))) with (Z.to_nat off - length b)%nat by lia.
  - replace (Z.to_nat off - length b)%nat with 0%nat by lia. rewrite app_nil_r.
    destruct (Z.leb_spec (Z.of_nat (length b)) (off + sz)).
    + by rewrite drop_ge, app_nil_r by lia.
    + by replace (Z.to_nat (off + sz)) with (Z.to_nat off + Z.to_nat sz)%nat by lia.
Qed.

(** ** Inums generated *)
Lemma generate_file_range rnd : 0 <= rnd < two31 -> 0 <= generate_file_inum rnd < two64.
Proof.
  intros Hr. unfold generate_file_inum, generate_inum. rewrite Z.lor_0_l, u64_small by lia.
  rewrite Z.lor_comm. rewrite (lor_disjoint _ rnd 31) by (done || lia). lia.
Qed.

Lemma generate_file_isfile rnd : 0 <= rnd < two31 -> isfile (generate_file_inum rnd) = true.
Proof.
  intros Hr. unfold isfile, generate_file_inum, generate_inum. rewrite Z.lor_0_l, u64_small by lia.
  rewrite Z.land_lor_distr_l, Z.land_diag. destruct (Z.eqb_spec (Z.lor (Z.land rnd two31) two31) 0) as [E|]; [|done].
  apply Z.lor_eq_0_iff in E. lia.
Qed.

Lemma generate_dir_isdir rnd : 0 <= rnd < two31 -> isfile (generate_dir_inum rnd) = false.
Proof.
  intros _. unfold isfile, generate_dir_inum. rewrite <- Z.land_assoc. change (Z.land 2147483647 2147483648) with 0.
  by rewrite Z.land_0_r.
Qed.

Lemma generate_dir_range rnd : 0 <= rnd < two31 -> 0 <= generate_dir_inum rnd < two64.
Proof.
  intros Hr. unfold generate_dir_inum, generate_inum. rewrite Z.lor_0_l, u64_small by lia.
  change 2147483647 with (Z.ones 31). rewrite Z.land_ones by lia. change (2 ^ 31) with two31. rewrite Z.mod_small by lia. lia.
Qed.

(** ** Each operation against the laws of the store *)
Section ops.
Context {W : Type} `{ExtentLaws W}.

Definition repv (a : fs) (e : Z) : option (str * Z) := with_size ∘ text <$> a !! e.
Definition rep (s : W) (a : fs) : Prop := forall e, view s e = repv a e.

Lemma repv_insert a e n e' : repv (<[e := n]> a) e' = if decide (e' = e) then Some (with_size (text n)) else repv a e'.
Proof. unfold repv. case_decide; [subst; by rewrite lookup_insert_eq|by rewrite lookup_insert_ne]. Qed.

(** The steps a proof about a run takes. *)
Ltac ycall lem :=
  eapply does_call;
  [eapply lem
  |let s' := fresh "s" in let Hs' := fresh "Hv" in intros s' Hs'; cbv beta iota].
Ltac yview :=
  repeat match goal with Hv : forall e, view ?s e = _ |- context [view ?s _] => rewrite Hv end.
Ltac yret := eapply does_ext; [apply does_ret|intros ?; yview].

Lemma does_get_file i old s b n :
  view s i = Some (b, n) -> does (get_file i old) s b [YAcquire i; YAccess i; YRelease i] (view s).
Proof.
  intros Hb. unfold get_file. ycall @does_acquire. ycall @does_get; [by yview|]. ycall @does_release. by yret.
Qed.

Lemma does_readdir i s b n :
  view s i = Some (b, n) -> does (readdir i []) s b [YAcquire i; YAccess i; YRelease i] (view s).
Proof. apply does_get_file. Qed.

Lemma does_add_exists p name i s b n k :
  view s p = Some (b, n) -> str_find name b = Some k ->
  does (add_entry p name i) s EXIST [YAcquire p; YAccess p; YRelease p] (view s).
Proof.
  intros Hb Hk. unfold add_entry. ycall @does_acquire. ycall @does_get; [by yview|]. rewrite Hk.
  apply does_ret_bind. ycall @does_release. by yret.
Qed.

Lemma does_add_ok p name i s b n :
  view s p = Some (b, n) -> str_find name b = None ->
  does (add_entry p name i) s OK
    [YAcquire p; YAccess p; YAcquire i; YAccess i; YRelease i; YAccess p; YRelease p]
    (fun e => if decide (e = p) then Some (with_size (b ++ encode [(i, name)]))
              else if decide (e = i) then Some (with_size []) else view s e).
Proof.
  intros Hb Hk. unfold add_entry. ycall @does_acquire. ycall @does_get; [by yview|]. rewrite Hk.
  apply does_assoc. ycall @does_acquire. apply does_assoc. ycall @does_put.
  apply does_assoc. ycall @does_release. apply does_assoc. ycall @does_put. apply does_ret_bind.
  ycall @does_release. yret. case_decide; [|done]. by rewrite encode_one.
Qed.

Lemma does_lookup p name s b n r :
  view s p = Some (b, n) -> dir_lookup b name = Ret r ->
  does (lookup p name) s (match r with Some i => (OK, Some i) | None => (IOERR, None) end)
    [YAcquire p; YAccess p; YRelease p] (view s).
Proof.
  intros Hb Hr. unfold lookup. ycall @does_acquire. ycall @does_get; [by yview|]. ycall @does_release.
  eapply does_pure; [exact Hr|]. by yret.
Qed.

Definition remove_trace (i : Z) : list yevent :=
  YAcquire i :: (if isfile i then [YRemove i] else []) ++ [YRelease i].

Lemma does_remove_files i s : does (removeFiles i) s tt (remove_trace i) (view s).
Proof.
  unfold removeFiles, remove_trace. ycall @does_acquire. destruct (isfile i).
  - destruct (does_remove i s0) as [r Hr]. apply does_assoc.
    eapply does_call; [exact Hr|]. intros s1 Hv1. apply does_ret_bind.
    eapply does_ext; [apply does_release|]. intros e. by yview.
  - apply does_ret_bind. eapply does_ext; [apply does_release|]. intros e. by yview.
Qed.

Lemma remove_trace_disciplined i held rest :
  i ∉ held -> disciplined held (remove_trace i ++ rest) = disciplined held rest.
Proof.
  intros Hi. unfold remove_trace. destruct (isfile i); simpl; by rewrite !bool_decide_eq_true_2 by set_solver.
Qed.

Lemma does_unlink p name s b n i b' :
  view s p = Some (b, n) -> dir_lookup b name = Ret (Some i) -> dir_unlink b name i = Ret b' ->
  does (unlink p name) s OK
    ([YAcquire p; YAccess p; YRelease p] ++ (YAcquire p :: YAccess p :: YAccess p :: remove_trace i ++ [YRelease p]))
    (fun e => if decide (e = p) then Some (with_size b') else view s e).
Proof.
  intros Hb Hl Hu. unfold unlink.
  eapply does_bind; [eapply does_lookup; [exact Hb|exact Hl]|]. intros s1 Hv1. cbv beta iota.
  ycall @does_acquire. ycall @does_get; [by yview|]. eapply does_pure; [exact Hu|].
  ycall @does_put. eapply does_bind; [apply does_remove_files|]. intros s5 Hv5.
  ycall @does_release. yret. done.
Qed.

Lemma does_setattr i s b n sz :
  view s i = Some (b, n) -> 0 <= sz < two32 ->
  does (setattr i sz) s OK
    ([YAcquire i; YAccess i; YRelease i] ++ [YAcquire i; YAccess i; YRelease i])
    (fun e => if decide (e = i) then Some (with_size (fit (Z.to_nat sz) b)) else view s e).
Proof.
  intros Hb Hsz. unfold setattr. eapply does_bind; [by eapply does_get_file|]. intros s1 Hv1. cbv beta zeta.
  rewrite u32_small by done.
  replace (resize b sz) with (fit (Z.to_nat sz) b) by (rewrite <- resize_fit; f_equal; lia).
  ycall @does_acquire. ycall @does_put. ycall @does_release. by yret.
Qed.

Lemma does_read i s b n off sz :
  view s i = Some (b, n) -> 0 <= off < two64 -> 0 <= sz < two64 ->
  does (read i off sz) s (take (Z.to_nat sz) (drop (Z.to_nat off) b)) [YAcquire i; YAccess i; YRelease i] (view s).
Proof.
  intros Hb Ho Hsz. unfold read.
  apply (does_bind _ _ _ b _ [YAcquire i; YAccess i; YRelease i] [] (view s)); [by eapply does_get_file|]. intros s1 Hv1. cbv beta.
  destruct (Z.ltb_spec off (Z.of_nat (length b))).
  - eapply does_ext; [apply does_lift|exact Hv1]. unfold substr. rewrite !u64_small by lia.
    destruct (Z.ltb_spec (Z.of_nat (length b)) off); [lia|]. f_equal.
    destruct (decide (sz <= Z.of_nat (length b))); [f_equal; lia|].
    rewrite !take_ge by (rewrite length_drop; lia). done.
  - rewrite drop_ge, take_nil by lia. eapply does_ext; [apply does_ret|exact Hv1].
Qed.

Lemma does_write i s b n buf bs sz off :
  view s i = Some (b, n) -> c_string buf = Ret bs -> 0 <= sz -> 0 <= off -> off + sz < two64 ->
  does (write i buf sz off) s tt [YAcquire i; YAccess i; YAccess i; YRelease i]
    (fun e => if decide (e = i) then Some (with_size (pwrite b (Z.to_nat off) (fit (Z.to_nat sz) bs))) else view s e).
Proof.
  intros Hb Hbuf Hs Ho Hsum. unfold write. eapply does_pure; [exact Hbuf|].
  ycall @does_acquire. ycall @does_get; [by yview|]. rewrite write_contents_pwrite by done.
  ycall @does_put. eapply does_ext; [apply does_release|]. intros e. by yview.
Qed.

Lemma does_getfile i s b n fin :
  view s i = Some (b, n) ->
  exists info, yfs_client.size info = n /\
    does (getfile i fin) s (OK, info) [YAcquire i; YAccess i; YRelease i] (view s).
Proof.
  intros Hb.
  destruct (does_acquire_reading i
    ('(st, a) ← ec i (ec_getattr i (extent_protocol.Attr 0 0 0 0));
     let res := if negb (st =? extent_protocol.OK) then (IOERR, fin)
                else (OK, Fileinfo (extent_protocol.size a) (extent_protocol.atime a)
                                   (extent_protocol.mtime a) (extent_protocol.ctime a)) in
     release i;; mret res) s (fun x => x.1 = OK /\ yfs_client.size x.2 = n) (OK, Fileinfo n 0 0 0)
    [YAccess i; YRelease i]) as ([st info] & [Hst Hn] & Hd); [done| |simpl in *; subst; by eauto].
  intros s1 Hs1. rewrite Hb in Hs1. destruct (does_getattr i (extent_protocol.Attr 0 0 0 0) s1 b n Hs1) as (a & Hn & Ha).
  eexists (OK, Fileinfo (extent_protocol.size a) _ _ _). split; [by split|].
  eapply does_call; [exact Ha|intros s2 Hv2; cbv beta iota]. ycall @does_release. by yret.
Qed.

Lemma does_getdir i s b n din :
  view s i = Some (b, n) ->
  exists info, does (getdir i din) s (OK, info) [YAcquire i; YAccess i; YRelease i] (view s).
Proof.
  intros Hb.
  destruct (does_acquire_reading i
    ('(st, a) ← ec i (ec_getattr i (extent_protocol.Attr 0 0 0 0));
     let res := if negb (st =? extent_protocol.OK) then (IOERR, din)
                else (OK, Dirinfo (extent_protocol.atime a) (extent_protocol.mtime a) (extent_protocol.ctime a)) in
     release i;; mret res) s (fun x => x.1 = OK) (OK, din)
    [YAccess i; YRelease i]) as ([st info] & Hst & Hd); [done| |simpl in *; subst; by eauto].
  intros s1 Hs1. rewrite Hb in Hs1. destruct (does_getattr i (extent_protocol.Attr 0 0 0 0) s1 b n Hs1) as (a & _ & Ha).
  eexists (OK, Dirinfo _ _ _). split; [done|].
  eapply does_call; [exact Ha|intros s2 Hv2; cbv beta iota]. ycall @does_release. by yret.
Qed.

(** The constructor of the client: an empty root. *)
Definition mount_trace : list yevent := [YAcquire 1; YAccess 1; YRelease 1].

Lemma does_mount s :
  does yfs_client_new s tt mount_trace (fun e => if decide (e = 1) then Some (with_size []) else view s e).
Proof.
  unfold yfs_client_new. ycall @does_acquire. ycall @does_put. eapply does_ext; [apply does_release|].
  intros e. by yview.
Qed.

(** ** The refinement, request by request *)

Lemma rep_view s a p n : rep s a -> a !! p = Some n -> view s p = Some (with_size (text n)).
Proof. intros Hr Hp. rewrite Hr. unfold repv. by rewrite Hp. Qed.

Ltac disc := simpl; rewrite !bool_decide_eq_true_2 by set_solver; reflexivity.

(** A run that answers as the specification does, takes the locks of the extents
    the request touches, and gives them back. *)
Definition refines (s : W) (a : fs) (r : request) (y : answer) (a' : fs) : Prop :=
  exists tr, disciplined [] tr = true /\ within (touched_by a r) (removed_by a r) tr /\
    does (run_request r) s y tr (repv a').
Lemma refines_by s a r y a' tr :
  does (run_request r) s y tr (repv a') -> disciplined [] tr = true ->
  within (touched_by a r) (removed_by a r) tr -> refines s a r y a'.
Proof. intros Hd Ht Hw. by exists tr. Qed.
Ltac wthin := unfold within, touched_by, remove_trace; repeat (constructor; [set_solver|]); constructor.

Lemma add_node_refines s a p d name i n r y a' :
  rep s a -> named d -> a !! p = Some (Dir d) -> name_ok name -> i <> p -> text n = [] ->
  add_node a p d name i n = Some (y, a') ->
  req_inum r = p -> created_by r = {[i]} ->
  (forall tr v, does (st ← add_entry p name i; mret (AStatus st (Some i))) s y tr v -> does (run_request r) s y tr v) ->
  refines s a r y a'.
Proof.
  intros Hr Hw Hp [Hpl Hne] Hi Hn E Hrp Hri Hm. pose proof (rep_view s a p _ Hr Hp) as Hv. unfold add_node in E.
  case_bool_decide as Hex; injection E as <- <-.
  - destruct (str_find name (encode d)) as [k|] eqn:Ek.
    + eapply refines_by; [eapply Hm, does_then; [eapply does_ext; [by eapply does_add_exists|exact Hr]|done]|disc|wthin].
    + apply find_absent_inv in Ek; [|done|done]. by apply Forall_not_Exists in Ek.
  - apply not_Exists_Forall in Hex; [|apply _].
    eapply refines_by;
      [eapply Hm, does_then; [eapply does_ext; [eapply does_add_ok; [exact Hv|by apply find_absent]|]|done]|disc|wthin].
    intros e. simpl. rewrite !repv_insert. simpl. rewrite encode_app, Hn.
    case_decide; [done|]. case_decide; [done|]. apply Hr.
Qed.

Lemma lookup_refines s a p name y a' :
  rep s a -> fs_wf a -> fs_step a (RLookup p name) = Some (y, a') -> refines s a (RLookup p name) y a'.
Proof.
  intros Hr Hw E. simpl in E. destruct (a !! p) as [[|d]|] eqn:Hp; [done| |done].
  case_bool_decide as Hok; [|done]. injection E as <- <-. destruct Hok as [[Hpl _] Hs].
  destruct (Hw p d Hp) as (He & _ & _). pose proof (dir_lookup_spec name d Hpl He Hs) as Hl.
  eapply refines_by;
    [eapply does_then; [eapply does_ext; [eapply does_lookup; [by eapply rep_view|exact Hl]|exact Hr]|]|disc|wthin].
  by destruct (first_ending name d).
Qed.

Lemma first_ending_find name d : first_ending name d = snd <$> list_find (ends_with name) d.
Proof. done. Qed.

Lemma unlink_refines s a p name y a' :
  rep s a -> fs_wf a -> fs_step a (RUnlink p name) = Some (y, a') -> refines s a (RUnlink p name) y a'.
Proof.
  intros Hr Hw E. simpl in E. destruct (a !! p) as [[|d]|] eqn:Hp; [done| |done].
  case_bool_decide as Hok; [|done]. destruct Hok as [[Hpl _] Hs]. destruct (Hw p d Hp) as (He & _ & _).
  pose proof (dir_lookup_spec name d Hpl He Hs) as Hl. rewrite first_ending_find in Hl.
  pose proof (rep_view s a p _ Hr Hp) as Hv.
  destruct (list_find (ends_with name) d) as [[k e]|] eqn:Ek; simpl in Hl.
  - case_bool_decide as Hcond; [|done]. destruct Hcond as [Hne Hocc]. injection E as <- <-.
    pose proof Ek as Ef. apply list_find_Some in Ek as (Hk & Hend & Hmin).
    pose proof (take_drop_middle _ _ _ Hk) as Hd.
    assert (Forall (fun e' => ~ ends_with name e') (take k d)) as Hpre.
    { apply Forall_forall. intros x (j & Hj)%list_elem_of_lookup_1.
      apply lookup_take_Some in Hj as [Hj Hlt]. by apply (Hmin j x). }
    rewrite <- Hd in He. apply Forall_app in He as [He1 He2]. inversion He2; subst.
    pose proof (dir_unlink_spec name (take k d) e (drop (S k) d) Hpl He1 ltac:(done) Hpre Hend Hocc) as Hu.
    rewrite Hd in Hu. eapply refines_by.
    + eapply does_then; [|done]. eapply does_ext; [eapply does_unlink; [exact Hv|exact Hl|exact Hu]|].
      intros x. cbv beta. rewrite repv_insert. simpl. rewrite delete_take_drop.
      case_decide; [done|apply Hr].
    + cbn [app disciplined]. rewrite remove_trace_disciplined by set_solver. disc.
    + unfold touched_by. cbn [removed_by req_inum created_by]. rewrite Hp, Ef.
      unfold remove_trace. destruct (isfile e.1); wthin.
  - injection E as <- <-. eapply (refines_by _ _ _ _ _ [YAcquire p; YAccess p; YRelease p]); [|disc|wthin].
    eapply does_then; [|done]. unfold unlink.
    eapply does_then; [eapply does_ext; [by eapply does_lookup|exact Hr]|done].
Qed.

Lemma step_refines s a r y a' :
  rep s a -> fs_wf a -> fs_step a r = Some (y, a') -> refines s a r y a'.
Proof.
  intros Hr Hw E. destruct r as [p name rnd|p name rnd|p name|p name|p|i sz|i off sz|i buf sz off|i];
    [| |by eapply lookup_refines|by eapply unlink_refines| | | | |]; simpl in E.
  1,2: destruct (a !! p) as [[|d]|] eqn:Hp; [done| |done];
       case_bool_decide as Hok; [|done]; destruct Hok as (Hn & Hrnd & Hi).
  - eapply (add_node_refines s a p d name); [done|by eapply Hw|done|done|exact Hi| |exact E|done|done|]; [done|].
    intros tr v Hd. by apply does_assoc.
  - eapply (add_node_refines s a p d name); [done|by eapply Hw|done|done|exact Hi| |exact E|done|done|]; [done|].
    intros tr v Hd. by apply does_assoc.
  - destruct (a !! p) as [[|d]|] eqn:Hp; [done| |done]. case_bool_decide as Hok; [|done]. injection E as <- <-.
    destruct (Hw p d Hp) as (He & _ & _). eapply (refines_by _ _ _ _ _ [YAcquire p; YAccess p; YRelease p]); [|disc|wthin].
    apply (does_bind _ _ _ (encode d) _ [YAcquire p; YAccess p; YRelease p] [] (view s)).
    + eapply does_readdir. by apply (rep_view s a p (Dir d)).
    + intros s1 Hs1. eapply does_pure; [by apply readdir_entries_spec|].
      eapply does_ext; [apply does_ret|]. intros e. by rewrite Hs1, Hr.
  - destruct (a !! i) as [[b|]|] eqn:Hp; [|done|done]. case_bool_decide as Hok; [|done]. injection E as <- <-.
    eapply refines_by; [eapply does_then; [eapply does_ext; [eapply does_setattr; [by eapply rep_view|done]|]|done]|disc|wthin].
    intros e. rewrite repv_insert. simpl. case_decide; [done|apply Hr].
  - destruct (a !! i) as [[b|]|] eqn:Hp; [|done|done]. case_bool_decide as Hok; [|done]. injection E as <- <-.
    destruct Hok. eapply (refines_by _ _ _ _ _ [YAcquire i; YAccess i; YRelease i]);
      [eapply does_then; [eapply does_ext; [|exact Hr]|done]|disc|wthin].
    apply (does_read i s b (with_size b).2); [by eapply rep_view in Hp|done|done].
  - destruct (a !! i) as [[b|]|] eqn:Hp; [|done|done]. destruct (c_string buf) as [bs| |] eqn:Eb; [|done|done].
    case_bool_decide as Hok; [|done]. injection E as <- <-. destruct Hok as (H1 & H2 & H3).
    eapply refines_by;
      [eapply does_then; [eapply does_ext; [eapply does_write; [by eapply rep_view|exact Eb|done..]|]|done]|disc|wthin].
    intros e. rewrite repv_insert. simpl. case_decide; [done|apply Hr].
  - destruct (a !! i) as [[b|]|] eqn:Hp; [|done|done]. injection E as <- <-.
    destruct (does_getfile i s b (u32 (Z.of_nat (length b))) (Fileinfo 0 0 0 0)) as (info & Hn & Hd);
      [by eapply rep_view in Hp|].
    eapply refines_by; [eapply does_then; [eapply does_ext; [exact Hd|exact Hr]|cbv beta iota; by rewrite Hn]|disc|wthin].
Qed.
End ops.

(** ** Directories stay well formed *)

Lemma named_snoc d i name :
  named d -> 0 <= i < two64 -> name_ok name -> Forall (fun e => ~ occurs name e) d -> named (d ++ [(i, name)]).
Proof.
  intros (H1 & H2 & H3) Hi Hn Ho. split; [|split].
  - apply Forall_app. split; [done|]. constructor; [|done]. split; [done|apply Hn].
  - apply Forall_app. split; [done|]. by constructor.
  - clear H1 H2. induction H3 as [|e d He Hd IH]; simpl; [by repeat constructor|].
    inversion Ho; subst. constructor; [|by apply IH]. apply Forall_app. split; [done|]. by constructor.
Qed.

Lemma named_delete d k : named d -> named (delete k d).
Proof.
  intros (H1 & H2 & H3). split; [|split].
  - by apply Forall_delete.
  - by apply Forall_delete.
  - clear H1 H2. revert k. induction H3 as [|e d He Hd IH]; intros k; [constructor|].
    destruct k as [|k]; simpl; [done|]. constructor; [by apply Forall_delete|apply IH].
Qed.

Lemma fs_wf_insert a p n : fs_wf a -> (forall d, n = Dir d -> named d) -> fs_wf (<[p := n]> a).
Proof.
  intros Hw Hn p' d Hp'. destruct (decide (p = p')) as [<-|Hne].
  - rewrite lookup_insert_eq in Hp'. injection Hp' as ->. by apply Hn.
  - rewrite lookup_insert_ne in Hp' by done. by apply (Hw p').
Qed.

Lemma fs_step_wf a r y a' : fs_wf a -> fs_step a r = Some (y, a') -> fs_wf a'.
Proof.
  intros Hw E. destruct r as [p name rnd|p name rnd|p name|p name|p|i sz|i off sz|i buf sz off|i]; simpl in E.
  1,2: destruct (a !! p) as [[|d]|] eqn:Hp; [done| |done]; case_bool_decide as Hok; [|done];
       destruct Hok as (Hn & Hrnd & Hi); unfold add_node in E; case_bool_decide as Hex; injection E as _ <-; [done|];
       apply not_Exists_Forall in Hex; [|apply _];
       (apply fs_wf_insert; [apply fs_wf_insert; [done|]|]); [|intros d' [= <-]; apply named_snoc; [by eapply Hw| |done|done]].
  - done.
  - by apply generate_file_range.
  - intros d' [= <-]. repeat constructor.
  - by apply generate_dir_range.
  - by repeat case_match; simplify_eq.
  - destruct (a !! p) as [[|d]|] eqn:Hp; [done| |done]. case_bool_decide; [|done].
    destruct (list_find _ d) as [[k e]|]; [|by simplify_eq]. case_bool_decide; [|done]. injection E as _ <-.
    apply fs_wf_insert; [done|]. intros d' [= <-]. by eapply named_delete, Hw.
  - by repeat case_match; simplify_eq.
  - repeat case_match; simplify_eq. by apply fs_wf_insert.
  - by repeat case_match; simplify_eq.
  - repeat case_match; simplify_eq. by apply fs_wf_insert.
  - by repeat case_match; simplify_eq.
Qed.

(** A name in a well-formed directory is found, at its own inum. *)
Lemma named_lookup d i name : named d -> (i, name) ∈ d -> first_ending name d = Some (i, name).
Proof.
  intros (_ & _ & H3) Hin. apply list_elem_of_split in Hin as (pre & post & ->). rewrite first_ending_find.
  assert (Forall (fun e => ~ ends_with name e) pre) as Hpre.
  { induction pre as [|e pre IH]; [constructor|]. simpl in H3. inversion H3; subst. constructor; [|by apply IH].
    intros Hend%occurs_ends. rewrite Forall_app in H1. destruct H1 as [_ H1]. inversion H1; subst. done. }
  clear H3. induction Hpre as [|e pre He Hpre IH]; simpl.
  - by rewrite decide_True by (unfold ends_with; simpl; done).
  - rewrite decide_False by done. destruct (list_find _ _) as [[k x]|]; simpl in *; [congruence|done].
Qed.

(** ** The claims, for the client with the caching extent client below it *)

Lemma disciplined_app held t1 t2 :
  disciplined held t1 = true -> disciplined held (t1 ++ t2) = disciplined [] t2.
Proof.
  revert held. induction t1 as [|ev t1 IH]; intros held Hd; simpl in *.
  - bool_prop. by subst.
  - destruct ev; try (bool_prop; rewrite bool_decide_eq_true_2 by done; by apply IH).
    destruct held; [done|]. bool_prop. rewrite bool_decide_eq_true_2 by done. by apply IH.
Qed.

Lemma run_refines rs : forall (w : cached) tr0 a ys a', rep w a -> fs_wf a -> fs_run a rs = Some (ys, a') ->
  exists w' tr, run_requests rs (Yworld w tr0) = Ret (ys, Yworld w' (tr0 ++ tr)) /\ disciplined [] tr = true /\
    rep w' a' /\ fs_wf a'.
Proof.
  induction rs as [|r rs IH]; intros w tr0 a ys a' Hr Hw E; simpl in E.
  - injection E as <- <-. exists w, []. by rewrite app_nil_r.
  - destruct (fs_step a r) as [[y a1]|] eqn:E1; [|done]. simpl in E.
    destruct (fs_run a1 rs) as [[ys' a2]|] eqn:E2; [|done]. injection E as <- <-.
    destruct (step_refines w a r y a1 Hr Hw E1) as (t1 & Ht1 & _ & Hd1).
    destruct (Hd1 tr0 [] I) as (w1 & R1 & _ & Hw1).
    destruct (IH w1 (tr0 ++ t1) a1 ys' a2 Hw1 (fs_step_wf a r y a1 Hw E1) E2) as (w2 & t2 & R2 & Ht2 & Hr2 & Hwf2).
    exists w2, (t1 ++ t2). split; [|split; [by rewrite disciplined_app|done]].
    simpl. unfold mbind, Y_bind. rewrite R1, R2, <- app_assoc. done.
Qed.

(** A file system that was just mounted: the constructor puts an empty root. *)
Definition mounted : fs := <[1 := Dir []]> ∅.

Lemma mounted_wf : fs_wf mounted.
Proof. apply fs_wf_insert; [done|]. intros d [= <-]. repeat constructor. Qed.

Lemma mount_rep (k : nat -> Z * Z) :
  exists w, yfs_client_new (Yworld (Cached ∅ ∅ k) []) = Ret (tt, Yworld w [YAcquire 1; YAccess 1; YRelease 1]) /\
    rep w mounted.
Proof.
  eexists; split; [reflexivity|]. intros e. unfold mounted. rewrite repv_insert.
  unfold view, ec_laws, cached_view. simpl. case_decide.
  - subst. by rewrite lookup_insert_eq.
  - by rewrite lookup_insert_ne, !lookup_empty by done.
Qed.


(** C19: lock discipline: in every such run each extent is touched only while its
    lock is held, no lock is taken twice, and all are given back, in the opposite
    order. *)
Theorem lock_discipline (w : cached) a rs ys a' ys' w' :
  rep w a -> fs_wf a -> fs_run a rs = Some (ys, a') ->
  run_requests rs (Yworld w []) = Ret (ys', w') -> disciplined [] (trace w') = true.
Proof.
  intros Hr Hw E R. destruct (run_refines rs w [] a ys a' Hr Hw E) as (w2 & tr & H1 & H2 & _).
  rewrite H1 in R. by injection R as _ <-.
Qed.

(** After a mount and any sequence of requests, looking up a name that is in
    a directory gives the inum it was created with. *)
Theorem lookup_exact (k : nat -> Z * Z) rs ys a p d i name :
  fs_run mounted rs = Some (ys, a) -> a !! p = Some (Dir d) -> small d -> (i, name) ∈ d ->
  exists w', (yfs_client_new;; run_requests rs;; lookup p name) (Yworld (Cached ∅ ∅ k) []) =
    Ret ((OK, Some i), w').
Proof.
  intros E Hp Hs Hin. destruct (mount_rep k) as (w & R0 & Hr).
  destruct (run_refines rs w [YAcquire 1; YAccess 1; YRelease 1] mounted ys a Hr mounted_wf E)
    as (w2 & tr & R1 & _ & Hr2 & Hw2).
  destruct (Hw2 p d Hp) as (He & Hn & _). assert (name_ok name) as Hname.
  { apply (proj1 (Forall_forall _ _) Hn (i, name) Hin). }
  pose proof (dir_lookup_spec name d (proj1 Hname) He Hs) as Hl. rewrite (named_lookup d i name) in Hl by (by eauto).
  destruct (does_lookup p name w2 _ _ _ (rep_view w2 a p _ Hr2 Hp) Hl
    ([YAcquire 1; YAccess 1; YRelease 1] ++ tr) [] I) as (w3 & R2 & _).
  eexists. unfold mbind, Y_bind at 1. rewrite R0. unfold Y_bind. rewrite R1, R2. done.
Qed.

(** Inums survive the trip through the text of a directory. *)
Theorem inum_roundtrip i : 0 <= i < two64 -> n2i (filename i) = i.
Proof. intros Hi. rewrite <- (app_nil_r (filename i)). by apply n2i_filename. Qed.
