(* ===== verification/FuseThms.v ===== *)
(** * What the FUSE handlers reply *)

From S2P Require Import Prelude Extent ExtentSpec Directory DirectorySpec YfsClient YfsSpec YfsFs YfsThms Fuse.
Import yfs_client.

(** A handler that replies [y] and leaves the extents representing [a']. *)
Definition replies {A} (m : Y cached A) (wt : yworld cached) (y : A) (a' : fs) (wt' : yworld cached) : Prop :=
  m wt = Ret (y, wt') /\ rep (store wt') a'.

Lemma does_replies {A} (m : Y cached A) (wt : yworld cached) y tr a' :
  does m (store wt) y tr (repv a') -> exists wt', replies m wt y a' wt'.
Proof. destruct wt as [w t]. intros Hd. destruct (Hd t [] I) as (w' & E & _ & Hr). by eexists (Yworld w' _). Qed.

Lemma getattr_file i wt a b :
  isfile i = true -> rep (store wt) a -> a !! i = Some (File b) ->
  exists st wt', st_ino st = i /\ st_mode st = S_IFREG_0666 /\ st_nlink st = 1 /\
    st_size st = u32 (Z.of_nat (length b)) /\ replies (Fuse.getattr i) wt (OK, st) a wt'.
Proof.
  intros Hi Hr Hb. pose proof (rep_view (store wt) a i _ Hr Hb) as Hv.
  destruct (does_getfile i (store wt) _ _ (Fileinfo 0 0 0 0) Hv) as (info & Hn & Hd).
  assert (does (Fuse.getattr i) (store wt)
    (OK, Stat i S_IFREG_0666 1 (atime info) (mtime info) (ctime info) (size info))
    [YAcquire i; YAccess i; YRelease i] (repv a)) as Hg.
  { unfold Fuse.getattr. rewrite Hi. eapply does_then; [eapply does_ext; [exact Hd|exact Hr]|done]. }
  apply does_replies in Hg as [wt' Hg].
  do 2 eexists. split; [|split; [|split; [|split; [|exact Hg]]]]; done.
Qed.

Lemma getattr_dir i wt a d :
  isfile i = false -> rep (store wt) a -> a !! i = Some (Dir d) ->
  exists st wt', st_ino st = i /\ st_mode st = S_IFDIR_0777 /\ st_nlink st = 2 /\ st_size st = 0 /\
    replies (Fuse.getattr i) wt (OK, st) a wt'.
Proof.
  intros Hi Hr Hb. pose proof (rep_view (store wt) a i _ Hr Hb) as Hv.
  destruct (does_getdir i (store wt) _ _ (Dirinfo 0 0 0) Hv) as (info & Hd).
  assert (does (Fuse.getattr i) (store wt)
    (OK, Stat i S_IFDIR_0777 2 (d_atime info) (d_mtime info) (d_ctime info) 0)
    [YAcquire i; YAccess i; YRelease i] (repv a)) as Hg.
  { unfold Fuse.getattr. rewrite Hi. eapply does_then; [eapply does_ext; [exact Hd|exact Hr]|done]. }
  apply does_replies in Hg as [wt' Hg].
  do 2 eexists. split; [|split; [|split; [|split; [|exact Hg]]]]; done.
Qed.

(** ** The kind of an inum: bit 31 *)
Definition is_file (n : node) : bool := match n with File _ => true | Dir _ => false end.
Definition fs_typed (a : fs) : Prop := forall i n, a !! i = Some n -> isfile i = is_file n.

Lemma fs_typed_insert a i n : fs_typed a -> isfile i = is_file n -> fs_typed (<[i := n]> a).
Proof.
  intros Ha Hi i' n'. destruct (decide (i' = i)) as [->|Hne]; [rewrite lookup_insert_eq; by intros [= <-]|].
  rewrite lookup_insert_ne by done. apply Ha.
Qed.

Lemma add_node_typed a p d name i n y a' :
  fs_typed a -> a !! p = Some (Dir d) -> isfile i = is_file n -> add_node a p d name i n = Some (y, a') -> fs_typed a'.
Proof.
  intros Ha Hp Hi. unfold add_node. case_bool_decide; intros [= <- <-]; [done|].
  apply fs_typed_insert; [by apply fs_typed_insert|apply (Ha p _ Hp)].
Qed.

Lemma fs_step_typed a r y a' : fs_typed a -> fs_step a r = Some (y, a') -> fs_typed a'.
Proof.
  intros Ha E. destruct r as [p name rnd|p name rnd|p name|p name|p|i sz|i off sz|i buf sz off|i]; simpl in E;
    match type of E with match a !! ?x with _ => _ end = _ => destruct (a !! x) as [[b|d]|] eqn:Hp end; try done.
  - case_bool_decide as Hc; [|done]. eapply add_node_typed; [done|exact Hp| |exact E]. apply generate_file_isfile, Hc.
  - case_bool_decide as Hc; [|done]. eapply add_node_typed; [done|exact Hp| |exact E]. apply generate_dir_isdir, Hc.
  - case_bool_decide; [|done]. by injection E as _ <-.
  - case_bool_decide; [|done]. destruct (list_find _ _) as [[j e]|]; [|by injection E as _ <-].
    case_bool_decide; [|done]. injection E as _ <-. apply fs_typed_insert; [done|apply (Ha p _ Hp)].
  - case_bool_decide; [|done]. by injection E as _ <-.
  - case_bool_decide; [|done]. injection E as _ <-. apply fs_typed_insert; [done|apply (Ha i _ Hp)].
  - case_bool_decide; [|done]. by injection E as _ <-.
  - destruct (c_string _); [|done|done]. case_bool_decide; [|done]. injection E as _ <-.
    apply fs_typed_insert; [done|apply (Ha i _ Hp)].
  - by injection E as _ <-.
Qed.

Lemma fs_run_typed rs : forall a ys a', fs_typed a -> fs_run a rs = Some (ys, a') -> fs_typed a'.
Proof.
  induction rs as [|r rs IH]; intros a ys a' Ha E; simpl in E; [by injection E as _ <-|].
  destruct (fs_step a r) as [[y a1]|] eqn:E1; [|done]. simpl in E.
  destruct (fs_run a1 rs) as [[ys' a2]|] eqn:E2; [|done]. injection E as _ <-.
  eapply IH; [|exact E2]. by eapply fs_step_typed.
Qed.

Lemma mounted_typed : fs_typed mounted.
Proof. apply fs_typed_insert; [|done]. intros i n. by rewrite lookup_empty. Qed.

(** C21: types: after a mount and any sequence of requests, [fuseserver_getattr]
    reports every file of the system as a regular file of its size and every
    directory as a directory: bit 31 of the inum, from which the code takes the
    kind, agrees with what is stored under it. *)
Theorem getattr_types (k : nat -> Z * Z) rs ys a i n :
  fs_run mounted rs = Some (ys, a) -> a !! i = Some n ->
  isfile i = is_file n /\
  exists st wt', (yfs_client_new;; run_requests rs;; fuseserver_getattr i) (Yworld (Cached ∅ ∅ k) []) =
      Ret (Reply_attr st, wt') /\ st_ino st = i /\
    match n with
    | File b => st_mode st = S_IFREG_0666 /\ st_nlink st = 1 /\ st_size st = u32 (Z.of_nat (length b))
    | Dir _ => st_mode st = S_IFDIR_0777 /\ st_nlink st = 2
    end.
Proof.
  intros E Hi. pose proof (fs_run_typed rs mounted ys a mounted_typed E i n Hi) as Hty. split; [done|].
  destruct (mount_rep k) as (w & R0 & Hr).
  destruct (run_refines rs w [YAcquire 1; YAccess 1; YRelease 1] mounted ys a Hr mounted_wf E)
    as (w2 & tr & R1 & _ & Hr2 & _).
  assert (exists st wt', st_ino st = i /\ replies (Fuse.getattr i) (Yworld w2 ([YAcquire 1; YAccess 1; YRelease 1] ++ tr))
      (OK, st) a wt' /\
    match n with
    | File b => st_mode st = S_IFREG_0666 /\ st_nlink st = 1 /\ st_size st = u32 (Z.of_nat (length b))
    | Dir _ => st_mode st = S_IFDIR_0777 /\ st_nlink st = 2
    end) as (st & wt' & Hino & [R2 _] & Hk).
  { destruct n as [b|d].
    - edestruct (getattr_file i) as (st & wt' & H1 & H2 & H3 & H4 & H5); [exact Hty| |exact Hi|by exists st, wt'].
      exact Hr2.
    - edestruct (getattr_dir i) as (st & wt' & H1 & H2 & H3 & H4 & H5); [exact Hty| |exact Hi|by exists st, wt'].
      exact Hr2. }
  exists st, wt'. split; [|done]. unfold mbind, Y_bind at 1. rewrite R0. unfold Y_bind at 1. rewrite R1.
  unfold fuseserver_getattr, mbind, Y_bind. by rewrite R2.
Qed.

Definition created (a : fs) (p : Z) (d : list (Z * str)) (i : Z) (name : str) : fs :=
  <[p := Dir (d ++ [(i, name)])]> (<[i := File []]> a).

Lemma created_file a p d i name : i <> p -> created a p d i name !! i = Some (File []).
Proof. intros Hne. unfold created. by rewrite lookup_insert_ne, lookup_insert_eq. Qed.

Lemma create_replies wt a p d name rnd :
  let i := generate_file_inum rnd in
  rep (store wt) a -> a !! p = Some (Dir d) -> name_ok name -> 0 <= rnd < two31 -> i <> p ->
  Forall (fun e => ~ occurs name e) d ->
  exists st wt', replies (fuseserver_create p name rnd) wt (Reply_create (Entry_param i st)) (created a p d i name) wt' /\
    st_ino st = i /\ st_size st = 0 /\ st_mode st = S_IFREG_0666.
Proof.
  intros i Hr Hp Hn Hrnd Hne Ho. pose proof (rep_view (store wt) a p _ Hr Hp) as Hv.
  pose proof (does_add_ok p name i (store wt) _ _ Hv (find_absent name d (proj1 Hn) (proj2 Hn) Ho)) as Hadd.
  eapply (does_ext _ _ _ _ _ (repv (created a p d i name))) in Hadd.
  2:{ intros e. unfold created. rewrite !repv_insert. simpl. rewrite encode_app.
      case_decide; [done|]. case_decide; [done|apply Hr]. }
  apply does_replies in Hadd as (w1 & R1 & Hr1).
  destruct (getattr_file i w1 _ [] (generate_file_isfile rnd Hrnd) Hr1 (created_file a p d i name Hne))
    as (st & w2 & Hino & Hm & _ & Hsz & R2 & Hr2).
  exists st, w2. split; [|done]. split; [|done].
  unfold fuseserver_create, fuseserver_createhelper, create, mbind, Y_bind. fold i.
  rewrite R1. simpl. by rewrite R2.
Qed.

Lemma lookup_replies wt a p d i name b :
  rep (store wt) a -> a !! p = Some (Dir d) -> named d -> small d -> (i, name) ∈ d ->
  isfile i = true -> a !! i = Some (File b) ->
  exists st wt', replies (fuseserver_lookup p name) wt (Reply_entry (Entry_param i st)) a wt' /\
    st_ino st = i /\ st_size st = u32 (Z.of_nat (length b)) /\ st_mode st = S_IFREG_0666.
Proof.
  intros Hr Hp Hd Hs Hin Hi Hb. pose proof Hd as (He & Hn & _).
  assert (name_ok name) as Hname by apply (proj1 (Forall_forall _ _) Hn (i, name) Hin).
  pose proof (dir_lookup_spec name d (proj1 Hname) He Hs) as Hl. rewrite (named_lookup d i name) in Hl by done.
  pose proof (does_lookup p name (store wt) _ _ _ (rep_view (store wt) a p _ Hr Hp) Hl) as Hd1.
  eapply (does_ext _ _ _ _ _ (repv a)) in Hd1; [|exact Hr]. apply does_replies in Hd1 as (w1 & R1 & Hr1).
  destruct (getattr_file i w1 a b Hi Hr1 Hb) as (st & w2 & Hino & Hm & _ & Hsz & R2 & Hr2).
  exists st, w2. split; [|done]. split; [|done].
  unfold fuseserver_lookup, mbind, Y_bind. rewrite R1. simpl. by rewrite R2.
Qed.

(** Creating a file and looking it up: [fuseserver_create] replies with the
    new inum and the attributes of an empty regular file, and [fuseserver_lookup]
    of the name then replies with the same inum. *)
Theorem fuse_create_lookup (wt : yworld cached) a p d name rnd :
  rep (store wt) a -> fs_wf a -> a !! p = Some (Dir d) -> name_ok name -> 0 <= rnd < two31 ->
  generate_file_inum rnd <> p -> Forall (fun e => ~ occurs name e) d ->
  small (d ++ [(generate_file_inum rnd, name)]) ->
  exists st st' wt', (c ← fuseserver_create p name rnd; l ← fuseserver_lookup p name; mret (c, l)) wt =
    Ret ((Reply_create (Entry_param (generate_file_inum rnd) st),
          Reply_entry (Entry_param (generate_file_inum rnd) st')), wt') /\
    st_size st = 0 /\ st_mode st = S_IFREG_0666 /\ st_size st' = 0 /\ st_ino st' = generate_file_inum rnd.
Proof.
  intros Hr Hw Hp Hn Hrnd Hne Ho Hs.
  destruct (create_replies wt a p d name rnd Hr Hp Hn Hrnd Hne Ho) as (st & w1 & [R1 Hr1] & _ & Hsz & Hm).
  destruct (lookup_replies w1 _ p (d ++ [(generate_file_inum rnd, name)]) (generate_file_inum rnd) name [] Hr1)
    as (st' & w2 & [R2 _] & Hino & Hsz' & _).
  - apply lookup_insert_eq.
  - apply named_snoc; [by eapply Hw|by apply generate_file_range|done|done].
  - done.
  - set_solver.
  - by apply generate_file_isfile.
  - by apply created_file.
  - exists st, st', w2. split; [|done]. unfold mbind, Y_bind. by rewrite R1, R2.
Qed.

(** ** Reading what was written *)

Lemma c_string_app data rest : Ascii.zero ∉ data -> c_string (data ++ Ascii.zero :: rest) = Ret data.
Proof.
  induction data as [|x data IH]; intros Hz; simpl.
  - done.
  - rewrite bool_decide_eq_false_2 by set_solver. by rewrite IH by set_solver.
Qed.

Lemma fit_whole data more : fit (length data) (data ++ more) = data.
Proof.
  unfold fit. rewrite take_app_length, length_app.
  replace (length data - (length data + length more))%nat with 0%nat by lia. apply app_nil_r.
Qed.

Lemma pwrite_read b off data : take (length data) (drop off (pwrite b off data)) = data.
Proof.
  unfold pwrite. rewrite drop_app_length' by (by rewrite length_fit). by rewrite take_app_length.
Qed.

(** C23: a write of bytes that hold no zero byte, wherever the memory behind
    them ends, is replied with its size, and reading the same range back replies
    with those bytes. *)
Theorem fuse_write_read (wt : yworld cached) a i b data more rest off :
  rep (store wt) a -> fs_wf a -> a !! i = Some (File b) -> 0 <= off ->
  off + Z.of_nat (length data) < two63 -> Ascii.zero ∉ data -> Ascii.zero ∉ more ->
  let sz := Z.of_nat (length data) in
  exists wt', (n ← fuseserver_write i (data ++ more ++ Ascii.zero :: rest) sz off;
               r ← fuseserver_read i sz off; mret (n, r)) wt = Ret ((Reply_write sz, Reply_buf data), wt').
Proof.
  intros Hr Hw Hb Ho Hs Hz Hm sz. pose proof (rep_view (store wt) a i _ Hr Hb) as Hv.
  pose proof (does_write i (store wt) b _ (data ++ more ++ Ascii.zero :: rest) (data ++ more) sz off Hv) as Hd1.
  rewrite app_assoc, c_string_app in Hd1 by set_solver. specialize (Hd1 eq_refl ltac:(lia) Ho ltac:(lia)).
  unfold sz in Hd1. rewrite Nat2Z.id, fit_whole in Hd1.
  eapply (does_ext _ _ _ _ _ (repv (<[i := File (pwrite b (Z.to_nat off) data)]> a))) in Hd1.
  2:{ intros e. rewrite repv_insert. case_decide; [done|apply Hr]. }
  apply does_replies in Hd1 as (w1 & R1 & Hr1).
  pose proof (does_read i (store w1) (pwrite b (Z.to_nat off) data) _ off sz
    (rep_view _ _ i _ Hr1 (lookup_insert_eq _ _ _)) ltac:(lia) ltac:(lia)) as Hd2.
  unfold sz in Hd2. rewrite Nat2Z.id, pwrite_read in Hd2.
  eapply (does_ext _ _ _ _ _ (repv _)) in Hd2; [|exact Hr1]. apply does_replies in Hd2 as (w2 & R2 & _).
  exists w2. unfold fuseserver_write, fuseserver_read, mbind, Y_bind. rewrite u64_small by lia.
  rewrite app_assoc. unfold sz. rewrite R1. unfold mret, Y_ret. by rewrite R2.
Qed.

(** C24: listing a directory in pages: at every offset [fuseserver_readdir] replies
    with the next bytes of one and the same buffer, that of all entries of the
    directory in order; on a file it replies ENOTDIR. *)
Theorem fuse_readdir_pages fuse_dirent_size fuse_add_dirent (wt : yworld cached) a p d sz off :
  rep (store wt) a -> fs_wf a -> a !! p = Some (Dir d) -> small d -> 0 <= off < two63 -> 0 <= sz ->
  exists wt', fuseserver_readdir fuse_dirent_size fuse_add_dirent p sz off wt =
    Ret (if isdir p then
           Reply_buf (take (Z.to_nat sz) (drop (Z.to_nat off)
             (dirbuf_of fuse_dirent_size fuse_add_dirent ((fun e => (e.2, e.1)) <$> d))))
         else Reply_err ENOTDIR, wt').
Proof.
  intros Hr Hw Hp Hs Ho Hsz. unfold fuseserver_readdir. destruct (isdir p) eqn:Ed; [|by eexists].
  destruct (Hw p d Hp) as (He & _ & _).
  pose proof (does_readdir p (store wt) _ _ (rep_view _ _ _ _ Hr Hp)) as Hd.
  eapply (does_ext _ _ _ _ _ (repv a)) in Hd; [|exact Hr]. apply does_replies in Hd as (w1 & R1 & _).
  exists w1. simpl. unfold mbind, Y_bind at 1. rewrite R1. unfold Y_bind, lift. simpl.
  rewrite readdir_entries_spec by done. rsimpl. unfold mret, Y_ret. do 2 f_equal.
  unfold reply_buf_limited. set (buf := dirbuf_of _ _ _). rewrite u64_small by lia.
  destruct (Z.ltb_spec off (Z.of_nat (length buf))).
  - f_equal. destruct (Z.min_spec (Z.of_nat (length buf) - off) sz) as [[? ->]|[? ->]]; [|done].
    rewrite !take_ge by (rewrite length_drop; lia). done.
  - by rewrite drop_ge, take_nil by lia.
Qed.
