(* ===== verification/FuseMain.v ===== *)
(** * The main program of the file system: [main] of [fuse.cc]

    [main] makes the [yfs_client], fills the table of operations and hands it to
    the FUSE library, which is a parameter: what its functions answer, and the
    requests its loop delivers, are arguments; the calls made are recorded. *)

From S2P Require Import Prelude Extent Directory YfsClient Fuse.
Import yfs_client.

(** A request of the kernel, with the arguments its handler looks at. *)
Inductive request :=
  | Getattr (ino : Z)
  | Statfs
  | Readdir (ino size off : Z)
  | Lookup (parent : Z) (name : str)
  | Create (parent : Z) (name : str) (rnd : Z)
  | Mknod (parent : Z) (name : str) (rnd : Z)
  | Open
  | Read (ino size off : Z)
  | Write (ino : Z) (buf : str) (size off : Z)
  | Setattr (ino attr_size to_set : Z)
  | Unlink (parent : Z) (name : str)
  | Mkdir (parent : Z) (name : str) (rnd : Z).

(** The library functions [main] calls. *)
Inductive lib_call :=
  | fuse_parse_cmdline (args : list str)
  | fuse_mount (mountpoint : str)
  | fuse_lowlevel_new
  | fuse_kern_chan_new (fd : Z)
  | fuse_session_add_chan
  | fuse_session_loop
  | fuse_session_destroy
  | close (fd : Z)
  | fuse_unmount (mountpoint : str).

(** What they answer: [parsed] is the mount point [fuse_parse_cmdline] stores when
    it succeeds, [loop] the requests and the result of [fuse_session_loop]. *)
Record library := Library {
  parsed : list str -> option str;
  mount : str -> Z;
  session : bool;
  channel : bool;
  loop : list request * Z }.

Section main.
Context {W : Type} `{ExtentStore W}.
Context (fuse_dirent_size : Z -> Z) (fuse_add_dirent : str -> Z -> Z -> str).

(** The table of operations. *)
Definition fuseserver_oper (r : request) : Y W reply :=
  match r with
  | Getattr ino => fuseserver_getattr ino
  | Statfs => fuseserver_statfs
  | Readdir ino size off => fuseserver_readdir fuse_dirent_size fuse_add_dirent ino size off
  | Lookup parent name => fuseserver_lookup parent name
  | Create parent name rnd => fuseserver_create parent name rnd
  | Mknod parent name rnd => fuseserver_mknod parent name rnd
  | Open => fuseserver_open
  | Read ino size off => fuseserver_read ino size off
  | Write ino buf size off => fuseserver_write ino buf size off
  | Setattr ino attr_size to_set => fuseserver_setattr ino attr_size to_set
  | Unlink parent name => fuseserver_unlink parent name
  | Mkdir parent name rnd => fuseserver_mkdir parent name rnd
  end.

Fixpoint serve (rs : list request) : Y W (list reply) :=
  match rs with
  | [] => mret []
  | r :: rs => a ← fuseserver_oper r; l ← serve rs; mret (a :: l)
  end.

(** The exit status, the library calls, and the replies sent. *)
Definition main (argv : list str) (lib : library) : Y W (Z * list lib_call * list reply) :=
  match argv with
  | [argv0; mountpoint; _; _] =>
      yfs_client_new;;
      let args := [argv0; mountpoint; S! "-d"] in
      let t := [fuse_parse_cmdline args] in
      match parsed lib args with
      | None => mret (0, t, [])
      | Some mountpoint =>
          let fd := mount lib mountpoint in
          let t := t ++ [fuse_mount mountpoint] in
          if fd =? -1 then mret (1, t, []) else
          let t := t ++ [fuse_lowlevel_new] in
          if negb (session lib) then mret (1, t, []) else
          let t := t ++ [fuse_kern_chan_new fd] in
          if negb (channel lib) then mret (1, t, []) else
          let t := t ++ [fuse_session_add_chan; fuse_session_loop] in
          l ← serve (fst (loop lib));
          let err := snd (loop lib) in
          let t := t ++ [fuse_session_destroy; close fd; fuse_unmount mountpoint] in
          mret (if negb (err =? 0) then 1 else 0, t, l)
      end
  | _ => mret (1, [], [])
  end.

(** ** The outcome *)

(** Handlers never change what was served before them: a session is its first part
    and then the rest. *)
Lemma serve_app rs rs' : forall wt, serve (rs ++ rs') wt = (l ← serve rs; l' ← serve rs'; mret (l ++ l')) wt.
Proof.
  unfold mbind, mret, Y_bind, Y_ret.
  induction rs as [|r rs IH]; intros wt; simpl; unfold mbind, mret, Y_bind, Y_ret.
  - by destruct (serve rs' wt) as [[l' w']| |].
  - destruct (fuseserver_oper r wt) as [[a w1]| |]; try done. rewrite IH.
    destruct (serve rs w1) as [[l w2]| |]; try done. by destruct (serve rs' w2) as [[l' w3]| |].
Qed.

(** A run of [main] that returns: either it failed before the session, and then it
    answered nothing; or every request was answered by its handler, in order, the
    descriptor that was mounted is closed and the mount undone.  The status is 0
    only for a session that ended well, or when the command line is refused. *)
Theorem fuse_main_outcome argv lib wt code t l wt' :
  main argv lib wt = Ret ((code, t, l), wt') ->
  (l = [] /\ (fuse_session_loop ∉ t) /\ (code = 1 \/ exists args, parsed lib args = None /\ t = [fuse_parse_cmdline args])) \/
  (exists mp w1, yfs_client_new wt = Ret (tt, w1) /\ serve (fst (loop lib)) w1 = Ret (l, wt') /\
    mount lib mp <> -1 /\ fuse_mount mp ∈ t /\ fuse_unmount mp ∈ t /\ close (mount lib mp) ∈ t /\
    (code = 0 <-> snd (loop lib) = 0)).
Proof.
  unfold main. destruct argv as [|a0 [|mp0 [|a2 [|a3 [|]]]]]; try (intros [= <- <- <- <-]; left; set_solver).
  unfold mbind at 1, Y_bind. destruct (yfs_client_new wt) as [[[] w1]| |]; [|done|done].
  destruct (parsed lib _) as [mp|] eqn:Ep.
  2:{ intros [= <- <- <- <-]. left. split_and!; [done|set_solver|]. right. eauto. }
  destruct (Z.eqb_spec (mount lib mp) (-1)); [intros [= <- <- <- <-]; left; set_solver|].
  destruct (session lib); [|intros [= <- <- <- <-]; left; set_solver].
  destruct (channel lib); [|intros [= <- <- <- <-]; left; set_solver]. cbn [negb].
  unfold mbind, Y_bind. destruct (serve _ w1) as [[l0 w2]| |] eqn:Es; [|done|done].
  intros [= <- <- <- <-]. right. exists mp, w1. split_and!; try set_solver; destruct (Z.eqb_spec (loop lib).2 0); simpl; lia.
Qed.

(** A mount that is followed by a failure stays: only a session that ran is unmounted. *)
Theorem mount_stays argv0 mp a2 a3 mp' lib wt w1 :
  yfs_client_new wt = Ret (tt, w1) ->
  parsed lib [argv0; mp; S! "-d"] = Some mp' -> mount lib mp' <> -1 -> session lib = false \/ channel lib = false ->
  exists t, main [argv0; mp; a2; a3] lib wt = Ret ((1, t, []), w1) /\ fuse_mount mp' ∈ t /\ forall m, fuse_unmount m ∉ t.
Proof.
  intros E Ep Hm Hs. unfold main. unfold mbind at 1, Y_bind. rewrite E, Ep, (proj2 (Z.eqb_neq _ _) Hm).
  destruct (session lib); [destruct (channel lib); [by destruct Hs|]|]; eexists; (split; [reflexivity|set_solver]).
Qed.
End main.
