(* ===== verification/YfsExamples.v ===== *)
(** * The file system client on concrete inputs

    A mount, some requests, and the corners in which the text of directories and
    C strings show through. *)

From S2P Require Import Prelude Extent ExtentSpec Directory DirectorySpec YfsClient YfsSpec YfsFs YfsThms Fuse FuseThms.
Import yfs_client.

Module YfsExample.

Definition clk : nat -> Z * Z := fun n => (1000 + Z.of_nat n, 0).
Definition run_store {A} (m : Y cached A) (w : yworld cached) : yworld cached :=
  match m w with Ret (_, w') => w' | _ => w end.
Definition w0 : yworld cached := run_store yfs_client_new (Yworld (Cached ∅ ∅ clk) []).

Lemma w0_rep : rep (store w0) mounted.
Proof. destruct (mount_rep clk) as (w & E & Hr). unfold w0, run_store. by rewrite E. Qed.

Definition foo : Z := generate_file_inum 5.
Definition requests : list request :=
  [RCreate 1 (S! "foo") 5; RMkdir 1 (S! "sub") 7; RCreate 7 (S! "bar") 9;
   RWrite foo (S! "hello" ++ [Ascii.zero]) 5 2; RRead foo 0 10; RSetattr foo 3; RGetfile foo;
   RLookup 1 (S! "foo"); RCreate 1 (S! "oo") 11; RReaddir 1; RUnlink 7 (S! "bar"); RLookup 7 (S! "bar")].
Definition outcome : list answer * fs := default ([], ∅) (fs_run mounted requests).

Lemma outcome_ok : fs_run mounted requests = Some outcome.
Proof. vm_compute. reflexivity. Qed.

Example outcome_answers :
  outcome.1 =
  [AStatus OK (Some foo); AStatus OK (Some 7); AStatus OK (Some (generate_file_inum 9));
   ADone; ABytes ([Ascii.zero; Ascii.zero] ++ S! "hello"); AStatus OK None; ASize OK 3;
   AStatus OK (Some foo); AStatus EXIST (Some (generate_file_inum 11));
   AEntries [(S! "foo", foo); (S! "sub", 7)]; AStatus OK None; AStatus IOERR None].
Proof. vm_compute. reflexivity. Qed.


Definition after : yworld cached := run_store (run_requests requests) (Yworld (store w0) []).

(** C19, witness. *)
Lemma lock_discipline_witness : disciplined [] (trace after) = true.
Proof.
  apply (lock_discipline (store w0) mounted requests (outcome.1) (outcome.2) (outcome.1));
    [exact w0_rep|exact mounted_wf|exact outcome_ok|vm_compute; reflexivity].
Defined.

(** An instance: the root still has [foo] after the requests. *)
Lemma lookup_exact_witness :
  exists w', (yfs_client_new;; run_requests requests;; lookup 1 (S! "foo")) (Yworld (Cached ∅ ∅ clk) []) =
    Ret ((OK, Some foo), w').
Proof.
  apply (lookup_exact clk requests (outcome.1) (outcome.2) 1 [(foo, S! "foo"); (7, S! "sub")]);
    [exact outcome_ok|vm_compute; reflexivity|vm_compute; reflexivity|apply list_elem_of_here].
Defined.

(** C21, witness: the directory [sub]. *)
Lemma getattr_types_witness :
  isfile 7 = false /\
  exists st wt', (yfs_client_new;; run_requests requests;; fuseserver_getattr 7) (Yworld (Cached ∅ ∅ clk) []) =
      Ret (Reply_attr st, wt') /\ st_ino st = 7 /\ st_mode st = S_IFDIR_0777 /\ st_nlink st = 2.
Proof.
  apply (getattr_types clk requests (outcome.1) (outcome.2) 7 (Dir [])); [exact outcome_ok|vm_compute; reflexivity].
Defined.

(** The theorem on [fuseserver_create], applied. *)
Lemma fuse_create_lookup_witness :
  exists st st' wt', (c ← fuseserver_create 1 (S! "foo") 5; l ← fuseserver_lookup 1 (S! "foo"); mret (c, l)) w0 =
    Ret ((Reply_create (Entry_param foo st), Reply_entry (Entry_param foo st')), wt') /\
    st_size st = 0 /\ st_mode st = S_IFREG_0666 /\ st_size st' = 0 /\ st_ino st' = foo.
Proof.
  apply (fuse_create_lookup w0 mounted 1 []);
    [exact w0_rep|exact mounted_wf|reflexivity|apply (bool_decide_unpack _); vm_compute; exact I|lia
    |vm_compute; discriminate|constructor|vm_compute; reflexivity].
Defined.

Definition w1 : yworld cached := run_store (fuseserver_create 1 (S! "foo") 5) w0.
Definition with_foo : fs := created mounted 1 [] foo (S! "foo").
Lemma w1_rep : rep (store w1) with_foo.
Proof.
  destruct (create_replies w0 mounted 1 [] (S! "foo") 5 w0_rep) as (st & wt' & [R Hr] & _);
    [reflexivity|apply (bool_decide_unpack _); vm_compute; exact I|lia|vm_compute; discriminate|constructor|].
  unfold w1, run_store. by rewrite R.
Qed.
Lemma with_foo_wf : fs_wf with_foo.
Proof.
  eapply (fs_step_wf mounted (RCreate 1 (S! "foo") 5)); [exact mounted_wf|vm_compute; reflexivity].
Qed.

(** C23, witness: "hello" written at offset 3 of the new file. *)
Lemma fuse_write_read_witness :
  exists wt', (n ← fuseserver_write foo (S! "hello" ++ [] ++ Ascii.zero :: []) 5 3;
               r ← fuseserver_read foo 5 3; mret (n, r)) w1 = Ret ((Reply_write 5, Reply_buf (S! "hello")), wt').
Proof.
  apply (fuse_write_read w1 with_foo foo [] (S! "hello") [] [] 3);
    [exact w1_rep|exact with_foo_wf|vm_compute; reflexivity|lia|vm_compute; reflexivity
    |apply (bool_decide_unpack _); vm_compute; exact I|apply not_elem_of_nil].
Defined.

Definition dirent_size (n : Z) : Z := 24 + n.
Definition dirent (name : str) (ino off : Z) : str := name ++ [colon] ++ filename ino ++ [semi].

(** C24, witness: five bytes from offset 2 of the listing of the root. *)
Lemma fuse_readdir_pages_witness :
  exists wt', fuseserver_readdir dirent_size dirent 1 5 2 w1 =
    Ret (if isdir 1 then Reply_buf (take (Z.to_nat 5) (drop (Z.to_nat 2)
           (dirbuf_of dirent_size dirent ((fun e => (e.2, e.1)) <$> [(foo, S! "foo")]))))
         else Reply_err ENOTDIR, wt').
Proof.
  apply (fuse_readdir_pages dirent_size dirent w1 with_foo 1 [(foo, S! "foo")] 5 2);
    [exact w1_rep|exact with_foo_wf|vm_compute; reflexivity|vm_compute; reflexivity|lia|lia].
Defined.

(** ** Where the text shows through *)

(** A name that was never created is found when another one ends with it. *)
Theorem lookup_matches_suffix : dir_lookup (encode [(12, S! "ab")]) (S! "b") = Ret (Some 12).
Proof. vm_compute. reflexivity. Qed.

(** A name is refused when it occurs anywhere in the text: here, in an inum. *)
Theorem create_refuses_digits (w : cached) :
  view w 1 = Some (with_size (encode [(12, S! "ab")])) ->
  does (add_entry 1 (S! "2") 99) w EXIST [YAcquire 1; YAccess 1; YRelease 1] (view w).
Proof. intros Hv. eapply does_add_exists; [exact Hv|]. vm_compute. reflexivity. Qed.

(** Removing an entry whose inum occurs in an earlier one damages the directory. *)
Theorem unlink_wrong_entry :
  dir_unlink (encode [(12, S! "ab"); (2, S! "c")]) (S! "c") 2 = Ret (S! "1").
Proof. vm_compute. reflexivity. Qed.

(** Bytes after a zero byte are lost: five bytes are written, two arrive. *)
Theorem write_stops_at_zero :
  (s ← c_string (S! "ab" ++ [Ascii.zero] ++ S! "cd" ++ [Ascii.zero]); Ret (write_contents [] s 5 0)) =
  Ret (S! "ab" ++ [Ascii.zero; Ascii.zero; Ascii.zero]).
Proof. vm_compute. reflexivity. Qed.

(** A second mount empties the root directory. *)
Theorem mount_wipes_root (w : cached) tr0 :
  exists w', yfs_client_new (Yworld w tr0) = Ret (tt, w') /\ view (store w') 1 = Some (with_size []).
Proof.
  pose proof (does_mount w) as Hd. destruct (Hd tr0 [] I) as (w' & E & _ & Hv). exists (Yworld w' (tr0 ++ mount_trace)). simpl. by rewrite Hv.
Qed.
End YfsExample.
