(* ===== verification/ExtentRpc.v ===== *)
(** * The extent service over RPC: [extent_client.cc] and [extent_smain.cc]

    The client's calls travel through the client and server of [RpcSystem] to the
    methods that [extent_smain.cc] registers.  The lemmas say that each operation
    of the client does what [Extent] says it does when a call is the server's
    method itself. *)

From S2P Require Import Prelude Marshall MarshallSpec RpcStubs RpcServer RpcServerSpec.
From S2P Require Import RpcClient RpcClientSpec RpcSystem Extent Protocols.
Import extent_protocol (attr, Attr, atime, mtime, ctime, size, rpc_numbers.put, rpc_numbers.get,
  rpc_numbers.getattr, rpc_numbers.remove).

(** ** The server process

    The object the methods work on, the time its machine shows and what a freshly
    allocated [attr] holds. *)
Record xserver := Xserver { files : extent_server.t; s_time : Z; s_junk : Z }.

Definition get_meth (o : xserver) (id : ull) (buf : str) : res (xserver * Z * str) :=
  let '(s, ret, buf) := extent_server.get (files o) (ull_val id) buf (s_time o) in
  Ret (Xserver s (s_time o) (s_junk o), ret, buf).

Definition getattr_meth (o : xserver) (id : ull) (a : attr) : res (xserver * Z * attr) :=
  let '(ret, a) := extent_server.getattr (files o) (ull_val id) a in Ret (o, ret, a).

Definition put_meth (o : xserver) (id : ull) (buf : str) (r : sint) : res (xserver * Z * sint) :=
  let '(s, ret) := extent_server.put (files o) (ull_val id) buf (s_time o) (s_junk o) in
  Ret (Xserver s (s_time o) (s_junk o), ret, r).

Definition remove_meth (o : xserver) (id : ull) (r : sint) : res (xserver * Z * sint) :=
  let '(s, ret) := extent_server.remove (files o) (ull_val id) in
  Ret (Xserver s (s_time o) (s_junk o), ret, r).

Section main.
Context `{AL : Allocator}.

(** [main] of [extent_smain.cc] up to its endless loop: [argv] is the command
    line, [count_env] the environment's [RPC_COUNT], [nonce] what [random()]
    returns to the constructor of [rpcs]; [ra] and [r0] are what the result
    variables of the handlers hold. *)
Definition extent_main (argv : list str) (count_env : option str) (nonce : Z) (ra : attr) (r0 : Z)
  : res (rpcs (St := xserver)) :=
  if negb (Z.of_nat (length argv) =? 2) then Abort
  else
    let count := match count_env with Some v => atoi v | None => 0 end in
    server ← rpcs_new nonce count;
    server ← reg1 server rpc_numbers.get (fn_1 [] get_meth);
    server ← reg1 server rpc_numbers.getattr (fn_1 ra getattr_meth);
    server ← reg1 server rpc_numbers.put (fn_2 (SInt r0) put_meth);
    reg1 server rpc_numbers.remove (fn_1 (SInt r0) remove_meth).
End main.

(** ** The client, over any transport *)
Module extent_stub.
Section stubs.
Context `{AL : Allocator} {S : Type} (call1 : transport S) (now : Z).

Definition getattr (c : extent_client.t) (st : S) (eid : Z) (a : attr) : res (S * Z * attr) :=
  match c !! eid with
  | Some f => Ret (st, extent_protocol.OK, extent_client.file_attr f)
  | None =>
      '(st, ret, a) ← call_1 call1 st rpc_numbers.getattr (ULL eid) a;
      _ ← VERIFY (ret =? extent_protocol.OK);
      Ret (st, ret, a)
  end.

Definition get (c : extent_client.t) (st : S) (eid : Z) (buf : str) : res (extent_client.t * S * Z * str) :=
  match c !! eid with
  | Some f =>
      let a := extent_client.file_attr f in
      let f' := extent_client.Filedata (extent_client.file_content f) (Attr now (mtime a) (ctime a) (size a))
                  (extent_client.is_dirty f) (extent_client.is_removed f) in
      Ret (<[eid := f']> c, st, extent_protocol.OK, extent_client.file_content f)
  | None =>
      '(st, ret, buf) ← call_1 call1 st rpc_numbers.get (ULL eid) buf;
      _ ← VERIFY (ret =? extent_protocol.OK);
      '(st, _, temp_attr) ← getattr c st eid (Attr 0 0 0 0);
      Ret (<[eid := extent_client.Filedata buf temp_attr false false]> c, st, ret, buf)
  end.

(** [cl->call(extent_protocol::remove, eid)] is the call without arguments, with
    [eid] for its result; [r] is what the uninitialised result of [put] holds. *)
Definition flush (c : extent_client.t) (st : S) (eid : Z) (r : Z) : res (extent_client.t * S * Z) :=
  match c !! eid with
  | Some f =>
      st ← (if extent_client.is_removed f then
              '(st, ret, _) ← call_0 call1 st rpc_numbers.remove (ULL eid);
              _ ← VERIFY (ret =? extent_protocol.OK);
              Ret st
            else if extent_client.is_dirty f then
              '(st, ret, _) ← call_2 call1 st rpc_numbers.put (ULL eid) (extent_client.file_content f) (SInt r);
              _ ← VERIFY (ret =? extent_protocol.OK);
              Ret st
            else Ret st);
      Ret (delete eid c, st, extent_protocol.OK)
  | None => Ret (c, st, extent_protocol.OK)
  end.
End stubs.
End extent_stub.

(** ** A session between them *)

#[export] Instance MarshalSpec_attr `{Allocator} : MarshalSpec attr.
Proof.
  apply (MarshalSpec_struct extent_protocol.attr_fields extent_protocol.attr_of); by intros [].
Defined.

Definition attr_ok (a : attr) : Prop :=
  0 <= atime a < two32 /\ 0 <= mtime a < two32 /\ 0 <= ctime a < two32 /\ 0 <= size a < two32.

(** A string that fits in a message beside an extent id. *)
Definition fits (b : str) : Prop := Z.of_nat (36 + length b) < PDU_LIMIT.

Definition files_ok (s : extent_server.t) : Prop :=
  forall e f, s !! e = Some f -> attr_ok (extent_server.file_attr f) /\ fits (extent_server.file_content f).

Section session.
Context `{AL : Allocator} (create_time : conn -> Z * Z) (isdead : conn -> bool) (k : conn).
Context (ra : attr) (r0 : Z).
Hypothesis Hra : attr_ok ra.
Hypothesis Hr0 : - two31 <= r0 < two31.

Let call := loopback (St := xserver) create_time isdead k.

Definition extent_procs (s : rpcs (St := xserver)) : Prop :=
  procs_ s !! rpc_numbers.get = Some (fn_1 [] get_meth) /\
  procs_ s !! rpc_numbers.getattr = Some (fn_1 ra getattr_meth) /\
  procs_ s !! rpc_numbers.put = Some (fn_2 (SInt r0) put_meth) /\
  procs_ s !! rpc_numbers.remove = Some (fn_1 (SInt r0) remove_meth).

(** Client and server connected, the methods registered, the extents fit. *)
Definition session (c : rpcc) (s : rpcs (St := xserver)) (o : xserver) : Prop :=
  linked create_time isdead k true c s /\ extent_procs s /\ files_ok (files o) /\
  0 <= s_time o < two32 /\ 0 <= s_junk o < two32.

Lemma session_next c s o c' s' o' :
  session c s o -> next_call create_time isdead k true c s c' s' -> files_ok (files o') ->
  s_time o' = s_time o -> s_junk o' = s_junk o -> session c' s' o'.
Proof.
  intros (Hl & Hp & Hf & Ht & Hj) (Hl' & Hx & _ & Hfix & _) Hf' Et Ej. unfold fixed in Hfix. injection Hfix as _ Hfix.
  split; [done|]. split; [unfold extent_procs; by rewrite Hfix|]. split; [done|]. by rewrite Et, Ej.
Qed.

(** One call with an extent id for its argument. *)
Lemma extent_call {R} {MR : Marshal R} {SR : MarshalSpec R} (r : R) meth c s o proc eid r_old o' ret r' :
  session c s o -> xid_ c < two32 - 2 -> 0 <= eid < two64 -> proc <> rpc_const.bind -> 0 <= proc < two31 ->
  procs_ s !! proc = Some (fn_1 r meth) -> meth o (ULL eid) r = Ret (o', ret, r') -> 0 <= ret < two31 ->
  valid r' -> Z.of_nat (24 + length (enc r')) < PDU_LIMIT ->
  files_ok (files o') -> s_time o' = s_time o -> s_junk o' = s_junk o ->
  exists c' s', call_1 call (c, s, o) proc (ULL eid) r_old = Ret (c', s', o', ret, r') /\
    session c' s' o' /\ xid_ c' = xid_ c + 1.
Proof.
  intros Hs Hx He Hpb Hp Hf Hm Hret Hv Hl Hfo Ht Hj.
  pose proof (rpc_call1_ok create_time isdead k r meth c s o proc (ULL eid) r_old o' ret r') as Hcall.
  rewrite (proj2 (Z.eqb_neq _ _) Hpb) in Hcall. destruct Hcall as (c' & s' & E & Hn); [apply Hs|done..|].
  exists c', s'. split; [exact E|]. split; [by eapply session_next|]. by destruct Hn as (_ & ? & _).
Qed.

(** ** Starting up *)

(** The constructor of [extent_client], over a client object just made by [rpcc]'s;
    a [bind] that fails is only reported. *)
Definition extent_client_new (c : rpcc) (s : rpcs (St := xserver)) (o : xserver) (r : Z)
  : res (extent_client.t * (rpcc * rpcs (St := xserver) * xserver)) :=
  '(c, s, o, _) ← bind create_time isdead k (c, s, o) r;
  Ret (∅, (c, s, o)).

Lemma extent_main_ok argv count_env nonce :
  length argv = 2%nat ->
  exists s, extent_main argv count_env nonce ra r0 = Ret s /\ sys_init (Sys s []) /\ nonce_ s = nonce /\ extent_procs s /\
    exists s0, nonce_ s0 = nonce /\ procs_ s !! rpc_const.bind = Some (fn_1 (SInt 0) (rpcbind_meth s0)).
Proof.
  intros Hargv. unfold extent_main. rewrite Hargv.
  destruct (rpcs_new_ok (St := xserver) nonce (match count_env with Some v => atoi v | None => 0 end))
    as (s1 & E1 & H1 & N1 & s0 & N0 & P1). cbn [negb]. change (Z.of_nat 2 =? 2) with true. cbn [negb]. rewrite E1. rsimpl.
  destruct (reg1_ok s1 rpc_numbers.get (fn_1 [] get_meth) H1) as (s2 & E2 & H2 & N2 & P2); [by rewrite P1|].
  rewrite E2. rsimpl. rewrite P1 in P2.
  destruct (reg1_ok s2 rpc_numbers.getattr (fn_1 ra getattr_meth) H2) as (s3 & E3 & H3 & N3 & P3); [by rewrite P2|].
  rewrite E3. rsimpl. rewrite P2 in P3.
  destruct (reg1_ok s3 rpc_numbers.put (fn_2 (SInt r0) put_meth) H3) as (s4 & E4 & H4 & N4 & P4); [by rewrite P3|].
  rewrite E4. rsimpl. rewrite P3 in P4.
  destruct (reg1_ok s4 rpc_numbers.remove (fn_1 (SInt r0) remove_meth) H4) as (s5 & E5 & H5 & N5 & P5); [by rewrite P4|].
  rewrite P4 in P5. exists s5. split_and!; [exact E5|exact H5|congruence| |].
  - unfold extent_procs. rewrite P5. by split_and!.
  - exists s0. split; [done|]. by rewrite P5.
Qed.

(** A client that connects to a server just started. *)
Lemma session_start argv count_env nonce rnd lossy o r :
  length argv = 2%nat -> 0 <= nonce < two32 -> isdead k = false ->
  files_ok (files o) -> 0 <= s_time o < two32 -> 0 <= s_junk o < two32 ->
  exists s0 c s, extent_main argv count_env nonce ra r0 = Ret s0 /\
    extent_client_new (rpcc_new true rnd lossy) s0 o r = Ret (∅, (c, s, o)) /\ session c s o /\ xid_ c = 2.
Proof.
  intros Hargv Hn Hk Hf Ht Hj.
  destruct (extent_main_ok argv count_env nonce Hargv) as (s0 & E0 & Hi & Hn0 & Hp & sb & Hnb & Hb).
  destruct (bind_ok create_time isdead k (rpcc_new true rnd lossy) s0 o r sb) as (c & s & E & (Hl & Hx & _ & Hfix & _) & _);
    [by apply linked_start|done|done|congruence|by rewrite Hn0|].
  unfold fixed in Hfix. injection Hfix as _ Hfix.
  exists s0, c, s. split; [done|]. split; [unfold extent_client_new; by rewrite E|]. split; [|done].
  split; [done|]. split; [unfold extent_procs; by rewrite Hfix|]. by split_and!; [|apply Ht..|apply Hj|apply Hj].
Qed.

(** What the server's methods keep. *)
Lemma files_ok_get v eid buf now : files_ok v -> 0 <= now < two32 -> files_ok (extent_server.get v eid buf now).1.1.
Proof.
  intros Hv Hn. unfold extent_server.get. destruct (v !! eid) as [f|] eqn:Ef; [|done].
  intros e g. simpl. destruct (decide (e = eid)) as [->|Hne].
  - rewrite lookup_insert_eq. intros [= <-]. destruct (Hv eid f Ef) as [(_ & H2 & H3 & H4) Hfit].
    split; [unfold attr_ok; simpl; lia|done].
  - rewrite lookup_insert_ne by done. apply Hv.
Qed.

Lemma files_ok_put v eid buf now junk :
  files_ok v -> 0 <= now < two32 -> 0 <= junk < two32 -> fits buf -> files_ok (extent_server.put v eid buf now junk).1.
Proof.
  intros Hv Hn Hj Hb. unfold extent_server.put. pose proof (u32_range (Z.of_nat (length buf))) as Hu.
  destruct (v !! eid) as [f|] eqn:Ef; intros e g; simpl; (destruct (decide (e = eid)) as [->|Hne];
    [rewrite lookup_insert_eq; intros [= <-]|rewrite lookup_insert_ne by done; apply Hv]); (split; [|done]).
  - destruct (Hv eid f Ef) as [(H1 & _) _]. unfold attr_ok; simpl; lia.
  - unfold attr_ok; simpl; lia.
Qed.

Lemma attr_valid a : attr_ok a -> valid a.
Proof. intros (H1 & H2 & H3 & H4). by split_and!. Qed.

(** ** The operations *)

Lemma remote_getattr m c s o eid a :
  session c s o -> xid_ c < two32 - 2 -> 0 <= eid < two64 ->
  match extent_client.getattr m (files o) eid a with
  | Ret (ret, a') => exists c' s', extent_stub.getattr call m (c, s, o) eid a = Ret (c', s', o, ret, a') /\
      session c' s' o /\ xid_ c' <= xid_ c + 1
  | _ => extent_stub.getattr call m (c, s, o) eid a = Abort
  end.
Proof.
  intros Hs Hx He. unfold extent_client.getattr, extent_stub.getattr. destruct (m !! eid) as [f|].
  { exists c, s. split_and!; [done|done|lia]. }
  destruct (id Hs) as (_ & (_ & Hp & _) & Hfo & _).
  assert (forall ret a', extent_server.getattr (files o) eid ra = (ret, a') -> 0 <= ret < two31 -> attr_ok a' ->
    exists c' s', call_1 call (c, s, o) rpc_numbers.getattr (ULL eid) a = Ret (c', s', o, ret, a') /\
      session c' s' o /\ xid_ c' = xid_ c + 1) as Hcall.
  { intros ret a' E Hret Ha. eapply extent_call; [done|done|done|done|done|exact Hp| |done|by apply attr_valid|done|done|done|done].
    unfold getattr_meth. simpl ull_val. by rewrite E. }
  unfold extent_server.getattr in *. destruct (files o !! eid) as [f|] eqn:Ef.
  - destruct (Hcall _ _ eq_refl) as (c' & s' & E & Hs' & Hx'); [done|by eapply Hfo|].
    rsimpl. exists c', s'. rewrite E. split_and!; [done|done|lia].
  - destruct (Hcall _ _ eq_refl) as (c' & s' & E & Hs' & Hx'); [done|done|]. by rewrite E.
Qed.

Lemma remote_get m c s o eid buf :
  session c s o -> xid_ c < two32 - 3 -> 0 <= eid < two64 ->
  match extent_client.get (s_time o) m (files o) eid buf with
  | Ret (m', v', ret, b) => exists c' s', extent_stub.get call (s_time o) m (c, s, o) eid buf =
        Ret (m', (c', s', Xserver v' (s_time o) (s_junk o)), ret, b) /\
      session c' s' (Xserver v' (s_time o) (s_junk o)) /\ xid_ c' <= xid_ c + 2
  | _ => extent_stub.get call (s_time o) m (c, s, o) eid buf = Abort
  end.
Proof.
  intros Hs Hx He. unfold extent_client.get, extent_stub.get. destruct (m !! eid) as [f|] eqn:Em.
  { exists c, s. destruct o. split_and!; [done|done|lia]. }
  destruct (id Hs) as (_ & (Hp & _) & Hfo & Ht & _).
  pose proof (files_ok_get (files o) eid [] (s_time o) Hfo Ht) as Hfo'.
  assert (forall v ret b, extent_server.get (files o) eid [] (s_time o) = (v, ret, b) -> 0 <= ret < two31 -> fits b ->
    exists c' s', call_1 call (c, s, o) rpc_numbers.get (ULL eid) buf = Ret (c', s', Xserver v (s_time o) (s_junk o), ret, b) /\
      session c' s' (Xserver v (s_time o) (s_junk o)) /\ xid_ c' = xid_ c + 1) as Hcall.
  { intros v ret b E Hret Hb. rewrite E in Hfo'. unfold fits in Hb.
    eapply extent_call; [done|lia|done|done|done|exact Hp| |done| | |done|done|done].
    - unfold get_meth. simpl ull_val. by rewrite E.
    - simpl. lia.
    - cbn [enc MarshalSpec_string]. rewrite length_app. simpl. lia. }
  unfold extent_server.get in *. destruct (files o !! eid) as [f|] eqn:Ef.
  - destruct (Hcall _ _ _ eq_refl) as (c1 & s1 & -> & Hs1 & Hx1); [done|by eapply Hfo|]. rsimpl.
    pose proof (remote_getattr m c1 s1 _ eid (Attr 0 0 0 0) Hs1 ltac:(lia) He) as Hga. simpl files in Hga.
    destruct (extent_client.getattr m _ eid _) as [[ret2 a2]| |]; rsimpl; [|by rewrite Hga..].
    destruct Hga as (c2 & s2 & -> & Hs2 & Hx2). rsimpl. exists c2, s2. split_and!; [done|done|lia].
  - destruct (Hcall _ _ _ eq_refl) as (c1 & s1 & -> & _); [done|done|done].
Qed.

(** A request without its argument stops the server. *)
Lemma remote_remove_aborts c s o (x : ull) :
  session c s o -> call_0 call (c, s, o) rpc_numbers.remove x = Abort.
Proof.
  intros (Hl & (_ & _ & _ & Hp) & _). unfold call_0.
  apply (loopback_bad_args create_time isdead k c s o rpc_numbers.remove (fn_1 (SInt r0) remove_meth) marshall_new []);
    [done|done|exact Hp|rewrite app_nil_r; exact marshall_new_rep|done|].
  intros u Hu. destruct (get_truncated dflt u (ULL 0) [] Hu) as (y & u' & r' & E & Hu').
  { done. } { exists (enc (ULL 0)). done. }
  unfold fn_1. rewrite E. rsimpl. exists o, marshall_new.
  assert (okdone u' = false) as ->; [|done]. unfold okdone. by destruct Hu' as (? & ? & ? & ? & ? & ? & ->).
Qed.

Lemma remote_flush m c s o eid r :
  session c s o -> xid_ c < two32 - 2 -> 0 <= eid < two64 ->
  (forall f, m !! eid = Some f -> fits (extent_client.file_content f)) ->
  match extent_client.flush (s_time o) (s_junk o) m (files o) eid with
  | Ret (m', v', ret) => exists c' s', extent_stub.flush call m (c, s, o) eid r =
        Ret (m', (c', s', Xserver v' (s_time o) (s_junk o)), ret) /\
      session c' s' (Xserver v' (s_time o) (s_junk o)) /\ xid_ c' <= xid_ c + 1
  | _ => extent_stub.flush call m (c, s, o) eid r = Abort
  end.
Proof.
  intros Hs Hx He Hfit. unfold extent_client.flush, extent_stub.flush. destruct (m !! eid) as [f|] eqn:Em.
  2:{ exists c, s. destruct o. split_and!; [done|done|lia]. }
  destruct (extent_client.is_removed f); [by rewrite remote_remove_aborts|].
  destruct (extent_client.is_dirty f).
  2:{ rsimpl. exists c, s. destruct o. split_and!; [done|done|lia]. }
  specialize (Hfit f eq_refl). destruct (id Hs) as (Hl & (_ & _ & Hp & _) & Hfo & Ht & Hj).
  pose proof (files_ok_put (files o) eid (extent_client.file_content f) _ _ Hfo Ht Hj Hfit) as Hfo'.
  assert (extent_server.put (files o) eid (extent_client.file_content f) (s_time o) (s_junk o) =
    ((extent_server.put (files o) eid (extent_client.file_content f) (s_time o) (s_junk o)).1, extent_protocol.OK)) as Eput.
  { unfold extent_server.put. by destruct (files o !! eid). }
  rewrite Eput. rsimpl. unfold fits in Hfit.
  destruct (rpc_call2_ok create_time isdead k (SInt r0) put_meth c s o rpc_numbers.put (ULL eid)
    (extent_client.file_content f) (ULL eid) (extent_client.file_content f) (SInt r)
    (Xserver (extent_server.put (files o) eid (extent_client.file_content f) (s_time o) (s_junk o)).1 (s_time o) (s_junk o))
    0 (SInt r0)) as (c' & s' & E & Hn); [done|lia|done|done|exact Hp|done|simpl; lia|done|simpl; lia|done| | |done|done|done|].
  - cbn [enc MarshalSpec_string MarshalSpec_ull fixed_size_spec]. rewrite !length_app. simpl. lia.
  - unfold put_meth. simpl ull_val. by rewrite Eput.
  - fold call in E. rewrite E. rsimpl. exists c', s'. split; [done|]. destruct (id Hn) as (_ & Hxx & _).
    split; [by eapply session_next|lia].
Qed.


(** Giving up the lock of an extent that was removed stops the extent
    server: the request for [remove] carries no argument, and the server's check
    on what its handler returned fails. *)
Theorem flush_removed_aborts m c s o eid f r :
  session c s o -> m !! eid = Some f -> extent_client.is_removed f = true ->
  extent_stub.flush call m (c, s, o) eid r = Abort.
Proof.
  intros Hs Em Hf. unfold extent_stub.flush. rewrite Em, Hf. by rewrite remote_remove_aborts.
Qed.
End session.

(** ** A server with one extent, and its client *)
Module ExtentRpcExample.
#[local] Instance zeros : Allocator := fun _ => Ascii.zero.

Definition hello : extent_server.filedata := extent_server.Filedata (S! "hello") (Attr 9 8 8 5).
Definition obj : xserver := Xserver {[7 := hello]} 1000 0.

Lemma obj_ok : files_ok (files obj).
Proof. intros e f Hf. unfold obj in Hf. cbn [files] in Hf. apply lookup_singleton_Some in Hf as [_ <-]. split; [unfold attr_ok; simpl; lia|vm_compute; reflexivity]. Qed.

(** The state after the server's [main] and the client's constructor. *)
Definition argv : list str := [S! "extent_server"; S! "3772"].
Definition connected : option (rpcc * rpcs (St := xserver)) :=
  match s ← extent_main argv None 42 (Attr 0 0 0 0) 0;
        extent_client_new (fun _ => (0, 0)) (fun _ => false) 3 (rpcc_new true 7 0) s obj 0 with
  | Ret (_, (c, s, _)) => Some (c, s)
  | _ => None
  end.
Definition clt : rpcc := default (rpcc_new true 7 0) (fst <$> connected).
Definition srv0 : rpcs (St := xserver) := default (Rpcs 0 ∅ (Heap ∅ 1) ∅ ∅ 0 0 ∅ ∅ true []) (snd <$> connected).

Lemma example_session :
  session (fun _ => (0, 0)) (fun _ => false) 3 (Attr 0 0 0 0) 0 clt srv0 obj /\ xid_ clt = 2.
Proof.
  destruct (session_start (fun _ => (0, 0)) (fun _ => false) 3 (Attr 0 0 0 0) 0 argv None 42 7 0 obj 0)
    as (s0 & c & s & E0 & E1 & Hs & Hx); [done|lia|done|exact obj_ok|simpl; lia|simpl; lia|].
  unfold clt, srv0, connected. rewrite E0. rsimpl. rewrite E1. by split.
Qed.


(** An instance: the same extent, removed at the client. *)
Lemma flush_removed_aborts_witness :
  extent_stub.flush (loopback (fun _ => (0, 0)) (fun _ => false) 3)
    {[7 := extent_client.Filedata (S! "hello") (Attr 9 8 8 5) false true]} (clt, srv0, obj) 7 0 = Abort.
Proof.
  eapply (flush_removed_aborts (fun _ => (0, 0)) (fun _ => false) 3 (Attr 0 0 0 0) 0);
    [exact (proj1 example_session)|reflexivity|reflexivity].
Defined.
End ExtentRpcExample.
