(* ===== verification/YfsRpc.v ===== *)
(** * The file system over RPC

    [yfs_client] with its extent client connected to an extent server by RPC: the
    store of this file keeps the client's cache, the two RPC objects and the
    extents of the server.  Every run over the local store of [YfsSpec] is matched
    by a run over it, so the refinement of the abstract file system carries over,
    now with revoked locks, whose extents are flushed to the server and fetched
    from it again. *)

From S2P Require Import Prelude Marshall MarshallSpec RpcStubs RpcServer RpcServerSpec.
From S2P Require Import RpcClient RpcClientSpec RpcSystem Extent ExtentSpec ExtentRpc.
From S2P Require Import Directory DirectorySpec YfsClient YfsSpec YfsFs YfsThms.
Import extent_protocol (attr, Attr).
Import yfs_client.

Record remote := Remote {
  rc : extent_client.t;               (* the cache of the extent client *)
  rcl : rpcc;
  rsv : rpcs (St := xserver);
  rfiles : extent_server.t;
  rclock : nat -> Z * Z }.

(** The same world, seen without its RPC objects. *)
Definition local (w : remote) : cached := Cached (rc w) (rfiles w) (rclock w).

Section rpc.
Context `{AL : Allocator} (create_time : conn -> Z * Z) (isdead : conn -> bool) (k : conn).
Context (ra : attr) (r0 : Z).

(** ** The store *)
Definition call := loopback (St := xserver) create_time isdead k.

(** The server object at the time of a call. *)
Definition obj (w : remote) : xserver := Xserver (rfiles w) (rclock w 0).1 (rclock w 0).2.

#[local] Instance rpc_store : ExtentStore remote := {|
  ec_get e old w :=
    '(m, st, r, b) ← extent_stub.get call (rclock w 0).1 (rc w) (rcl w, rsv w, obj w) e old;
    let '(c, s, o) := st in
    Ret (r, b, Remote m c s (files o) (fun n => rclock w (S n)));
  ec_getattr e a w :=
    '(st, r, a) ← extent_stub.getattr call (rc w) (rcl w, rsv w, obj w) e a;
    let '(c, s, o) := st in
    Ret (r, a, Remote (rc w) c s (files o) (rclock w));
  ec_put e b w :=
    let '(m, r) := extent_client.put (rclock w 0).1 (rclock w 0).2 (rc w) e b in
    Ret (r, Remote m (rcl w) (rsv w) (rfiles w) (fun n => rclock w (S n)));
  ec_remove e w :=
    let '(m, r) := extent_client.remove (rc w) e in
    Ret (r, Remote m (rcl w) (rsv w) (rfiles w) (rclock w));
  lc_acquire _ w := Ret w;
  lc_release _ w := Ret w |}.

(** [lock_release_cache_user::dorelease], when the lock is given up; [r] is what
    an uninitialised variable holds. *)
Definition rpc_release (r eid : Z) (w : remote) : res remote :=
  '(m, st, _) ← extent_stub.flush call (rc w) (rcl w, rsv w, obj w) eid r;
  let '(c, s, o) := st in
  Ret (Remote m c s (files o) (fun n => rclock w (S n))).

(** ** What a run keeps *)
Record good (G : Z -> Prop) (w : remote) : Prop := {
  g_session : session create_time isdead k ra r0 (rcl w) (rsv w) (obj w);
  g_clock : forall n, 0 <= (rclock w n).1 < two32 /\ 0 <= (rclock w n).2 < two32;
  g_cache : forall e f, rc w !! e = Some f ->
    (extent_client.is_removed f = true -> G e) /\
    (extent_client.is_dirty f = false -> sdata <$> rfiles w !! e = Some (cdata f)) }.

(** From [w], every run of [m1] over the local store is a run of [m2] over RPC,
    with at most [2 * n] calls. *)
Definition sim_at {A} (G : Z -> Prop) (n : Z) (w : remote) (m1 : Y cached A) (m2 : Y remote A) : Prop :=
  forall tr a w1, good G w -> xid_ (rcl w) + 2 * n < two32 - 1 -> m1 (Yworld (local w) tr) = Ret (a, w1) ->
  exists w', m2 (Yworld w tr) = Ret (a, Yworld w' (trace w1)) /\ local w' = store w1 /\ good G w' /\
    xid_ (rcl w') <= xid_ (rcl w) + 2 * n.
Definition sim {A} G n (m1 : Y cached A) (m2 : Y remote A) : Prop := forall w, sim_at G n w m1 m2.

Lemma sim_ret {A} G n w (a : A) : 0 <= n -> sim_at G n w (mret a) (mret a).
Proof. intros Hn tr a' w1 Hg Hx [= <- <-]. exists w. split_and!; [done|done|done|lia]. Qed.

Lemma sim_lift {A} G n w (r : res A) : 0 <= n -> sim_at G n w (lift r) (lift r).
Proof.
  intros Hn. unfold lift. destruct r as [a| |]; [by apply sim_ret|done|done].
Qed.

Lemma sim_bind {A B} G n1 n w (m1 : Y cached A) m2 (k1 : A -> Y cached B) k2 :
  0 <= n1 <= n -> sim_at G n1 w m1 m2 ->
  (forall a w' tr tr', m1 (Yworld (local w) tr) = Ret (a, Yworld (local w') tr') -> sim_at G (n - n1) w' (k1 a) (k2 a)) ->
  sim_at G n w (m1 ≫= k1) (m2 ≫= k2).
Proof.
  intros Hn Hm Hk tr b w2 Hg Hx E. unfold mbind, Y_bind in *.
  destruct (m1 (Yworld (local w) tr)) as [[a [s1 t1]]| |] eqn:E1; [|done|done].
  destruct (Hm tr a _ Hg ltac:(lia) E1) as (w1 & -> & Hl & Hg1 & Hx1). simpl in Hl. subst s1. simpl.
  destruct (Hk a w1 tr t1 E1 t1 b w2 Hg1 ltac:(lia) E) as (w' & -> & Hl2 & Hg2 & Hx2).
  exists w'. split_and!; [done|done|done|lia].
Qed.

(** A step without a remote call, a step with one. *)
Lemma sim_free {A B} G n w (m1 : Y cached A) m2 (k1 : A -> Y cached B) k2 :
  0 <= n -> sim_at G 0 w m1 m2 -> (forall a, sim G n (k1 a) (k2 a)) -> sim_at G n w (m1 ≫= k1) (m2 ≫= k2).
Proof. intros Hn Hm Hk. apply (sim_bind G 0); [lia|done|]. intros a w' _ _ _. rewrite Z.sub_0_r. apply Hk. Qed.

Lemma sim_call {A B} G n w (m1 : Y cached A) m2 (k1 : A -> Y cached B) k2 :
  1 <= n -> sim_at G 1 w m1 m2 -> (forall a, sim G (n - 1) (k1 a) (k2 a)) -> sim_at G n w (m1 ≫= k1) (m2 ≫= k2).
Proof. intros Hn Hm Hk. apply (sim_bind G 1); [lia|done|]. intros a w' _ _ _. apply Hk. Qed.

Lemma sim_acquire G w l : sim_at G 0 w (acquire l) (acquire l).
Proof. intros tr a w1 Hg Hx [= <- <-]. exists w. split_and!; [done|done|done|lia]. Qed.
Lemma sim_release G w l : sim_at G 0 w (release l) (release l).
Proof. intros tr a w1 Hg Hx [= <- <-]. exists w. split_and!; [done|done|done|lia]. Qed.

(** ** The calls of the store *)
Context (Hra : attr_ok ra) (Hr0 : - two31 <= r0 < two31).

(** The session at the next tick of the clock. *)
Lemma session_tick w c s v :
  (forall n, 0 <= (rclock w n).1 < two32 /\ 0 <= (rclock w n).2 < two32) ->
  session create_time isdead k ra r0 c s (Xserver v (rclock w 0).1 (rclock w 0).2) ->
  forall n, session create_time isdead k ra r0 c s (Xserver v (rclock w n).1 (rclock w n).2).
Proof. intros Hc (H1 & H2 & H3 & _) n. by split_and!; [| | |apply Hc..]. Qed.

Lemma sim_ec {A} G w n ev (op1 : cached -> res (A * cached)) (op2 : remote -> res (A * remote)) :
  (forall a s1, good G w -> xid_ (rcl w) + 2 * n < two32 - 1 -> op1 (local w) = Ret (a, s1) ->
     exists w', op2 w = Ret (a, w') /\ local w' = s1 /\ good G w' /\ xid_ (rcl w') <= xid_ (rcl w) + 2 * n) ->
  sim_at G n w (ec_call ev op1) (ec_call ev op2).
Proof.
  intros Hop tr a w1 Hg Hx E. unfold ec_call in *. cbn [store trace] in *. apply res_bind_Ret_inv in E as ([a1 s1] & E1 & E).
  injection E as <- <-. destruct (Hop a1 s1 Hg Hx E1) as (w' & -> & Hl & Hg' & Hx'). by exists w'.
Qed.

Lemma good_getattr G w e a r a' s1 :
  good G w -> xid_ (rcl w) + 2 * 1 < two32 - 1 -> 0 <= e < two64 ->
  ec_getattr e a (local w) = Ret (r, a', s1) ->
  exists w', ec_getattr e a w = Ret (r, a', w') /\ local w' = s1 /\ good G w' /\ xid_ (rcl w') <= xid_ (rcl w) + 2 * 1.
Proof.
  intros [Hs Hc Hg] Hx He E. cbn [ec_getattr ec_store] in E. apply res_bind_Ret_inv in E as ([r1 a1] & E1 & E).
  injection E as <- <- <-. simpl in E1.
  pose proof (remote_getattr create_time isdead k ra r0 Hra (rc w) (rcl w) (rsv w) (obj w) e a Hs ltac:(lia) He) as Hr.
  simpl in Hr. rewrite E1 in Hr. destruct Hr as (c' & s' & E & Hs' & Hx').
  cbn [ec_getattr rpc_store]. unfold call. rewrite E. rsimpl. eexists. split_and!; [done|done|split; done|simpl; lia].
Qed.

Lemma get_keeps m v now e old m' v' r b G :
  extent_client.get now m v e old = Ret (m', v', r, b) ->
  (forall e f, m !! e = Some f -> (extent_client.is_removed f = true -> G e) /\
    (extent_client.is_dirty f = false -> sdata <$> v !! e = Some (cdata f))) ->
  forall e f, m' !! e = Some f -> (extent_client.is_removed f = true -> G e) /\
    (extent_client.is_dirty f = false -> sdata <$> v' !! e = Some (cdata f)).
Proof.
  intros E Hg. unfold extent_client.get in E. destruct (m !! e) as [f|] eqn:Em.
  - injection E as <- <- <- <-. intros e' f'. destruct (decide (e' = e)) as [->|Hne].
    + rewrite lookup_insert_eq. intros [= <-]. apply (Hg e f Em).
    + rewrite lookup_insert_ne by done. apply Hg.
  - unfold extent_server.get in E. destruct (v !! e) as [g|] eqn:Ev; [|done]. res_inv.
    destruct x0 as [ret a]. injection E as <- <- <- <-. unfold extent_client.getattr, extent_server.getattr in E1.
    rewrite Em, lookup_insert_eq in E1. injection E1 as <- <-. intros e' f'. destruct (decide (e' = e)) as [->|Hne].
    + rewrite !lookup_insert_eq. intros [= <-]. by split.
    + rewrite !lookup_insert_ne by done. apply Hg.
Qed.

Lemma good_get G w e old r b s1 :
  good G w -> xid_ (rcl w) + 2 * 1 < two32 - 1 -> 0 <= e < two64 ->
  ec_get e old (local w) = Ret (r, b, s1) ->
  exists w', ec_get e old w = Ret (r, b, w') /\ local w' = s1 /\ good G w' /\ xid_ (rcl w') <= xid_ (rcl w) + 2 * 1.
Proof.
  intros [Hs Hc Hg] Hx He E. cbn [ec_get ec_store] in E. apply res_bind_Ret_inv in E as ([[[m v] r1] b1] & E1 & E).
  injection E as <- <- <-. simpl in E1.
  pose proof (remote_get create_time isdead k ra r0 Hra (rc w) (rcl w) (rsv w) (obj w) e old Hs ltac:(lia) He) as Hr.
  simpl in Hr. rewrite E1 in Hr. destruct Hr as (c' & s' & E & Hs' & Hx').
  cbn [ec_get rpc_store]. unfold call. rewrite E. rsimpl. eexists. split_and!; [done|done| |simpl; lia].
  split; simpl; [by apply (session_tick w c' s' v Hc Hs' 1)|intros n; apply Hc|by eapply get_keeps].
Qed.

Lemma good_put G w e b r s1 :
  good G w -> ec_put e b (local w) = Ret (r, s1) ->
  exists w', ec_put e b w = Ret (r, w') /\ local w' = s1 /\ good G w' /\ xid_ (rcl w') <= xid_ (rcl w).
Proof.
  intros [Hs Hc Hg] E. cbn [ec_put ec_store rpc_store] in *. simpl in E. unfold extent_client.put in *.
  assert (forall f, (forall g, rc w !! e = Some g -> extent_client.is_removed f = extent_client.is_removed g) ->
    (rc w !! e = None -> extent_client.is_removed f = false) -> extent_client.is_dirty f = true ->
    good G (Remote (<[e := f]> (rc w)) (rcl w) (rsv w) (rfiles w) (fun n => rclock w (S n)))) as Hgood.
  { intros f Hf Hn Hd. split; simpl; [by apply (session_tick w _ _ _ Hc Hs 1)|intros n; apply Hc|].
    intros e' f'. destruct (decide (e' = e)) as [->|Hne]; [|rewrite lookup_insert_ne by done; apply Hg].
    rewrite lookup_insert_eq. intros [= <-]. split; [|congruence]. intros Hrm.
    destruct (rc w !! e) as [g|] eqn:Eg; [apply (Hg e g Eg); by rewrite <- (Hf g)|]. by rewrite Hn in Hrm. }
  destruct (rc w !! e) as [f|] eqn:Ef; injection E as <- <-; eexists; (split_and!; [done|done| |simpl; lia]);
    apply Hgood; simpl; [intros g [= <-]|..]; done.
Qed.

Lemma good_remove (G : Z -> Prop) w e r s1 :
  good G w -> G e -> ec_remove e (local w) = Ret (r, s1) ->
  exists w', ec_remove e w = Ret (r, w') /\ local w' = s1 /\ good G w' /\ xid_ (rcl w') <= xid_ (rcl w).
Proof.
  intros [Hs Hc Hg] He E. cbn [ec_remove ec_store rpc_store] in *. simpl in E. unfold extent_client.remove in *.
  destruct (rc w !! e) as [f|] eqn:Ef; injection E as <- <-; eexists; (split_and!; [done|done| |simpl; lia]);
    (split; simpl; [done|done|]); [|done].
  intros e' f'. destruct (decide (e' = e)) as [->|Hne]; [|rewrite lookup_insert_ne by done; apply Hg].
  rewrite lookup_insert_eq. intros [= <-]. split; [done|]. apply (Hg e f Ef).
Qed.

Lemma sim_get G w e old : 0 <= e < two64 -> sim_at G 1 w (ec e (ec_get e old)) (ec e (ec_get e old)).
Proof. intros He. apply sim_ec. intros [r b] s1 Hg Hx. by apply good_get. Qed.

Lemma sim_getattr G w e a : 0 <= e < two64 -> sim_at G 1 w (ec e (ec_getattr e a)) (ec e (ec_getattr e a)).
Proof. intros He. apply sim_ec. intros [r b] s1 Hg Hx. by apply good_getattr. Qed.

Lemma sim_put G w e b : sim_at G 0 w (ec e (ec_put e b)) (ec e (ec_put e b)).
Proof. apply sim_ec. intros r s1 Hg _. rewrite Z.add_0_r. by apply good_put. Qed.

Lemma sim_remove (G : Z -> Prop) w e : G e -> sim_at G 0 w (ec_call (YRemove e) (ec_remove e)) (ec_call (YRemove e) (ec_remove e)).
Proof. intros He. apply sim_ec. intros r s1 Hg _. rewrite Z.add_0_r. by apply good_remove. Qed.

(** ** The operations of [yfs_client] *)

Ltac sim_step :=
  lazymatch goal with
  | |- sim_at _ _ _ (mret _) _ => apply sim_ret; lia
  | |- sim_at _ _ _ (lift _) _ => apply sim_lift; lia
  | |- sim_at _ _ _ (release _) _ => apply sim_release
  | |- sim_at _ _ _ (mret _ ≫= _) _ => apply sim_free; [lia|apply sim_ret; lia|intros ? ?]
  | |- sim_at _ _ _ (lift _ ≫= _) _ => apply sim_free; [lia|apply sim_lift; lia|intros ? ?]
  | |- sim_at _ _ _ (acquire _ ≫= _) _ => apply sim_free; [lia|apply sim_acquire|intros ? ?]
  | |- sim_at _ _ _ (release _ ≫= _) _ => apply sim_free; [lia|apply sim_release|intros ? ?]
  | |- sim_at _ _ _ (ec _ (ec_put _ _) ≫= _) _ => apply sim_free; [lia|apply sim_put|intros ? ?]
  | |- sim_at _ _ _ (ec_call _ (ec_remove _) ≫= _) _ => apply sim_free; [lia|by apply sim_remove|intros ? ?]
  | |- sim_at _ _ _ (ec _ (ec_get _ _) ≫= _) _ => apply sim_call; [lia|by apply sim_get|intros [? ?] ?]
  | |- sim_at _ _ _ (ec _ (ec_getattr _ _) ≫= _) _ => apply sim_call; [lia|by apply sim_getattr|intros [? ?] ?]
  end; cbv beta iota.

Lemma sim_get_file G i old w : 0 <= i < two64 -> sim_at G 1 w (get_file i old) (get_file i old).
Proof. intros Hi. unfold get_file. repeat sim_step. Qed.

Lemma sim_add_entry G p name i w : 0 <= p < two64 -> sim_at G 1 w (add_entry p name i) (add_entry p name i).
Proof.
  intros Hp. unfold add_entry. sim_step. apply sim_call; [lia|by apply sim_get|intros [st b] w1]. cbv beta iota.
  apply sim_free; [lia| |intros ? ?; repeat sim_step]. destruct (str_find name b); repeat sim_step.
Qed.

Lemma sim_lookup G p name w : 0 <= p < two64 -> sim_at G 1 w (lookup p name) (lookup p name).
Proof. intros Hp. unfold lookup. repeat sim_step. Qed.

Lemma sim_removeFiles (G : Z -> Prop) i w : G i -> sim_at G 0 w (removeFiles i) (removeFiles i).
Proof.
  intros Hi. unfold removeFiles. sim_step. apply sim_free; [lia| |intros ? ?; repeat sim_step].
  destruct (isfile i); repeat sim_step.
Qed.

(** [unlink] removes the inum that [lookup] finds. *)
Lemma sim_unlink (G : Z -> Prop) p name w :
  0 <= p < two64 ->
  (forall tr st i w', lookup p name (Yworld (local w) tr) = Ret ((st, Some i), w') -> G i) ->
  sim_at G 2 w (unlink p name) (unlink p name).
Proof.
  intros Hp HG. unfold unlink. apply (sim_bind G 1); [lia|by apply sim_lookup|].
  intros [st [i|]] w' tr tr' E; cbv beta iota; [|repeat sim_step].
  specialize (HG _ _ _ _ E). repeat sim_step.
  apply sim_free; [lia|by apply sim_removeFiles|intros ? ?]. repeat sim_step.
Qed.

Ltac sim_sub n :=
  apply (sim_bind _ n); [lia| |let a := fresh "a" in intros a ? _ _ _; cbv beta iota].

Lemma sim_request G r w :
  (forall p name, r = RUnlink p name ->
    forall tr st i w', lookup p name (Yworld (local w) tr) = Ret ((st, Some i), w') -> G i) ->
  0 <= req_inum r < two64 -> sim_at G 2 w (run_request r) (run_request r).
Proof.
  intros HG Hr. destruct r as [p name rnd|p name rnd|p name|p name|p|i sz|i off sz|i buf sz off|i]; simpl in Hr; cbn [run_request].
  - unfold create. sim_sub 1; [sim_sub 1; [by apply sim_add_entry|repeat sim_step]|]. destruct a. repeat sim_step.
  - unfold create_dir. sim_sub 1; [sim_sub 1; [by apply sim_add_entry|repeat sim_step]|]. destruct a. repeat sim_step.
  - sim_sub 1; [by apply sim_lookup|]. destruct a. repeat sim_step.
  - sim_sub 2; [|repeat sim_step]. apply sim_unlink; [done|]. by apply HG.
  - sim_sub 1; [by apply sim_get_file|]. repeat sim_step.
  - unfold setattr. sim_sub 2; [|repeat sim_step]. sim_sub 1; [by apply sim_get_file|]. repeat sim_step.
  - unfold read. sim_sub 1; [|repeat sim_step]. sim_sub 1; [by apply sim_get_file|]. case_match; repeat sim_step.
  - unfold write. sim_sub 1; [|repeat sim_step]. repeat sim_step.
  - unfold getfile. sim_sub 1; [repeat sim_step|]. destruct a. repeat sim_step.
Qed.

(** ** Revoked locks *)

Lemma good_mono (G G' : Z -> Prop) w : good G w -> (forall e, G e -> G' e) -> good G' w.
Proof. intros [H1 H2 H3] HG. split; [done|done|]. intros e f Ef. destruct (H3 e f Ef). auto. Qed.

(** Giving up an extent that was not removed moves its contents to the server. *)
Lemma release_ok (G : Z -> Prop) w a r e :
  good G w -> rep (local w) a -> ~ G e -> (forall n, a !! e = Some n -> fits (text n)) ->
  0 <= e < two64 -> xid_ (rcl w) < two32 - 2 ->
  exists w', rpc_release r e w = Ret w' /\ good G w' /\ rep (local w') a /\ rc w' !! e = None /\
    xid_ (rcl w') <= xid_ (rcl w) + 1.
Proof.
  intros [Hs Hc Hg] Hr HG Hfit He Hx.
  assert (forall f, rc w !! e = Some f -> exists n, a !! e = Some n /\ cdata f = with_size (text n) /\
    fits (extent_client.file_content f)) as Hf.
  { intros f Ef. pose proof (Hr e) as Hv. unfold view, ec_laws, cached_view, local, repv in Hv. cbn [cc cs] in Hv. rewrite Ef in Hv.
    destruct (a !! e) as [n|]; [|done]. cbn in Hv. injection Hv as Hv1 Hv2. exists n. split_and!; [done|unfold cdata, with_size; congruence|].
    rewrite Hv1. by apply Hfit. }
  pose proof (remote_flush create_time isdead k ra r0 Hr0 (rc w) (rcl w) (rsv w) (obj w) e r Hs Hx He) as Hfl.
  unfold rpc_release, call. simpl in Hfl. unfold extent_client.flush in Hfl.
  destruct (rc w !! e) as [f|] eqn:Ef.
  2:{ destruct Hfl as (c' & s' & -> & Hs' & Hx'); [done|]. rsimpl. eexists. split_and!; [done| |done|done|done].
      split; [by apply (session_tick w c' s' _ Hc Hs' 1)|intros n; apply Hc|done]. }
  destruct (Hf f eq_refl) as (n & Hn & Hd & Hfits). destruct (Hg e f Ef) as [Hrm Hcl].
  destruct (extent_client.is_removed f); [by destruct HG; apply Hrm|].
  assert (exists v', (if extent_client.is_dirty f then
      let '(s, ret) := extent_server.put (rfiles w) e (extent_client.file_content f) (rclock w 0).1 (rclock w 0).2 in
      _ ← VERIFY (ret =? extent_protocol.OK); Ret s else Ret (rfiles w)) = Ret v' /\
    (forall e', e' <> e -> v' !! e' = rfiles w !! e') /\ sdata <$> v' !! e = Some (cdata f)) as (v' & Ev & Hoth & Hsame).
  { destruct (extent_client.is_dirty f); [|exists (rfiles w); auto].
    pose proof (server_put_other (rclock w 0).1 (rclock w 0).2 (rfiles w) e (extent_client.file_content f)) as H1.
    pose proof (server_put_same (rclock w 0).1 (rclock w 0).2 (rfiles w) e (extent_client.file_content f)) as H2.
    assert (with_size (extent_client.file_content f) = cdata f) as Hws.
    { rewrite Hd. unfold cdata, with_size in Hd. injection Hd as -> _. done. }
    unfold extent_server.put in *. destruct (rfiles w !! e); (eexists; split; [done|]; split; [exact H1|rewrite <- Hws; exact H2]). }
  rewrite Ev in Hfl. destruct Hfl as (c' & s' & -> & Hs' & Hx'); [by intros f' [= <-]|]. rsimpl.
  eexists. split_and!; [done| | |simpl; apply lookup_delete_eq|exact Hx'].
  - split; simpl; [by apply (session_tick w c' s' v' Hc Hs' 1)|intros i; apply Hc|].
    intros e' f'. destruct (decide (e' = e)) as [->|Hne]; [by rewrite lookup_delete_eq|].
    rewrite lookup_delete_ne by done. rewrite Hoth by done. apply Hg.
  - intros e'. rewrite <- (Hr e'). unfold view, ec_laws, cached_view. simpl. destruct (decide (e' = e)) as [->|Hne].
    + by rewrite lookup_delete_eq, Ef.
    + by rewrite lookup_delete_ne, Hoth.
Qed.

(** ** Sessions: requests, and locks revoked between them *)
Inductive fevent := Serve (r : request) | Revoke (eid : Z).

Fixpoint serve (r0 : Z) (evs : list fevent) : Y remote (list answer) :=
  match evs with
  | [] => mret []
  | Serve r :: evs => y ← run_request r; ys ← serve r0 evs; mret (y :: ys)
  | Revoke e :: evs => (fun w => s ← rpc_release r0 e (store w); Ret (tt, Yworld s (trace w)));; serve r0 evs
  end.

Definition fits_in (a : fs) (e : Z) : bool :=
  match a !! e with Some n => Z.of_nat (36 + length (text n)) <? PDU_LIMIT | None => true end.

(** The abstract session.  An extent whose lock is revoked was not removed, and
    fits in a message. *)
Fixpoint fs_session (a : fs) (gone : gset Z) (evs : list fevent) : option (list answer * fs) :=
  match evs with
  | [] => Some ([], a)
  | Serve r :: evs =>
      '(y, a') ← fs_step a r;
      '(ys, a'') ← fs_session a' (gone ∪ removed_by a r) evs;
      Some (y :: ys, a'')
  | Revoke e :: evs =>
      if bool_decide ((e ∉ gone) /\ 0 <= e < two64) && fits_in a e then fs_session a gone evs else None
  end.

(** Inums are 64-bit numbers. *)
Definition fs_ids (a : fs) : Prop := forall e n, a !! e = Some n -> 0 <= e < two64.

Lemma fs_ids_insert a e n : fs_ids a -> 0 <= e < two64 -> fs_ids (<[e := n]> a).
Proof.
  intros Ha He e' n'. destruct (decide (e' = e)) as [->|Hne]; [done|]. rewrite lookup_insert_ne by done. apply Ha.
Qed.

Lemma add_node_ids a p d name i n y a' :
  fs_ids a -> 0 <= p < two64 -> 0 <= i < two64 -> add_node a p d name i n = Some (y, a') -> fs_ids a'.
Proof.
  intros Ha Hp Hi. unfold add_node. case_bool_decide; intros [= <- <-]; [done|]. by repeat apply fs_ids_insert.
Qed.

Lemma fs_step_ids a r y a' :
  fs_ids a -> fs_step a r = Some (y, a') -> fs_ids a' /\ 0 <= req_inum r < two64.
Proof.
  intros Ha E. assert (is_Some (a !! req_inum r)) as [n Hn].
  { destruct r; simpl in E |- *; destruct (a !! _); by eauto. }
  pose proof (Ha _ _ Hn) as Hr. split; [|done].
  destruct r; simpl in E, Hr, Hn; rewrite Hn in E; destruct n; try done.
  - case_bool_decide as Hc; [|done]. eapply add_node_ids; [done|exact Hr| |exact E]. apply generate_file_range, Hc.
  - case_bool_decide as Hc; [|done]. eapply add_node_ids; [done|exact Hr| |exact E]. apply generate_dir_range, Hc.
  - case_bool_decide; [|done]. by injection E as _ <-.
  - case_bool_decide; [|done]. destruct (list_find _ _) as [[j e]|]; [|by injection E as _ <-].
    case_bool_decide; [|done]. injection E as _ <-. by apply fs_ids_insert.
  - case_bool_decide; [|done]. by injection E as _ <-.
  - case_bool_decide; [|done]. injection E as _ <-. by apply fs_ids_insert.
  - case_bool_decide; [|done]. by injection E as _ <-.
  - destruct (c_string _); [|done|done]. case_bool_decide; [|done]. injection E as _ <-. by apply fs_ids_insert.
  - by injection E as _ <-.
Qed.

(** [lookup] finds the inum that [unlink] is said to remove. *)
Lemma lookup_removed (w : cached) a p name y a' tr st i w' :
  rep w a -> fs_wf a -> fs_step a (RUnlink p name) = Some (y, a') ->
  lookup p name (Yworld w tr) = Ret ((st, Some i), w') -> i ∈ removed_by a (RUnlink p name).
Proof.
  intros Hr Hw E El. simpl in E |- *. destruct (a !! p) as [[|d]|] eqn:Hp; [done| |done].
  case_bool_decide as Hok; [|done]. destruct Hok as [[Hpl _] Hs]. destruct (Hw p d Hp) as (He & _ & _).
  pose proof (dir_lookup_spec name d Hpl He Hs) as Hl. rewrite first_ending_find in Hl.
  destruct (does_lookup p name w _ _ _ (rep_view w a p _ Hr Hp) Hl tr [] I) as (w2 & E2 & _). rewrite E2 in El.
  destruct (list_find (ends_with name) d) as [[j e]|]; simpl in El; [|done]. injection El as _ <- _. set_solver.
Qed.

Lemma serve_step w a gone r y a' tr :
  good (fun e => e ∈ gone) w -> rep (local w) a -> fs_wf a -> fs_ids a -> fs_step a r = Some (y, a') ->
  xid_ (rcl w) + 4 < two32 - 1 ->
  exists w' tr', run_request r (Yworld w tr) = Ret (y, Yworld w' tr') /\
    good (fun e => e ∈ gone ∪ removed_by a r) w' /\ rep (local w') a' /\ xid_ (rcl w') <= xid_ (rcl w) + 4.
Proof.
  intros Hg Hr Hw Hi E Hx. destruct (step_refines (local w) a r y a' Hr Hw E) as (t & _ & _ & Hd).
  destruct (Hd tr [] I) as (w1 & E1 & _ & Hv1). destruct (fs_step_ids a r y a' Hi E) as [_ Hri].
  destruct (sim_request (fun e => e ∈ gone ∪ removed_by a r) r w) with (tr := tr) (a := y) (w1 := Yworld w1 (tr ++ t))
    as (w' & E' & Hl & Hg' & Hx'); [|done|by eapply good_mono; [exact Hg|set_solver]|lia|exact E1|].
  { intros p name -> tr1 st i w2 El. apply elem_of_union_r. by eapply lookup_removed. }
  simpl in Hl. exists w', (tr ++ t). split; [exact E'|]. split; [done|]. split; [|lia]. rewrite Hl. exact Hv1.
Qed.

Lemma serve_ok r evs : forall w tr a gone ys a',
  good (fun e => e ∈ gone) w -> rep (local w) a -> fs_wf a -> fs_ids a -> fs_session a gone evs = Some (ys, a') ->
  xid_ (rcl w) + 4 * Z.of_nat (length evs) < two32 - 1 ->
  exists w' tr', serve r evs (Yworld w tr) = Ret (ys, Yworld w' tr') /\ rep (local w') a' /\ fs_wf a'.
Proof.
  induction evs as [|[rq|e] evs IH]; intros w tr a gone ys a' Hg Hr Hw Hi E Hx; simpl in E; cbn [length] in Hx.
  - injection E as <- <-. by exists w, tr.
  - destruct (fs_step a rq) as [[y a1]|] eqn:E1; [|done]. simpl in E.
    destruct (fs_session a1 _ evs) as [[ys' a2]|] eqn:E2; [|done]. injection E as <- <-.
    destruct (serve_step w a gone rq y a1 tr Hg Hr Hw Hi E1) as (w1 & t1 & R1 & Hg1 & Hr1 & Hx1); [lia|].
    destruct (IH w1 t1 a1 _ ys' a2 Hg1 Hr1 (fs_step_wf a rq y a1 Hw E1) (proj1 (fs_step_ids _ _ _ _ Hi E1)) E2)
      as (w2 & t2 & R2 & H2); [lia|].
    exists w2, t2. split; [|done]. cbn [serve]. unfold mbind, Y_bind. by rewrite R1, R2.
  - destruct (_ && _) eqn:Ec; [|done]. bool_prop. destruct H as [Hgone He].
    destruct (release_ok _ w a r e Hg Hr Hgone) as (w1 & R1 & Hg1 & Hr1 & _ & Hx1); [|done|lia|].
    { intros n Hn. unfold fits_in in H0. rewrite Hn in H0. bool_prop. done. }
    destruct (IH w1 tr a gone ys a' Hg1 Hr1 Hw Hi E) as (w2 & t2 & R2 & H2); [lia|].
    exists w2, t2. split; [|done]. cbn [serve]. unfold mbind at 1, Y_bind at 1. cbn [store trace]. rewrite R1. rsimpl. exact R2.
Qed.

(** ** From the first process to the last request *)

(** The extent server's [main], then the constructor of [extent_client]. *)
Definition start (argv : list str) (count_env : option str) (nonce rnd lossy r : Z) (clk : nat -> Z * Z) : res remote :=
  s ← extent_main argv count_env nonce ra r0;
  '(m, st) ← extent_client_new create_time isdead k (rpcc_new true rnd lossy) s (Xserver ∅ (clk 0%nat).1 (clk 0%nat).2) r;
  let '(c, s, o) := st in
  Ret (Remote m c s (files o) clk).

Lemma sim_mount G w : sim_at G 0 w yfs_client_new yfs_client_new.
Proof. unfold yfs_client_new. repeat sim_step. Qed.

Lemma mounted_ids : fs_ids mounted.
Proof. apply fs_ids_insert; [|lia]. intros e n. by rewrite lookup_empty. Qed.

End rpc.

(** ** A session *)
Module YfsRpcExample.
#[local] Instance zeros : Allocator := fun _ => Ascii.zero.

Definition clk : nat -> Z * Z := fun _ => (1000, 0).
Definition foo : Z := generate_file_inum 5.

(** A file is created and written, its extent and the root's are flushed, and
    both are read back from the server; then it is unlinked. *)
Definition events : list fevent :=
  [Serve (RCreate 1 (S! "foo") 5); Serve (RWrite foo (S! "hello" ++ [Ascii.zero]) 5 0);
   Revoke foo; Revoke 1; Serve (RLookup 1 (S! "foo")); Serve (RRead foo 1 3); Serve (RGetfile foo);
   Serve (RUnlink 1 (S! "foo")); Revoke 1; Serve (RReaddir 1)].
Definition answers : list answer :=
  [AStatus OK (Some foo); ADone; AStatus OK (Some foo); ABytes (S! "ell"); ASize OK 5; AStatus OK None; AEntries []].
Definition final : fs := default ∅ (snd <$> fs_session mounted ∅ events).

Lemma events_ok : fs_session mounted ∅ events = Some (answers, final).
Proof. vm_compute. reflexivity. Qed.

End YfsRpcExample.
