(* ===== verification/YfsShared.v ===== *)
(** * Several clients of one file system

    Any number of [yfs_client]s, each with its lock client and its extent client,
    share a lock server and an extent server.  A request is served at one of
    them; when it needs a lock that another client has cached, the lock protocol
    runs: the server queues the caller and revokes the lock, the holder's
    releaser flushes the extent and gives the lock back, the server calls the
    caller again, and the caller acquires it.  The lock client, the lock server
    and the extent client are those of [LockClient], [LockServers] and [Extent];
    a call between processes is the handler it reaches ([LockRpc] and [ExtentRpc]
    have the calls). *)

From S2P Require Import Prelude Marshall RpcStubs LockServers LockClient LockSystem Extent ExtentSpec.
From S2P Require Import Directory DirectorySpec YfsClient YfsSpec YfsFs YfsThms.
Import extent_protocol (attr, Attr).
Import yfs_client.

Record shared := Shared {
  lsrv : Srv.t;                         (* the lock server *)
  lclts : gmap str Clt.t;               (* the lock client of each process, by its id *)
  xclts : gmap str extent_client.t;     (* the extent client of each process *)
  xsrv : extent_server.t;               (* the extents at their server *)
  me : str;                             (* the process whose request is served *)
  times : nat -> Z * Z }.

(** A process that is not there, and a wait that nothing ends. *)
Definition known {A} (o : option A) : res A := match o with Some a => Ret a | None => Undef end.
Definition waited {A} (o : option A) : res A := match o with Some a => Ret a | None => Abort end.

Definition xcache (w : shared) (id : str) : extent_client.t := default ∅ (xclts w !! id).
Definition set_locks (w : shared) (s : Srv.t) (id : str) (c : Clt.t) : shared :=
  Shared s (<[id := c]> (lclts w)) (xclts w) (xsrv w) (me w) (times w).
Definition set_extents (w : shared) (id : str) (c : extent_client.t) (s : extent_server.t) : shared :=
  Shared (lsrv w) (lclts w) (<[id := c]> (xclts w)) s (me w) (fun n => times w (S n)).

Ltac ssimpl :=
  cbn [mbind res_bind known waited ask Srv.revoke_list Srv.retry_list Srv.statusMutex Srv.lock_status_map Srv.client_map].

Section shared.
Context `{AL : Allocator}.

(** ** The steps of the lock protocol *)

(** The caller enters [acquire] and makes its first turn. *)
Definition acquire_step (lid : Z) (w : shared) : res (shared * Clt.next) :=
  c ← known (lclts w !! me w);
  let c := Clt.acquire_enter c lid in
  '(s, answer) ← waited (ask (Clt.must_call c lid) (lsrv w) lid (me w));
  '(c, n) ← Clt.acquire_turn c lid answer;
  Ret (set_locks w s (me w) c, n).

(** The server's revoker calls the holder. *)
Definition revoker_step (w : shared) : res (shared * str) :=
  '(h, l, s) ← waited (Srv.revoker (lsrv w));
  c ← known (lclts w !! h);
  c ← Clt.revoke_handler c l;
  Ret (set_locks w s h c, h).

(** The holder's releaser flushes the extent and gives the lock back. *)
Definition releaser_step (h : str) (w : shared) : res shared :=
  c ← known (lclts w !! h);
  '(c, o) ← Clt.releaser c;
  match o with
  | None => Ret (set_locks w (lsrv w) h c)
  | Some l =>
      '(xc, xs) ← dorelease (times w 0).1 (times w 0).2 (xcache w h) (xsrv w) l;
      '(s, _) ← waited (Srv.release (lsrv w) l h 0);
      Ret (set_extents (set_locks w s h c) h xc xs)
  end.

(** The server's retryer calls the first that waits. *)
Definition retryer_step (w : shared) : res shared :=
  '(i, l, s) ← waited (Srv.retryer (lsrv w));
  c ← known (lclts w !! i);
  Ret (set_locks w s i (Clt.retry_handler c l)).

(** The caller's turn in its inner loop. *)
Definition retry_step (lid : Z) (w : shared) : res (shared * Clt.next) :=
  c ← known (lclts w !! me w);
  '(s, answer) ← waited (ask (Clt.retry_arrived c lid) (lsrv w) lid (me w));
  let '(c, n) := Clt.retry_turn c lid answer in
  Ret (set_locks w s (me w) c, n).

(** [acquire(lid)] at the serving process, the other processes doing what the
    protocol asks of them; a caller left waiting does not return. *)
Definition lock_acquire (lid : Z) (w : shared) : res shared :=
  '(w, n) ← acquire_step lid w;
  match n with
  | Clt.Acquired => Ret w
  | Clt.WaitStatus => Abort
  | Clt.WaitRetry =>
      '(w, h) ← revoker_step w;
      w ← releaser_step h w;
      w ← retryer_step w;
      '(w, n) ← retry_step lid w;
      match n with Clt.Acquired => Ret w | _ => Abort end
  end.

Definition lock_release (lid : Z) (w : shared) : res shared :=
  c ← known (lclts w !! me w);
  c ← Clt.release c lid;
  Ret (set_locks w (lsrv w) (me w) c).

#[export] Instance shared_store : ExtentStore shared := {|
  ec_get e old w :=
    '(c, s, r, b) ← extent_client.get (times w 0).1 (xcache w (me w)) (xsrv w) e old;
    Ret (r, b, set_extents w (me w) c s);
  ec_getattr e a w := '(r, a) ← extent_client.getattr (xcache w (me w)) (xsrv w) e a; Ret (r, a, w);
  ec_put e b w :=
    let '(c, r) := extent_client.put (times w 0).1 (times w 0).2 (xcache w (me w)) e b in
    Ret (r, set_extents w (me w) c (xsrv w));
  ec_remove e w :=
    let '(c, r) := extent_client.remove (xcache w (me w)) e in Ret (r, set_extents w (me w) c (xsrv w));
  lc_acquire := lock_acquire;
  lc_release := lock_release |}.

(** ** Between the calls *)

Definition holder (w : shared) (lid : Z) : option str :=
  Srv.lock_client <$> Srv.lock_status_map (lsrv w) !! lid.

(** The current contents of an extent: at the client that has its lock, or at
    the server. *)
Definition shared_view (w : shared) (e : Z) : option (str * Z) :=
  match holder w e with
  | Some h => match xcache w h !! e with Some f => Some (cdata f) | None => sdata <$> xsrv w !! e end
  | None => sdata <$> xsrv w !! e
  end.

(** A cached extent is as the server has it, or dirty; removed ones are in [G]. *)
Definition entry_ok (G : Z -> Prop) (s : extent_server.t) (e : Z) (f : extent_client.filedata) : Prop :=
  (extent_client.is_removed f = true -> G e) /\
  if extent_client.is_dirty f then cdata f = with_size (extent_client.file_content f)
  else sdata <$> s !! e = Some (cdata f).

(** What a lock client has: the locks that are its own, in use by the serving
    process when they are in [H], and nothing pending. *)
Record client_ok (own : Z -> Prop) (H : list Z) (c : Clt.t) : Prop := {
  co_revokes : Clt.revoke_list c = [];
  co_retries : forall lid, Clt.retry_arrived c lid = false;
  co_own : forall lid, own lid -> Clt.lock_map c !! lid = Some (if decide (lid ∈ H) then Clt.LOCKED else Clt.FREE);
  co_other : forall lid, ~ own lid -> Clt.lock_map c !! lid = None \/ Clt.lock_map c !! lid = Some Clt.NONE }.

Definition lock_calm (l : Srv.Lock_status) : Prop :=
  Srv.status l = Srv.LOCKED /\ Srv.waiting_client l = [] /\ Srv.revoked l (Srv.lock_client l) = false.

Record calm (G : Z -> Prop) (H : list Z) (w : shared) : Prop := {
  cm_mutex : Srv.statusMutex (lsrv w) = false;
  cm_retry : Srv.retry_list (lsrv w) = [];
  cm_revoke : Srv.revoke_list (lsrv w) = [];
  cm_locks : forall lid l, Srv.lock_status_map (lsrv w) !! lid = Some l -> lock_calm l;
  cm_there : forall lid h, holder w lid = Some h -> is_Some (lclts w !! h);
  cm_clients : forall id c, lclts w !! id = Some c -> client_ok (fun lid => holder w lid = Some id) H c;
  cm_nodup : NoDup H;
  cm_held : forall lid, lid ∈ H -> holder w lid = Some (me w);
  cm_cache : forall id e f, xcache w id !! e = Some f -> holder w e = Some id /\ entry_ok G (xsrv w) e f }.

(** No other process has removed the extent and still has it. *)
Definition avail (w : shared) (l : Z) : Prop :=
  forall h f, h <> me w -> xcache w h !! l = Some f -> extent_client.is_removed f = false.
Definition permitted (G : Z -> Prop) (w : shared) (ev : yevent) : Prop :=
  match ev with YAcquire l => avail w l | YRemove e => G e | _ => True end.

(** The processes are those in [D], and the one that serves is among them. *)
Definition serving (D : gset str) (w : shared) : Prop := dom (lclts w) = D /\ me w ∈ D.

Definition shared_allowed (D : gset str) (G : Z -> Prop) (w : shared) (tr : list yevent) : Prop :=
  serving D w /\ exists H, calm G H w /\ disciplined H tr = true /\ Forall (permitted G w) tr.

(** ** The extent client of the serving process *)

Lemma xcache_set w id c s id' : xcache (set_extents w id c s) id' = if decide (id' = id) then c else xcache w id'.
Proof.
  unfold xcache, set_extents. simpl. case_decide; [subst; by rewrite lookup_insert_eq|by rewrite lookup_insert_ne].
Qed.

(** It changes its copy of one extent whose lock is in use. *)
Lemma extents_step G H w e c s :
  calm G H w -> e ∈ H ->
  (forall e', e' <> e -> c !! e' = xcache w (me w) !! e' /\ sdata <$> s !! e' = sdata <$> xsrv w !! e') ->
  (forall f, c !! e = Some f -> entry_ok G s e f) ->
  let w' := set_extents w (me w) c s in
  calm G H w' /\ (forall ev, permitted G w ev -> permitted G w' ev) /\
  forall e', shared_view w' e' =
    if decide (e' = e) then match c !! e with Some f => Some (cdata f) | None => sdata <$> s !! e end else shared_view w e'.
Proof.
  intros Hc He Hoth Hf w'. pose proof (cm_held _ _ _ Hc e He) as Hme. split; [|split].
  - destruct Hc as [? ? ? ? ? ? ? ? Hca]. split; try done. intros id e' f. unfold w'. rewrite xcache_set.
    case_decide as Eid; [subst id; destruct (decide (e' = e)) as [->|Hne]|].
    + intros Ef. split; [exact Hme|by apply Hf].
    + destruct (Hoth e' Hne) as [Hx Hs]. rewrite Hx. intros Ef%Hca. unfold entry_ok. cbn [xsrv set_extents]. by rewrite Hs.
    + intros Ef. destruct (Hca id e' f Ef) as [Hh Hok]. split; [done|]. destruct (decide (e' = e)) as [->|Hne]; [congruence|].
      unfold entry_ok. cbn [xsrv set_extents]. by rewrite (proj2 (Hoth e' Hne)).
  - intros [l| |e'|e']; try done. intros Ha h f Hh. unfold w'. rewrite xcache_set, decide_False by done. by apply Ha.
  - intros e'. unfold shared_view. change (holder w' e') with (holder w e'). unfold w'. case_decide as Ee.
    + subst e'. rewrite Hme, xcache_set, decide_True by done. done.
    + destruct (Hoth e' Ee) as [Hx Hs]. change (xsrv (set_extents w (me w) c s)) with s. destruct (holder w e') as [h|]; [|done]. rewrite xcache_set.
      case_decide; [subst h; by rewrite Hx, Hs|by rewrite Hs].
Qed.

(** An access is allowed only to an extent whose lock is in use. *)
Lemma allowed_access D G w ev e tr :
  ev = YAccess e \/ ev = YRemove e -> shared_allowed D G w (ev :: tr) ->
  serving D w /\ exists H, calm G H w /\ e ∈ H /\ permitted G w ev /\ disciplined H tr = true /\ Forall (permitted G w) tr.
Proof.
  intros Hev (Hm & H & Hc & Hd & Hp). apply Forall_cons in Hp as [Hp Hps]. split; [done|]. exists H.
  destruct Hev as [-> | ->]; cbn [disciplined] in Hd; bool_prop; by split_and!.
Qed.

Lemma allowed_step D G H w w' tr :
  serving D w' -> calm G H w' -> (forall ev, permitted G w ev -> permitted G w' ev) -> disciplined H tr = true ->
  Forall (permitted G w) tr -> shared_allowed D G w' tr.
Proof. intros Hm Hc Hp Hd Hf. split; [done|]. exists H. split_and!; [done|done|]. eapply Forall_impl; [exact Hf|exact Hp]. Qed.

Lemma view_held G H w e : calm G H w -> e ∈ H ->
  shared_view w e = match xcache w (me w) !! e with Some f => Some (cdata f) | None => sdata <$> xsrv w !! e end.
Proof. intros Hc He. unfold shared_view. by rewrite (cm_held _ _ _ Hc e He). Qed.

(** An access that leaves the contents alone. *)
Lemma access_step D G H w e c s tr :
  serving D w -> calm G H w -> e ∈ H -> disciplined H tr = true -> Forall (permitted G w) tr ->
  (forall e', e' <> e -> c !! e' = xcache w (me w) !! e' /\ sdata <$> s !! e' = sdata <$> xsrv w !! e') ->
  (forall f, c !! e = Some f -> entry_ok G s e f) ->
  match c !! e with Some f => Some (cdata f) | None => sdata <$> s !! e end = shared_view w e ->
  shared_allowed D G (set_extents w (me w) c s) tr /\ forall e', shared_view (set_extents w (me w) c s) e' = shared_view w e'.
Proof.
  intros Hm Hc He Hd Hp Hoth Hf Hv. destruct (extents_step G H w e c s Hc He Hoth Hf) as (H1 & H2 & H3).
  split; [by eapply allowed_step|]. intros e'. rewrite H3. case_decide; [by subst|done].
Qed.

Lemma shared_get D G w e old b n tr :
  shared_allowed D G w (YAccess e :: tr) -> shared_view w e = Some (b, n) ->
  exists w', ec_get e old w = Ret (extent_protocol.OK, b, w') /\ shared_allowed D G w' tr /\
    forall e', shared_view w' e' = shared_view w e'.
Proof.
  intros Ha Hv. destruct (allowed_access D G w _ e tr (or_introl eq_refl) Ha) as (Hm & H & Hc & He & _ & Hd & Hp).
  pose proof (view_held G H w e Hc He) as Hv'. rewrite Hv in Hv'. simpl. unfold extent_client.get.
  destruct (xcache w (me w) !! e) as [f|] eqn:Ef.
  - injection Hv' as -> ->. rsimpl. eexists; split; [done|]. eapply access_step; try done.
    + intros e' Hne. by rewrite lookup_insert_ne.
    + intros f'. rewrite lookup_insert_eq. intros [= <-]. exact (proj2 (cm_cache _ _ _ Hc _ e f Ef)).
    + rewrite lookup_insert_eq. by rewrite Hv.
  - unfold extent_server.get. destruct (xsrv w !! e) as [g|] eqn:Eg; [|done]. injection Hv' as -> ->. rsimpl.
    unfold extent_client.getattr, extent_server.getattr. rewrite Ef, lookup_insert_eq. rsimpl.
    eexists; split; [done|]. eapply access_step; try done.
    + intros e' Hne. by rewrite !lookup_insert_ne.
    + intros f'. rewrite lookup_insert_eq. intros [= <-]. unfold entry_ok. simpl. by rewrite lookup_insert_eq.
    + rewrite lookup_insert_eq. by rewrite Hv.
Qed.

Lemma shared_getattr D G w e a b n :
  shared_view w e = Some (b, n) ->
  exists a', extent_protocol.size a' = n /\ forall tr, shared_allowed D G w (YAccess e :: tr) ->
  exists w', ec_getattr e a w = Ret (extent_protocol.OK, a', w') /\ shared_allowed D G w' tr /\
    forall e', shared_view w' e' = shared_view w e'.
Proof.
  intros Hv.
  destruct (decide (match xcache w (me w) !! e with Some f => Some (cdata f) | None => sdata <$> xsrv w !! e end = Some (b, n)))
    as [Hv'|Hv'].
  - simpl. unfold extent_client.getattr, extent_server.getattr.
    assert (forall tr, shared_allowed D G w (YAccess e :: tr) -> shared_allowed D G w tr) as Hal.
    { intros tr Ha. destruct (allowed_access D G w _ e tr (or_introl eq_refl) Ha) as (Hm & H & Hc & _ & _ & Hd & Hp). split; [done|]. by exists H. }
    destruct (xcache w (me w) !! e) as [f|]; [|destruct (xsrv w !! e) as [g|]; [|done]];
      injection Hv' as _ <-; rsimpl; eexists; (split; [done|]); intros tr Ha; exists w; auto.
  - exists (Attr 0 0 0 n). split; [done|]. intros tr Ha.
    destruct (allowed_access D G w _ e tr (or_introl eq_refl) Ha) as (_ & H & Hc & He & _).
    by rewrite <- (view_held G H w e Hc He) in Hv'.
Qed.

Lemma shared_put D G w e b tr :
  shared_allowed D G w (YAccess e :: tr) ->
  exists w', ec_put e b w = Ret (extent_protocol.OK, w') /\ shared_allowed D G w' tr /\
    forall e', shared_view w' e' = if decide (e' = e) then Some (with_size b) else shared_view w e'.
Proof.
  intros Ha. destruct (allowed_access D G w _ e tr (or_introl eq_refl) Ha) as (Hm & H & Hc & He & _ & Hd & Hp).
  simpl. unfold extent_client.put.
  destruct (xcache w (me w) !! e) as [f|] eqn:Ef; (eexists; split; [done|]);
    match goal with |- context [<[e := ?f0]> _] => set (f' := f0) end.
  all: destruct (extents_step G H w e (<[e := f']> (xcache w (me w))) (xsrv w) Hc He) as (H1 & H2 & H3);
    [by intros; rewrite lookup_insert_ne| |split; [by eapply allowed_step|]; intros e'; rewrite H3, lookup_insert_eq; by case_decide].
  - intros f0. rewrite lookup_insert_eq. intros [= <-]. destruct (proj2 (cm_cache _ _ _ Hc _ e f Ef)) as [Hr _]. by split.
  - intros f0. rewrite lookup_insert_eq. intros [= <-]. by split.
Qed.

Lemma shared_remove D G w e :
  exists r, forall tr, shared_allowed D G w (YRemove e :: tr) ->
  exists w', ec_remove e w = Ret (r, w') /\ shared_allowed D G w' tr /\ forall e', shared_view w' e' = shared_view w e'.
Proof.
  simpl. unfold extent_client.remove. destruct (xcache w (me w) !! e) as [f|] eqn:Ef; eexists; intros tr Ha;
    destruct (allowed_access D G w _ e tr (or_intror eq_refl) Ha) as (Hm & H & Hc & He & HG & Hd & Hp);
    (eexists; split; [done|]); (eapply access_step; [done|done|done|done|done| | |]); try done.
  - intros e' Hne. by rewrite lookup_insert_ne.
  - intros f'. rewrite lookup_insert_eq. intros [= <-]. split; [by intros _|]. exact (proj2 (proj2 (cm_cache _ _ _ Hc _ e f Ef))).
  - rewrite lookup_insert_eq, (view_held G H w e Hc He), Ef. done.
  - intros f'. by rewrite Ef.
  - by rewrite (view_held G H w e Hc He).
Qed.

(** ** The lock clients *)

Lemma client_ok_mono own own' H H' c :
  client_ok own H c -> (forall lid, own lid <-> own' lid) -> (forall lid, own lid -> lid ∈ H <-> lid ∈ H') ->
  client_ok own' H' c.
Proof.
  intros [H1 H2 H3 H4] Ho HH. split; [done|done| |].
  - intros lid Hl%Ho. rewrite (H3 lid Hl). specialize (HH lid Hl). do 2 case_decide; naive_solver.
  - intros lid Hl. apply H4. by rewrite Ho.
Qed.

(** A client takes the lock [l], and a client gives it up. *)
Lemma client_ok_take own own' H c c' l :
  client_ok own H c -> (forall lid, lid <> l -> Clt.lock_map c' !! lid = Clt.lock_map c !! lid) ->
  Clt.lock_map c' !! l = Some Clt.LOCKED -> Clt.revoke_list c' = [] -> (forall lid, Clt.retry_arrived c' lid = false) ->
  (forall lid, own' lid <-> lid = l \/ own lid) -> client_ok own' (l :: H) c'.
Proof.
  intros [_ _ H3 H4] Hoth Hl Hr Ha Ho. split; [done|done| |].
  - intros lid Hown%Ho. destruct (decide (lid = l)) as [->|Hne]; [rewrite decide_True by set_solver; done|].
    destruct Hown as [?|Hown]; [done|]. rewrite Hoth, H3 by done. do 2 case_decide; set_solver.
  - intros lid Hown. rewrite Ho in Hown. rewrite Hoth by naive_solver. naive_solver.
Qed.

Lemma client_ok_give own own' H c c' l :
  client_ok own H c -> (forall lid, lid <> l -> Clt.lock_map c' !! lid = Clt.lock_map c !! lid) ->
  Clt.lock_map c' !! l = Some Clt.NONE -> Clt.revoke_list c' = [] -> (forall lid, Clt.retry_arrived c' lid = false) ->
  (forall lid, own' lid <-> lid <> l /\ own lid) -> client_ok own' (l :: H) c'.
Proof.
  intros [_ _ H3 H4] Hoth Hl Hr Ha Ho. split; [done|done| |].
  - intros lid [Hne Hown]%Ho. rewrite Hoth, H3 by done. do 2 case_decide; set_solver.
  - intros lid Hown. rewrite Ho in Hown. destruct (decide (lid = l)) as [->|Hne]; [by right|].
    rewrite Hoth by done. apply H4. naive_solver.
Qed.

(** The first part of [acquire], at a client that does not have the lock. *)
Lemma caller_enters own H c l :
  client_ok own H c -> ~ own l ->
  Clt.lock_map (Clt.acquire_enter c l) !! l = Some Clt.NONE /\
  (forall lid, lid <> l -> Clt.lock_map (Clt.acquire_enter c l) !! lid = Clt.lock_map c !! lid) /\
  Clt.revoke_list (Clt.acquire_enter c l) = [] /\ forall lid, Clt.retry_arrived (Clt.acquire_enter c l) lid = false.
Proof.
  intros Hc Hl. pose proof (co_revokes _ _ _ Hc) as Hr. pose proof (co_retries _ _ _ Hc) as Ha.
  unfold Clt.acquire_enter. destruct (co_other _ _ _ Hc l Hl) as [-> | E]; [|by rewrite E]. split_and!.
  - simpl. by rewrite lookup_insert_eq.
  - intros lid Hne. simpl. by rewrite lookup_insert_ne.
  - done.
  - intros lid. unfold Clt.retry_arrived. simpl. destruct (decide (lid = l)) as [->|Hne]; [by rewrite lookup_insert_eq|].
    rewrite lookup_insert_ne by done. apply Ha.
Qed.

(** ** What an acquire leaves *)

(** The lock is the serving process's; the extent of the lock is where it was, or
    flushed to the server. *)
Record acquired (w w' : shared) (l : Z) : Prop := {
  aq_me : me w' = me w;
  aq_mutex : Srv.statusMutex (lsrv w') = false;
  aq_retry : Srv.retry_list (lsrv w') = [];
  aq_revoke : Srv.revoke_list (lsrv w') = [];
  aq_lock : exists lk, Srv.lock_status_map (lsrv w') !! l = Some lk /\ Srv.lock_client lk = me w /\ lock_calm lk;
  aq_locks : forall lid, lid <> l -> Srv.lock_status_map (lsrv w') !! lid = Srv.lock_status_map (lsrv w) !! lid }.

Lemma acquired_holder w w' l lid :
  acquired w w' l -> holder w' lid = if decide (lid = l) then Some (me w) else holder w lid.
Proof.
  intros Ha. unfold holder. case_decide as E; [subst|by rewrite (aq_locks _ _ _ Ha)].
  destruct (aq_lock _ _ _ Ha) as (lk & -> & Hm & _). simpl. by rewrite Hm.
Qed.

(** From there, what is left to show concerns the clients and the caches. *)
Lemma acquired_calm G H w w' l :
  me w ∈ dom (lclts w) -> calm G H w -> l ∉ H -> acquired w w' l -> dom (lclts w') = dom (lclts w) ->
  (forall id c, lclts w' !! id = Some c -> client_ok (fun lid => holder w' lid = Some id) (l :: H) c) ->
  (forall id e f, xcache w' id !! e = Some f -> holder w' e = Some id /\ entry_ok G (xsrv w') e f) ->
  calm G (l :: H) w'.
Proof.
  intros Hm Hc Hl Ha Hdom Hcl Hx. pose proof (aq_me _ _ _ Ha) as Hme.
  assert (forall id, is_Some (lclts w !! id) -> is_Some (lclts w' !! id)) as Hd.
  { intros id Hid. apply elem_of_dom. rewrite Hdom. by apply elem_of_dom. }
  split; [apply Ha|apply Ha|apply Ha| | |done| | |done].
  - intros lid lk. destruct (decide (lid = l)) as [->|Hne].
    + destruct (aq_lock _ _ _ Ha) as (lk' & -> & _ & Hk). by intros [= <-].
    + rewrite (aq_locks _ _ _ Ha) by done. apply (cm_locks _ _ _ Hc).
  - intros lid h. rewrite (acquired_holder w w' l) by done. case_decide; [intros [= <-]; apply Hd, elem_of_dom, Hm|].
    intros Hh. by eapply Hd, (cm_there _ _ _ Hc).
  - constructor; [done|apply (cm_nodup _ _ _ Hc)].
  - intros lid Hin. rewrite (acquired_holder w w' l), Hme by done. case_decide; [done|].
    apply (cm_held _ _ _ Hc). set_solver.
Qed.

Lemma lclts_set w s id c id' : lclts (set_locks w s id c) !! id' = if decide (id' = id) then Some c else lclts w !! id'.
Proof. unfold set_locks. simpl. case_decide; [subst; by rewrite lookup_insert_eq|by rewrite lookup_insert_ne]. Qed.

Definition taken (G : Z -> Prop) (H : list Z) (w w' : shared) (l : Z) : Prop :=
  me w' = me w /\ dom (lclts w') = dom (lclts w) /\ calm G (l :: H) w' /\ (forall ev, permitted G w ev -> permitted G w' ev) /\
  forall e, shared_view w' e = shared_view w e.

(** The lock is nobody's, or cached here: the extents stay where they are. *)
Lemma acquire_calm G H w s c l :
  me w ∈ dom (lclts w) -> calm G H w -> l ∉ H -> holder w l = None \/ holder w l = Some (me w) ->
  acquired w (set_locks w s (me w) c) l ->
  (forall c0, lclts w !! me w = Some c0 -> client_ok (fun lid => holder w lid = Some (me w)) H c0 ->
    client_ok (fun lid => holder (set_locks w s (me w) c) lid = Some (me w)) (l :: H) c) ->
  taken G H w (set_locks w s (me w) c) l.
Proof.
  intros Hm Hc Hl Hh Ha Hcl. set (w' := set_locks w s (me w) c) in *. pose proof (acquired_holder w w' l) as Hho.
  assert (forall id e f, xcache w id !! e = Some f -> holder w' e = Some id) as Hx.
  { intros id e f Ef. destruct (cm_cache _ _ _ Hc id e f Ef) as [He _]. rewrite Hho by done. case_decide; [subst|done].
    destruct Hh as [Hh|Hh]; congruence. }
  assert (dom (lclts w') = dom (lclts w)) as Hdom by (unfold w'; simpl; rewrite dom_insert_L; set_solver).
  split; [done|]. split; [done|]. split; [|split].
  - eapply acquired_calm; [exact Hm|exact Hc|done|exact Ha| | |].
    + exact Hdom.
    + intros id c0. unfold w'. rewrite lclts_set. case_decide as Eid; [|intros Eco].
      * subst. intros [= <-]. apply elem_of_dom in Hm as [c0 E0]. eapply Hcl; [exact E0|]. by apply (cm_clients _ _ _ Hc).
      * eapply client_ok_mono; [by apply (cm_clients _ _ _ Hc)| |].
        -- intros lid. fold w'. rewrite Hho by done. case_decide; [subst; naive_solver congruence|done].
        -- intros lid Hown. rewrite elem_of_cons. split; [auto|]. intros [-> |?]; [naive_solver congruence|done].
    + intros id e f Ef. split; [by eapply Hx|]. exact (proj2 (cm_cache _ _ _ Hc id e f Ef)).
  - by intros [| | |].
  - intros e. unfold shared_view. rewrite Hho by done. case_decide; [subst e|done].
    change (xsrv w') with (xsrv w). change (xcache w' (me w)) with (xcache w (me w)).
    destruct Hh as [Hh|Hh]; rewrite Hh; [|done]. destruct (xcache w (me w) !! l) as [f|] eqn:Ef; [|done].
    apply (cm_cache _ _ _ Hc) in Ef as [Ef _]. congruence.
Qed.

Lemma holder_inv w l h : holder w l = Some h -> exists lk, Srv.lock_status_map (lsrv w) !! l = Some lk /\ Srv.lock_client lk = h.
Proof. unfold holder. destruct (Srv.lock_status_map (lsrv w) !! l) as [lk|]; [|done]. intros [= <-]. by exists lk. Qed.

Lemma acquire_own G H w l :
  me w ∈ dom (lclts w) -> calm G H w -> l ∉ H -> holder w l = Some (me w) ->
  exists w', lock_acquire l w = Ret w' /\ taken G H w w' l.
Proof.
  intros Hm Hc Hl Hh. pose proof Hm as [c Ec]%elem_of_dom. pose proof (cm_clients _ _ _ Hc _ _ Ec) as Hok.
  pose proof (co_own _ _ _ Hok l Hh) as Hfree. rewrite decide_False in Hfree by done.
  unfold lock_acquire, acquire_step, Clt.acquire_enter, Clt.must_call, Clt.acquire_turn. rewrite Ec. ssimpl.
  rewrite Hfree. rewrite bool_decide_eq_false_2 by congruence. ssimpl. rewrite Hfree. ssimpl.
  eexists. split; [done|]. destruct (holder_inv w l _ Hh) as (lk & El & Hlk).
  eapply acquire_calm; [exact Hm|done|done|by right| |].
  - split; [done|apply Hc|apply Hc|apply Hc| |done]. exists lk. split_and!; [done|done|by eapply (cm_locks _ _ _ Hc)].
  - intros c0 E0 Hok0. rewrite Ec in E0. injection E0 as <-. eapply client_ok_take; [exact Hok| | | | |].
    + intros lid Hne. simpl. by rewrite lookup_insert_ne.
    + simpl. by rewrite lookup_insert_eq.
    + apply Hok.
    + apply Hok.
    + intros lid. change (holder (set_locks _ _ _ _) lid) with (holder w lid). naive_solver congruence.
Qed.

Lemma acquire_new G H w l :
  me w ∈ dom (lclts w) -> calm G H w -> l ∉ H -> holder w l = None ->
  exists w', lock_acquire l w = Ret w' /\ taken G H w w' l.
Proof.
  intros Hm Hc Hl Hh. pose proof Hm as [c Ec]%elem_of_dom. pose proof (cm_clients _ _ _ Hc _ _ Ec) as Hok.
  destruct (caller_enters _ _ c l Hok ltac:(congruence)) as (E1 & E2 & E3 & E4).
  assert (Srv.lock_status_map (lsrv w) !! l = None) as El.
  { unfold holder in Hh. by destruct (Srv.lock_status_map (lsrv w) !! l). }
  unfold lock_acquire, acquire_step, Clt.must_call, Clt.acquire_turn. rewrite Ec. ssimpl.
  rewrite E1, bool_decide_eq_true_2 by done. unfold ask, Srv.acquire. rewrite (cm_mutex _ _ _ Hc), El. ssimpl.
  eexists. split; [done|].
  assert (acquired w (set_locks w (Srv.set_lock (lsrv w) l (Srv.LockStatus Srv.LOCKED [] (me w) {[me w := false]})
      (Srv.retry_list (lsrv w)) (Srv.revoke_list (lsrv w))) (me w) (Clt.set_status (Clt.acquire_enter c l) l Clt.LOCKED)) l)
    as Ha.
  { split; [done|apply Hc|apply Hc|apply Hc| |].
    - eexists. simpl. rewrite lookup_insert_eq. split_and!; [done|done|]. split_and!; [done|done|].
      unfold Srv.revoked. simpl. by rewrite lookup_singleton_eq.
    - intros lid Hne. simpl. by rewrite lookup_insert_ne. }
  eapply acquire_calm; [exact Hm|done|done|by left|exact Ha|].
  intros c0 E0 Hok0. rewrite Ec in E0. injection E0 as <-. eapply client_ok_take; [exact Hok| | |done|exact E4|].
  - intros lid Hne. simpl. rewrite lookup_insert_ne by done. by apply E2.
  - simpl. by rewrite lookup_insert_eq.
  - intros lid. rewrite (acquired_holder w _ l) by done. case_decide; naive_solver.
Qed.

(** ** A lock that another process has cached *)

(** Its releaser flushes the extent. *)
Lemma dorelease_ok G now junk (c : extent_client.t) s e :
  (forall f, c !! e = Some f -> entry_ok G s e f /\ extent_client.is_removed f = false) ->
  exists s', dorelease now junk c s e = Ret (delete e c, s') /\ (forall e', e' <> e -> s' !! e' = s !! e') /\
    sdata <$> s' !! e = match c !! e with Some f => Some (cdata f) | None => sdata <$> s !! e end.
Proof.
  intros Hf. unfold dorelease, extent_client.flush. destruct (c !! e) as [f|] eqn:Ef.
  - destruct (Hf f eq_refl) as [[_ Hok] ->]. destruct (extent_client.is_dirty f).
    + pose proof (server_put_other now junk s e (extent_client.file_content f)) as H1.
      pose proof (server_put_same now junk s e (extent_client.file_content f)) as H2. rewrite <- Hok in H2.
      unfold extent_server.put in *. destruct (s !! e); rsimpl; (eexists; split; [done|]; split; [exact H1|exact H2]).
    + rsimpl. by exists s.
  - rsimpl. exists s. by rewrite delete_id.
Qed.

(** The client [c] of the caller and the client [ch] of the holder, at the end. *)
Definition caller_after (c : Clt.t) (l : Z) : Clt.t :=
  let c := Clt.set_status (Clt.acquire_enter c l) l Clt.ACQUIRING in
  Clt.set_retry (Clt.set_status (Clt.set_status (Clt.retry_handler c l) l Clt.ACQUIRING) l Clt.LOCKED) l false.
Definition holder_after (ch : Clt.t) (l : Z) : Clt.t :=
  Clt.Mk (<[l := Clt.NONE]> (Clt.lock_map ch)) (Clt.retry_map ch) [] false.

(** The five steps, one by one. *)
Lemma acquire_step_queued w c l lk h m rm cm :
  lclts w !! me w = Some c -> Clt.lock_map (Clt.acquire_enter c l) !! l = Some Clt.NONE ->
  lsrv w = Srv.Mk false m [] [] cm -> m !! l = Some lk -> lk = Srv.LockStatus Srv.LOCKED [] h rm -> Srv.revoked lk h = false ->
  acquire_step l w =
    Ret (set_locks w (Srv.Mk false (<[l := Srv.LockStatus Srv.LOCKED [me w] h (<[h := true]> rm)]> m) [] [(h, l)] cm)
           (me w) (Clt.set_status (Clt.acquire_enter c l) l Clt.ACQUIRING), Clt.WaitRetry).
Proof.
  intros Ec E1 Es El -> Hr. unfold acquire_step, Clt.must_call, Clt.acquire_turn. rewrite Ec. ssimpl.
  rewrite E1, bool_decide_eq_true_2, Es by done. unfold ask, Srv.acquire. cbn [Srv.statusMutex Srv.lock_status_map].
  rewrite El. cbn [Srv.status Srv.lock_client]. by rewrite Hr.
Qed.

Lemma revoker_step_free w h l ch m cm :
  lsrv w = Srv.Mk false m [] [(h, l)] cm -> lclts w !! h = Some ch -> Clt.lock_map ch !! l = Some Clt.FREE ->
  Clt.revoke_list ch = [] ->
  revoker_step w = Ret (set_locks w (Srv.Mk false m [] [] cm) h
    (Clt.Mk (<[l := Clt.RELEASING]> (Clt.lock_map ch)) (Clt.retry_map ch) [l] true), h).
Proof.
  intros Es Ech Hf Hr. unfold revoker_step, Srv.revoker. rewrite Es. ssimpl. rewrite Ech. ssimpl.
  unfold Clt.revoke_handler. by rewrite Hf, Hr.
Qed.

Lemma releaser_step_one w h l ch m cm lk i rm xc xs :
  lsrv w = Srv.Mk false m [] [] cm -> m !! l = Some lk -> lk = Srv.LockStatus Srv.LOCKED [i] h rm ->
  lclts w !! h = Some ch -> Clt.lock_map ch !! l = Some Clt.RELEASING -> Clt.revoke_list ch = [l] ->
  dorelease (times w 0).1 (times w 0).2 (xcache w h) (xsrv w) l = Ret (xc, xs) ->
  releaser_step h w = Ret (set_extents (set_locks w
      (Srv.Mk false (<[l := Srv.LockStatus Srv.OPEN [] [] (<[h := false]> rm)]> m) [(i, l)] [] cm) h
      (Clt.Mk (<[l := Clt.NONE]> (Clt.lock_map ch)) (Clt.retry_map ch) [] false)) h xc xs).
Proof.
  intros Es El -> Ech Hl Hr Hx. unfold releaser_step, Clt.releaser. rewrite Ech. ssimpl. rewrite Hr.
  cbn [Clt.releaser_scan]. rewrite Hl. ssimpl. rewrite Hx. ssimpl. unfold Srv.release. rewrite Es.
  cbn [Srv.lock_status_map Srv.statusMutex]. by rewrite El.
Qed.

Lemma retryer_step_one w i l c m cm :
  lsrv w = Srv.Mk false m [(i, l)] [] cm -> lclts w !! i = Some c ->
  retryer_step w = Ret (set_locks w (Srv.Mk false m [] [] cm) i (Clt.retry_handler c l)).
Proof. intros Es Ec. unfold retryer_step, Srv.retryer. rewrite Es. ssimpl. by rewrite Ec. Qed.

Lemma retry_step_granted w l c m cm lk rm :
  lsrv w = Srv.Mk false m [] [] cm -> m !! l = Some lk -> lk = Srv.LockStatus Srv.OPEN [] [] rm ->
  lclts w !! me w = Some c -> Clt.retry_arrived c l = true ->
  retry_step l w = Ret (set_locks w
      (Srv.Mk false (<[l := Srv.LockStatus Srv.LOCKED [] (me w) (<[me w := false]> rm)]> m) [] [] cm) (me w)
      (Clt.set_retry (Clt.set_status (Clt.set_status c l Clt.ACQUIRING) l Clt.LOCKED) l false), Clt.Acquired).
Proof.
  intros Es El -> Ec Ha. unfold retry_step, Clt.retry_turn. rewrite Ec. ssimpl. rewrite Ha. unfold ask, Srv.acquire.
  rewrite Es. cbn [Srv.lock_status_map Srv.statusMutex]. rewrite El. cbn [Srv.status Srv.waiting_client].
  rewrite bool_decide_eq_false_2 by naive_solver. ssimpl.
  change (Clt.retry_arrived (Clt.set_status c l Clt.ACQUIRING) l) with (Clt.retry_arrived c l). by rewrite Ha.
Qed.

Lemma hand_over_runs G H w l h c ch lk xs :
  calm G H w -> l ∉ H -> h <> me w -> lclts w !! me w = Some c -> lclts w !! h = Some ch ->
  Srv.lock_status_map (lsrv w) !! l = Some lk -> Srv.lock_client lk = h ->
  dorelease (times w 0).1 (times w 0).2 (xcache w h) (xsrv w) l = Ret (delete l (xcache w h), xs) ->
  exists s lk', lock_acquire l w =
      Ret (Shared s (<[me w := caller_after c l]> (<[h := holder_after ch l]> (lclts w)))
             (<[h := delete l (xcache w h)]> (xclts w)) xs (me w) (fun n => times w (S n))) /\
    s = Srv.Mk false (<[l := lk']> (Srv.lock_status_map (lsrv w))) [] [] (Srv.client_map (lsrv w)) /\
    Srv.lock_client lk' = me w /\ lock_calm lk'.
Proof.
  intros Hc Hl Hne Ec Ech El Hlk Hx.
  pose proof (cm_clients _ _ _ Hc _ _ Ec) as Hok. pose proof (cm_clients _ _ _ Hc _ _ Ech) as Hokh.
  assert (holder w l = Some h) as Hh by (unfold holder; rewrite El; simpl; congruence).
  destruct (caller_enters _ _ c l Hok ltac:(congruence)) as (E1 & _ & _ & _).
  pose proof (co_own _ _ _ Hokh l Hh) as Hfree. rewrite decide_False in Hfree by done.
  destruct (cm_locks _ _ _ Hc l lk El) as (Hst & Hwait & Hrev). rewrite Hlk in Hrev.
  assert (lsrv w = Srv.Mk false (Srv.lock_status_map (lsrv w)) [] [] (Srv.client_map (lsrv w))) as Es.
  { pose proof (cm_mutex _ _ _ Hc). pose proof (cm_retry _ _ _ Hc). pose proof (cm_revoke _ _ _ Hc).
    destruct (lsrv w); simpl in *; by subst. }
  assert (lk = Srv.LockStatus Srv.LOCKED [] h (Srv.revoke_map lk)) as Elk by (destruct lk; simpl in *; by subst).
  unfold lock_acquire. rewrite (acquire_step_queued w c l lk h _ _ _ Ec E1 Es El Elk Hrev). ssimpl.
  erewrite (revoker_step_free _ h l ch); [|reflexivity|by rewrite lclts_set, decide_False|done|apply Hokh]. ssimpl.
  erewrite (releaser_step_one _ h l);
    [|reflexivity|apply lookup_insert_eq|reflexivity|by rewrite lclts_set, decide_True|simpl; apply lookup_insert_eq|done|exact Hx].
  ssimpl.
  erewrite (retryer_step_one _ (me w) l);
    [|reflexivity|unfold set_extents; cbn [lclts]; rewrite !lclts_set, !decide_False, decide_True by done; reflexivity].
  ssimpl.
  erewrite (retry_step_granted _ l);
    [|reflexivity|apply lookup_insert_eq|reflexivity|by rewrite lclts_set, decide_True
     |unfold Clt.retry_arrived; simpl; by rewrite lookup_insert_eq]. ssimpl.
  do 2 eexists. split; [|split; [reflexivity|split]].
  - unfold set_locks, set_extents, holder_after, caller_after. cbn [lclts lsrv xclts xsrv me times]. do 2 f_equal.
    + by rewrite !insert_insert_eq.
    + rewrite !insert_insert_eq, (insert_insert_ne _ h (me w)), insert_insert_eq by done.
      cbn [Clt.lock_map Clt.retry_map]. by rewrite !insert_insert_eq.
  - done.
  - split_and!; [done|done|]. unfold Srv.revoked. simpl. by rewrite lookup_insert_eq.
Qed.

Lemma caller_after_ok own own' H c l :
  client_ok own H c -> ~ own l -> (forall lid, own' lid <-> lid = l \/ own lid) -> client_ok own' (l :: H) (caller_after c l).
Proof.
  intros Hok Hl Ho. destruct (caller_enters own H c l Hok Hl) as (_ & E2 & E3 & E4).
  eapply client_ok_take; [exact Hok| | |done| |exact Ho].
  - intros lid Hne. simpl. rewrite !lookup_insert_ne by done. by apply E2.
  - simpl. by rewrite lookup_insert_eq.
  - intros lid. unfold Clt.retry_arrived. simpl. destruct (decide (lid = l)) as [->|Hne]; [by rewrite lookup_insert_eq|].
    rewrite !lookup_insert_ne by done. apply E4.
Qed.

Lemma holder_after_ok own own' H ch l :
  client_ok own H ch -> (forall lid, own' lid <-> lid <> l /\ own lid) -> client_ok own' (l :: H) (holder_after ch l).
Proof.
  intros Hok Ho. eapply client_ok_give; [exact Hok| | |done|apply Hok|exact Ho].
  - intros lid Hne. simpl. by rewrite lookup_insert_ne.
  - simpl. by rewrite lookup_insert_eq.
Qed.

Lemma acquire_other G H w l h :
  me w ∈ dom (lclts w) -> calm G H w -> l ∉ H -> holder w l = Some h -> h <> me w -> avail w l ->
  exists w', lock_acquire l w = Ret w' /\ taken G H w w' l.
Proof.
  intros Hm Hc Hl Hh Hne Hav. destruct (holder_inv w l h Hh) as (lk & El & Hlk).
  pose proof Hm as [c Ec]%elem_of_dom. destruct (cm_there _ _ _ Hc l h Hh) as [ch Ech].
  destruct (dorelease_ok G (times w 0).1 (times w 0).2 (xcache w h) (xsrv w) l) as (xs & Ex & Hxo & Hxl).
  { intros f Ef. split; [exact (proj2 (cm_cache _ _ _ Hc h l f Ef))|by apply (Hav h)]. }
  destruct (hand_over_runs G H w l h c ch lk xs Hc Hl Hne Ec Ech El Hlk Ex) as (s & lk' & E & Es & Hme & Hcalm).
  rewrite E. eexists. split; [reflexivity|].
  match goal with |- taken _ _ _ ?x _ => set (w' := x) end.
  assert (acquired w w' l) as Ha.
  { split; [done|by subst s..| |].
    - exists lk'. unfold w'. rewrite Es. simpl. by rewrite lookup_insert_eq.
    - intros lid Hd. unfold w'. rewrite Es. simpl. by rewrite lookup_insert_ne. }
  assert (forall lid, holder w' lid = if decide (lid = l) then Some (me w) else holder w lid) as Hho
    by (intros lid; by apply acquired_holder).
  assert (forall id, xcache w' id = if decide (id = h) then delete l (xcache w h) else xcache w id) as Hx'
    by (intros id; apply (xcache_set w h (delete l (xcache w h)) xs)).
  assert (dom (lclts w') = dom (lclts w)) as Hdom.
  { unfold w'. simpl. rewrite !dom_insert_L. apply elem_of_dom_2 in Ech. set_solver. }
  split; [done|]. split; [done|]. split; [|split].
  - eapply acquired_calm; [exact Hm|exact Hc|done|exact Ha| | |].
    + exact Hdom.
    + intros id c0. unfold w' at 1. cbn [lclts]. rewrite lookup_insert. case_decide as E1; [|rewrite lookup_insert; case_decide as E2].
      * subst id. intros [= <-]. eapply caller_after_ok; [by apply (cm_clients _ _ _ Hc)|simpl; congruence|].
        intros lid. rewrite Hho. case_decide; naive_solver.
      * subst id. intros [= <-]. eapply holder_after_ok; [by apply (cm_clients _ _ _ Hc)|].
        intros lid. rewrite Hho. case_decide; naive_solver.
      * intros Eco. eapply client_ok_mono; [by apply (cm_clients _ _ _ Hc)| |].
        -- intros lid. rewrite Hho. case_decide; naive_solver.
        -- intros lid Hown. rewrite elem_of_cons. naive_solver.
    + intros id e f. rewrite Hx', Hho. change (xsrv w') with xs. intros Ef.
      assert (e <> l /\ xcache w id !! e = Some f) as [Hel Ef'].
      { case_decide as Eid; [subst id; apply lookup_delete_Some in Ef; naive_solver|]. split; [|done]. intros ->.
        apply (cm_cache _ _ _ Hc) in Ef as [Ef _]. congruence. }
      destruct (cm_cache _ _ _ Hc id e f Ef') as [H1 H2]. rewrite decide_False by done. split; [done|].
      unfold entry_ok in *. by rewrite Hxo.
  - intros [l'| |e|e]; try done. intros Hal i f Hi. rewrite Hx'. case_decide as Eid; [|by apply Hal].
    subst i. intros [_ Ef]%lookup_delete_Some. by apply (Hal h f).
  - intros e. unfold shared_view. rewrite Hho. change (xsrv w') with xs. case_decide as Ee.
    + subst e. rewrite Hh, Hx', decide_False by done. rewrite Hxl.
      destruct (xcache w (me w) !! l) as [f|] eqn:Ef; [apply (cm_cache _ _ _ Hc) in Ef as [Ef _]; congruence|done].
    + rewrite Hxo by done. destruct (holder w e) as [i|]; [|done]. rewrite Hx'. case_decide; [subst i|done].
      by rewrite lookup_delete_ne.
Qed.

Lemma shared_acquire D G w l tr :
  shared_allowed D G w (YAcquire l :: tr) ->
  exists w', lc_acquire l w = Ret w' /\ shared_allowed D G w' tr /\ forall e', shared_view w' e' = shared_view w e'.
Proof.
  intros (Hm & H & Hc & Hd & Hp). cbn [disciplined] in Hd. bool_prop. apply Forall_cons in Hp as [Hav Hp]. simpl in Hav.
  assert (exists w', lock_acquire l w = Ret w' /\ taken G H w w' l) as (w' & E & Hme & Hdom & Hc' & Hp' & Hv).
  { destruct Hm as [<- Hm]. destruct (holder w l) as [h|] eqn:Hh; [destruct (decide (h = me w)) as [->|Hne]|].
    - by apply acquire_own.
    - by eapply acquire_other.
    - by apply acquire_new. }
  exists w'. split; [exact E|]. split; [|done]. eapply allowed_step; try done. unfold serving. by rewrite Hdom, Hme.
Qed.

Lemma shared_release D G w l tr :
  shared_allowed D G w (YRelease l :: tr) ->
  exists w', lc_release l w = Ret w' /\ shared_allowed D G w' tr /\ forall e', shared_view w' e' = shared_view w e'.
Proof.
  intros (Hm & H & Hc & Hd & Hp). cbn [disciplined] in Hd. destruct H as [|h H]; [done|]. bool_prop. subst h.
  apply Forall_cons in Hp as [_ Hp]. simpl. unfold lock_release, Clt.release. destruct Hm as [<- Hm].
  pose proof Hm as [c Ec]%elem_of_dom. pose proof (cm_clients _ _ _ Hc _ _ Ec) as Hok. rewrite Ec. ssimpl.
  pose proof (cm_held _ _ _ Hc l ltac:(set_solver)) as Hme. pose proof (cm_nodup _ _ _ Hc) as [HlH Hnd]%NoDup_cons.
  rewrite (co_own _ _ _ Hok l Hme), (co_revokes _ _ _ Hok), bool_decide_eq_false_2 by set_solver. ssimpl.
  eexists. split; [reflexivity|]. split; [|done].
  split; [split; [|done]; simpl; rewrite dom_insert_L; set_solver|]. exists H. split; [|by split]. split; try apply Hc.
  - intros lid h Hh. rewrite lclts_set. case_decide; [done|]. by eapply (cm_there _ _ _ Hc).
  - intros id c0. rewrite lclts_set. change (holder (set_locks _ _ _ _)) with (holder w). case_decide as Eid.
    + subst id. intros [= <-]. destruct Hok as [Hrl Hra Ho Hn]. split; [done|done| |].
      * intros lid Hown. simpl. destruct (decide (lid = l)) as [->|Hne]; [by rewrite lookup_insert_eq, decide_False|].
        rewrite lookup_insert_ne, Ho by done. do 2 case_decide; set_solver.
      * intros lid Hown. simpl. rewrite lookup_insert_ne by congruence. by apply Hn.
    + intros Eco. eapply client_ok_mono; [by apply (cm_clients _ _ _ Hc)|done|]. intros lid Hown.
      rewrite elem_of_cons. split; [intros [-> |?]; [congruence|done]|auto].
  - exact Hnd.
  - intros lid Hin. apply (cm_held _ _ _ Hc). set_solver.
Qed.

(** The laws hold of the shared world, for any bound [G] on what is removed. *)
#[refine] Definition shared_laws (D : gset str) (G : Z -> Prop) : ExtentLaws shared :=
  {| view := shared_view; allowed := shared_allowed D G |}.
Proof.
  - apply shared_get.
  - intros w e a b n Hv. by eapply shared_getattr.
  - apply shared_put.
  - intros w e. apply shared_remove.
  - apply shared_acquire.
  - apply shared_release.
Defined.

(** ** Sessions: processes mount the file system, and requests reach them *)
Inductive sevent := Mount (id : str) | At (id : str) (r : request).

Definition become (id : str) (w : shared) : shared := Shared (lsrv w) (lclts w) (xclts w) (xsrv w) id (times w).

(** The constructor of the lock client. *)
Definition attach_step (id : str) (w : shared) : res shared :=
  '(s, _) ← waited (Srv.attach (lsrv w) id);
  Ret (set_locks w s id Clt.new).

Definition run_at {A} (f : shared -> res shared) (m : Y shared A) : Y shared A := fun w =>
  s ← f (store w); m (Yworld s (trace w)).

Fixpoint serve_all (evs : list sevent) : Y shared (list answer) :=
  match evs with
  | [] => mret []
  | Mount id :: evs => (run_at (fun w => attach_step id (become id w)) yfs_client_new);; serve_all evs
  | At id r :: evs => y ← (run_at (fun w => Ret (become id w)) (run_request r)); ys ← serve_all evs; mret (y :: ys)
  end.

(** One abstract file system: a mount empties the root, whoever makes it; a
    request is answered as if there were no other process.  Outside are requests
    to processes that are not there, a second mount under the same id, and the
    use of an extent after it was removed. *)
Fixpoint fs_shared (a : fs) (ids : gset str) (gone : gset Z) (evs : list sevent) : option (list answer * fs) :=
  match evs with
  | [] => Some ([], a)
  | Mount id :: evs =>
      if bool_decide ((id ∉ ids) /\ (1 ∉ gone)) then fs_shared (<[1 := Dir []]> a) ({[id]} ∪ ids) gone evs else None
  | At id r :: evs =>
      if bool_decide (id ∈ ids /\ touched_by a r ## gone) then
        '(y, a') ← fs_step a r;
        '(ys, a'') ← fs_shared a' ids (gone ∪ removed_by a r) evs;
        Some (y :: ys, a'')
      else None
  end.

Lemma become_calm G id w : calm G [] w -> calm G [] (become id w).
Proof. intros [? ? ? ? ? ? ? ? ?]. split; try done. intros lid Hl. by apply elem_of_nil in Hl. Qed.

Lemma calm_mono (G G' : Z -> Prop) H w : (forall e, G e -> G' e) -> calm G H w -> calm G' H w.
Proof.
  intros HG [? ? ? ? ? ? ? ? Hca]. split; try done. intros id e f Ef. destruct (Hca id e f Ef) as (? & Hr & ?).
  split; [done|]. split; [auto|done].
Qed.

(** A new lock client has no locks. *)
Lemma attach_calm G id w :
  calm G [] w -> lclts w !! id = None ->
  exists w', attach_step id w = Ret w' /\ calm G [] w' /\ me w' = me w /\ dom (lclts w') = {[id]} ∪ dom (lclts w) /\
    (forall e, shared_view w' e = shared_view w e) /\ forall e, 1 = e -> avail w e -> avail w' e.
Proof.
  intros Hc Hid. unfold attach_step, Srv.attach. rewrite (cm_mutex _ _ _ Hc). ssimpl. eexists. split; [reflexivity|].
  split; [|split_and!; [done|simpl; by rewrite dom_insert_L|done|done]].
  assert (forall lid, holder w lid <> Some id) as Hnone.
  { intros lid Hl. apply (cm_there _ _ _ Hc) in Hl as [c Hl]. congruence. }
  split; try apply Hc; [done| |].
  - intros lid h Hh. rewrite lclts_set. case_decide; [done|]. by eapply (cm_there _ _ _ Hc).
  - intros i c. rewrite lclts_set. case_decide as Ei; [|apply (cm_clients _ _ _ Hc)]. subst i. intros [= <-].
    split; [done|done| |by left]. intros lid Hl. by destruct (Hnone lid).
Qed.

(** Between two events. *)
Definition settled (w : shared) (a : fs) (ids : gset str) (gone : gset Z) : Prop :=
  calm (fun e => e ∈ gone) [] w /\ dom (lclts w) = ids /\ (forall e, shared_view w e = repv a e) /\ fs_wf a.

(** The extents a request touches are available when none of them was removed. *)
Lemma within_permitted (gone T R : gset Z) H w tr :
  calm (fun e => e ∈ gone) H w -> T ## gone -> within T R tr -> Forall (permitted (fun e => e ∈ gone ∪ R) w) tr.
Proof.
  intros Hc Ht Hw. eapply Forall_impl; [exact Hw|]. intros [l| |e|e]; simpl; [|done|done|set_solver].
  intros Hl h f _ Ef. destruct (extent_client.is_removed f) eqn:Er; [|done].
  destruct (cm_cache _ _ _ Hc h l f Ef) as (_ & Hg & _). set_solver.
Qed.

(** Code that runs as the laws say, in a settled world. *)
Lemma settled_run {A} (m : Y shared A) (w : shared) (ids : gset str) (gone T R : gset Z) tr (y : A) v tr0 :
  calm (fun e => e ∈ gone) [] w -> dom (lclts w) = ids -> me w ∈ ids -> T ## gone ->
  disciplined [] tr = true -> within T R tr ->
  does (H0 := shared_laws ids (fun e => e ∈ gone ∪ R)) m w y tr v ->
  exists w', m (Yworld w tr0) = Ret (y, Yworld w' (tr0 ++ tr)) /\ calm (fun e => e ∈ gone ∪ R) [] w' /\
    dom (lclts w') = ids /\ forall e, shared_view w' e = v e.
Proof.
  intros Hc Hd Hm Ht Hdi Hw Hdo. destruct (Hdo tr0 []) as (w' & E & Hal & Hv).
  - rewrite app_nil_r. split; [done|]. exists []. split_and!; [|done|by eapply within_permitted].
    eapply calm_mono; [|exact Hc]. set_solver.
  - destruct Hal as ([Hd' _] & H & Hc' & HH & _). simpl in HH. bool_prop. subst H. by exists w'.
Qed.

Lemma mount_settled id w a ids gone tr0 :
  settled w a ids gone -> id ∉ ids -> 1 ∉ gone ->
  exists w' tr, run_at (fun w => attach_step id (become id w)) yfs_client_new (Yworld w tr0) = Ret (tt, Yworld w' tr) /\
    settled w' (<[1 := Dir []]> a) ({[id]} ∪ ids) gone.
Proof.
  intros (Hc & Hd & Hv & Hw) Hid H1. unfold run_at. cbn [store trace].
  destruct (attach_calm _ id (become id w) (become_calm _ _ _ Hc)) as (w1 & -> & Hc1 & Hm1 & Hd1 & Hv1 & _).
  { apply not_elem_of_dom. simpl. by rewrite Hd. }
  ssimpl. pose proof (does_mount (H0 := shared_laws ({[id]} ∪ ids) (fun e => e ∈ gone ∪ ∅)) w1) as Hdo.
  destruct (settled_run yfs_client_new w1 ({[id]} ∪ ids) gone {[1]} ∅ mount_trace tt
      (fun e => if decide (e = 1) then Some (with_size []) else shared_view w1 e) tr0) as (w2 & E & Hc2 & Hd2 & Hv2).
  - done.
  - rewrite Hd1. simpl. by rewrite Hd.
  - rewrite Hm1. simpl. set_solver.
  - set_solver.
  - reflexivity.
  - repeat constructor.
  - exact Hdo.
  - exists w2, (tr0 ++ mount_trace). split; [exact E|]. split_and!; [|done| |].
    + eapply calm_mono; [|exact Hc2]. set_solver.
    + intros e. rewrite Hv2, repv_insert. case_decide; [done|]. rewrite Hv1. apply Hv.
    + apply fs_wf_insert; [done|]. intros d [= <-]. repeat constructor.
Qed.

Lemma request_settled id r w a ids gone y a' tr0 :
  settled w a ids gone -> id ∈ ids -> touched_by a r ## gone -> fs_step a r = Some (y, a') ->
  exists w' tr, run_at (fun w => Ret (become id w)) (run_request r) (Yworld w tr0) = Ret (y, Yworld w' tr) /\
    settled w' a' ids (gone ∪ removed_by a r).
Proof.
  intros (Hc & Hd & Hv & Hw) Hid Ht E. unfold run_at. cbn [store trace]. ssimpl.
  destruct (step_refines (H0 := shared_laws ids (fun e => e ∈ gone ∪ removed_by a r)) (become id w) a r y a' Hv Hw E)
    as (tr & Hdi & Hwi & Hdo).
  destruct (settled_run (run_request r) (become id w) ids gone (touched_by a r) (removed_by a r) tr y (repv a') tr0)
    as (w' & E' & Hc' & Hd' & Hv'); [by apply become_calm|done|done|done|done|done|done|].
  exists w', (tr0 ++ tr). split; [exact E'|]. split_and!; [done|done|done|]. by eapply fs_step_wf.
Qed.

Lemma serve_all_ok evs : forall w a ids gone ys a' tr0,
  settled w a ids gone -> fs_shared a ids gone evs = Some (ys, a') ->
  exists w' tr, serve_all evs (Yworld w tr0) = Ret (ys, Yworld w' tr) /\ (forall e, shared_view w' e = repv a' e) /\ fs_wf a'.
Proof.
  induction evs as [|[id|id r] evs IH]; intros w a ids gone ys a' tr0 Hs E; cbn [fs_shared] in E.
  - injection E as <- <-. destruct Hs as (_ & _ & Hv & Hw). by exists w, tr0.
  - case_bool_decide as Hok; [|done]. destruct Hok as [Hid H1].
    destruct (mount_settled id w a ids gone tr0 Hs Hid H1) as (w1 & t1 & E1 & Hs1).
    destruct (IH w1 _ _ _ ys a' t1 Hs1 E) as (w2 & t2 & E2 & Hr). exists w2, t2. split; [|done].
    cbn [serve_all]. unfold mbind, Y_bind. by rewrite E1.
  - case_bool_decide as Hok; [|done]. destruct Hok as [Hid Ht].
    destruct (fs_step a r) as [[y a1]|] eqn:Ea; [|done]. simpl in E.
    destruct (fs_shared a1 ids _ evs) as [[ys' a2]|] eqn:Eb; [|done]. injection E as <- <-.
    destruct (request_settled id r w a ids gone y a1 tr0 Hs Hid Ht Ea) as (w1 & t1 & E1 & Hs1).
    destruct (IH w1 _ _ _ ys' a2 t1 Hs1 Eb) as (w2 & t2 & E2 & Hr). exists w2, t2. split; [|done].
    cbn [serve_all]. unfold mbind, Y_bind. rewrite E1. by rewrite E2.
Qed.

(** Nothing has started yet but the two servers. *)
Definition shared_new (clk : nat -> Z * Z) : shared := Shared Srv.new ∅ ∅ ∅ [] clk.

Lemma shared_new_settled clk : settled (shared_new clk) ∅ ∅ ∅.
Proof.
  split_and!; [|done| |done].
  - split; try done; try apply NoDup_nil_2; intros; simplify_map_eq; try (by apply elem_of_nil in H);
      unfold xcache in *; simpl in *; by simplify_map_eq.
  - intros e. unfold shared_view, holder, repv. simpl. by rewrite !lookup_empty.
Qed.

End shared.

(** ** Two clients *)
Module YfsSharedExample.
#[local] Instance zeros : Allocator := fun _ => Ascii.zero.

Definition c1 : str := S! "10.0.0.1:3001".
Definition c2 : str := S! "10.0.0.2:3002".
Definition foo : Z := generate_file_inum 5.

(** The first creates a file and writes to it, the second finds and reads it,
    writes to it and removes another one, the first reads again. *)
Definition events : list sevent :=
  [Mount c1; Mount c2; At c1 (RCreate 1 (S! "foo") 5); At c1 (RWrite foo (S! "hello" ++ [Ascii.zero]) 5 0);
   At c2 (RLookup 1 (S! "foo")); At c2 (RRead foo 0 5); At c2 (RWrite foo (S! "J" ++ [Ascii.zero]) 1 0);
   At c2 (RCreate 1 (S! "bar") 6); At c1 (RRead foo 0 9); At c1 (RUnlink 1 (S! "bar")); At c2 (RReaddir 1)].
Definition answers : list answer :=
  [AStatus OK (Some foo); ADone; AStatus OK (Some foo); ABytes (S! "hello"); ADone;
   AStatus OK (Some (generate_file_inum 6)); ABytes (S! "Jello"); AStatus OK None; AEntries [(S! "foo", foo)]].
Definition final : fs := default ∅ (snd <$> fs_shared ∅ ∅ ∅ events).

Lemma shared_events_ok : fs_shared ∅ ∅ ∅ events = Some (answers, final).
Proof. vm_compute. reflexivity. Qed.

End YfsSharedExample.
