(* ===== verification/Posix.v ===== *)
(** * Programs that use a file system, and what POSIX promises them

    A program is a tree of system calls.  The kernel and the file system under it
    are a parameter, [sysc]; what the programs rely on is the relation [posix]:
    the replies POSIX allows and what they leave, on files of one file system that
    may be mounted at several places ([resolve] gives the name of a path inside
    it).  The last part is a small rely-guarantee logic: a program keeps its
    promise while another one, of which it knows only what it leaves alone, runs
    at the same time. *)

From S2P Require Import Prelude.
From S2P Require Import Directory YfsClient YfsFs.

Definition O_RDONLY : Z := 0.
Definition O_WRONLY : Z := 1.
Definition O_CREAT : Z := 64.
Definition O_APPEND : Z := 1024.
Definition E_NOENT : Z := 2.
Definition E_EXIST : Z := 17.

Inductive sys :=
  | Creat (path : str)
  | Open (path : str) (flags : Z)
  | Write (fd : Z) (data : str)
  | Read (fd n : Z)
  | Close (fd : Z)
  | Lseek (fd off : Z)
  | Fsync (fd : Z)
  | Unlink (path : str)
  | Mkdir (path : str)
  | Access (path : str)
  | Readdir (path : str).            (* [opendir], [readdir] to the end, [closedir] *)

Inductive sreply := Ok (n : Z) | Err (errno : Z) | Data (b : str) | Names (l : list str).

(** A program: a result, [exit] with a code, undefined behaviour, or a call. *)
Inductive prog (A : Type) : Type :=
  | Done (a : A)
  | Exit (code : Z)
  | Ub
  | Call (c : sys) (k : sreply -> prog A).
Arguments Done {A} _.
Arguments Exit {A} _.
Arguments Ub {A}.
Arguments Call {A} _ _.

#[export] Instance prog_ret : MRet prog := fun A a => Done a.
#[export] Instance prog_bind : MBind prog := fun A B f =>
  fix go (m : prog A) : prog B :=
    match m with
    | Done a => f a
    | Exit n => Exit n
    | Ub => Ub
    | Call c k => Call c (fun r => go (k r))
    end.

(** A call, and the [int] it returns: -1 on an error. *)
Definition sys_call (c : sys) : prog sreply := Call c Done.
Definition ret (r : sreply) : Z :=
  match r with Ok n => n | Err _ => -1 | Data b => Z.of_nat (length b) | Names l => Z.of_nat (length l) end.
Definition errno (r : sreply) : Z := match r with Err e => e | _ => 0 end.

(** ** One program alone, and two at the same time *)
Section run.
Context {W : Type} (sysc : Z -> sys -> W -> sreply * W).

Fixpoint run {A} (p : Z) (m : prog A) (w : W) : option A * W :=
  match m with
  | Done a => (Some a, w)
  | Exit _ | Ub => (None, w)
  | Call c k => let '(r, w) := sysc p c w in run p (k r) w
  end.

(** The parent is process 0, the child process 1.  The scheduler says who makes
    the next call; one that is done makes none.  [Some true] when both are done,
    [Some false] when one of them failed, [None] when more than [n] calls are
    made. *)
Fixpoint par (n : nat) (sched : nat -> bool) (m0 m1 : prog unit) (w : W) : option (bool * W) :=
  match n with
  | O => None
  | S n =>
      let next := fun i => sched (S i) in
      match m0, m1 with
      | Done _, Done _ => Some (true, w)
      | (Exit _ | Ub), _ | _, (Exit _ | Ub) => Some (false, w)
      | Call c k, Done _ => let '(r, w) := sysc 0 c w in par n next (k r) m1 w
      | Done _, Call c k => let '(r, w) := sysc 1 c w in par n next m0 (k r) w
      | Call c0 k0, Call c1 k1 =>
          if sched 0%nat then let '(r, w) := sysc 1 c1 w in par n next m0 (k1 r) w
          else let '(r, w) := sysc 0 c0 w in par n next (k0 r) m1 w
      end
  end.
End run.

(** ** The file system *)

(** A file by its name inside the file system; an open file by process and
    descriptor: its name, the offset, whether it was opened for appending. *)
Record pfs := Pfs {
  pfiles : gmap str str;
  pdirs : gset str;
  pfds : gmap (Z * Z) (str * nat * bool) }.

Definition set_files (s : pfs) (m : gmap str str) : pfs := Pfs m (pdirs s) (pfds s).
Definition set_fd (s : pfs) (x : Z * Z) (o : option (str * nat * bool)) : pfs :=
  Pfs (pfiles s) (pdirs s) (match o with Some e => <[x := e]> (pfds s) | None => delete x (pfds s) end).

Definition slash : ascii := "/".
Definition in_dir (d f : str) : str := d ++ slash :: f.
(** The names of the files in a directory. *)
Fixpoint strip (pre s : str) : option str :=
  match pre, s with
  | [], _ => Some s
  | c :: pre, c' :: s => if decide (c = c') then strip pre s else None
  | _ :: _, [] => None
  end.
Definition names_in (m : gmap str str) (d : str) : list str := omap (strip (in_dir d [])) (map_to_list m).*1.
Definition hidden (f : str) : bool := match f with c :: _ => bool_decide (c = "."%char) | [] => false end.
Definition visible (l : list str) : list str := filter (fun f => hidden f = false) l.

Section posix.
Context (resolve : str -> str).

Inductive posix (p : Z) : sys -> pfs -> sreply -> pfs -> Prop :=
  | px_creat s path d f fd :
      resolve path = in_dir d f -> d ∈ pdirs s -> 0 <= fd -> pfds s !! (p, fd) = None ->
      posix p (Creat path) s (Ok fd)
        (set_fd (set_files s (<[in_dir d f := []]> (pfiles s))) (p, fd) (Some (in_dir d f, 0%nat, false)))
  | px_open s path fl b fd :
      pfiles s !! resolve path = Some b -> 0 <= fd -> pfds s !! (p, fd) = None ->
      posix p (Open path fl) s (Ok fd) (set_fd s (p, fd) (Some (resolve path, 0%nat, negb (Z.land fl O_APPEND =? 0))))
  | px_open_new s path d f fl fd :
      resolve path = in_dir d f -> d ∈ pdirs s -> pfiles s !! in_dir d f = None -> Z.land fl O_CREAT <> 0 ->
      0 <= fd -> pfds s !! (p, fd) = None ->
      posix p (Open path fl) s (Ok fd)
        (set_fd (set_files s (<[in_dir d f := []]> (pfiles s))) (p, fd)
           (Some (in_dir d f, 0%nat, negb (Z.land fl O_APPEND =? 0))))
  | px_open_none s path fl :
      pfiles s !! resolve path = None -> Z.land fl O_CREAT = 0 -> posix p (Open path fl) s (Err E_NOENT) s
  | px_write s fd data k off app b :
      pfds s !! (p, fd) = Some (k, off, app) -> pfiles s !! k = Some b ->
      let at_ := if (app : bool) then length b else off in
      posix p (Write fd data) s (Ok (Z.of_nat (length data)))
        (set_fd (set_files s (<[k := pwrite b at_ data]> (pfiles s))) (p, fd) (Some (k, at_ + length data, app)%nat))
  | px_read s fd n k off app b :
      pfds s !! (p, fd) = Some (k, off, app) -> pfiles s !! k = Some b ->
      let data := take (Z.to_nat n) (drop off b) in
      posix p (Read fd n) s (Data data) (set_fd s (p, fd) (Some (k, off + length data, app)%nat))
  | px_close s fd e :
      pfds s !! (p, fd) = Some e -> posix p (Close fd) s (Ok 0) (set_fd s (p, fd) None)
  | px_lseek s fd off k off0 app :
      pfds s !! (p, fd) = Some (k, off0, app) -> 0 <= off ->
      posix p (Lseek fd off) s (Ok off) (set_fd s (p, fd) (Some (k, Z.to_nat off, app)))
  | px_fsync s fd e : pfds s !! (p, fd) = Some e -> posix p (Fsync fd) s (Ok 0) s
  | px_unlink s path b :
      pfiles s !! resolve path = Some b -> posix p (Unlink path) s (Ok 0) (set_files s (delete (resolve path) (pfiles s)))
  | px_mkdir s path :
      resolve path ∉ pdirs s -> pfiles s !! resolve path = None ->
      posix p (Mkdir path) s (Ok 0) (Pfs (pfiles s) ({[resolve path]} ∪ pdirs s) (pfds s))
  | px_access s path : resolve path ∈ pdirs s -> posix p (Access path) s (Ok 0) s
  | px_readdir s path l :
      resolve path ∈ pdirs s -> visible l ≡ₚ visible (names_in (pfiles s) (resolve path)) ->
      posix p (Readdir path) s (Names l) s.

(** A kernel and file system that does what POSIX says where POSIX says it. *)
Class Conforms {W : Type} (sysc : Z -> sys -> W -> sreply * W) (abs : W -> pfs) : Prop :=
  conforms : forall p c w, (exists r s', posix p c (abs w) r s') ->
    posix p c (abs w) (sysc p c w).1 (abs (sysc p c w).2).

(** ** Rely and guarantee *)

(** From [s], while others change the state as [R] allows, [m] fails nowhere,
    changes the state as [G] allows, and ends with [Q]. *)
Fixpoint safe {A} (p : Z) (R G : pfs -> pfs -> Prop) (Q : A -> pfs -> Prop) (m : prog A) (s : pfs) : Prop :=
  match m with
  | Done a => forall s1, R s s1 -> Q a s1
  | Exit _ | Ub => False
  | Call c k => forall s1, R s s1 ->
      (exists r s', posix p c s1 r s') /\ forall r s', posix p c s1 r s' -> G s1 s' /\ safe p R G Q (k r) s'
  end.

Section logic.
Context (p : Z) (R G : pfs -> pfs -> Prop) `{!PreOrder R}.

Lemma safe_rely {A} (Q : A -> pfs -> Prop) m s s' : safe p R G Q m s -> R s s' -> safe p R G Q m s'.
Proof.
  destruct m as [a|n| |c k]; simpl; [| | |]; try done.
  - intros H Hr s1 H1. apply H. by transitivity s'.
  - intros H Hr s1 H1. apply H. by transitivity s'.
Qed.

Lemma safe_bind {A B} (Q' : A -> pfs -> Prop) (Q : B -> pfs -> Prop) (m : prog A) (k : A -> prog B) s :
  safe p R G Q' m s -> (forall a s1, Q' a s1 -> safe p R G Q (k a) s1) -> safe p R G Q (m ≫= k) s.
Proof.
  intros Hm Hk. revert s Hm. induction m as [a|n| |c f IH]; intros s Hm; simpl in *; [|done|done|].
  - apply Hk, Hm. reflexivity.
  - intros s1 H1. destruct (Hm s1 H1) as [He Hs]. split; [done|]. intros r s' Hp.
    destruct (Hs r s' Hp) as [Hg Hsafe]. split; [done|]. by apply IH.
Qed.

(** A call whose reply and effect are known. *)
Lemma safe_call {B} (Q : B -> pfs -> Prop) c (k : sreply -> prog B) s :
  (forall s1, R s s1 -> (exists r s', posix p c s1 r s') /\
    forall r s', posix p c s1 r s' -> G s1 s' /\ safe p R G Q (k r) s') ->
  safe p R G Q (sys_call c ≫= k) s.
Proof. done. Qed.

Lemma safe_weaken {A} (Q Q' : A -> pfs -> Prop) m s :
  safe p R G Q m s -> (forall a s1, Q a s1 -> Q' a s1) -> safe p R G Q' m s.
Proof.
  intros Hm HQ. revert s Hm. induction m as [a|n| |c f IH]; intros s Hm; simpl in *; [auto|done|done|].
  intros s1 H1. destruct (Hm s1 H1) as [He Hs]. split; [done|]. intros r s' Hp.
  destruct (Hs r s' Hp) as [Hg Hsafe]. split; [done|]. by apply IH.
Qed.
End logic.

(** ** A safe program, run by a conforming kernel *)
Section soundness.
Context {W : Type} (sysc : Z -> sys -> W -> sreply * W) (abs : W -> pfs) `{!Conforms sysc abs}.

Lemma run_safe {A} p R G (Q : A -> pfs -> Prop) `{!PreOrder R} (m : prog A) : forall w,
  safe p R G Q m (abs w) -> exists a w', run sysc p m w = (Some a, w') /\ Q a (abs w').
Proof.
  induction m as [a|n| |c k IH]; intros w Hm; simpl in *; [|done|done|].
  - exists a, w. split; [done|]. apply Hm. reflexivity.
  - destruct (Hm (abs w) ltac:(reflexivity)) as [He Hs]. pose proof (conforms p c w He) as Hp.
    destruct (sysc p c w) as [r w1]. simpl in Hp. destruct (Hs r _ Hp) as [_ Hsafe]. by apply IH.
Qed.

Lemma safe_step {A} p R G (Q : A -> pfs -> Prop) `{!PreOrder R} c k w :
  safe p R G Q (Call c k) (abs w) ->
  exists r w1, sysc p c w = (r, w1) /\ G (abs w) (abs w1) /\ safe p R G Q (k r) (abs w1).
Proof.
  intros Hm. destruct (Hm (abs w) ltac:(reflexivity)) as [He Hs]. pose proof (conforms p c w He) as Hp.
  destruct (sysc p c w) as [r w1]. exists r, w1. split; [done|]. by apply Hs.
Qed.

(** Two programs that each allow what the other does. *)
Lemma par_safe R0 G0 R1 G1 (Q0 Q1 : unit -> pfs -> Prop) `{!PreOrder R0} `{!PreOrder R1} :
  (forall s s', G0 s s' -> R1 s s') -> (forall s s', G1 s s' -> R0 s s') ->
  forall m0 m1 sched w, safe 0 R0 G0 Q0 m0 (abs w) -> safe 1 R1 G1 Q1 m1 (abs w) ->
  exists n w', par sysc n sched m0 m1 w = Some (true, w') /\ Q0 tt (abs w') /\ Q1 tt (abs w').
Proof.
  intros H01 H10.
  induction m0 as [[]|n| |c0 k0 IH0]; [|intros m1 sched w []|intros m1 sched w []|];
    (induction m1 as [[]|n1| |c1 k1 IH1]; intros sched w Hm0 Hm1; [|done|done|]).
  - exists 1%nat, w. split; [done|]. split; [apply Hm0; reflexivity|apply Hm1; reflexivity].
  - destruct (safe_step 1 R1 G1 Q1 c1 k1 w Hm1) as (r & w1 & E & Hg & Hs).
    destruct (IH1 r (fun i => sched (S i)) w1) as (n & w' & E' & HQ); [eapply safe_rely; [done|exact Hm0|by apply H10]|done|].
    exists (S n), w'. simpl. by rewrite E.
  - destruct (safe_step 0 R0 G0 Q0 c0 k0 w Hm0) as (r & w1 & E & Hg & Hs).
    destruct (IH0 r (Done tt) (fun i => sched (S i)) w1) as (n & w' & E' & HQ);
      [done|eapply safe_rely; [done|exact Hm1|by apply H01]|]. exists (S n), w'. simpl. by rewrite E.
  - destruct (sched 0%nat) eqn:Es.
    + destruct (safe_step 1 R1 G1 Q1 c1 k1 w Hm1) as (r & w1 & E & Hg & Hs).
      destruct (IH1 r (fun i => sched (S i)) w1) as (n & w' & E' & HQ); [eapply safe_rely; [done|exact Hm0|by apply H10]|done|].
      exists (S n), w'. simpl. by rewrite Es, E.
    + destruct (safe_step 0 R0 G0 Q0 c0 k0 w Hm0) as (r & w1 & E & Hg & Hs).
      destruct (IH0 r (Call c1 k1) (fun i => sched (S i)) w1) as (n & w' & E' & HQ);
        [done|eapply safe_rely; [done|exact Hm1|by apply H01]|]. exists (S n), w'. simpl. by rewrite Es, E.
Qed.
End soundness.
End posix.
