(* ===== verification/LabTester.v ===== *)
(** * The file system testers: [test-lab-3-b.c] and [test-lab-3-c.c]

    The programs as trees of system calls ([Posix]); [sleep] and the messages are
    left out.  A test that forks is a pair of programs that run at the same time,
    up to the [reap] of the child; the fork and the [waitpid] themselves succeed. *)

From S2P Require Import Prelude Directory YfsClient YfsFs Posix.

(** [sprintf] into a buffer of 512 bytes. *)
Definition sprintf512 (s : str) : prog str := if Z.of_nat (length s) <? 512 then Done s else Ub.

(** The bytes of an [int] in memory, least significant first. *)
Definition int_bytes (i : Z) : str :=
  [byte_of_Z i; byte_of_Z (Z.shiftr i 8); byte_of_Z (Z.shiftr i 16); byte_of_Z (Z.shiftr i 24)].
Definition int_of_bytes (b : str) : Z :=
  s32 (foldr (fun c acc => Z_of_byte c + 256 * acc) 0 (take 4 b)).

(** A C string ends at its first zero byte. *)
Fixpoint upto0 (s : str) : str :=
  match s with
  | [] => []
  | c :: s => if decide (c = Ascii.zero) then [] else c :: upto0 s
  end.
(** [strncmp(a, b, n) == 0] and [strcmp]. *)
Definition strncmp_eq (a b : str) (n : nat) : bool := bool_decide (take n (upto0 a) = take n (upto0 b)).
Fixpoint strcmp (a b : str) : Z :=
  match a, b with
  | [], [] => 0
  | [], _ :: _ => -1
  | _ :: _, [] => 1
  | x :: a, y :: b =>
      if Z_of_byte x <? Z_of_byte y then -1 else if Z_of_byte y <? Z_of_byte x then 1 else strcmp a b
  end.
Definition strcmp_le (a b : str) : Prop := strcmp a b <= 0.
#[export] Instance strcmp_le_dec a b : Decision (strcmp_le a b).
Proof. unfold strcmp_le. apply _. Defined.

Module test_lab_3_b.

Definition create1 (d f inp : str) : prog unit :=
  n ← sprintf512 (in_dir d f);
  r ← sys_call (Creat n);
  let fd := ret r in
  if fd <? 0 then Exit 1 else
  w ← sys_call (Write fd inp);
  if negb (ret w =? Z.of_nat (length inp)) then Exit 1 else
  c ← sys_call (Close fd);
  if negb (ret c =? 0) then Exit 1 else Done tt.

(** The buffer of [check1] has [bufsize] bytes; the comparison stops after as many
    characters as the name of the file has. *)
Definition check1_with (bufsize : Z) (d f inp : str) : prog unit :=
  n ← sprintf512 (in_dir d f);
  r ← sys_call (Open n O_RDONLY);
  let fd := ret r in
  if fd <? 0 then Exit 1 else
  cc ← sys_call (Read fd (bufsize - 1));
  if negb (ret cc =? Z.of_nat (length inp)) then Exit 1 else
  _ ← sys_call (Close fd);
  let buf := match cc with Data b => b | _ => [] end in
  if negb (strncmp_eq buf inp (length n)) then Exit 1 else Done tt.
Definition check1 : str -> str -> str -> prog unit := check1_with 21000.

Definition unlink1 (d f : str) : prog unit :=
  n ← sprintf512 (in_dir d f);
  r ← sys_call (Unlink n);
  if negb (ret r =? 0) then Exit 1 else Done tt.

Definition checknot (d f : str) : prog unit :=
  n ← sprintf512 (in_dir d f);
  r ← sys_call (Open n O_RDONLY);
  if 0 <=? ret r then Exit 1 else Done tt.

Definition append1 (d f inp : str) : prog unit :=
  n ← sprintf512 (in_dir d f);
  r ← sys_call (Open n (Z.lor O_WRONLY O_APPEND));
  let fd := ret r in
  if fd <? 0 then Exit 1 else
  w ← sys_call (Write fd inp);
  if negb (ret w =? Z.of_nat (length inp)) then Exit 1 else
  c ← sys_call (Close fd);
  if negb (ret c =? 0) then Exit 1 else Done tt.

(** The loop of [write1]. *)
Fixpoint write_bytes (fd : Z) (n : nat) (c : ascii) : prog unit :=
  match n with
  | O => Done tt
  | S n =>
      w ← sys_call (Write fd [c]);
      if negb (ret w =? 1) then Exit 1 else
      s ← sys_call (Fsync fd);
      if negb (ret s =? 0) then Exit 1 else write_bytes fd n c
  end.

Definition write1 (d f : str) (start : Z) (n : nat) (c : ascii) : prog unit :=
  name ← sprintf512 (in_dir d f);
  r ← sys_call (Open name (Z.lor O_WRONLY O_CREAT));
  r ← (if (ret r <? 0) && (errno r =? E_EXIST) then sys_call (Open name O_WRONLY) else Done r);
  let fd := ret r in
  if fd <? 0 then Exit 1 else
  l ← sys_call (Lseek fd start);
  if negb (ret l =? start) then Exit 1 else
  _ ← write_bytes fd n c;
  x ← sys_call (Close fd);
  if negb (ret x =? 0) then Exit 1 else Done tt.

Fixpoint read_bytes (fd : Z) (n : nat) (c : ascii) : prog unit :=
  match n with
  | O => Done tt
  | S n =>
      r ← sys_call (Read fd 1);
      if negb (ret r =? 1) then Exit 1 else
      if negb (match r with Data (xc :: _) => bool_decide (xc = c) | _ => false end) then Exit 1
      else read_bytes fd n c
  end.

Definition checkread (d f : str) (start : Z) (n : nat) (c : ascii) : prog unit :=
  name ← sprintf512 (in_dir d f);
  r ← sys_call (Open name O_RDONLY);
  let fd := ret r in
  if fd <? 0 then Exit 1 else
  l ← sys_call (Lseek fd start);
  if negb (ret l =? start) then Exit 1 else
  _ ← read_bytes fd n c;
  _ ← sys_call (Close fd);
  Done tt.

(** [sprintf(n, "%s/%s-%d", d, prefix, i)]. *)
Definition numbered (prefix : str) (i : nat) : str := prefix ++ S! "-" ++ filename (Z.of_nat i).

(** The loops count up from [i]; [k] turns are left. *)
Fixpoint createn_from (d prefix : str) (possible_dup : bool) (i k : nat) : prog unit :=
  match k with
  | O => Done tt
  | S k =>
      n ← sprintf512 (in_dir d (numbered prefix i));
      r ← sys_call (Creat n);
      let fd := ret r in
      if (fd <? 0) && possible_dup && (errno r =? E_EXIST) then createn_from d prefix possible_dup (S i) k else
      if fd <? 0 then Exit 1 else
      w ← sys_call (Write fd (int_bytes (Z.of_nat i)));
      if negb (ret w =? 4) then Exit 1 else
      c ← sys_call (Close fd);
      if negb (ret c =? 0) then Exit 1 else createn_from d prefix possible_dup (S i) k
  end.
Definition createn (d prefix : str) (nf : nat) (possible_dup : bool) : prog unit := createn_from d prefix possible_dup 0 nf.

Fixpoint checkn_from (d prefix : str) (i k : nat) : prog unit :=
  match k with
  | O => Done tt
  | S k =>
      n ← sprintf512 (in_dir d (numbered prefix i));
      r ← sys_call (Open n O_RDONLY);
      let fd := ret r in
      if fd <? 0 then Exit 1 else
      cc ← sys_call (Read fd 4);
      if negb (ret cc =? 4) then Exit 1 else
      let j := match cc with Data b => int_of_bytes b | _ => -1 end in
      if negb (j =? Z.of_nat i) then Exit 1 else
      _ ← sys_call (Close fd);
      checkn_from d prefix (S i) k
  end.
Definition checkn (d prefix : str) (nf : nat) : prog unit := checkn_from d prefix 0 nf.

Fixpoint unlinkn_from (d prefix : str) (i k : nat) : prog unit :=
  match k with
  | O => Done tt
  | S k =>
      n ← sprintf512 (in_dir d (numbered prefix i));
      r ← sys_call (Unlink n);
      if negb (ret r =? 0) then Exit 1 else unlinkn_from d prefix (S i) k
  end.
Definition unlinkn (d prefix : str) (nf : nat) : prog unit := unlinkn_from d prefix 0 nf.

(** [compar], as an order: the array is sorted with it. *)
Definition compar (l : list str) : list str := merge_sort strcmp_le l.
Fixpoint adjacent_equal (l : list str) : bool :=
  match l with
  | a :: ((b :: _) as t) => (strcmp a b =? 0) || adjacent_equal t
  | _ => false
  end.

(** The array [names] has 1000 places; a further name is written past it. *)
Definition dircheck (d : str) (nf : nat) : prog unit :=
  r ← sys_call (Readdir d);
  match r with
  | Names l =>
      let names := visible l in
      if 1000 <? Z.of_nat (length names) then Ub else
      if negb (Nat.eqb nf (length names)) then Exit 1 else
      if adjacent_equal (compar names) then Exit 1 else Done tt
  | _ => Exit 1
  end.

Definition big : str := replicate (Z.to_nat 20000) "x"%char.
Definition huge : str := replicate (Z.to_nat 131072) "0"%char.

(** A part of [main]: one program, or a child and its parent. *)
Inductive phase := Seq (m : prog unit) | Fork (child parent : prog unit).

(** [main]: its arguments and [getpid()]; [None] when it is used wrongly. *)
Definition main (argv : list str) (pid : Z) : option (list phase) :=
  match argv with
  | [_; a1; a2] =>
      let d1 := in_dir a1 (S! "d" ++ filename pid) in
      let d2 := in_dir a2 (S! "d" ++ filename pid) in
      Some
      [Seq (_ ← sprintf512 d1;
            m ← sys_call (Mkdir d1);
            if negb (ret m =? 0) then Exit 1 else
            _ ← sprintf512 d2;
            a ← sys_call (Access d2);
            if negb (ret a =? 0) then Exit 1 else Done tt);
       (* Create then read *)
       Seq (create1 d1 (S! "f1") (S! "aaa");; check1 d2 (S! "f1") (S! "aaa");; check1 d1 (S! "f1") (S! "aaa"));
       (* Unlink *)
       Seq (unlink1 d2 (S! "f1");; create1 d1 (S! "fx1") (S! "fxx");; unlink1 d1 (S! "fx1");;
            checknot d1 (S! "f1");; checknot d2 (S! "f1");;
            create1 d1 (S! "f2") (S! "222");; unlink1 d2 (S! "f2");; checknot d1 (S! "f2");; checknot d2 (S! "f2");;
            create1 d1 (S! "f3") (S! "333");; check1 d2 (S! "f3") (S! "333");; check1 d1 (S! "f3") (S! "333");;
            unlink1 d1 (S! "f3");; create1 d2 (S! "fx2") (S! "22");; unlink1 d2 (S! "fx2");;
            checknot d2 (S! "f3");; checknot d1 (S! "f3"));
       (* Append *)
       Seq (create1 d2 (S! "f1") (S! "aaa");; append1 d1 (S! "f1") (S! "bbb");; append1 d2 (S! "f1") (S! "ccc");;
            check1 d1 (S! "f1") (S! "aaabbbccc");; check1 d2 (S! "f1") (S! "aaabbbccc"));
       (* Readdir *)
       Seq (dircheck d1 1;; dircheck d2 1;; unlink1 d1 (S! "f1");; dircheck d1 0;; dircheck d2 0;;
            create1 d2 (S! "f2") (S! "aaa");; create1 d1 (S! "f3") (S! "aaa");; dircheck d1 2;; dircheck d2 2;;
            unlink1 d2 (S! "f2");; dircheck d2 1;; dircheck d1 1;;
            unlink1 d2 (S! "f3");; dircheck d1 0;; dircheck d2 0);
       (* Many sequential creates *)
       Seq (createn d1 (S! "aa") 10 false;; createn d2 (S! "bb") 10 false;; dircheck d2 20;;
            checkn d2 (S! "bb") 10;; checkn d2 (S! "aa") 10;; checkn d1 (S! "aa") 10;; checkn d1 (S! "bb") 10;;
            unlinkn d1 (S! "aa") 10;; unlinkn d2 (S! "bb") 10);
       (* Write 20000 bytes *)
       Seq (create1 d1 (S! "bf") big;; check1 d1 (S! "bf") big;; check1 d2 (S! "bf") big;; unlink1 d1 (S! "bf"));
       (* Concurrent creates *)
       Fork (createn d2 (S! "xx") 20 false) (createn d1 (S! "yy") 20 false);
       Seq (dircheck d1 40;; checkn d1 (S! "xx") 20;; checkn d2 (S! "yy") 20;;
            unlinkn d1 (S! "xx") 20;; unlinkn d1 (S! "yy") 20);
       (* Concurrent creates of the same file *)
       Fork (createn d2 (S! "zz") 20 true) (createn d1 (S! "zz") 20 true;; dircheck d1 20);
       Seq (checkn d1 (S! "zz") 20;; checkn d2 (S! "zz") 20;; unlinkn d1 (S! "zz") 20);
       (* Concurrent create/delete *)
       Seq (createn d1 (S! "x1") 20 false;; createn d2 (S! "x2") 20 false);
       Fork (unlinkn d2 (S! "x1") 20;; createn d1 (S! "x3") 20 false) (createn d1 (S! "x4") 20 false);
       Seq (unlinkn d2 (S! "x2") 20;; unlinkn d2 (S! "x4") 20;; unlinkn d2 (S! "x3") 20;; dircheck d1 0);
       (* Concurrent creates, same file, same server *)
       Fork (createn d1 (S! "zz") 20 true) (createn d1 (S! "zz") 20 true;; dircheck d1 20);
       Seq (checkn d1 (S! "zz") 20;; unlinkn d1 (S! "zz") 20);
       (* Concurrent writes to different parts of same file *)
       Seq (create1 d1 (S! "www") huge);
       Fork (write1 d2 (S! "www") 65536 64 "2"%char) (write1 d1 (S! "www") 0 64 "1"%char);
       Seq (checkread d1 (S! "www") 0 64 "1"%char;; checkread d2 (S! "www") 0 64 "1"%char;;
            checkread d1 (S! "www") 65536 64 "2"%char;; checkread d2 (S! "www") 65536 64 "2"%char)]
  | _ => None
  end.
End test_lab_3_b.

(** The second tester has the same helpers; [createn] knows no duplicates, and
    [check1] has a smaller buffer. *)
Module test_lab_3_c.
Import test_lab_3_b (phase, Seq, Fork).
Definition create1 : str -> str -> str -> prog unit := test_lab_3_b.create1.
Definition check1 : str -> str -> str -> prog unit := test_lab_3_b.check1_with 512.
Definition unlink1 : str -> str -> prog unit := test_lab_3_b.unlink1.
Definition checknot : str -> str -> prog unit := test_lab_3_b.checknot.
Definition append1 : str -> str -> str -> prog unit := test_lab_3_b.append1.
Definition createn (d prefix : str) (nf : nat) : prog unit := test_lab_3_b.createn d prefix nf false.
Definition checkn : str -> str -> nat -> prog unit := test_lab_3_b.checkn.
Definition unlinkn : str -> str -> nat -> prog unit := test_lab_3_b.unlinkn.
Definition dircheck : str -> nat -> prog unit := test_lab_3_b.dircheck.

Definition main (argv : list str) (pid : Z) : option (list phase) :=
  match argv with
  | [_; a1; a2] =>
      let d1 := in_dir a1 (S! "da" ++ filename pid) in
      let d2 := in_dir a2 (S! "db" ++ filename pid) in
      let dd := in_dir a2 (S! "da" ++ filename pid) in
      Some
      [Seq (_ ← sprintf512 d1;
            m ← sys_call (Mkdir d1);
            if negb (ret m =? 0) then Exit 1 else
            _ ← sprintf512 d2;
            m ← sys_call (Mkdir d2);
            if negb (ret m =? 0) then Exit 1 else
            _ ← sprintf512 dd;
            a ← sys_call (Access dd);
            if negb (ret a =? 0) then Exit 1 else Done tt);
       Fork (createn d2 (S! "xx") 100;; unlinkn d2 (S! "xx") 99) (createn d1 (S! "yy") 100;; unlinkn d1 (S! "yy") 99);
       Seq (dircheck d1 1;; dircheck d2 1)]
  | _ => None
  end.
End test_lab_3_c.

(** The exit status: the phases in order; [scheds] has the interleaving of each
    fork.  [Some true] when every check passed. *)
Fixpoint run_phases {W} (sysc : Z -> sys -> W -> sreply * W) (fuel : nat) (scheds : nat -> nat -> bool)
    (ps : list test_lab_3_b.phase) (w : W) : option (bool * W) :=
  match ps with
  | [] => Some (true, w)
  | test_lab_3_b.Seq m :: ps =>
      match run sysc 0 m w with
      | (Some _, w) => run_phases sysc fuel scheds ps w
      | (None, w) => Some (false, w)
      end
  | test_lab_3_b.Fork c m :: ps =>
      match par sysc fuel (scheds 0%nat) m c w with
      | Some (true, w) => run_phases sysc fuel (fun i => scheds (S i)) ps w
      | r => r
      end
  end.
