(* ===== verification/LabTesterSpec.v ===== *)
(** * What the functions of the testers do

    A process owns some files and some descriptors; nobody else changes them, and
    it changes no others.  Within that, each function of the testers takes the
    files of a directory from one map to another. *)

From S2P Require Import Prelude Directory DirectorySpec YfsClient YfsFs YfsThms Posix LabTester.
Import test_lab_3_b.

(** ** Names, numbers and strings *)
Lemma in_dir_inj D f f' : in_dir D f = in_dir D f' -> f = f'.
Proof. unfold in_dir. intros E. apply app_inv_head in E. by injection E. Qed.

Lemma length_dec_digits fuel : forall n acc, (length (dec_digits fuel n acc) <= fuel + length acc)%nat.
Proof.
  induction fuel as [|fuel IH]; intros n acc; simpl; [lia|]. case_match; simpl; [lia|].
  etransitivity; [apply IH|]. simpl. lia.
Qed.

Lemma length_filename n : (length (filename n) <= 20)%nat.
Proof. unfold filename. pose proof (length_dec_digits 20 n []) as Hl. cbn [length] in Hl. lia. Qed.

Lemma length_numbered prefix i : (length (numbered prefix i) <= 21 + length prefix)%nat.
Proof.
  unfold numbered. rewrite !length_app. pose proof (length_filename (Z.of_nat i)). change (length (S! "-")) with 1%nat. lia.
Qed.

Lemma pwrite_new b : pwrite [] 0 b = b.
Proof. unfold pwrite, fit. simpl. by rewrite drop_nil, app_nil_r. Qed.

Lemma pwrite_end b c : pwrite b (length b) c = b ++ c.
Proof.
  unfold pwrite, fit. rewrite firstn_all, Nat.sub_diag, drop_ge by lia. simpl. by rewrite !app_nil_r.
Qed.

Lemma numbered_short prefix i : (length prefix <= 2)%nat -> (length (numbered prefix i) <= 30)%nat.
Proof. pose proof (length_numbered prefix i). lia. Qed.

Lemma int_bytes_roundtrip i : 0 <= i < two31 -> int_of_bytes (int_bytes i) = i.
Proof.
  intros Hi. unfold int_of_bytes, int_bytes. cbn [take foldr].
  rewrite !Z_of_byte_of_Z, !Z.shiftr_div_pow2 by lia. rewrite <- (s32_small i) at 5 by lia. f_equal.
  unfold u8. change (2 ^ 8) with 256. change (2 ^ 16) with 65536. change (2 ^ 24) with 16777216. change two8 with 256.
  Z.div_mod_to_equations. lia.
Qed.

Lemma numbered_inj prefix i j : Z.of_nat i < two64 -> Z.of_nat j < two64 -> numbered prefix i = numbered prefix j -> i = j.
Proof.
  intros Hi Hj E. unfold numbered in E. apply app_inv_head, app_inv_head in E.
  apply (f_equal n2i) in E. rewrite !inum_roundtrip in E by lia. lia.
Qed.

Lemma strip_spec pre : forall x t, strip pre x = Some t <-> x = pre ++ t.
Proof.
  induction pre as [|c pre IH]; intros x t; simpl; [naive_solver|]. destruct x as [|c' x]; [naive_solver|].
  case_decide; [subst; rewrite IH; naive_solver|naive_solver].
Qed.

Lemma NoDup_omap {A B} (f : A -> option B) l :
  (forall x y z, f x = Some z -> f y = Some z -> x = y) -> NoDup l -> NoDup (omap f l).
Proof.
  intros Hf. induction 1 as [|x l Hx Hl IH]; simpl; [constructor|]. destruct (f x) as [z|] eqn:E; [|done].
  constructor; [|done]. intros (y & Hy & Ey)%list_elem_of_omap. by rewrite (Hf x y z E Ey) in Hx.
Qed.

Lemma strcmp_eq a : forall b, strcmp a b = 0 -> a = b.
Proof.
  induction a as [|x a IH]; intros [|y b]; simpl; try done.
  destruct (Z.ltb_spec (Z_of_byte x) (Z_of_byte y)); [done|]. destruct (Z.ltb_spec (Z_of_byte y) (Z_of_byte x)); [done|].
  intros E. f_equal; [|by apply IH]. rewrite <- (byte_of_Z_of_byte x), <- (byte_of_Z_of_byte y). f_equal. lia.
Qed.

Lemma adjacent_nodup l : NoDup l -> adjacent_equal l = false.
Proof.
  induction 1 as [|a l Ha Hl IH]; [done|]. destruct l as [|b l]; [done|]. 
  change (adjacent_equal (a :: b :: l)) with ((strcmp a b =? 0) || adjacent_equal (b :: l)). rewrite IH.
  destruct (Z.eqb_spec (strcmp a b) 0) as [E|]; [|done]. apply strcmp_eq in E. subst. set_solver.
Qed.

Lemma visible_all l : (forall f, f ∈ l -> hidden f = false) -> visible l = l.
Proof.
  intros Hl. unfold visible. induction l as [|f l IH]; [done|]. rewrite filter_cons_True by (apply Hl; set_solver).
  f_equal. apply IH. intros f' Hf'. apply Hl. set_solver.
Qed.

Lemma names_in_own (D : str) (m g : gmap str str) :
  (forall f, m !! in_dir D f = g !! f) -> names_in m D ≡ₚ (map_to_list g).*1.
Proof.
  intros Hm. apply NoDup_Permutation.
  - unfold names_in. apply NoDup_omap; [|apply NoDup_fst_map_to_list].
    intros x y z Hx Hy. apply strip_spec in Hx, Hy. congruence.
  - apply NoDup_fst_map_to_list.
  - intros f. unfold names_in. rewrite list_elem_of_omap. setoid_rewrite strip_spec. split.
    + intros (x & Hx & ->). apply list_elem_of_fmap in Hx as ([x b] & Ex & Hx). simpl in Ex. apply elem_of_map_to_list in Hx.
      apply list_elem_of_fmap. exists (f, b). split; [done|]. apply elem_of_map_to_list. rewrite <- Hm, <- Hx, <- Ex.
      unfold in_dir. by rewrite <- app_assoc.
    + intros Hf. apply list_elem_of_fmap in Hf as ([f' b] & -> & Hf). apply elem_of_map_to_list in Hf. rewrite <- Hm in Hf.
      exists (in_dir D f'). split; [|unfold in_dir; by rewrite <- app_assoc].
      apply list_elem_of_fmap. exists (in_dir D f', b). split; [done|]. by apply elem_of_map_to_list.
Qed.

(** The files [prefix-i .. prefix-(i+k-1)], each with its number in it. *)
Fixpoint with_numbered (prefix : str) (i k : nat) (g : gmap str str) : gmap str str :=
  match k with
  | O => g
  | S k => with_numbered prefix (S i) k (<[numbered prefix i := int_bytes (Z.of_nat i)]> g)
  end.
Fixpoint without_numbered (prefix : str) (i k : nat) (g : gmap str str) : gmap str str :=
  match k with O => g | S k => without_numbered prefix (S i) k (delete (numbered prefix i) g) end.

(** Conditions on the replies. *)
Ltac replied := cbn [ret errno negb andb]; rewrite ?Z.eqb_refl; cbn [negb];
  repeat match goal with |- context [?x <? 0] => rewrite (proj2 (Z.ltb_ge x 0)) by lia end; cbn [andb negb].
Ltac fds := rewrite ?insert_insert_eq, ?delete_insert_eq, ?delete_empty.

Section own.
Context (resolve : str -> str).
(** The files and the processes that are ours. *)
Context (K : str -> Prop) (P : Z -> Prop) (p : Z) (Hp : P p).

Definition frame (s s' : pfs) : Prop :=
  (forall k, K k -> pfiles s' !! k = pfiles s !! k) /\ (forall q fd, P q -> pfds s' !! (q, fd) = pfds s !! (q, fd)) /\
  pdirs s ⊆ pdirs s'.
Definition keeps (s s' : pfs) : Prop :=
  (forall k, ~ K k -> pfiles s' !! k = pfiles s !! k) /\ (forall q fd, ~ P q -> pfds s' !! (q, fd) = pfds s !! (q, fd)) /\
  pdirs s ⊆ pdirs s'.

#[export] Instance frame_preorder : PreOrder frame.
Proof.
  split; [by intros s; split_and!|]. intros s1 s2 s3 (A1 & B1 & C1) (A2 & B2 & C2). split_and!.
  - intros k Hk. by rewrite A2, A1.
  - intros q fd Hq. by rewrite B2, B1.
  - by etransitivity.
Qed.

(** The directory [D] holds the files [g], where they are ours; [o] are our open
    descriptors. *)
Definition own (D : str) (g : gmap str str) (o : gmap (Z * Z) (str * nat * bool)) (s : pfs) : Prop :=
  (forall f, K (in_dir D f) -> pfiles s !! in_dir D f = g !! f) /\
  (forall q fd, P q -> pfds s !! (q, fd) = o !! (q, fd)) /\ D ∈ pdirs s.

Lemma own_frame D g o s s' : own D g o s -> frame s s' -> own D g o s'.
Proof.
  intros (H1 & H2 & H3) (A & B & C). split_and!; [|by intros; rewrite B, H2|set_solver].
  intros f Hf. by rewrite A, H1.
Qed.

(** [d] is a name of the directory [D]. *)
Definition names_dir (d D : str) : Prop :=
  resolve d = D /\ (forall f, resolve (in_dir d f) = in_dir D f) /\ Z.of_nat (length d) < 480.

Abbreviation safe' := (safe resolve p frame keeps).

Lemma fresh_fd (m : gmap (Z * Z) (str * nat * bool)) : exists fd, 0 <= fd /\ m !! (p, fd) = None.
Proof.
  set (X := (Z.to_N ∘ snd) <$> (map_to_list m).*1). exists (Z.of_N (fresh X)). split; [lia|].
  destruct (m !! (p, Z.of_N (fresh X))) as [e|] eqn:E; [|done]. exfalso. apply (infinite_is_fresh X).
  apply list_elem_of_fmap. exists (p, Z.of_N (fresh X)). split; [simpl; lia|].
  apply list_elem_of_fmap. exists ((p, Z.of_N (fresh X)), e). split; [done|]. by apply elem_of_map_to_list.
Qed.

(** Our files and descriptors after a change of one of them. *)
Lemma own_write D g o s f b x e :
  own D g o s -> K (in_dir D f) -> x.1 = p ->
  let s' := set_fd (set_files s (<[in_dir D f := b]> (pfiles s))) x (Some e) in
  own D (<[f := b]> g) (<[x := e]> o) s' /\ keeps s s'.
Proof.
  intros (H1 & H2 & H3) Hk Hx s'. destruct x as [q0 fd0]. simpl in Hx. subst q0. split; split_and!; simpl.
  - intros f' Hf'. destruct (decide (f' = f)) as [->|Hne]; [by rewrite !lookup_insert_eq|].
    rewrite !lookup_insert_ne; [by apply H1|done|]. intros E. by apply in_dir_inj in E.
  - intros q fd Hq. rewrite !lookup_insert. case_decide; [done|by apply H2].
  - done.
  - intros k Hk'. rewrite lookup_insert_ne; [done|]. by intros <-.
  - intros q fd Hq. rewrite lookup_insert_ne; [done|]. intros [= <- _]. done.
  - done.
Qed.

Lemma own_fd D g o s x oe :
  own D g o s -> x.1 = p ->
  let s' := set_fd s x oe in
  own D g (match oe with Some e => <[x := e]> o | None => delete x o end) s' /\ keeps s s'.
Proof.
  intros (H1 & H2 & H3) Hx s'. destruct x as [q0 fd0]. simpl in Hx. subst q0. split; split_and!; simpl; try done.
  - intros q fd Hq. destruct oe; [rewrite !lookup_insert|rewrite !lookup_delete]; case_decide; auto.
  - intros q fd Hq. destruct oe; [rewrite lookup_insert_ne|rewrite lookup_delete_ne]; try done; intros [= <- _]; done.
Qed.

(** ** The calls *)
Section calls.
Context {A : Type} (Q : A -> pfs -> Prop) (D : str) (g : gmap str str) (o : gmap (Z * Z) (str * nat * bool)).
Context (k : sreply -> prog A) (s : pfs) (Hown : own D g o s).

Lemma call_creat d f :
  names_dir d D -> K (in_dir D f) ->
  (forall fd s', 0 <= fd -> o !! (p, fd) = None ->
     own D (<[f := []]> g) (<[(p, fd) := (in_dir D f, 0%nat, false)]> o) s' -> safe' Q (k (Ok fd)) s') ->
  safe' Q (sys_call (Creat (in_dir d f)) ≫= k) s.
Proof.
  intros (_ & Hd & _) Hk Hcont. apply safe_call. intros s1 Hf. pose proof (own_frame _ _ _ _ _ Hown Hf) as Ho1. split.
  - destruct (fresh_fd (pfds s1)) as (fd & Hfd & Hn). do 2 eexists. eapply (px_creat _ _ _ _ D f); [apply Hd|apply Ho1|done|done].
  - intros r s' Hpx. inversion Hpx as [s0 path d0 f0 fd Er Hd0 Hfd Hn| | | | | | | | | | | |]; subst.
    rewrite Hd in Er. rewrite <- Er. destruct (own_write D g o s1 f [] (p, fd) (in_dir D f, 0%nat, false) Ho1 Hk eq_refl) as [H1 H2].
    split; [exact H2|]. apply Hcont; [done| |exact H1]. rewrite <- (proj1 (proj2 Ho1)) by done. done.
Qed.

Lemma call_open d f fl b :
  names_dir d D -> K (in_dir D f) -> g !! f = Some b ->
  (forall fd s', 0 <= fd -> o !! (p, fd) = None ->
     own D g (<[(p, fd) := (in_dir D f, 0%nat, negb (Z.land fl O_APPEND =? 0))]> o) s' -> safe' Q (k (Ok fd)) s') ->
  safe' Q (sys_call (Open (in_dir d f) fl) ≫= k) s.
Proof.
  intros (_ & Hd & _) Hk Hb Hcont. apply safe_call. intros s1 Hf. pose proof (own_frame _ _ _ _ _ Hown Hf) as Ho1.
  assert (pfiles s1 !! in_dir D f = Some b) as Hfb by (by rewrite (proj1 Ho1)). split.
  - destruct (fresh_fd (pfds s1)) as (fd & Hfd & Hn). do 2 eexists. eapply px_open; [by rewrite Hd|done|done].
  - intros r s' Hpx. inversion Hpx as [|s0 path fl0 b0 fd Eb Hfd Hn|s0 path d0 f0 fl0 fd Er Hd0 Hno| s0 path fl0 Hno| | | | | | | | |];
      subst; [|congruence|congruence].
    rewrite Hd. destruct (own_fd D g o s1 (p, fd) (Some (in_dir D f, 0%nat, negb (Z.land fl O_APPEND =? 0))) Ho1 eq_refl) as [H1 H2].
    split; [exact H2|]. apply Hcont; [done| |exact H1]. rewrite <- (proj1 (proj2 Ho1)) by done. done.
Qed.

Lemma call_open_none d f fl :
  names_dir d D -> K (in_dir D f) -> g !! f = None -> Z.land fl O_CREAT = 0 ->
  (forall s', own D g o s' -> safe' Q (k (Err E_NOENT)) s') ->
  safe' Q (sys_call (Open (in_dir d f) fl) ≫= k) s.
Proof.
  intros (_ & Hd & _) Hk Hb Hfl Hcont. apply safe_call. intros s1 Hf. pose proof (own_frame _ _ _ _ _ Hown Hf) as Ho1.
  assert (pfiles s1 !! in_dir D f = None) as Hfb by (by rewrite (proj1 Ho1)). split.
  - do 2 eexists. by eapply px_open_none; [rewrite Hd|].
  - intros r s' Hpx. inversion Hpx as [|s0 path fl0 b0 fd Eb Hfd Hn|s0 path d0 f0 fl0 fd Er Hd0 Hno Hcr| s0 path fl0 Hno| | | | | | | | |];
      subst; [congruence|done|]. split; [by split_and!|]. by apply Hcont.
Qed.

Lemma call_write fd data f off app b :
  o !! (p, fd) = Some (in_dir D f, off, app) -> K (in_dir D f) -> g !! f = Some b ->
  (let at_ := if (app : bool) then length b else off in
   forall s', own D (<[f := pwrite b at_ data]> g) (<[(p, fd) := (in_dir D f, at_ + length data, app)%nat]> o) s' ->
     safe' Q (k (Ok (Z.of_nat (length data)))) s') ->
  safe' Q (sys_call (Write fd data) ≫= k) s.
Proof.
  intros Hfd Hk Hb Hcont. apply safe_call. intros s1 Hf. pose proof (own_frame _ _ _ _ _ Hown Hf) as Ho1.
  assert (pfds s1 !! (p, fd) = Some (in_dir D f, off, app)) as Hfd1 by (by rewrite (proj1 (proj2 Ho1))).
  assert (pfiles s1 !! in_dir D f = Some b) as Hfb by (by rewrite (proj1 Ho1)). split.
  - do 2 eexists. by eapply px_write.
  - intros r s' Hpx. inversion Hpx as [| | | |s0 fd0 data0 k0 off0 app0 b0 E1 E2| | | | | | | |]; subst.
    rewrite Hfd1 in E1. injection E1 as <- <- <-. rewrite Hfb in E2. injection E2 as <-.
    match goal with |- context [set_fd (set_files s1 (<[_ := ?b']> _)) _ (Some ?e)] =>
      destruct (own_write D g o s1 f b' (p, fd) e Ho1 Hk eq_refl) as [H1 H2] end.
    split; [exact H2|]. by apply Hcont.
Qed.

Lemma call_read fd n f off app b :
  o !! (p, fd) = Some (in_dir D f, off, app) -> K (in_dir D f) -> g !! f = Some b ->
  (let data := take (Z.to_nat n) (drop off b) in
   forall s', own D g (<[(p, fd) := (in_dir D f, off + length data, app)%nat]> o) s' -> safe' Q (k (Data data)) s') ->
  safe' Q (sys_call (Read fd n) ≫= k) s.
Proof.
  intros Hfd Hk Hb Hcont. apply safe_call. intros s1 Hf. pose proof (own_frame _ _ _ _ _ Hown Hf) as Ho1.
  assert (pfds s1 !! (p, fd) = Some (in_dir D f, off, app)) as Hfd1 by (by rewrite (proj1 (proj2 Ho1))).
  assert (pfiles s1 !! in_dir D f = Some b) as Hfb by (by rewrite (proj1 Ho1)). split.
  - do 2 eexists. by eapply px_read.
  - intros r s' Hpx. inversion Hpx as [| | | | |s0 fd0 n0 k0 off0 app0 b0 E1 E2| | | | | | |]; subst.
    rewrite Hfd1 in E1. injection E1 as <- <- <-. rewrite Hfb in E2. injection E2 as <-.
    match goal with |- context [set_fd s1 _ (Some ?e)] => destruct (own_fd D g o s1 (p, fd) (Some e) Ho1 eq_refl) as [H1 H2] end.
    split; [exact H2|]. by apply Hcont.
Qed.

Lemma call_close fd e :
  o !! (p, fd) = Some e -> (forall s', own D g (delete (p, fd) o) s' -> safe' Q (k (Ok 0)) s') ->
  safe' Q (sys_call (Close fd) ≫= k) s.
Proof.
  intros Hfd Hcont. apply safe_call. intros s1 Hf. pose proof (own_frame _ _ _ _ _ Hown Hf) as Ho1.
  assert (pfds s1 !! (p, fd) = Some e) as Hfd1 by (by rewrite (proj1 (proj2 Ho1))). split.
  - do 2 eexists. by eapply px_close.
  - intros r s' Hpx. inversion Hpx; subst. destruct (own_fd D g o s1 (p, fd) None Ho1 eq_refl) as [H1 H2].
    split; [exact H2|]. by apply Hcont.
Qed.

Lemma call_lseek fd off f off0 app :
  o !! (p, fd) = Some (in_dir D f, off0, app) -> 0 <= off ->
  (forall s', own D g (<[(p, fd) := (in_dir D f, Z.to_nat off, app)]> o) s' -> safe' Q (k (Ok off)) s') ->
  safe' Q (sys_call (Lseek fd off) ≫= k) s.
Proof.
  intros Hfd Hoff Hcont. apply safe_call. intros s1 Hf. pose proof (own_frame _ _ _ _ _ Hown Hf) as Ho1.
  assert (pfds s1 !! (p, fd) = Some (in_dir D f, off0, app)) as Hfd1 by (by rewrite (proj1 (proj2 Ho1))). split.
  - do 2 eexists. by eapply px_lseek.
  - intros r s' Hpx. inversion Hpx as [| | | | | | |s0 fd0 off1 k0 off2 app0 E1| | | | |]; subst.
    rewrite Hfd1 in E1. injection E1 as <- <- <-.
    match goal with |- context [set_fd s1 _ (Some ?e)] => destruct (own_fd D g o s1 (p, fd) (Some e) Ho1 eq_refl) as [H1 H2] end.
    split; [exact H2|]. by apply Hcont.
Qed.

Lemma call_unlink d f b :
  names_dir d D -> K (in_dir D f) -> g !! f = Some b ->
  (forall s', own D (delete f g) o s' -> safe' Q (k (Ok 0)) s') -> safe' Q (sys_call (Unlink (in_dir d f)) ≫= k) s.
Proof.
  intros (_ & Hd & _) Hk Hb Hcont. apply safe_call. intros s1 Hf. pose proof (own_frame _ _ _ _ _ Hown Hf) as Ho1.
  assert (pfiles s1 !! in_dir D f = Some b) as Hfb by (by rewrite (proj1 Ho1)). split.
  - do 2 eexists. eapply px_unlink. by rewrite Hd.
  - intros r s' Hpx. inversion Hpx; subst. rewrite Hd. destruct Ho1 as (H1 & H2 & H3). split.
    + split_and!; simpl; [|done|done]. intros k0 Hk0. rewrite lookup_delete_ne; [done|]. by intros <-.
    + apply Hcont. split_and!; simpl; [|done|done]. intros f' Hf'. destruct (decide (f' = f)) as [->|Hne].
      * by rewrite !lookup_delete_eq.
      * rewrite !lookup_delete_ne; [by apply H1|done|]. intros E. by apply in_dir_inj in E.
Qed.
End calls.

(** ** The functions of the testers *)

(** [m] takes our files of the directory [D] from [g] to [g']. *)
Definition triple (D : str) (g : gmap str str) (m : prog unit) (g' : gmap str str) : Prop :=
  forall s, own D g ∅ s -> safe' (fun _ => own D g' ∅) m s.

Lemma triple_seq D g1 g2 g3 m1 m2 : triple D g1 m1 g2 -> triple D g2 m2 g3 -> triple D g1 (m1;; m2) g3.
Proof. intros H1 H2 s Hs. eapply safe_bind; [apply _|by apply H1|]. intros [] s1 Hs1. by apply H2. Qed.

Lemma own_done D g s : own D g ∅ s -> safe' (fun _ => own D g ∅) (Done tt) s.
Proof. intros Ho s1 Hf. by eapply own_frame. Qed.

Lemma sprintf_ok {B} d D f (k : str -> prog B) :
  names_dir d D -> (length f <= 30)%nat -> (sprintf512 (in_dir d f) ≫= k) = k (in_dir d f).
Proof.
  intros (_ & _ & Hl) Hf. unfold sprintf512, in_dir in *. rewrite length_app. cbn [length].
  by rewrite (proj2 (Z.ltb_lt _ _)) by lia.
Qed.


Context (D d : str) (Hd : names_dir d D).

Lemma create1_ok g f inp :
  K (in_dir D f) -> (length f <= 30)%nat -> triple D g (create1 d f inp) (<[f := inp]> g).
Proof.
  intros Hk Hf s Ho. unfold create1. rewrite (sprintf_ok d D) by done.
  eapply (call_creat _ _ _ _ _ _ Ho); [done|done|]. intros fd s1 Hfd _ H1. replied.
  eapply (call_write _ _ _ _ _ _ H1); [apply lookup_insert_eq|done|apply lookup_insert_eq|]. intros at_ s2 H2. replied.
  eapply (call_close _ _ _ _ _ _ H2); [apply lookup_insert_eq|]. intros s3 H3. replied.
  apply own_done. revert H3. subst at_. fds. by rewrite pwrite_new.
Qed.

Lemma check1_ok bufsize g f b :
  K (in_dir D f) -> (length f <= 30)%nat -> g !! f = Some b -> Z.of_nat (length b) < bufsize ->
  triple D g (check1_with bufsize d f b) g.
Proof.
  intros Hk Hf Hb Hsz s Ho. unfold check1_with. rewrite (sprintf_ok d D) by done.
  eapply (call_open _ _ _ _ _ _ Ho); [done|done|done|]. intros fd s1 Hfd _ H1. replied.
  eapply (call_read _ _ _ _ _ _ H1); [apply lookup_insert_eq|done|done|]. intros data s2 H2.
  assert (data = b) as -> by (unfold data; rewrite drop_0; apply take_ge; lia). replied.
  eapply (call_close _ _ _ _ _ _ H2); [apply lookup_insert_eq|]. intros s3 H3.
  unfold strncmp_eq. rewrite bool_decide_eq_true_2 by done. cbn [negb].
  apply own_done. revert H3. by fds.
Qed.

Lemma unlink1_ok g f b :
  K (in_dir D f) -> (length f <= 30)%nat -> g !! f = Some b -> triple D g (unlink1 d f) (delete f g).
Proof.
  intros Hk Hf Hb s Ho. unfold unlink1. rewrite (sprintf_ok d D) by done.
  eapply (call_unlink _ _ _ _ _ _ Ho); [done|done|done|]. intros s1 H1. replied. by apply own_done.
Qed.

Lemma checknot_ok g f :
  K (in_dir D f) -> (length f <= 30)%nat -> g !! f = None -> triple D g (checknot d f) g.
Proof.
  intros Hk Hf Hb s Ho. unfold checknot. rewrite (sprintf_ok d D) by done.
  eapply (call_open_none _ _ _ _ _ _ Ho); [done|done|done|done|]. intros s1 H1. by apply own_done.
Qed.

Lemma append1_ok g f b inp :
  K (in_dir D f) -> (length f <= 30)%nat -> g !! f = Some b -> triple D g (append1 d f inp) (<[f := b ++ inp]> g).
Proof.
  intros Hk Hf Hb s Ho. unfold append1. rewrite (sprintf_ok d D) by done.
  eapply (call_open _ _ _ _ _ _ Ho); [done|done|done|]. intros fd s1 Hfd _ H1. replied.
  eapply (call_write _ _ _ _ _ _ H1); [apply lookup_insert_eq|done|done|]. intros at_ s2 H2. replied.
  eapply (call_close _ _ _ _ _ _ H2); [apply lookup_insert_eq|]. intros s3 H3. replied.
  apply own_done. revert H3. subst at_. fds. simpl. by rewrite pwrite_end.
Qed.

(** Reading one byte after the other. *)
Lemma read_bytes_ok g f b c n : forall fd app off s,
  K (in_dir D f) -> g !! f = Some b -> (forall i, (off <= i < off + n)%nat -> b !! i = Some c) ->
  own D g (<[(p, fd) := (in_dir D f, off, app)]> ∅) s ->
  safe' (fun _ => own D g (<[(p, fd) := (in_dir D f, off + n, app)%nat]> ∅)) (read_bytes fd n c) s.
Proof.
  induction n as [|n IH]; intros fd app off s Hk Hb Hc Ho.
  { intros s1 Hf. rewrite Nat.add_0_r. by eapply own_frame. }
  cbn [read_bytes]. eapply (call_read _ _ _ _ _ _ Ho); [apply lookup_insert_eq|done|done|]. intros data s1 H1.
  assert (data = [c]) as ->.
  { unfold data. change (Z.to_nat 1) with 1%nat. rewrite (drop_S b c off) by (apply Hc; lia). done. }
  replied. rewrite bool_decide_eq_true_2 by done. cbn [negb].
  replace (off + S n)%nat with ((off + 1) + n)%nat by lia. apply IH; [done|done|intros i Hi; apply Hc; lia|].
  revert H1. by fds.
Qed.

Lemma checkread_ok g f b start n c :
  K (in_dir D f) -> (length f <= 30)%nat -> g !! f = Some b -> 0 <= start ->
  (forall i, (Z.to_nat start <= i < Z.to_nat start + n)%nat -> b !! i = Some c) ->
  triple D g (checkread d f start n c) g.
Proof.
  intros Hk Hf Hb Hst Hc s Ho. unfold checkread. rewrite (sprintf_ok d D) by done.
  eapply (call_open _ _ _ _ _ _ Ho); [done|done|done|]. intros fd s1 Hfd _ H1. replied.
  eapply (call_lseek _ _ _ _ _ _ H1); [apply lookup_insert_eq|done|]. intros s2 H2. replied. rewrite insert_insert_eq in H2.
  eapply safe_bind; [apply _|by eapply read_bytes_ok|]. intros [] s3 H3.
  eapply (call_close _ _ _ _ _ _ H3); [apply lookup_insert_eq|]. intros s4 H4. apply own_done. revert H4. by fds.
Qed.

(** ** The loops *)

Definition owned (prefix : str) : Prop := forall i, K (in_dir D (numbered prefix i)).

Lemma createn_ok prefix dup k : forall i g, owned prefix -> (length prefix <= 2)%nat ->
  triple D g (createn_from d prefix dup i k) (with_numbered prefix i k g).
Proof.
  induction k as [|k IH]; intros i g Hk Hl s Ho; [by apply own_done|].
  cbn [createn_from with_numbered]. rewrite (sprintf_ok d D) by (done || by apply numbered_short).
  eapply (call_creat _ _ _ _ _ _ Ho); [done|done|]. intros fd s1 Hfd _ H1. replied.
  eapply (call_write _ _ _ _ _ _ H1); [apply lookup_insert_eq|done|apply lookup_insert_eq|]. intros at_ s2 H2. replied.
  eapply (call_close _ _ _ _ _ _ H2); [apply lookup_insert_eq|]. intros s3 H3. replied.
  apply IH; [done|done|]. revert H3. subst at_. fds. by rewrite pwrite_new.
Qed.

Lemma checkn_ok prefix k : forall i g, owned prefix -> (length prefix <= 2)%nat -> Z.of_nat (i + k) < two31 ->
  (forall j, (i <= j < i + k)%nat -> g !! numbered prefix j = Some (int_bytes (Z.of_nat j))) ->
  triple D g (checkn_from d prefix i k) g.
Proof.
  induction k as [|k IH]; intros i g Hk Hl Hi Hg s Ho; [by apply own_done|].
  cbn [checkn_from]. rewrite (sprintf_ok d D) by (done || by apply numbered_short).
  eapply (call_open _ _ _ _ _ _ Ho); [done|done|apply Hg; lia|]. intros fd s1 Hfd _ H1. replied.
  eapply (call_read _ _ _ _ _ _ H1); [apply lookup_insert_eq|done|apply Hg; lia|]. intros data s2 H2.
  change data with (int_bytes (Z.of_nat i)). replied. rewrite int_bytes_roundtrip by lia. replied.
  eapply (call_close _ _ _ _ _ _ H2); [apply lookup_insert_eq|]. intros s3 H3.
  apply IH; [done|done|lia|intros j Hj; apply Hg; lia|]. revert H3. by fds.
Qed.

Lemma unlinkn_ok prefix k : forall i g, owned prefix -> (length prefix <= 2)%nat -> Z.of_nat (i + k) < two31 ->
  (forall j, (i <= j < i + k)%nat -> is_Some (g !! numbered prefix j)) ->
  triple D g (unlinkn_from d prefix i k) (without_numbered prefix i k g).
Proof.
  induction k as [|k IH]; intros i g Hk Hl Hi Hg s Ho; [by apply own_done|].
  cbn [unlinkn_from without_numbered]. rewrite (sprintf_ok d D) by (done || by apply numbered_short).
  destruct (Hg i ltac:(lia)) as [b Hb].
  eapply (call_unlink _ _ _ _ _ _ Ho); [done|done|done|]. intros s1 H1. replied.
  apply IH; [done|done|lia| |done]. intros j Hj. rewrite lookup_delete_ne; [apply Hg; lia|].
  intros E. apply numbered_inj in E; lia.
Qed.

(** ** Directories *)

Lemma dircheck_safe q R G `{!PreOrder R} (Q : unit -> pfs -> Prop) nf s :
  (forall s1, G s1 s1) ->
  (forall s1, R s s1 -> D ∈ pdirs s1 /\ length (visible (names_in (pfiles s1) D)) = nf /\
    NoDup (names_in (pfiles s1) D) /\ Q tt s1) ->
  (nf <= 1000)%nat -> safe resolve q R G Q (dircheck d nf) s.
Proof.
  intros HG Hs Hn. unfold dircheck. apply safe_call. intros s1 Hf. destruct (Hs s1 Hf) as (Hdir & Hlen & Hnd & _).
  pose proof Hd as (Er & _). split.
  - exists (Names (names_in (pfiles s1) D)), s1. apply px_readdir; by rewrite Er.
  - intros r s' Hpx. inversion Hpx as [| | | | | | | | | | | |s0 path l Hdir0 Hl]; subst s0 path r s'. split; [done|].
    rewrite Er in Hl. pose proof (Permutation_length Hl) as Hl'. rewrite Hlen in Hl'.
    rewrite Hl', (proj2 (Z.ltb_ge _ _)), Nat.eqb_refl by lia. cbn [negb]. rewrite adjacent_nodup.
    + intros s2 H2. apply Hs. by transitivity s1.
    + unfold compar. rewrite merge_sort_Permutation, Hl. by apply NoDup_filter.
Qed.

(** When all files of the directory are ours. *)
Lemma own_names g o s :
  (forall f, K (in_dir D f)) -> map_Forall (fun f _ => hidden f = false) g -> own D g o s ->
  D ∈ pdirs s /\ length (visible (names_in (pfiles s) D)) = size g /\ NoDup (names_in (pfiles s) D).
Proof.
  intros Hk Hv Ho. assert (names_in (pfiles s) D ≡ₚ (map_to_list g).*1) as Hnames.
  { apply names_in_own. intros f. by apply (proj1 Ho). }
  split_and!; [apply Ho| |].
  - rewrite visible_all.
    + rewrite (Permutation_length Hnames), length_fmap, length_map_to_list. done.
    + intros f Hin. rewrite Hnames in Hin. apply list_elem_of_fmap in Hin as ([f' b] & -> & Hin).
      apply elem_of_map_to_list in Hin. by apply (Hv f' b).
  - rewrite Hnames. apply NoDup_fst_map_to_list.
Qed.

Lemma dircheck_ok g nf :
  (forall f, K (in_dir D f)) -> map_Forall (fun f _ => hidden f = false) g -> size g = nf -> (nf <= 1000)%nat ->
  triple D g (dircheck d nf) g.
Proof.
  intros Hk Hv Hsz Hn s Ho. apply (dircheck_safe p frame keeps); [by intros s1; split_and!| |done]. intros s1 Hf.
  pose proof (own_frame _ _ _ _ _ Ho Hf) as Ho1. destruct (own_names g ∅ s1 Hk Hv Ho1) as (A & B & C).
  split_and!; [done|congruence|done|done].
Qed.
End own.

(** ** The numbered files *)
Lemma lookup_with_numbered prefix k : forall i g j, Z.of_nat (i + k) < two31 -> (i <= j < i + k)%nat ->
  with_numbered prefix i k g !! numbered prefix j = Some (int_bytes (Z.of_nat j)).
Proof.
  induction k as [|k IH]; intros i g j Hi Hj; [lia|]. cbn [with_numbered].
  destruct (decide (j = i)) as [->|Hne]; [|apply IH; lia]. clear Hj.
  assert (forall i' g', (i < i')%nat -> Z.of_nat (i' + k) < two31 -> g' !! numbered prefix i = Some (int_bytes (Z.of_nat i)) ->
    with_numbered prefix i' k g' !! numbered prefix i = Some (int_bytes (Z.of_nat i))) as Hrest.
  { clear IH Hi. induction k as [|k IH]; intros i' g' Hlt Hb Hg; [done|]. cbn [with_numbered]. apply IH; [lia|lia|].
    rewrite lookup_insert_ne; [done|]. intros E. apply numbered_inj in E; lia. }
  apply Hrest; [lia|lia|]. by rewrite lookup_insert_eq.
Qed.

Lemma lookup_with_other prefix f k : forall i g, (forall j, f <> numbered prefix j) ->
  with_numbered prefix i k g !! f = g !! f.
Proof.
  induction k as [|k IH]; intros i g Hf; [done|]. cbn [with_numbered]. rewrite IH by done. by rewrite lookup_insert_ne.
Qed.

Lemma with_numbered_ext prefix f k : forall i g g', g !! f = g' !! f ->
  with_numbered prefix i k g !! f = with_numbered prefix i k g' !! f.
Proof.
  induction k as [|k IH]; intros i g g' E; [done|]. cbn [with_numbered]. apply IH.
  rewrite !lookup_insert. case_decide; [done|done].
Qed.

Lemma lookup_without_other prefix f k : forall i g, (forall j, f <> numbered prefix j) ->
  without_numbered prefix i k g !! f = g !! f.
Proof.
  induction k as [|k IH]; intros i g Hf; [done|]. cbn [without_numbered]. rewrite IH by done. by rewrite lookup_delete_ne.
Qed.

(** ** Two processes *)
Definition mine (q : Z) : Prop := q <> 1.
Definition childs (q : Z) : Prop := q = 1.

Lemma keeps_frame (K : str -> Prop) s s' : keeps K mine s s' -> frame (fun k => ~ K k) childs s s'.
Proof.
  intros (A & B & C). split_and!; [exact A| |done]. intros q fd ->. apply B. unfold mine. lia.
Qed.
Lemma keeps_frame_child (K : str -> Prop) s s' :
  (forall k, Decision (K k)) -> keeps (fun k => ~ K k) childs s s' -> frame K mine s s'.
Proof.
  intros HK (A & B & C). split_and!; [|exact B|done]. intros k Hk. apply A. intros Hn. by apply Hn.
Qed.

Lemma own_join (K : str -> Prop) `{!forall k, Decision (K k)} D g0 g1 g s :
  own K mine D g0 ∅ s -> own (fun k => ~ K k) childs D g1 ∅ s ->
  (forall f, K (in_dir D f) -> g0 !! f = g !! f) -> (forall f, ~ K (in_dir D f) -> g1 !! f = g !! f) ->
  own (fun _ => True) (fun _ => True) D g ∅ s.
Proof.
  intros (A0 & B0 & C0) (A1 & B1 & _) H0 H1. split_and!; [| |done].
  - intros f _. destruct (decide (K (in_dir D f))); [by rewrite A0, H0|by rewrite A1, H1].
  - intros q fd _. destruct (decide (q = 1)); [by apply B1|by apply B0].
Qed.

Lemma own_part (K : str -> Prop) (P : Z -> Prop) D g s :
  own (fun _ => True) (fun _ => True) D g ∅ s -> own K P D g ∅ s.
Proof. intros (A & B & C). split_and!; auto. Qed.

(** The files of one prefix. *)
Definition prefixed (D prefix k : str) : Prop := is_Some (strip (in_dir D (prefix ++ S! "-")) k).
#[export] Instance prefixed_dec D prefix k : Decision (prefixed D prefix k).
Proof. unfold prefixed. apply _. Defined.

Lemma prefixed_numbered D prefix i : prefixed D prefix (in_dir D (numbered prefix i)).
Proof.
  exists (filename (Z.of_nat i)). apply strip_spec. unfold in_dir, numbered.
  rewrite <- app_assoc. f_equal. simpl. by rewrite <- app_assoc.
Qed.

Lemma prefixed_other D prefix prefix' i :
  length prefix = length prefix' -> prefix <> prefix' -> ~ prefixed D prefix (in_dir D (numbered prefix' i)).
Proof.
  intros Hl Hne [t Ht]. apply strip_spec in Ht. unfold in_dir, numbered in Ht. rewrite <- app_assoc in Ht. apply app_inv_head in Ht.
  simpl in Ht. injection Ht as Ht. rewrite <- app_assoc in Ht. apply app_inj_1 in Ht; [|done]. by destruct Ht as [-> _].
Qed.
