(* ===== verification/LabTesterConc.v ===== *)
(** * The testers' functions on files that two processes share

    [createn] of the same names by two processes at once, and [write1] to two parts
    of one file: what each process relies on is weaker than ownership. *)

From S2P Require Import Prelude Directory DirectorySpec YfsClient YfsFs YfsThms Posix LabTester LabTesterSpec.
Import test_lab_3_b.

Section shared_files.
Context (resolve : str -> str) (D d : str) (Hd : names_dir resolve d D).

(** ** The same names *)
Section same.
Context (prefix : str) (nf : nat) (Hshort : (length prefix <= 2)%nat) (Hnf : Z.of_nat nf < two31).

(** Every file of the directory is one of ours, and has its number in it or is
    empty and about to be written by a process that has it open. *)
Definition half_open (s : pfs) (f : str) : Prop :=
  exists q fd, (q = 0 \/ q = 1) /\ pfds s !! (q, fd) = Some (in_dir D f, 0%nat, false).
Definition zinv (s : pfs) : Prop :=
  forall f b, pfiles s !! in_dir D f = Some b -> exists i, (i < nf)%nat /\ f = numbered prefix i /\
    (b = int_bytes (Z.of_nat i) \/ b = [] /\ half_open s f).

Definition zrely (P : Z -> Prop) (s s' : pfs) : Prop :=
  (zinv s -> zinv s') /\ (forall f, is_Some (pfiles s !! in_dir D f) -> is_Some (pfiles s' !! in_dir D f)) /\
  (forall q fd, P q -> pfds s' !! (q, fd) = pfds s !! (q, fd)) /\ pdirs s ⊆ pdirs s'.
Definition zguar (P : Z -> Prop) : pfs -> pfs -> Prop := zrely (fun q => ~ P q).

#[export] Instance zrely_preorder P : PreOrder (zrely P).
Proof.
  split; [by intros s; split_and!|]. intros s1 s2 s3 (A1 & B1 & C1 & D1) (A2 & B2 & C2 & D2). split_and!; auto.
  - intros q fd Hq. by rewrite C2, C1.
  - by etransitivity.
Qed.

(** The first [i] files exist, and the descriptors [o] are open. *)
Definition zstate (P : Z -> Prop) (i : nat) (o : gmap (Z * Z) (str * nat * bool)) (s : pfs) : Prop :=
  zinv s /\ D ∈ pdirs s /\ (forall q fd, P q -> pfds s !! (q, fd) = o !! (q, fd)) /\
  forall j, (j < i)%nat -> is_Some (pfiles s !! in_dir D (numbered prefix j)).

Lemma zstate_rely P i o s s' : zstate P i o s -> zrely P s s' -> zstate P i o s'.
Proof.
  intros (A & B & C & E) (A' & B' & C' & D'). split_and!; [auto|set_solver| |auto]. intros q fd Hq. by rewrite C', C.
Qed.

Context (P : Z -> Prop) (p : Z) (Hp : P p) (Hp01 : p = 0 \/ p = 1).

(** Creating a file: it is empty, and half open. *)
Lemma zcreat i s fd :
  zstate P i ∅ s -> (i < nf)%nat -> pfds s !! (p, fd) = None ->
  let k := in_dir D (numbered prefix i) in
  let s' := set_fd (set_files s (<[k := []]> (pfiles s))) (p, fd) (Some (k, 0%nat, false)) in
  zstate P (S i) (<[(p, fd) := (k, 0%nat, false)]> ∅) s' /\ zguar P s s'.
Proof.
  intros (A & B & C & E) Hi Hn k s'.
  assert (zinv s') as Hz.
  { intros f b. simpl. rewrite lookup_insert_Some. intros [[Ek <-]|[Hne Hf]].
    - apply in_dir_inj in Ek. subst f. exists i. split_and!; [done|done|]. right. split; [done|].
      exists p, fd. split; [done|]. simpl. by rewrite lookup_insert_eq.
    - destruct (A f b Hf) as (i' & Hi' & -> & [-> |[-> (q & fd' & Hq & Hfd)]]); exists i'; (split_and!; [done|done|]); [by left|].
      right. split; [done|]. exists q, fd'. split; [done|]. simpl. rewrite lookup_insert_ne; [done|]. congruence. }
  assert (forall f, is_Some (pfiles s !! in_dir D f) -> is_Some (pfiles s' !! in_dir D f)) as Hex.
  { intros f Hf. simpl. rewrite lookup_insert. by case_decide. }
  split; split_and!; try done.
  - intros q fd' Hq. simpl. rewrite !lookup_insert. case_decide; [done|]. by apply C.
  - intros j Hj. destruct (decide (j = i)) as [->|Hne]; [simpl; unfold k; by rewrite lookup_insert_eq|]. apply Hex, E. lia.
  - intros q fd' Hq. simpl. rewrite lookup_insert_ne; [done|]. intros [= <- _]. done.
Qed.

Lemma zfile i o s : zstate P i o s -> (0 < i)%nat -> (i <= nf)%nat ->
  exists b, pfiles s !! in_dir D (numbered prefix (i - 1)) = Some b /\ (b = int_bytes (Z.of_nat (i - 1)) \/ b = []).
Proof.
  intros (A & _ & _ & E) Hi Hnf'. destruct (E (i - 1)%nat ltac:(lia)) as [b Hb]. exists b. split; [done|].
  destruct (A _ _ Hb) as (i' & Hi' & En & Hb'). apply numbered_inj in En; [|lia|lia]. subst i'. naive_solver.
Qed.

Lemma zwrite i s fd b :
  let k := in_dir D (numbered prefix i) in
  zstate P (S i) (<[(p, fd) := (k, 0%nat, false)]> ∅) s -> (i < nf)%nat -> pfiles s !! k = Some b ->
  let s' := set_fd (set_files s (<[k := int_bytes (Z.of_nat i)]> (pfiles s))) (p, fd) (Some (k, 4%nat, false)) in
  zstate P (S i) (<[(p, fd) := (k, 4%nat, false)]> ∅) s' /\ zguar P s s'.
Proof.
  intros k (A & B & C & E) Hi Hb s'.
  assert (zinv s') as Hz.
  { intros f b'. simpl. rewrite lookup_insert_Some. intros [[Ek <-]|[Hne Hf]].
    - apply in_dir_inj in Ek. subst f. exists i. by split_and!; [| |left].
    - destruct (A f b' Hf) as (i' & Hi' & -> & [-> |[-> (q & fd' & Hq & Hfd)]]); exists i'; (split_and!; [done|done|]); [by left|].
      right. split; [done|]. exists q, fd'. split; [done|]. simpl. rewrite lookup_insert_ne; [done|]. intros [= <- <-].
      rewrite C, lookup_insert_eq in Hfd by done. injection Hfd as Hfd. by destruct Hne. }
  assert (forall f, is_Some (pfiles s !! in_dir D f) -> is_Some (pfiles s' !! in_dir D f)) as Hex.
  { intros f Hf. simpl. rewrite lookup_insert. by case_decide. }
  split; split_and!; try done.
  - intros q fd' Hq. simpl. rewrite lookup_insert. case_decide as Eq; [rewrite Eq; by rewrite lookup_insert_eq|].
    rewrite C by done. rewrite !lookup_insert_ne by congruence. done.
  - intros j Hj. by apply Hex, E.
  - intros q fd' Hq. simpl. rewrite lookup_insert_ne; [done|]. intros [= <- _]. done.
Qed.

Lemma zclose i s fd :
  let k := in_dir D (numbered prefix i) in
  zstate P (S i) (<[(p, fd) := (k, 4%nat, false)]> ∅) s -> (i < nf)%nat ->
  let s' := set_fd s (p, fd) None in zstate P (S i) ∅ s' /\ zguar P s s'.
Proof.
  intros k (A & B & C & E) Hi s'.
  assert (zinv s') as Hz.
  { intros f b' Hf. simpl in Hf.
    destruct (A f b' Hf) as (i' & Hi' & -> & [-> |[-> (q & fd' & Hq & Hfd)]]); exists i'; (split_and!; [done|done|]); [by left|].
    right. split; [done|]. exists q, fd'. split; [done|]. simpl. rewrite lookup_delete_ne; [done|]. intros [= <- <-].
    rewrite C, lookup_insert_eq in Hfd by done. done. }
  split; split_and!; try done.
  - intros q fd' Hq. simpl. rewrite lookup_delete. case_decide as Eq; [by rewrite lookup_empty|].
    rewrite C, lookup_insert_ne, lookup_empty by congruence. done.
  - intros q fd' Hq. simpl. rewrite lookup_delete_ne; [done|]. intros [= <- _]. done.
Qed.

Lemma pwrite_int b i : b = int_bytes i \/ b = [] -> pwrite b 0 (int_bytes i) = int_bytes i.
Proof. by intros [-> | ->]. Qed.

Lemma zcreatn k : forall i s, (i + k <= nf)%nat -> zstate P i ∅ s ->
  safe resolve p (zrely P) (zguar P) (fun _ => zstate P (i + k) ∅) (createn_from d prefix true i k) s.
Proof.
  induction k as [|k IH]; intros i s Hi Hs.
  { intros s1 Hr. rewrite Nat.add_0_r. by eapply zstate_rely. }
  cbn [createn_from]. rewrite (sprintf_ok resolve d D) by (done || by apply numbered_short).
  pose proof Hd as (_ & Hdf & _). replace (i + S k)%nat with (S i + k)%nat by lia.
  apply safe_call. intros s1 Hr1. pose proof (zstate_rely _ _ _ _ _ Hs Hr1) as Hs1. split.
  { destruct (fresh_fd p (pfds s1)) as (fd & Hfd & Hn). do 2 eexists.
    eapply (px_creat _ _ _ _ D); [apply Hdf|apply Hs1|done|done]. }
  intros r s' Hpx. inversion Hpx as [s0 path d0 f0 fd Er Hd0 Hfd Hn| | | | | | | | | | | |]; subst.
  rewrite Hdf in Er. rewrite <- Er. destruct (zcreat i s1 fd Hs1 ltac:(lia) Hn) as [Hs2 Hg]. split; [exact Hg|]. clear Er Hpx Hg.
  set (s2 := set_fd _ _ _) in *. clearbody s2. replied.
  apply safe_call. intros s3 Hr3. pose proof (zstate_rely _ _ _ _ _ Hs2 Hr3) as Hs3.
  destruct (zfile _ _ _ Hs3 ltac:(lia) ltac:(lia)) as (b & Hb & Hb'). rewrite Nat.sub_succ, Nat.sub_0_r in Hb, Hb'.
  assert (pfds s3 !! (p, fd) = Some (in_dir D (numbered prefix i), 0%nat, false)) as Hfd3.
  { destruct Hs3 as (_ & _ & C & _). rewrite C by done. by rewrite lookup_insert_eq. }
  split; [do 2 eexists; by eapply px_write|].
  intros r s' Hpx. inversion Hpx as [| | | |s0 fd0 data0 k0 off0 app0 b0 E1 E2| | | | | | | |]; subst.
  rewrite Hfd3 in E1. injection E1 as <- <- <-. rewrite Hb in E2. injection E2 as <-.
  cbv zeta. rewrite pwrite_int by done. destruct (zwrite i s3 fd b Hs3 ltac:(lia) Hb) as [Hs4 Hg]. split; [exact Hg|]. clear Hpx Hg.
  set (s4 := set_fd _ _ _) in *. clearbody s4. cbn [length int_bytes]. replied.
  apply safe_call. intros s5 Hr5. pose proof (zstate_rely _ _ _ _ _ Hs4 Hr5) as Hs5.
  assert (pfds s5 !! (p, fd) = Some (in_dir D (numbered prefix i), 4%nat, false)) as Hfd5.
  { destruct Hs5 as (_ & _ & C & _). rewrite C by done. by rewrite lookup_insert_eq. }
  split; [do 2 eexists; by eapply px_close|].
  intros r s' Hpx. inversion Hpx; subst. destruct (zclose i s5 fd Hs5 ltac:(lia)) as [Hs6 Hg]. split; [exact Hg|].
  replied. apply IH; [lia|exact Hs6].
Qed.

(** All files exist: their names. *)
Lemma znames o s :
  zstate P nf o s -> names_in (pfiles s) D ≡ₚ numbered prefix <$> seq 0 nf.
Proof.
  intros (A & _ & _ & E). apply NoDup_Permutation.
  - unfold names_in. apply NoDup_omap; [|apply NoDup_fst_map_to_list].
    intros x y z Hx Hy. apply strip_spec in Hx, Hy. congruence.
  - apply NoDup_fmap_2_strong; [|apply NoDup_seq]. intros i j Hi%elem_of_seq Hj%elem_of_seq. apply numbered_inj; lia.
  - intros f. unfold names_in. rewrite list_elem_of_omap, list_elem_of_fmap. setoid_rewrite strip_spec. split.
    + intros (x & Hx & ->). apply list_elem_of_fmap in Hx as ([x b] & Ex & Hx). simpl in Ex. subst x. apply elem_of_map_to_list in Hx.
      unfold in_dir in Hx. rewrite <- app_assoc in Hx. destruct (A f b Hx) as (i & Hi & -> & _). exists i.
      split; [done|]. apply elem_of_seq. lia.
    + intros (i & -> & Hi%elem_of_seq). destruct (E i ltac:(lia)) as [b Hb]. exists (in_dir D (numbered prefix i)).
      split; [|unfold in_dir; by rewrite <- app_assoc].
      apply list_elem_of_fmap. exists (in_dir D (numbered prefix i), b). split; [done|]. by apply elem_of_map_to_list.
Qed.

Lemma zdircheck s :
  prefix <> [] -> hidden prefix = false -> (nf <= 1000)%nat -> zstate P nf ∅ s ->
  safe resolve p (zrely P) (zguar P) (fun _ => zstate P nf ∅) (dircheck d nf) s.
Proof.
  intros Hne Hh Hn Hs. apply (dircheck_safe resolve D d Hd p (zrely P) (zguar P)); [by intros s1; split_and!| |done].
  intros s1 Hr. pose proof (zstate_rely _ _ _ _ _ Hs Hr) as Hs1. pose proof (znames _ _ Hs1) as Hnames.
  split_and!; [apply Hs1| | |done].
  - rewrite visible_all.
    + by rewrite (Permutation_length Hnames), length_fmap, length_seq.
    + intros f Hin. rewrite Hnames in Hin. apply list_elem_of_fmap in Hin as (i & -> & _). by destruct prefix.
  - rewrite Hnames. apply NoDup_fmap_2_strong; [|apply NoDup_seq]. intros i j Hi%elem_of_seq Hj%elem_of_seq. apply numbered_inj; lia.
Qed.
End same.

(** Two processes: when both are done, nothing is half open. *)
Lemma zdone prefix nf s :
  Z.of_nat nf < two31 ->
  zstate prefix nf mine nf ∅ s -> zstate prefix nf childs nf ∅ s ->
  own (fun _ => True) (fun _ => True) D (with_numbered prefix 0 nf ∅) ∅ s.
Proof.
  intros Hnf (A & B & C & E) (_ & _ & C' & _).
  assert (forall q fd, pfds s !! (q, fd) = None) as Hno.
  { intros q fd. destruct (decide (q = 1)) as [->|Hq]; [by rewrite C'|by rewrite C]. }
  split_and!; [|intros q fd _; by rewrite Hno|done]. intros f _. destruct (pfiles s !! in_dir D f) as [b|] eqn:Ef.
  - destruct (A f b Ef) as (i & Hi & -> & [-> |[_ (q & fd & _ & Hfd)]]); [|by rewrite Hno in Hfd].
    by rewrite lookup_with_numbered by lia.
  - destruct (decide (Exists (fun j => f = numbered prefix j) (seq 0 nf))) as [Hj|Hj].
    + apply Exists_exists in Hj as (j & Hj%elem_of_seq & ->). destruct (E j ltac:(lia)) as [b Hb]. congruence.
    + symmetry. apply Forall_Exists_neg in Hj. clear -Hj. revert Hj. generalize 0%nat.
      assert (forall k i g, g !! f = None -> Forall (fun j => f <> numbered prefix j) (seq i k) -> with_numbered prefix i k g !! f = None) as Hg.
      { induction k as [|k IH]; intros i g Hg Hf; [done|]. cbn [seq] in Hf. apply Forall_cons in Hf as [Hf Hfs].
        cbn [with_numbered]. apply IH; [|done]. by rewrite lookup_insert_ne. }
      intros i Hj. by apply Hg.
Qed.

Lemma zstart prefix nf s :
  own (fun _ => True) (fun _ => True) D ∅ ∅ s -> forall P, zstate prefix nf P 0 ∅ s.
Proof.
  intros (A & B & C) P. split_and!; [|done|auto|lia]. intros f b Hf. by rewrite A, lookup_empty in Hf.
Qed.

Lemma zguar_rely prefix nf s s' : zguar prefix nf mine s s' -> zrely prefix nf childs s s'.
Proof. intros (A & B & C & E). split_and!; auto. Qed.
Lemma zguar_rely_child prefix nf s s' : zguar prefix nf childs s s' -> zrely prefix nf mine s s'.
Proof. intros (A & B & C & E). split_and!; auto. Qed.

(** ** Two parts of one file *)
Section parts.
Context (f : str) (Hshort : (length f <= 30)%nat) (L : nat).
Abbreviation kf := (in_dir D f).

(** The bytes [lo, hi) of the file are ours, and its length stays. *)
Definition same_part (lo hi : nat) (b b' : str) : Prop :=
  length b' = length b /\ forall i, (lo <= i < hi)%nat -> b' !! i = b !! i.
Definition wrely (P : Z -> Prop) (lo hi : nat) (s s' : pfs) : Prop :=
  (forall b, pfiles s !! kf = Some b -> exists b', pfiles s' !! kf = Some b' /\ same_part lo hi b b') /\
  (forall q fd, P q -> pfds s' !! (q, fd) = pfds s !! (q, fd)) /\ pdirs s ⊆ pdirs s'.
(** Only these bytes are changed. *)
Definition wguar (P : Z -> Prop) (lo hi : nat) (s s' : pfs) : Prop :=
  (forall b, pfiles s !! kf = Some b -> exists b', pfiles s' !! kf = Some b' /\ length b' = length b /\
    forall i, ~ (lo <= i < hi)%nat -> b' !! i = b !! i) /\
  (forall q fd, ~ P q -> pfds s' !! (q, fd) = pfds s !! (q, fd)) /\ pdirs s ⊆ pdirs s'.

#[export] Instance wrely_preorder P lo hi : PreOrder (wrely P lo hi).
Proof.
  split; [intros s; split_and!; [|done|done]; intros b Hb; by exists b|].
  intros s1 s2 s3 (A1 & B1 & C1) (A2 & B2 & C2). split_and!.
  - intros b Hb. destruct (A1 b Hb) as (b1 & Hb1 & L1 & E1). destruct (A2 b1 Hb1) as (b2 & Hb2 & L2 & E2).
    exists b2. split; [done|]. split; [congruence|]. intros i Hi. by rewrite E2, E1.
  - intros q fd Hq. by rewrite B2, B1.
  - by etransitivity.
Qed.

(** The first [n] of our bytes are [c], and the descriptors [o] are open. *)
Definition wstate (P : Z -> Prop) (lo n : nat) (c : ascii) (o : gmap (Z * Z) (str * nat * bool)) (s : pfs) : Prop :=
  (exists b, pfiles s !! kf = Some b /\ length b = L /\ forall i, (lo <= i < lo + n)%nat -> b !! i = Some c) /\
  (forall q fd, P q -> pfds s !! (q, fd) = o !! (q, fd)) /\ D ∈ pdirs s.

Lemma wstate_rely P lo hi n c o s s' :
  (lo + n <= hi)%nat -> wstate P lo n c o s -> wrely P lo hi s s' -> wstate P lo n c o s'.
Proof.
  intros Hn ((b & Hb & Hl & Hc) & B & C) (A' & B' & C'). destruct (A' b Hb) as (b' & Hb' & Hl' & He). split_and!.
  - exists b'. split_and!; [done|congruence|]. intros i Hi. rewrite He by lia. by apply Hc.
  - intros q fd Hq. by rewrite B', B.
  - set_solver.
Qed.

Context (P : Z -> Prop) (p : Z) (Hp : P p) (lo hi : nat) (c : ascii) (Hhi : (hi <= L)%nat).

Lemma pwrite_one (b : str) off : (off < length b)%nat ->
  length (pwrite b off [c]) = length b /\ pwrite b off [c] !! off = Some c /\
  forall i, i <> off -> pwrite b off [c] !! i = b !! i.
Proof.
  intros Ho. assert (pwrite b off [c] = <[off := c]> b) as ->.
  { unfold pwrite, fit. replace (off - length b)%nat with 0%nat by lia. simpl. rewrite app_nil_r.
    rewrite insert_take_drop by done. by replace (off + 1)%nat with (S off) by lia. }
  rewrite length_insert. split_and!; [done|by apply list_lookup_insert_eq|]. intros i Hi. by apply list_lookup_insert_ne.
Qed.

Lemma fd_guar s e fd : wguar P lo hi s (set_fd s (p, fd) e).
Proof.
  split_and!; [|intros q fd' Hq|done].
  - intros b Hb. by exists b.
  - simpl. destruct e; [rewrite lookup_insert_ne|rewrite lookup_delete_ne]; try done; intros [= <- _]; done.
Qed.

Lemma fd_state n o s e fd : wstate P lo n c o s ->
  wstate P lo n c (match e with Some x => <[(p, fd) := x]> o | None => delete (p, fd) o end) (set_fd s (p, fd) e).
Proof.
  intros (A & B & C). split_and!; [done| |done]. intros q fd' Hq. simpl.
  destruct e; [rewrite !lookup_insert|rewrite !lookup_delete]; case_decide; auto.
Qed.

(** One turn of the loop: a byte, and [fsync]. *)
Lemma wbytes fd m : forall n s, (lo + n + m <= hi)%nat ->
  wstate P lo n c (<[(p, fd) := (kf, (lo + n)%nat, false)]> ∅) s ->
  safe resolve p (wrely P lo hi) (wguar P lo hi)
    (fun _ => wstate P lo (n + m) c (<[(p, fd) := (kf, (lo + n + m)%nat, false)]> ∅)) (write_bytes fd m c) s.
Proof.
  induction m as [|m IH]; intros n s Hn Hs.
  { intros s1 Hr. rewrite !Nat.add_0_r. by eapply wstate_rely; [|exact Hs|exact Hr]; lia. }
  cbn [write_bytes]. apply safe_call. intros s1 Hr1.
  pose proof (fun Hle => wstate_rely _ _ _ _ _ _ _ _ Hle Hs Hr1) as Hs1; specialize (Hs1 ltac:(lia)). pose proof Hs1 as ((b & Hb & Hl & Hc) & B & C).
  assert (pfds s1 !! (p, fd) = Some (kf, (lo + n)%nat, false)) as Hfd by (rewrite B by done; by rewrite lookup_insert_eq).
  destruct (pwrite_one b (lo + n) ltac:(lia)) as (P1 & P2 & P3).
  split; [do 2 eexists; by eapply px_write|].
  intros r s' Hpx. inversion Hpx as [| | | |s0 fd0 data0 k0 off0 app0 b0 E1 E2| | | | | | | |]; subst.
  rewrite Hfd in E1. injection E1 as <- <- <-. rewrite Hb in E2. injection E2 as <-. cbv zeta. cbn [length].
  set (s2 := set_fd _ _ _).
  assert (wstate P lo (S n) c (<[(p, fd) := (kf, (lo + S n)%nat, false)]> ∅) s2) as Hs2.
  { split_and!; [|intros q fd' Hq|done].
    - exists (pwrite b (lo + n) [c]). split_and!; [simpl; by rewrite lookup_insert_eq|congruence|].
      intros i Hi. destruct (decide (i = lo + n)%nat) as [->|Hne]; [done|]. rewrite P3 by done. apply Hc. lia.
    - simpl. rewrite lookup_insert. case_decide as Eq.
      + rewrite Eq, lookup_insert_eq. by replace (lo + S n)%nat with (at_ + 1)%nat by (unfold at_; lia).
      + rewrite B by done. by rewrite !lookup_insert_ne by congruence. }
  split.
  { split_and!; [|intros q fd' Hq|done].
    - intros b0 Hb0. rewrite Hb in Hb0. injection Hb0 as <-. exists (pwrite b (lo + n) [c]). simpl.
      split_and!; [by rewrite lookup_insert_eq|done|]. intros i Hi. apply P3. lia.
    - simpl. rewrite lookup_insert_ne; [done|]. intros [= <- _]. done. }
  clearbody s2. clear Hpx. replied. apply safe_call. intros s3 Hr3.
  pose proof (wstate_rely P lo hi (S n) c _ _ _ ltac:(lia) Hs2 Hr3) as Hs3. pose proof Hs3 as (_ & B3 & _).
  assert (pfds s3 !! (p, fd) = Some (kf, (lo + S n)%nat, false)) as Hfd3 by (rewrite B3 by done; by rewrite lookup_insert_eq).
  split; [do 2 eexists; by eapply px_fsync|]. intros r s' Hpx. inversion Hpx; subst. split.
  { split_and!; [|done|done]. intros b0 Hb0. by exists b0. }
  replied. replace (n + S m)%nat with (S n + m)%nat by lia. replace (lo + n + S m)%nat with (lo + S n + m)%nat by lia.
  apply IH; [lia|]. by replace (lo + S n)%nat with (lo + S n)%nat by lia.
Qed.

Lemma write1_ok n s :
  (lo + n <= hi)%nat -> wstate P lo 0 c ∅ s ->
  safe resolve p (wrely P lo hi) (wguar P lo hi) (fun _ => wstate P lo n c ∅) (write1 d f (Z.of_nat lo) n c) s.
Proof.
  intros Hn Hs. unfold write1. rewrite (sprintf_ok resolve d D) by done. pose proof Hd as (_ & Hdf & _).
  apply safe_call. intros s1 Hr1. pose proof (fun Hle => wstate_rely _ _ _ _ _ _ _ _ Hle Hs Hr1) as Hs1; specialize (Hs1 ltac:(lia)).
  pose proof Hs1 as ((b & Hb & _) & _). split.
  { destruct (fresh_fd p (pfds s1)) as (fd & Hfd & Hno). do 2 eexists. eapply px_open; [by rewrite Hdf|done|done]. }
  intros r s' Hpx. inversion Hpx as [|s0 path fl0 b0 fd Eb Hfd Hno|s0 path d0 f0 fl0 fd Er Hd0 Hno| s0 path fl0 Hno| | | | | | | | |];
    subst; [|congruence|congruence]. rewrite Hdf. split; [apply fd_guar|].
  pose proof (fd_state 0 ∅ s1 (Some (kf, 0%nat, false)) fd Hs1) as Hs2. simpl in Hs2.
  change (negb (Z.land (Z.lor O_WRONLY O_CREAT) O_APPEND =? 0)) with false.
  set (s2 := set_fd _ _ _) in *. clearbody s2. replied. unfold mbind, prog_bind at 1.
  replied. apply safe_call. intros s3 Hr3. pose proof (fun Hle => wstate_rely _ _ _ _ _ _ _ _ Hle Hs2 Hr3) as Hs3; specialize (Hs3 ltac:(lia)).
  pose proof Hs3 as (_ & B3 & _).
  assert (pfds s3 !! (p, fd) = Some (kf, 0%nat, false)) as Hfd3 by (rewrite B3 by done; by rewrite lookup_insert_eq).
  split; [do 2 eexists; eapply px_lseek; [done|lia]|]. clear Hpx.
  intros r s' Hpx. inversion Hpx as [| | | | | | |s0 fd0 off1 k0 off2 app0 E1| | | | |]; subst. clear Hpx.
  rewrite Hfd3 in E1. injection E1 as <- <- <-. split; [apply fd_guar|].
  rewrite Nat2Z.id. pose proof (fd_state 0 _ s3 (Some (kf, lo, false)) fd Hs3) as Hs4. cbv iota in Hs4. rewrite insert_insert_eq in Hs4.
  generalize dependent (set_fd s3 (p, fd) (Some (kf, lo, false))). intros s4 Hs4. replied.
  eapply safe_bind; [apply _|apply (wbytes fd n 0 s4); [lia|by rewrite Nat.add_0_r]|]. intros [] s5 Hs5. cbn [Nat.add] in Hs5.
  apply safe_call. intros s6 Hr6. pose proof (fun Hle => wstate_rely _ _ _ _ _ _ _ _ Hle Hs5 Hr6) as Hs6; specialize (Hs6 ltac:(lia)).
  pose proof Hs6 as (_ & B6 & _).
  assert (pfds s6 !! (p, fd) = Some (kf, (lo + 0 + n)%nat, false)) as Hfd6 by (rewrite B6 by done; by rewrite lookup_insert_eq).
  split; [do 2 eexists; by eapply px_close|]. intros r s' Hpx. inversion Hpx; subst. split; [apply fd_guar|].
  pose proof (fd_state n _ s6 None fd Hs6) as Hs7. simpl in Hs7. rewrite delete_insert_eq, delete_empty in Hs7.
  replied. intros s7 Hr7. by eapply wstate_rely; [|exact Hs7|exact Hr7]; lia.
Qed.
End parts.
End shared_files.
