(* ===== verification/LabTesterThms.v ===== *)
(** * The file system testers pass on every conforming file system

    Whatever the kernel and the file system are, when they do what POSIX says and
    the two directories given to a tester are the same file system, the tester's
    checks pass, in every interleaving of the processes it forks. *)

From S2P Require Import Prelude Directory DirectorySpec YfsClient YfsFs YfsThms Posix LabTester LabTesterSpec LabTesterConc.
Import test_lab_3_b.

Section testers.
Context (resolve : str -> str) {W : Type} (sysc : Z -> sys -> W -> sreply * W) (abs : W -> pfs) `{HC : !Conforms resolve sysc abs}.

(** ** Phases *)

(** From [Pre], the phases pass, whatever the interleavings, and end with [Post]. *)
Definition leads (ps : list phase) (Pre Post : pfs -> Prop) : Prop :=
  forall w scheds, Pre (abs w) ->
  exists N w', (forall n, (N <= n)%nat -> run_phases sysc n scheds ps w = Some (true, w')) /\ Post (abs w').

Lemma leads_nil (Pre : pfs -> Prop) : leads [] Pre Pre.
Proof. intros w scheds Hw. by exists 0%nat, w. Qed.

Lemma leads_seq m ps (Pre Mid Post : pfs -> Prop) R G `{!PreOrder R} :
  (forall s, Pre s -> safe resolve 0 R G (fun _ => Mid) m s) -> leads ps Mid Post -> leads (Seq m :: ps) Pre Post.
Proof.
  intros Hm Hps w scheds Hw. destruct (run_safe resolve sysc abs 0 R G (fun _ => Mid) m w (Hm _ Hw)) as ([] & w1 & E & H1).
  destruct (Hps w1 scheds H1) as (N & w' & E' & HP). exists N, w'. split; [|done]. intros n Hn. cbn [run_phases]. rewrite E. by apply E'.
Qed.

Lemma par_mono n : forall sched m0 m1 (w : W) r k, par sysc n sched m0 m1 w = Some r -> par sysc (n + k) sched m0 m1 w = Some r.
Proof.
  induction n as [|n IH]; intros sched m0 m1 w r k; [done|]. cbn [par Nat.add]. intros E.
  destruct m0 as [a0|c0| |c0 k0], m1 as [a1|c1| |c1 k1]; try done.
  - destruct (sysc 1 c1 w). by apply IH.
  - destruct (sysc 0 c0 w). by apply IH.
  - destruct (sched 0%nat); [destruct (sysc 1 c1 w)|destruct (sysc 0 c0 w)]; by apply IH.
Qed.

Lemma leads_fork mc m ps (Pre Mid Post Q0 Q1 : pfs -> Prop) R0 G0 R1 G1 `{!PreOrder R0} `{!PreOrder R1} :
  (forall s s', G0 s s' -> R1 s s') -> (forall s s', G1 s s' -> R0 s s') ->
  (forall s, Pre s -> safe resolve 0 R0 G0 (fun _ => Q0) m s) -> (forall s, Pre s -> safe resolve 1 R1 G1 (fun _ => Q1) mc s) ->
  (forall s, Q0 s -> Q1 s -> Mid s) -> leads ps Mid Post -> leads (Fork mc m :: ps) Pre Post.
Proof.
  intros H01 H10 Hm Hmc HQ Hps w scheds Hw.
  destruct (par_safe resolve sysc abs R0 G0 R1 G1 (fun _ => Q0) (fun _ => Q1) H01 H10 m mc (scheds 0%nat) w (Hm _ Hw) (Hmc _ Hw))
    as (N1 & w1 & E1 & HQ0 & HQ1).
  destruct (Hps w1 (fun i => scheds (S i)) (HQ _ HQ0 HQ1)) as (N2 & w' & E2 & HP). exists (N1 + N2)%nat, w'. split; [|done].
  intros n Hn. cbn [run_phases]. replace n with (N1 + (n - N1))%nat by lia. rewrite (par_mono _ _ _ _ _ _ _ E1). apply E2. lia.
Qed.

(** ** One directory *)
Abbreviation all := (fun _ => True).
Abbreviation holds D g := (own (fun _ => True) (fun _ => True) D g ∅).
Abbreviation does1 D := (triple resolve (fun _ => True) (fun _ => True) 0 D).

Lemma leads_does D g m g' ps Post :
  does1 D g m g' -> leads ps (holds D g') Post -> leads (Seq m :: ps) (holds D g) Post.
Proof. intros Hm Hps. eapply leads_seq; [apply (frame_preorder all all)|apply Hm|done]. Qed.

Lemma does1_eq D g m g' g'' : does1 D g m g' -> g' = g'' -> does1 D g m g''.
Proof. by intros ? <-. Qed.

(** The parent creates numbered files, while the child works on others. *)
Lemma leads_creating D d prefix nf g mc gc ps Post :
  names_dir resolve d D -> (length prefix <= 2)%nat ->
  triple resolve (fun k => ~ prefixed D prefix k) childs 1 D g mc gc ->
  (forall f, prefixed D prefix (in_dir D f) -> gc !! f = g !! f) ->
  leads ps (holds D (with_numbered prefix 0 nf gc)) Post ->
  leads (Fork mc (createn d prefix nf false) :: ps) (holds D g) Post.
Proof.
  intros Hd Hp Hmc Hgc Hps.
  eapply (leads_fork _ _ _ _ _ _ (own (prefixed D prefix) mine D (with_numbered prefix 0 nf g) ∅)
    (own (fun k => ~ prefixed D prefix k) childs D gc ∅));
    [apply (frame_preorder (prefixed D prefix) mine)|apply (frame_preorder (fun k => ~ prefixed D prefix k) childs)| | | | | |exact Hps].
  - apply keeps_frame.
  - intros s s'. apply keeps_frame_child, _.
  - intros s Hs. apply (createn_ok resolve (prefixed D prefix) mine 0); [done|exact Hd| |done|by apply own_part].
    intros i. apply prefixed_numbered.
  - intros s Hs. apply Hmc. by apply own_part.
  - intros s H0 H1. eapply (own_join (prefixed D prefix)); [exact H0|exact H1| |].
    + intros f Hf. apply with_numbered_ext. symmetry. by apply Hgc.
    + intros f Hf. rewrite lookup_with_other; [done|]. intros j ->. apply Hf, prefixed_numbered.
Qed.

(** Both create the same files. *)
Lemma leads_same D d d' prefix nf ps Post :
  names_dir resolve d D -> names_dir resolve d' D -> (length prefix <= 2)%nat -> prefix <> [] -> hidden prefix = false ->
  (nf <= 1000)%nat ->
  leads ps (holds D (with_numbered prefix 0 nf ∅)) Post ->
  leads (Fork (createn d' prefix nf true) (createn d prefix nf true;; dircheck d nf) :: ps) (holds D ∅) Post.
Proof.
  intros Hd Hd' Hp Hne Hh Hnf Hps.
  eapply (leads_fork _ _ _ _ _ _ (zstate D prefix nf mine nf ∅) (zstate D prefix nf childs nf ∅));
    [apply (zrely_preorder D prefix nf mine)|apply (zrely_preorder D prefix nf childs)| | | | | |exact Hps].
  - intros s s'. apply zguar_rely.
  - intros s s'. apply zguar_rely_child.
  - intros s Hs. eapply safe_bind; [apply _| |].
    + apply (zcreatn resolve D d Hd prefix nf Hp ltac:(lia) mine 0); [done|by left|done|]. by apply zstart.
    + intros [] s1 Hs1. by apply (zdircheck resolve D d Hd prefix nf Hp ltac:(lia) mine 0).
  - intros s Hs. apply (zcreatn resolve D d' Hd' prefix nf Hp ltac:(lia) childs 1 eq_refl (or_intror eq_refl) nf 0); [done|]. by apply zstart.
  - intros s H0 H1. apply zdone; [lia|done|done].
Qed.

(** Two parts of one file are written at once, from its beginning and from [m]. *)
Lemma leads_parts D d d' f b m n c c' ps Post :
  names_dir resolve d D -> names_dir resolve d' D -> (length f <= 30)%nat -> (m + n <= length b)%nat -> (n <= m)%nat ->
  leads ps (fun s => exists b', own (fun k => k = in_dir D f) (fun _ => True) D {[f := b']} ∅ s /\
    (forall i, (0 <= i < 0 + n)%nat -> b' !! i = Some c) /\ (forall i, (m <= i < m + n)%nat -> b' !! i = Some c')) Post ->
  forall start, start = Z.of_nat m ->
  leads (Fork (write1 d' f start n c') (write1 d f 0 n c) :: ps) (holds D {[f := b]}) Post.
Proof.
  intros Hd Hd' Hf Hb Hn Hps start ->. change 0 with (Z.of_nat 0). set (L := length b).
  assert (forall P lo ch s, holds D {[f := b]} s -> wstate D f L P lo 0 ch ∅ s) as Hw.
  { intros P lo ch s (A & B & C). split_and!; [|auto|done]. exists b. split_and!; [|done|lia].
    rewrite A by done. by rewrite lookup_singleton_eq. }
  eapply (leads_fork _ _ _ _ _ _ (wstate D f L mine 0 n c ∅) (wstate D f L childs m n c' ∅)
    (wrely D f mine 0 m) (wguar D f mine 0 m) (wrely D f childs m L) (wguar D f childs m L));
    [| | | | |exact Hps].
  - intros s s' (A & B & C). split_and!; [|intros q fd ->; apply B; unfold mine; lia|done].
    intros b0 Hb0. destruct (A b0 Hb0) as (b1 & Hb1 & Hl & He). exists b1. split; [done|]. split; [done|]. intros i Hi. apply He. lia.
  - intros s s' (A & B & C). split_and!; [|done|done].
    intros b0 Hb0. destruct (A b0 Hb0) as (b1 & Hb1 & Hl & He). exists b1. split; [done|]. split; [done|]. intros i Hi. apply He. lia.
  - intros s Hs. apply (write1_ok resolve D d Hd f Hf L mine 0); [done|lia|lia|by apply Hw].
  - intros s Hs. apply (write1_ok resolve D d' Hd' f Hf L childs 1); [done|lia|lia|by apply Hw].
  - intros s ((b0 & Hb0 & Hl0 & H0) & B0 & C0) ((b1 & Hb1 & _ & H1) & B1 & _). rewrite Hb0 in Hb1. injection Hb1 as <-.
    exists b0. split_and!; [|done|done]. split_and!; [| |done].
    + intros f' Hf'. apply in_dir_inj in Hf'. subst f'. by rewrite Hb0, lookup_singleton_eq.
    + intros q fd _. destruct (decide (q = 1)); [by apply B1|by apply B0].
Qed.

(** ** Side conditions that are computed *)
Lemma checkn_all D d prefix k g :
  names_dir resolve d D -> (length prefix <= 2)%nat -> Z.of_nat k < two31 ->
  forallb (fun j => bool_decide (g !! numbered prefix j = Some (int_bytes (Z.of_nat j)))) (seq 0 k) = true ->
  does1 D g (checkn d prefix k) g.
Proof.
  intros Hd Hp Hk Hg. apply checkn_ok; [done|done|done|done|lia|]. intros j Hj.
  rewrite forallb_forall in Hg. specialize (Hg j). rewrite in_seq in Hg. by apply (bool_decide_eq_true_1 _), Hg.
Qed.

Lemma unlinkn_all D d prefix k g :
  names_dir resolve d D -> (length prefix <= 2)%nat -> Z.of_nat k < two31 ->
  forallb (fun j => bool_decide (is_Some (g !! numbered prefix j))) (seq 0 k) = true ->
  does1 D g (unlinkn d prefix k) (without_numbered prefix 0 k g).
Proof.
  intros Hd Hp Hk Hg. apply unlinkn_ok; [done|done|done|done|lia|]. intros j Hj.
  rewrite forallb_forall in Hg. specialize (Hg j). rewrite in_seq in Hg. by apply (bool_decide_eq_true_1 _), Hg.
Qed.

Lemma visible_names (g : gmap str str) :
  forallb (fun x => negb (hidden x.1)) (map_to_list g) = true -> map_Forall (fun f _ => hidden f = false) g.
Proof.
  intros Hv f b Hb. rewrite forallb_forall in Hv.
  apply elem_of_map_to_list, list_elem_of_In, Hv in Hb. simpl in Hb. by apply negb_true_iff in Hb.
Qed.

Lemma dircheck_all D d nf g :
  names_dir resolve d D -> forallb (fun x => negb (hidden x.1)) (map_to_list g) = true -> size g = nf -> (nf <= 1000)%nat ->
  does1 D g (dircheck d nf) g.
Proof.
  intros Hd Hv Hs Hn. apply dircheck_ok; try done. by apply visible_names.
Qed.
(** The functions of a phase one after the other: each has its lemma, whose
    conditions on the files that are there are computed. *)
Ltac does :=
  let short := cbn; lia in
  let found := first [apply lookup_insert_eq | vm_compute; reflexivity] in
  lazymatch goal with
  | |- triple _ _ _ _ _ _ (mbind _ _) _ => eapply triple_seq; [does|does]
  | |- triple _ _ _ _ _ _ (create1 _ _ _) _ => eapply create1_ok; [done|eassumption|exact I|short]
  | |- triple _ _ _ _ _ _ (check1 _ _ _) _ => eapply check1_ok; [done|eassumption|exact I|short|found|vm_compute; reflexivity]
  | |- triple _ _ _ _ _ _ (unlink1 _ _) _ => eapply unlink1_ok; [done|eassumption|exact I|short|found]
  | |- triple _ _ _ _ _ _ (checknot _ _) _ => eapply checknot_ok; [done|eassumption|exact I|short|found]
  | |- triple _ _ _ _ _ _ (append1 _ _ _) _ => eapply append1_ok; [done|eassumption|exact I|short|found]
  | |- triple _ _ _ _ _ _ (createn _ _ _ _) _ => eapply createn_ok; [done|eassumption|done|short]
  | |- triple _ _ _ _ _ _ (checkn _ _ _) _ => eapply checkn_all; [eassumption|short|done|vm_compute; reflexivity]
  | |- triple _ _ _ _ _ _ (unlinkn _ _ _) _ => eapply unlinkn_all; [eassumption|short|done|vm_compute; reflexivity]
  | |- triple _ _ _ _ _ _ (dircheck _ _) _ => eapply dircheck_all; [eassumption|vm_compute; reflexivity|vm_compute; reflexivity|cbn; lia]
  end.

(** ** The testers *)
(** The file system is seen below the directory [a]. *)
Definition mounted (a : str) : Prop := (forall x, resolve (in_dir a x) = x) /\ Z.of_nat (length a) < 400.

Lemma mounted_names a D : mounted a -> (length D <= 40)%nat -> names_dir resolve (in_dir a D) D.
Proof.
  intros [Hr Hl] HD. split_and!; [by rewrite Hr| |unfold in_dir; rewrite length_app; cbn [length]; lia].
  intros f. rewrite <- (Hr (in_dir D f)). unfold in_dir. by rewrite <- app_assoc.
Qed.

(** The directories of the testers have the process in their names. *)
Lemma names_pid a x pid : mounted a -> (length x <= 2)%nat -> names_dir resolve (in_dir a (x ++ filename pid)) (x ++ filename pid).
Proof. intros Ha Hx. apply mounted_names; [done|]. rewrite length_app. pose proof (length_filename pid). lia. Qed.

(** Nothing has the name of the directory or is in it. *)
Definition unused (D : str) (s : pfs) : Prop :=
  (D ∉ pdirs s) /\ pfiles s !! D = None /\ forall f, pfiles s !! in_dir D f = None.

Section lab_3_b.
Context (D d1 d2 : str) (Hd1 : names_dir resolve d1 D) (Hd2 : names_dir resolve d2 D).

(** The directory is made through the first mount, and seen through the second. *)
Lemma leads_mkdir ps Post :
  leads ps (holds D ∅) Post ->
  leads (Seq (_ ← sprintf512 d1;
              m ← sys_call (Mkdir d1);
              if negb (ret m =? 0) then Exit 1 else
              _ ← sprintf512 d2;
              a ← sys_call (Access d2);
              if negb (ret a =? 0) then Exit 1 else Done tt) :: ps) (fun s => unused D s /\ pfds s = ∅) Post.
Proof.
  intros Hps. eapply (leads_seq _ _ _ _ _ eq (fun _ _ => True)); [|exact Hps]. intros s ((U1 & U2 & U3) & Hfd).
  destruct Hd1 as (E1 & _ & L1), Hd2 as (E2 & _ & L2).
  unfold sprintf512. rewrite !(proj2 (Z.ltb_lt _ _)) by lia. 
  apply (safe_call resolve 0 eq). intros s1 <-. split; [eexists _, _; apply px_mkdir; by rewrite E1|].
  intros r s' Hpx. inversion Hpx; subst. split; [done|].  cbn [ret Z.eqb negb].
  apply (safe_call resolve 0 eq). intros s1 <-. split; [eexists _, _; apply px_access; rewrite E2; set_solver|].
  intros r s' Hpx'. inversion Hpx'; subst. split; [done|]. intros s1 <-. split_and!; simpl; [| |set_solver].
  - intros f _. by rewrite U3, lookup_empty.
  - intros q fd _. by rewrite Hfd.
Qed.

(** The numbered files of a prefix are not among those of another one. *)
Lemma with_prefixed prefix prefix' f k g :
  length prefix = length prefix' -> prefix <> prefix' -> prefixed D prefix (in_dir D f) ->
  with_numbered prefix' 0 k g !! f = g !! f.
Proof. intros Hl Hne Hf. apply lookup_with_other. intros j ->. by apply (prefixed_other D prefix prefix' j) in Hf. Qed.
Lemma without_prefixed prefix prefix' f k g :
  length prefix = length prefix' -> prefix <> prefix' -> prefixed D prefix (in_dir D f) ->
  without_numbered prefix' 0 k g !! f = g !! f.
Proof. intros Hl Hne Hf. apply lookup_without_other. intros j ->. by apply (prefixed_other D prefix prefix' j) in Hf. Qed.

(** Both parts of a file, read through both mounts. *)
Lemma checkreads f b (m n : Z) k c c' s :
  (length f <= 30)%nat -> 0 <= m -> 0 <= n ->
  (forall i, (Z.to_nat m <= i < Z.to_nat m + k)%nat -> b !! i = Some c) ->
  (forall i, (Z.to_nat n <= i < Z.to_nat n + k)%nat -> b !! i = Some c') ->
  own (fun x => x = in_dir D f) (fun _ => True) D {[f := b]} ∅ s ->
  safe resolve 0 (frame (fun x => x = in_dir D f) (fun _ => True)) (keeps (fun x => x = in_dir D f) (fun _ => True))
    (fun _ => own (fun x => x = in_dir D f) (fun _ => True) D {[f := b]} ∅)
    (checkread d1 f m k c;; checkread d2 f m k c;; checkread d1 f n k c';; checkread d2 f n k c') s.
Proof.
  intros Hf Hm Hn Hc Hc'. revert s. pose proof (lookup_singleton_eq (M := gmap str) f b) as Hb.
  eapply triple_seq; [|eapply triple_seq; [|eapply triple_seq]]; (eapply checkread_ok; [done| |done|done|exact Hb|done|done]); done.
Qed.
End lab_3_b.

(** C34: [test-lab-3-b] passes on every conforming file system: whatever the kernel
    and the file system are, when they answer as POSIX says, are mounted at both
    directories given to the tester, and nothing has the name of its directory,
    then every check of [main] succeeds, no buffer is overrun and the tester ends,
    in every interleaving of each forked child with its parent. *)
Theorem lab_3_b_passes a1 a2 pid prog_name w scheds :
  mounted a1 -> mounted a2 -> unused (S! "d" ++ filename pid) (abs w) -> pfds (abs w) = ∅ ->
  exists ps, main [prog_name; a1; a2] pid = Some ps /\
  exists N w', forall n, (N <= n)%nat -> run_phases sysc n scheds ps w = Some (true, w').
Proof.
  intros Ha1 Ha2 Hu Hfd. eexists. split; [reflexivity|].
  pose proof (names_pid a1 (S! "d") pid Ha1 ltac:(cbn; lia)) as Hd1. pose proof (names_pid a2 (S! "d") pid Ha2 ltac:(cbn; lia)) as Hd2.
  set (D := S! "d" ++ filename pid) in *. clearbody D.
  set (d1 := in_dir a1 D) in *. set (d2 := in_dir a2 D) in *. clearbody d1 d2.
  match goal with |- context [run_phases _ _ _ ?ps _] => assert (leads ps (fun s => unused D s /\ pfds s = ∅) (fun _ => True)) as HL end.
  2:{ destruct (HL w scheds (conj Hu Hfd)) as (N & w' & E & _). eauto. }
  eapply leads_mkdir; [exact Hd1|exact Hd2|].
  eapply leads_does; [does|].
  eapply leads_does; [eapply does1_eq; [does|instantiate (1 := ∅); vm_compute; reflexivity]|].
  eapply leads_does; [does|].
  eapply leads_does; [eapply does1_eq; [does|instantiate (1 := ∅); vm_compute; reflexivity]|].
  eapply leads_does; [eapply does1_eq; [does|instantiate (1 := ∅); vm_compute; reflexivity]|].
  eapply leads_does; [eapply does1_eq; [does|by fds]|].
  (* xx and yy *)
  eapply leads_creating; [exact Hd1|cbn; lia| | |].
  { eapply createn_ok; [done|exact Hd2| |cbn; lia]. intros i. by apply prefixed_other. }
  { intros f Hf. by eapply with_prefixed; [| |exact Hf]. }
  eapply leads_does; [eapply does1_eq; [does|instantiate (1 := ∅); vm_compute; reflexivity]|].
  eapply leads_same; [exact Hd1|exact Hd2|cbn; lia|done|done|lia|].
  eapply leads_does; [eapply does1_eq; [does|instantiate (1 := ∅); vm_compute; reflexivity]|].
  eapply leads_does; [does|].
  eapply leads_creating; [exact Hd1|cbn; lia| | |].
  { eapply triple_seq.
    - eapply unlinkn_ok; [done|exact Hd2| |cbn; lia|lia|]. intros i. by apply prefixed_other.
      intros j Hj. rewrite (with_prefixed D (S! "x1")) by (done || apply prefixed_numbered). rewrite lookup_with_numbered by lia. eauto.
    - eapply createn_ok; [done|exact Hd1| |cbn; lia]. intros i. by apply prefixed_other. }
  { intros f Hf. rewrite (with_prefixed D (S! "x4")) by done. by apply (without_prefixed D (S! "x4")). }
  eapply leads_does; [eapply does1_eq; [does|instantiate (1 := ∅); vm_compute; reflexivity]|].
  eapply leads_same; [exact Hd1|exact Hd1|cbn; lia|done|done|lia|].
  eapply leads_does; [eapply does1_eq; [does|instantiate (1 := ∅); vm_compute; reflexivity]|].
  eapply leads_does; [does|].
  eapply (leads_parts D d1 d2 _ _ (Z.to_nat 65536)); [done|done|cbn; lia|unfold huge; rewrite length_replicate; lia|lia| |by rewrite Z2Nat.id].
  eapply leads_seq; [apply (frame_preorder (fun k => k = in_dir D (S! "www")) (fun _ => True))| |apply leads_nil].
  intros s (b & Hs & Hlo & Hhi). eapply safe_weaken; [|done].
  apply (checkreads D d1 d2 Hd1 Hd2); [cbn; lia|done|done|exact Hlo|exact Hhi|exact Hs].
Qed.
End testers.
