(* ===== verification/LabTesterTwo.v ===== *)
(** * [test-lab-3-c.c]: two processes, each in its own directory

    The parent works in a directory that it makes through the first mount, the
    child in another one made through the second; what is left is counted when
    both are done. *)

From S2P Require Import Prelude Directory DirectorySpec YfsClient YfsFs YfsThms Posix LabTester LabTesterSpec LabTesterConc LabTesterThms.

(** The files of a directory. *)
Definition inside (D k : str) : Prop := is_Some (strip (in_dir D []) k).
#[export] Instance inside_dec D k : Decision (inside D k).
Proof. unfold inside. apply _. Defined.

Lemma inside_in_dir D f : inside D (in_dir D f).
Proof. exists f. apply strip_spec. unfold in_dir. by rewrite <- app_assoc. Qed.

Lemma inside_other D D' f : length D = length D' -> D <> D' -> ~ inside D (in_dir D' f).
Proof.
  intros Hl Hne [t Ht]. apply strip_spec in Ht. unfold in_dir in Ht. rewrite <- app_assoc in Ht.
  apply app_inj_1 in Ht; [|done]. by destruct Ht as [-> _].
Qed.

(** What one process leaves: of the [k + 1] files it creates it removes [k]. *)
Abbreviation left_over prefix k := (without_numbered prefix 0 k (with_numbered prefix 0 (S k) ∅)).

Section two.
Context (resolve : str -> str) {W : Type} (sysc : Z -> sys -> W -> sreply * W) (abs : W -> pfs) `{HC : !Conforms resolve sysc abs}.
Abbreviation holds D g := (own (fun _ => True) (fun _ => True) D g ∅).

Lemma create_unlink K P p D d prefix k :
  P p -> names_dir resolve d D -> (forall f, K (in_dir D f)) -> (length prefix <= 2)%nat -> Z.of_nat (S k) < two31 ->
  triple resolve K P p D ∅ (test_lab_3_c.createn d prefix (S k);; test_lab_3_c.unlinkn d prefix k) (left_over prefix k).
Proof.
  intros Hp Hd HK Hpre Hk. eapply triple_seq.
  - by apply createn_ok; [done|exact Hd|intros i|].
  - apply unlinkn_ok; [done|exact Hd|by intros i|done|lia|]. intros j Hj. rewrite lookup_with_numbered by lia. eauto.
Qed.

Section dirs.
Context (DA DB d1 d2 dd : str) (Hlen : length DA = length DB) (Hne : DA <> DB).
Context (Hd1 : names_dir resolve d1 DA) (Hd2 : names_dir resolve d2 DB) (Hdd : names_dir resolve dd DA).

Lemma leads_mkdirs ps Post :
  leads sysc abs ps (fun s => holds DA ∅ s /\ holds DB ∅ s) Post ->
  leads sysc abs (test_lab_3_b.Seq
    (_ ← sprintf512 d1;
     m ← sys_call (Mkdir d1);
     if negb (ret m =? 0) then Exit 1 else
     _ ← sprintf512 d2;
     m ← sys_call (Mkdir d2);
     if negb (ret m =? 0) then Exit 1 else
     _ ← sprintf512 dd;
     a ← sys_call (Access dd);
     if negb (ret a =? 0) then Exit 1 else Done tt) :: ps) (fun s => unused DA s /\ unused DB s /\ pfds s = ∅) Post.
Proof.
  intros Hps. eapply (leads_seq resolve _ _ _ _ _ _ _ eq (fun _ _ => True)); [|exact Hps].
  intros s ((A1 & A2 & A3) & (B1 & B2 & B3) & Hfd). destruct Hd1 as (E1 & _ & L1), Hd2 as (E2 & _ & L2), Hdd as (E3 & _ & L3).
  unfold sprintf512. rewrite !(proj2 (Z.ltb_lt _ _)) by lia.
  apply (safe_call resolve 0 eq). intros s1 <-. split; [eexists _, _; apply px_mkdir; by rewrite E1|].
  intros r s' Hpx. inversion Hpx as [| | | | | | | | | |s0 path N1 N2| |]. subst s0 path r s'. rewrite E1. split; [done|]. cbn [ret Z.eqb negb].
  apply (safe_call resolve 0 eq). intros s1 <-. split; [eexists _, _; apply px_mkdir; rewrite E2; [simpl; set_solver|done]|].
  intros r s' Hpx'. inversion Hpx' as [| | | | | | | | | |s0 path N1' N2'| |]. subst s0 path r s'. rewrite E2. split; [done|]. cbn [ret Z.eqb negb].
  apply (safe_call resolve 0 eq). intros s1 <-. split; [eexists _, _; apply px_access; rewrite E3; simpl; set_solver|].
  intros r s' Hpx3. inversion Hpx3 as [| | | | | | | | | | |s0 path N3|]. subst s0 path r s'. split; [done|]. intros s1 <-.
  split; (split_and!; simpl; [intros f _; rewrite lookup_empty; auto|intros q fd _; by rewrite Hfd|set_solver]).
Qed.

Lemma leads_two prefix prefix' k ps Post :
  (length prefix <= 2)%nat -> (length prefix' <= 2)%nat -> Z.of_nat (S k) < two31 ->
  leads sysc abs ps (fun s => holds DA (left_over prefix k) s /\ holds DB (left_over prefix' k) s) Post ->
  leads sysc abs (test_lab_3_b.Fork (test_lab_3_c.createn d2 prefix' (S k);; test_lab_3_c.unlinkn d2 prefix' k)
                                    (test_lab_3_c.createn d1 prefix (S k);; test_lab_3_c.unlinkn d1 prefix k) :: ps)
    (fun s => holds DA ∅ s /\ holds DB ∅ s) Post.
Proof.
  intros Hp Hp' Hk Hps.
  eapply (leads_fork resolve _ _ _ _ _ _ _ _ (own (inside DA) mine DA (left_over prefix k) ∅)
    (own (fun x => ~ inside DA x) childs DB (left_over prefix' k) ∅)
    (frame (inside DA) mine) (keeps (inside DA) mine) (frame (fun x => ~ inside DA x) childs) (keeps (fun x => ~ inside DA x) childs));
    [apply keeps_frame|intros s s'; apply keeps_frame_child, _| | | |exact Hps].
  - intros s [Hs _]. apply create_unlink; [done|exact Hd1|apply inside_in_dir|done|done|by apply own_part].
  - intros s [_ Hs]. apply create_unlink; [done|exact Hd2|intros f; by apply inside_other|done|done|by apply own_part].
  - intros s (A0 & B0 & C0) (A1 & B1 & C1).
    assert (forall q fd, pfds s !! (q, fd) = None) as Hno by (intros q fd; destruct (decide (q = 1)); [by apply B1|by apply B0]).
    split; (split_and!; [|intros q fd _; by rewrite Hno|done]); intros f _; [apply A0, inside_in_dir|apply A1; by apply inside_other].
Qed.

Lemma leads_dirchecks ga gb na nb :
  map_Forall (fun f _ => hidden f = false) ga -> size ga = na -> (na <= 1000)%nat ->
  map_Forall (fun f _ => hidden f = false) gb -> size gb = nb -> (nb <= 1000)%nat ->
  leads sysc abs [test_lab_3_b.Seq (test_lab_3_c.dircheck d1 na;; test_lab_3_c.dircheck d2 nb)]
    (fun s => holds DA ga s /\ holds DB gb s) (fun s => holds DA ga s /\ holds DB gb s).
Proof.
  intros Va Sa Na Vb Sb Nb. eapply (leads_seq resolve _ _ _ _ _ _ _ eq (fun _ _ => True)); [|apply leads_nil]. intros s Hs.
  eapply (safe_bind resolve 0 eq (fun _ _ => True) (fun _ s => holds DA ga s /\ holds DB gb s)); [| intros [] s1 Hs1].
  - apply (dircheck_safe resolve DA d1 Hd1 0 eq (fun _ _ => True)); [done| |done]. intros s1 <-.
    destruct (own_names _ _ _ ga ∅ s (fun _ => I) Va (proj1 Hs)) as (A & B & C). split_and!; [done|congruence|done|apply Hs|apply Hs].
  - apply (dircheck_safe resolve DB d2 Hd2 0 eq (fun _ _ => True)); [done| |done]. intros s2 <-.
    destruct (own_names _ _ _ gb ∅ s1 (fun _ => I) Vb (proj2 Hs1)) as (A & B & C). split_and!; [done|congruence|done|apply Hs1|apply Hs1].
Qed.
End dirs.

(** [test-lab-3-c] passes on every conforming file system as well, in every
    interleaving of the two processes. *)
Theorem lab_3_c_passes a1 a2 pid prog_name w scheds :
  mounted resolve a1 -> mounted resolve a2 ->
  unused (S! "da" ++ filename pid) (abs w) -> unused (S! "db" ++ filename pid) (abs w) -> pfds (abs w) = ∅ ->
  exists ps, test_lab_3_c.main [prog_name; a1; a2] pid = Some ps /\
  exists N w', forall n, (N <= n)%nat -> run_phases sysc n scheds ps w = Some (true, w').
Proof.
  intros Ha1 Ha2 HA HB Hfd. eexists. split; [reflexivity|].
  pose proof (names_pid resolve a1 (S! "da") pid Ha1 ltac:(cbn; lia)) as Hd1.
  pose proof (names_pid resolve a2 (S! "db") pid Ha2 ltac:(cbn; lia)) as Hd2.
  pose proof (names_pid resolve a2 (S! "da") pid Ha2 ltac:(cbn; lia)) as Hdd.
  assert (S! "da" ++ filename pid <> S! "db" ++ filename pid) as Hne by done.
  assert (length (S! "da" ++ filename pid) = length (S! "db" ++ filename pid)) as Hlen by done.
  match goal with |- context [run_phases _ _ _ ?ps _] =>
    assert (leads sysc abs ps (fun s => unused (S! "da" ++ filename pid) s /\ unused (S! "db" ++ filename pid) s /\ pfds s = ∅) (fun _ => True)) as HL end.
  2:{ destruct (HL w scheds (conj HA (conj HB Hfd))) as (N & w' & E & _). eauto. }
  eapply leads_mkdirs; [exact Hlen|exact Hne|exact Hd1|exact Hd2|exact Hdd|].
  eapply (leads_two _ _ _ _ Hlen Hne Hd1 Hd2 _ _ 99); [cbn; lia|cbn; lia|done|].
  intros w1 scheds1 Hw1.
  destruct (leads_dirchecks _ _ _ _ Hd1 Hd2 (left_over (S! "yy") 99) (left_over (S! "xx") 99) 1 1
    ltac:(apply visible_names; vm_compute; reflexivity) ltac:(vm_compute; reflexivity) ltac:(lia)
    ltac:(apply visible_names; vm_compute; reflexivity) ltac:(vm_compute; reflexivity) ltac:(lia) w1 scheds1 Hw1) as (N & w' & E & _).
  exists N, w'. done.
Qed.
End two.
