(* ===== verification/LabTesterExamples.v ===== *)
(** * The testers run on a file system

    A file system in memory, mounted at two places: it does what POSIX says, so
    the testers pass on it, and the runs can be computed. *)

From S2P Require Import Prelude Directory DirectorySpec YfsClient YfsFs YfsThms Posix LabTester LabTesterSpec LabTesterConc LabTesterThms LabTesterTwo.

Module memory_fs.
Definition resolve (x : str) : str :=
  match strip (S! "m1/") x with
  | Some y => y
  | None => match strip (S! "m2/") x with Some y => y | None => x end
  end.

(** A descriptor that the process does not use, and whether a name is in one of the directories. *)
Definition next_fd (s : pfs) : Z := Z.of_N (fresh ((Z.to_N ∘ snd) <$> (map_to_list (pfds s)).*1)).
Definition in_some_dir (s : pfs) (k : str) : bool :=
  existsb (fun d => bool_decide (is_Some (strip (in_dir d []) k))) (elements (pdirs s)).

Definition open_as (p : Z) (k : str) (fl : Z) (s : pfs) : sreply * pfs :=
  (Ok (next_fd s), set_fd s (p, next_fd s) (Some (k, 0%nat, negb (Z.land fl O_APPEND =? 0)))).

Definition kernel (p : Z) (c : sys) (s : pfs) : sreply * pfs :=
  match c with
  | Creat path =>
      let k := resolve path in
      if in_some_dir s k then open_as p k 0 (set_files s (<[k := []]> (pfiles s))) else (Err E_NOENT, s)
  | Open path fl =>
      let k := resolve path in
      match pfiles s !! k with
      | Some _ => open_as p k fl s
      | None =>
          if (Z.land fl O_CREAT =? 0) || negb (in_some_dir s k) then (Err E_NOENT, s)
          else open_as p k fl (set_files s (<[k := []]> (pfiles s)))
      end
  | Write fd data =>
      match pfds s !! (p, fd) with
      | Some (k, off, app) =>
          match pfiles s !! k with
          | Some b =>
              let at_ := if (app : bool) then length b else off in
              (Ok (Z.of_nat (length data)),
               set_fd (set_files s (<[k := pwrite b at_ data]> (pfiles s))) (p, fd) (Some (k, at_ + length data, app)%nat))
          | None => (Err E_NOENT, s)
          end
      | None => (Err E_NOENT, s)
      end
  | Read fd n =>
      match pfds s !! (p, fd) with
      | Some (k, off, app) =>
          match pfiles s !! k with
          | Some b => let data := take (Z.to_nat n) (drop off b) in (Data data, set_fd s (p, fd) (Some (k, off + length data, app)%nat))
          | None => (Err E_NOENT, s)
          end
      | None => (Err E_NOENT, s)
      end
  | Close fd => match pfds s !! (p, fd) with Some _ => (Ok 0, set_fd s (p, fd) None) | None => (Err E_NOENT, s) end
  | Lseek fd off =>
      match pfds s !! (p, fd) with
      | Some (k, _, app) => (Ok off, set_fd s (p, fd) (Some (k, Z.to_nat off, app)))
      | None => (Err E_NOENT, s)
      end
  | Fsync fd => (Ok 0, s)
  | Unlink path => (Ok 0, set_files s (delete (resolve path) (pfiles s)))
  | Mkdir path => (Ok 0, Pfs (pfiles s) ({[resolve path]} ∪ pdirs s) (pfds s))
  | Access path => (Ok 0, s)
  | Readdir path => (Names (names_in (pfiles s) (resolve path)), s)
  end.

Lemma next_fd_fresh p s : 0 <= next_fd s /\ pfds s !! (p, next_fd s) = None.
Proof.
  unfold next_fd. set (X := _ <$> _). split; [lia|].
  destruct (pfds s !! (p, Z.of_N (fresh X))) as [e|] eqn:E; [|done]. exfalso. apply (infinite_is_fresh X).
  apply list_elem_of_fmap. exists (p, Z.of_N (fresh X)). split; [simpl; lia|].
  apply list_elem_of_fmap. exists ((p, Z.of_N (fresh X)), e). split; [done|]. by apply elem_of_map_to_list.
Qed.

Lemma in_some_dir_spec s k : in_some_dir s k = true <-> exists d f, d ∈ pdirs s /\ k = in_dir d f.
Proof.
  unfold in_some_dir. rewrite existsb_exists. split.
  - intros (d & Hd & [f Hf]%(bool_decide_eq_true_1 _)). exists d, f. split; [by apply elem_of_elements, list_elem_of_In|].
    apply strip_spec in Hf. subst. unfold in_dir. by rewrite <- app_assoc.
  - intros (d & f & Hd & ->). exists d. split; [by apply list_elem_of_In, elem_of_elements|].
    apply bool_decide_eq_true_2. exists f. apply strip_spec. unfold in_dir. by rewrite <- app_assoc.
Qed.

Ltac known := repeat match goal with E : ?x = _ |- context [?x] => rewrite E end.

#[export] Instance kernel_conforms : Conforms resolve kernel id.
Proof.
  intros p c s (r & s' & H). unfold id in *. pose proof (next_fd_fresh p s) as [Hfd Hfree].
  inversion H; subst; unfold kernel.
  - assert (in_some_dir s (resolve path) = true) as ->.
    { apply in_some_dir_spec. eauto. }
    known. by eapply px_creat.
  - known. by eapply px_open.
  - known.
    match goal with E : Z.land _ _ <> 0 |- _ => rewrite (proj2 (Z.eqb_neq _ _) E) end.
    assert (in_some_dir s (in_dir d f) = true) as -> by (apply in_some_dir_spec; eauto). by eapply px_open_new.
  - known. by eapply px_open_none.
  - known. by eapply px_write.
  - known. by eapply px_read.
  - known. by eapply px_close.
  - known. by eapply px_lseek.
  - by eapply px_fsync.
  - by eapply px_unlink.
  - by eapply px_mkdir.
  - by eapply px_access.
  - by eapply px_readdir.
Qed.

Lemma mounted_m1 : mounted resolve (S! "m1").
Proof. split; [done|vm_compute; reflexivity]. Qed.
Lemma mounted_m2 : mounted resolve (S! "m2").
Proof. split; [done|vm_compute; reflexivity]. Qed.
Definition empty_fs : pfs := Pfs ∅ ∅ ∅.
Lemma unused_empty D : unused D empty_fs.
Proof. split_and!; [set_solver|done|done]. Qed.

(** The processes take turns, or the child goes first. *)
Definition turns (i j : nat) : bool := Nat.odd j.
Definition child_first (i j : nat) : bool := true.

(** C34, witness: both mounts are this file system, which is empty. *)
Lemma lab_3_b_passes_witness :
  exists ps, test_lab_3_b.main [S! "test-lab-3-b"; S! "m1"; S! "m2"] 7 = Some ps /\
  exists N w', forall n, (N <= n)%nat -> run_phases kernel n turns ps empty_fs = Some (true, w').
Proof. apply (lab_3_b_passes resolve kernel id); [exact mounted_m1|exact mounted_m2|apply unused_empty|reflexivity]. Defined.

Lemma lab_3_c_passes_witness :
  exists ps, test_lab_3_c.main [S! "test-lab-3-c"; S! "m1"; S! "m2"] 7 = Some ps /\
  exists N w', forall n, (N <= n)%nat -> run_phases kernel n child_first ps empty_fs = Some (true, w').
Proof.
  apply (lab_3_c_passes resolve kernel id); [exact mounted_m1|exact mounted_m2|apply unused_empty|apply unused_empty|reflexivity].
Defined.

(** A run of the second tester, computed. *)
Example lab_3_c_turns :
  (ps ← test_lab_3_c.main [S! "test-lab-3-c"; S! "m1"; S! "m2"] 7; fst <$> run_phases kernel 2000 turns ps empty_fs) = Some true.
Proof. vm_compute. reflexivity. Qed.
End memory_fs.
