(* ===== verification/Paxos.v ===== *)
(** * Paxos: [log.cc] and [paxos.cc]

    The acceptor keeps its durable state in a text file of records; [logread]
    replays it.  The file is part of the acceptor's state here ([disk]).  The
    prepare and accept phases of the proposer are left to be filled in in the
    source ([prepare] answers [false]); they are modelled as they are, and [run]
    also for any implementation of them. *)

From S2P Require Import Prelude Directory Protocols.
Import paxos_protocol.

(** ** Input streams

    [istringstream] and [ifstream]: what is left to read, and whether the stream
    is still good.  A failed extraction leaves the stream failed for good. *)
Record istream := Istream { rest : str; good : bool }.

Abbreviation newline := "010"%char.
Abbreviation space := " "%char.

Fixpoint take_word (s : str) : str * str :=
  match s with
  | c :: s' => if isspace c then ([], s) else let '(w, r) := take_word s' in (c :: w, r)
  | [] => ([], [])
  end.

Fixpoint take_digits (s : str) : str :=
  match s with
  | c :: s' => if isdigit c then take_digits s' else s
  | [] => []
  end.

Fixpoint take_line (s : str) : str * str :=
  match s with
  | c :: s' => if bool_decide (c = newline) then ([], s') else let '(l, r) := take_line s' in (c :: l, r)
  | [] => ([], [])
  end.

(** [in >> w] for a string: the word read, empty when there is none (the variable
    then keeps its value). *)
Definition read_word (i : istream) : str * istream :=
  if negb (good i) then ([], i) else
  let '(w, r) := take_word (skip_space (rest i)) in
  (w, Istream r (negb (bool_decide (w = [])))).

(** [in >> n] for an [unsigned]: the variable keeps its value when nothing is left
    to read, becomes 0 when no digit is there, and the largest value when the
    number does not fit. *)
Definition read_unsigned (old : Z) (i : istream) : Z * istream :=
  if negb (good i) then (old, i) else
  match skip_space (rest i) with
  | [] => (old, Istream [] false)
  | c :: s =>
      let neg := Z_of_byte c =? 45 in
      let ds := if neg || (Z_of_byte c =? 43) then s else c :: s in
      match ds with
      | d :: _ =>
          if isdigit d then
            let v := scan_digits 0 ds in
            if v <? two32 then (if neg then u32 (- v) else v, Istream (take_digits ds) true)
            else (two32 - 1, Istream (take_digits ds) false)
          else (0, Istream ds false)
      | [] => (0, Istream [] false)
      end
  end.

(** [in.get()]. *)
Definition read_char (i : istream) : istream :=
  if negb (good i) then i else
  match rest i with [] => Istream [] false | _ :: s => Istream s true end.

(** [getline(in, v)] into an empty [v]. *)
Definition read_line (i : istream) : str * istream :=
  if negb (good i) then ([], i) else
  match rest i with
  | [] => ([], Istream [] false)
  | s => let '(l, r) := take_line s in (l, Istream r true)
  end.

(** [out << n] for an [unsigned]. *)
Definition print_unsigned (n : Z) : str := dec_digits 10 n [].

(** ** The acceptor's state *)
Record acceptor := Acceptor {
  me : str;
  n_h : prop_t;
  n_a : prop_t;
  v_a : str;
  instance_h : Z;
  values : gmap Z str;
  disk : str }.                        (* the file paxos-<me>.log *)

Definition set_n_h (a : acceptor) (p : prop_t) : acceptor :=
  Acceptor (me a) p (n_a a) (v_a a) (instance_h a) (values a) (disk a).
Definition set_accepted (a : acceptor) (p : prop_t) (v : str) : acceptor :=
  Acceptor (me a) (n_h a) p v (instance_h a) (values a) (disk a).
Definition set_disk (a : acceptor) (d : str) : acceptor :=
  Acceptor (me a) (n_h a) (n_a a) (v_a a) (instance_h a) (values a) d.

(** ** class log *)
Module log.

(** One record of [logread], after its type was read. *)
Definition read_done (a : acceptor) (instance : Z) (i : istream) : acceptor * Z * istream :=
  let '(instance, i) := read_unsigned instance i in
  let i := read_char i in
  let '(v, i) := read_line i in
  (Acceptor (me a) (Prop_t 0 (m (n_h a))) (Prop_t 0 (m (n_a a))) [] instance (<[instance := v]> (values a)) (disk a),
   instance, i).

Definition read_propseen (a : acceptor) (i : istream) : acceptor * istream :=
  let '(x, i) := read_unsigned (n (n_h a)) i in
  let '(w, i') := read_word i in
  (set_n_h a (Prop_t x (if bool_decide (w = []) then m (n_h a) else w)), i').

Definition read_accepted (a : acceptor) (i : istream) : acceptor * istream :=
  let '(x, i) := read_unsigned (n (n_a a)) i in
  let '(w, i') := read_word i in
  let '(v, i'') := read_line (read_char i') in
  (set_accepted a (Prop_t x (if bool_decide (w = []) then m (n_a a) else w)) v, i'').

(** The loop of [logread]: every turn reads at least one character, so the length
    of the file is enough fuel. *)
Fixpoint logread_loop (fuel : nat) (a : acceptor) (instance : Z) (i : istream) : res acceptor :=
  let '(type, i) := read_word i in
  if negb (good i) then Ret a else
  match fuel with
  | O => Abort
  | S fuel =>
      if bool_decide (type = S! "done") then
        let '(a, instance, i) := read_done a instance i in logread_loop fuel a instance i
      else if bool_decide (type = S! "propseen") then
        let '(a, i) := read_propseen a i in logread_loop fuel a instance i
      else if bool_decide (type = S! "accepted") then
        let '(a, i) := read_accepted a i in logread_loop fuel a instance i
      else Abort
  end.

(** [logread]; [instance] is what the uninitialised variable of that name holds. *)
Definition logread (a : acceptor) (instance : Z) : res acceptor :=
  logread_loop (length (disk a)) a instance (Istream (disk a) true).

(** The file, line by line. *)
Fixpoint dump_lines (fuel : nat) (i : istream) : str :=
  match fuel with
  | O => []
  | S fuel =>
      let '(v, i) := read_line i in
      if negb (good i) then [] else v ++ [newline] ++ dump_lines fuel i
  end.
Definition dump (a : acceptor) : str := dump_lines (S (length (disk a))) (Istream (disk a) true).

Definition restore (a : acceptor) (s : str) : acceptor := set_disk a s.

Definition loginstance (a : acceptor) (instance : Z) (v : str) : acceptor :=
  set_disk a (disk a ++ S! "done" ++ [space] ++ print_unsigned instance ++ [space] ++ v ++ [newline]).

Definition logprop (a : acceptor) (p : prop_t) : acceptor :=
  set_disk a (disk a ++ S! "propseen" ++ [space] ++ print_unsigned (n p) ++ [space] ++ m p ++ [newline]).

Definition logaccept (a : acceptor) (p : prop_t) (v : str) : acceptor :=
  set_disk a (disk a ++ S! "accepted" ++ [space] ++ print_unsigned (n p) ++ [space] ++ m p ++ [space] ++ v ++ [newline]).
End log.

(** ** class acceptor *)

(** The constructor, on the file found on disk; [junk] is uninitialised memory. *)
Definition acceptor_new (first : bool) (name value file : str) (junk : Z) : res acceptor :=
  let a := Acceptor name (Prop_t 0 name) (Prop_t 0 name) [] 0 ∅ file in
  a ← log.logread a junk;
  if (instance_h a =? 0) && first then
    let a := log.loginstance a 1 value in
    Ret (Acceptor (me a) (n_h a) (n_a a) (v_a a) 1 (<[1 := value]> (values a)) (disk a))
  else Ret a.

(** [commit_wo]: the new state, and whether [cfg->paxos_commit] is called. *)
Definition commit_wo (a : acceptor) (instance : Z) (value : str) : acceptor * bool :=
  if instance_h a <? instance then
    let a := log.loginstance a instance value in
    (Acceptor (me a) (Prop_t 0 (me a)) (Prop_t 0 (me a)) [] instance (<[instance := value]> (values a)) (disk a), true)
  else (a, false).

Definition commit (a : acceptor) (instance : Z) (value : str) : acceptor * bool := commit_wo a instance value.

(** [preparereq] and [acceptreq] are to be filled in: they answer OK and leave
    their result as it is. *)
Definition preparereq (a : acceptor) (src : str) (arg : preparearg) (r : prepareres) : acceptor * Z * prepareres :=
  (a, OK, r).
Definition acceptreq (a : acceptor) (src : str) (arg : acceptarg) (r : bool) : acceptor * Z * bool := (a, OK, r).

Definition decidereq (a : acceptor) (src : str) (arg : decidearg) : res (acceptor * bool * Z) :=
  if da_instance arg =? u32 (instance_h a + 1) then
    _ ← VERIFY (bool_decide (v_a a = da_v arg));
    let '(a, up) := commit_wo a (da_instance arg) (v_a a) in
    Ret (a, up, OK)
  else if da_instance arg <=? instance_h a then Ret (a, false, OK)
  else Abort.

(** [value]: [operator[]] gives an empty string for an instance never decided. *)
Definition value (a : acceptor) (instance : Z) : str := default [] (values a !! instance).

Definition dump (a : acceptor) : str := log.dump a.
Definition restore (a : acceptor) (s : str) (junk : Z) : res acceptor := log.logread (log.restore a s) junk.

(** ** class proposer *)
Record proposer := Proposer {
  p_me : str; break1 : bool; break2 : bool; stable : bool; my_n : prop_t }.

Definition proposer_new (name : str) : proposer := Proposer name false false true (Prop_t 0 name).

Definition isamember (x : str) (nodes : list str) : bool := existsb (fun y => str_eqb y x) nodes.

Fixpoint print_members (nodes : list str) : str :=
  match nodes with
  | [] => []
  | [x] => x
  | x :: nodes => x ++ [","%char] ++ print_members nodes
  end.

Definition isrunning (p : proposer) : bool := negb (stable p).

(** Do the servers in [l2] contain a majority of those in [l1]? *)
Definition majority (l1 l2 : list str) : bool :=
  (Z.shiftr (Z.of_nat (length l1)) 1 + 1 <=? Z.of_nat (length (filter (fun x => isamember x l2 = true) l1))).

Definition setn (p : proposer) (acc : acceptor) : proposer :=
  let a := u32 (n (n_h acc) + 1) in let b := u32 (n (my_n p) + 1) in
  Proposer (p_me p) (break1 p) (break2 p) (stable p) (Prop_t (if b <? a then a else b) (m (my_n p))).

Definition set_stable (p : proposer) (b : bool) : proposer :=
  Proposer (p_me p) (break1 p) (break2 p) b (my_n p).

(** What a run did: its phases get the proposal number, and report to the rest of
    the system through [W]. *)
Section run.
Context {W : Type}.
Context (prepare_phase : prop_t -> Z -> list str -> W -> bool * list str * str * W).
Context (accept_phase : prop_t -> Z -> list str -> str -> W -> list str * W).
Context (decide_phase : Z -> list str -> str -> W -> W).

Definition run_with (p : proposer) (acc : acceptor) (instance : Z) (cur_nodes : list str) (newv : str) (w : W)
  : res (proposer * bool * W) :=
  if negb (stable p) then Ret (p, false, w) else
  let p := setn (set_stable p false) acc in
  let '(prepared, accepts, v, w) := prepare_phase (my_n p) instance cur_nodes w in
  '(r, w) ←
    (if prepared then
       if majority cur_nodes accepts then
         let v := if bool_decide (v = []) then newv else v in
         _ ← VERIFY (negb (break1 p));
         let nodes := accepts in
         let '(accepts, w) := accept_phase (my_n p) instance nodes v w in
         if majority cur_nodes accepts then
           _ ← VERIFY (negb (break2 p));
           Ret (true, decide_phase instance accepts v w)
         else Ret (false, w)
       else Ret (false, w)
     else Ret (false, w));
  Ret (set_stable p true, r, w).
End run.

(** The phases as the source has them. *)
Definition prepare (my : prop_t) (instance : Z) (nodes : list str) (w : unit) : bool * list str * str * unit :=
  (false, [], [], w).
Definition accept_ (my : prop_t) (instance : Z) (nodes : list str) (v : str) (w : unit) : list str * unit := ([], w).
Definition decide_ (instance : Z) (accepts : list str) (v : str) (w : unit) : unit := w.

Definition run (p : proposer) (acc : acceptor) (instance : Z) (cur_nodes : list str) (newv : str)
  : res (proposer * bool) :=
  '(p, r, _) ← run_with prepare accept_ decide_ p acc instance cur_nodes newv tt; Ret (p, r).

(** [breakpoint]. *)
Definition breakpoint (p : proposer) (b : Z) : proposer :=
  if b =? 3 then Proposer (p_me p) true (break2 p) (stable p) (my_n p)
  else if b =? 4 then Proposer (p_me p) (break1 p) true (stable p) (my_n p)
  else p.
