(* ===== verification/PaxosThms.v ===== *)
(** * The Paxos log replays to the state it recorded; quorums intersect *)

From S2P Require Import Prelude Directory DirectorySpec Marshall MarshallSpec MarshallThms Protocols Paxos.

(** ** Reading back what was printed *)

Definition word (w : str) : Prop := w <> [] /\ Forall (fun c => isspace c = false) w.
Definition line (v : str) : Prop := newline ∉ v.

Lemma skip_word w r : word w -> skip_space (w ++ r) = w ++ r.
Proof. intros [Hne Hw]. destruct Hw as [|c w Hc Hw]; [done|]. simpl. by rewrite Hc. Qed.

Lemma take_word_app w c r : Forall (fun c => isspace c = false) w -> isspace c = true ->
  take_word (w ++ c :: r) = (w, c :: r).
Proof.
  intros Hw Hc. induction Hw as [|x w Hx Hw IH]; simpl; [by rewrite Hc|]. by rewrite Hx, IH.
Qed.

Lemma read_word_app w c r : word w -> isspace c = true ->
  read_word (Istream (w ++ c :: r) true) = (w, Istream (c :: r) true).
Proof.
  intros Hw Hc. unfold read_word. simpl. rewrite skip_word, take_word_app by (done || apply Hw).
  rewrite bool_decide_eq_false_2; [done|apply Hw].
Qed.

(** White space before a word is skipped. *)
Lemma read_word_space c r : isspace c = true -> read_word (Istream (c :: r) true) = read_word (Istream r true).
Proof. intros Hc. unfold read_word. simpl. by rewrite Hc. Qed.

Lemma take_line_app v r : line v -> take_line (v ++ newline :: r) = (v, r).
Proof.
  unfold line. intros Hv. induction v as [|x v IH]; simpl; [done|].
  rewrite bool_decide_eq_false_2 by set_solver. by rewrite IH by set_solver.
Qed.

Lemma read_line_app v r : line v -> read_line (Istream (v ++ newline :: r) true) = (v, Istream r true).
Proof.
  intros Hv. unfold read_line. cbn [good negb rest].
  pose proof (take_line_app v r Hv) as E. destruct v as [|x v]; cbn [app] in *; by rewrite E.
Qed.

Lemma take_digits_app s r : Forall (fun c => isdigit c = true) s -> no_digit_first r -> take_digits (s ++ r) = r.
Proof.
  intros Hs Hr. induction Hs as [|c s Hc Hs IH]; simpl; [|by rewrite Hc].
  destruct r as [|c r]; [done|]. simpl in *. by rewrite Hr.
Qed.

Lemma print_unsigned_nonempty x : exists c s, print_unsigned x = c :: s /\ isdigit c = true.
Proof.
  pose proof (dec_digits_all 10 x) as H. unfold print_unsigned. destruct (dec_digits 10 x []) as [|c s] eqn:E.
  - exfalso. rewrite dec_digits_S in E. destruct (x <? 10); [done|].
    rewrite dec_digits_app in E. by destruct (dec_digits _ _ _).
  - inversion H; eauto.
Qed.

Lemma digit_not_space c : isdigit c = true -> isspace c = false.
Proof.
  unfold isdigit, isspace. intros H. bool_prop.
  destruct (Z.eqb_spec (Z_of_byte c) 32); [lia|]. destruct (Z.leb_spec (Z_of_byte c) 13); [lia|]. apply andb_false_r.
Qed.

Lemma read_unsigned_app old x r : 0 <= x < two32 -> no_digit_first r ->
  read_unsigned old (Istream (print_unsigned x ++ r) true) = (x, Istream r true).
Proof.
  intros Hx Hr. destruct (print_unsigned_nonempty x) as (c & s & E & Hc).
  assert (scan_digits 0 (print_unsigned x ++ r) = x) as Hs.
  { unfold print_unsigned. rewrite <- dec_digits_app, scan_dec, scan_stop; [done|done|].
    change (10 ^ Z.of_nat 10) with 10000000000. lia. }
  assert (take_digits (print_unsigned x ++ r) = r) as Ht by (apply take_digits_app; [apply dec_digits_all|done]).
  unfold read_unsigned. rewrite E in *. simpl. cbn [app] in Hs, Ht. rewrite (digit_not_space c Hc).
  pose proof Hc as Hd. unfold isdigit in Hd. bool_prop.
  destruct (Z.eqb_spec (Z_of_byte c) 45); [lia|]. destruct (Z.eqb_spec (Z_of_byte c) 43); [lia|]. cbn [orb].
  rewrite Hc, Hs, Ht. by destruct (Z.ltb_spec x two32); [|lia].
Qed.

Lemma read_unsigned_space old c r : isspace c = true -> read_unsigned old (Istream (c :: r) true) = read_unsigned old (Istream r true).
Proof. intros Hc. unfold read_unsigned. simpl. by rewrite Hc. Qed.

(** ** Records *)
Inductive record := RDone (instance : Z) (v : str) | RProp (p : prop_t) | RAccept (p : prop_t) (v : str).

Definition prop_ok (p : prop_t) : Prop := 0 <= n p < two32 /\ word (m p).
Definition record_ok (r : record) : Prop :=
  match r with
  | RDone i v => 0 <= i < two32 /\ line v
  | RProp p => prop_ok p
  | RAccept p v => prop_ok p /\ line v
  end.

(** What the three log functions append. *)
Definition log_record (a : acceptor) (r : record) : acceptor :=
  match r with
  | RDone i v => log.loginstance a i v
  | RProp p => log.logprop a p
  | RAccept p v => log.logaccept a p v
  end.

Definition record_text (r : record) : str :=
  match r with
  | RDone i v => S! "done" ++ [space] ++ print_unsigned i ++ [space] ++ v ++ [newline]
  | RProp p => S! "propseen" ++ [space] ++ print_unsigned (n p) ++ [space] ++ m p ++ [newline]
  | RAccept p v =>
      S! "accepted" ++ [space] ++ print_unsigned (n p) ++ [space] ++ m p ++ [space] ++ v ++ [newline]
  end.

(** What a record stands for. *)
Definition apply_record (a : acceptor) (r : record) : acceptor :=
  match r with
  | RDone i v =>
      Acceptor (me a) (Prop_t 0 (m (n_h a))) (Prop_t 0 (m (n_a a))) [] i (<[i := v]> (values a)) (disk a)
  | RProp p => set_n_h a p
  | RAccept p v => set_accepted a p v
  end.

Lemma disk_log_record a r : disk (log_record a r) = disk a ++ record_text r.
Proof. by destruct r. Qed.

Lemma read_done_text a inst i v r : 0 <= i < two32 -> line v ->
  log.read_done a inst (Istream (space :: print_unsigned i ++ space :: v ++ newline :: r) true) =
  (apply_record a (RDone i v), i, Istream r true).
Proof.
  intros Hi Hv. unfold log.read_done. rewrite read_unsigned_space, read_unsigned_app by done.
  unfold read_char. simpl. by rewrite read_line_app.
Qed.

Lemma prop_eta p : Prop_t (n p) (m p) = p.
Proof. by destruct p. Qed.

Lemma read_propseen_text a p r : prop_ok p ->
  log.read_propseen a (Istream (space :: print_unsigned (n p) ++ space :: m p ++ newline :: r) true) =
  (set_n_h a p, Istream (newline :: r) true).
Proof.
  intros [Hn Hw]. unfold log.read_propseen. rewrite read_unsigned_space, read_unsigned_app by done.
  rewrite read_word_space, read_word_app by done.
  rewrite bool_decide_eq_false_2 by apply Hw. by rewrite prop_eta.
Qed.

Lemma read_accepted_text a p v r : prop_ok p -> line v ->
  log.read_accepted a (Istream (space :: print_unsigned (n p) ++ space :: m p ++ space :: v ++ newline :: r) true) =
  (set_accepted a p v, Istream r true).
Proof.
  intros [Hn Hw] Hv. unfold log.read_accepted. rewrite read_unsigned_space, read_unsigned_app by done.
  rewrite read_word_space, read_word_app by done. unfold read_char. simpl.
  rewrite read_line_app by done. rewrite bool_decide_eq_false_2 by apply Hw. by rewrite prop_eta.
Qed.

(** The replay of a file of records, after the line end a proposal leaves. *)
Lemma logread_loop_records rs : forall fuel a inst nl, Forall record_ok rs -> (length rs <= fuel)%nat ->
  nl = [] \/ nl = [newline] ->
  log.logread_loop fuel a inst (Istream (nl ++ mjoin (record_text <$> rs)) true) = Ret (foldl apply_record a rs).
Proof.
  induction rs as [|r rs IH]; intros fuel a inst nl Hok Hf Hnl.
  - by destruct fuel, Hnl as [->| ->].
  - inversion Hok as [|? ? Hr Hrs]; subst. destruct fuel as [|fuel]; simpl in Hf; [lia|].
    cbn [fmap list_fmap mjoin list_join foldl log.logread_loop].
    assert (forall w t, word w -> read_word (Istream (nl ++ (w ++ space :: t)) true) = (w, Istream (space :: t) true)) as Hw.
    { intros w t Hw. destruct Hnl as [->| ->]; cbn [app]; [by apply read_word_app|].
      rewrite read_word_space by done. by apply read_word_app. }
    destruct r as [i v|p|p v]; simpl in Hr; cbn [record_text]; rewrite <- !app_assoc; cbn [app].
    + destruct Hr as [Hi Hv]. rewrite (Hw (S! "done")) by (split; [done|repeat constructor]). cbn [good negb].
      rewrite bool_decide_eq_true_2 by done. rewrite read_done_text by done. cbv beta iota.
      apply (IH fuel _ i []); [done|lia|by left].
    + rewrite (Hw (S! "propseen")) by (split; [done|repeat constructor]). cbn [good negb].
      rewrite bool_decide_eq_false_2, bool_decide_eq_true_2 by done. rewrite read_propseen_text by done. cbv beta iota.
      apply (IH fuel _ inst [newline]); [done|lia|by right].
    + destruct Hr as [Hp Hv]. rewrite (Hw (S! "accepted")) by (split; [done|repeat constructor]). cbn [good negb].
      rewrite !bool_decide_eq_false_2, bool_decide_eq_true_2 by done. rewrite read_accepted_text by done. cbv beta iota.
      apply (IH fuel _ inst []); [done|lia|by left].
Qed.

Definition log_text (rs : list record) : str := mjoin (record_text <$> rs).

Lemma log_text_snoc rs r : log_text (rs ++ [r]) = log_text rs ++ record_text r.
Proof. unfold log_text. rewrite fmap_app, join_app. simpl. by rewrite app_nil_r. Qed.

Lemma log_text_length rs : (length rs <= length (log_text rs))%nat.
Proof.
  induction rs as [|r rs IH]; [done|]. change (log_text (r :: rs)) with (record_text r ++ log_text rs).
  rewrite length_app. destruct r; unfold record_text; rewrite length_app; simpl; lia.
Qed.

Lemma logread_records rs a junk :
  Forall record_ok rs -> disk a = log_text rs -> log.logread a junk = Ret (foldl apply_record a rs).
Proof.
  intros Hok Hd. unfold log.logread. rewrite Hd.
  apply (logread_loop_records rs _ a junk []); [done|apply log_text_length|by left].
Qed.

Lemma disk_log_records rs a : disk (foldl log_record a rs) = disk a ++ log_text rs.
Proof.
  revert a. induction rs as [|r rs IH]; intros a; simpl; [by rewrite app_nil_r|].
  by rewrite IH, disk_log_record, <- app_assoc.
Qed.

(** C25: replaying the log gives back what was logged: whatever sequence of
    instances, proposals and acceptances the three log functions wrote to an
    empty file, [logread] applies exactly them, in order. *)
Theorem log_replay a rs junk :
  Forall record_ok rs -> disk a = [] ->
  log.logread (foldl log_record a rs) junk = Ret (foldl apply_record (foldl log_record a rs) rs).
Proof.
  intros Hok Hd. apply logread_records; [done|]. by rewrite disk_log_records, Hd.
Qed.

(** ** The acceptor across restarts *)

(** What an acceptor does: the requests it answers and the commits it is told. *)
Inductive aevent :=
  | ACommit (instance : Z) (v : str)
  | APrepare (src : str) (arg : paxos_protocol.preparearg) (r : paxos_protocol.prepareres)
  | AAccept (src : str) (arg : paxos_protocol.acceptarg) (r : bool)
  | ADecide (src : str) (arg : paxos_protocol.decidearg).

Definition event_ok (e : aevent) : Prop :=
  match e with ACommit i v => 0 <= i < two32 /\ line v | _ => True end.

Definition astep (a : acceptor) (e : aevent) (a' : acceptor) : Prop :=
  event_ok e /\
  match e with
  | ACommit i v => a' = (commit a i v).1
  | APrepare src arg r => a' = (preparereq a src arg r).1.1
  | AAccept src arg r => a' = (acceptreq a src arg r).1.1
  | ADecide src arg => exists up st, decidereq a src arg = Ret (a', up, st)
  end.

Definition started (first : bool) (name v : str) (a : acceptor) : Prop :=
  line v /\ exists junk, acceptor_new first name v [] junk = Ret a.

Definition blank (name file : str) : acceptor := Acceptor name (Prop_t 0 name) (Prop_t 0 name) [] 0 ∅ file.

Definition is_done (r : record) : Prop := match r with RDone _ _ => True | _ => False end.

(** The state is what the log says. *)
Record ainv (name : str) (a : acceptor) : Prop := {
  ai_log : exists rs, Forall record_ok rs /\ Forall is_done rs /\ disk a = log_text rs /\ a = foldl apply_record (blank name (disk a)) rs;
  ai_me : me a = name;
  ai_n_h : n_h a = Prop_t 0 name;
  ai_n_a : n_a a = Prop_t 0 name;
  ai_v_a : v_a a = [];
  ai_high : 0 <= instance_h a < two32;
  ai_logged_high : 0 < instance_h a -> is_Some (values a !! instance_h a);
  ai_keys : forall i v, values a !! i = Some v -> i <= instance_h a }.

Lemma apply_set_disk a r d : apply_record (set_disk a d) r = set_disk (apply_record a r) d.
Proof. by destruct r. Qed.

Lemma fold_set_disk rs a d : foldl apply_record (set_disk a d) rs = set_disk (foldl apply_record a rs) d.
Proof. revert a. induction rs as [|r rs IH]; intros a; [done|]. simpl. by rewrite apply_set_disk, IH. Qed.

Lemma commit_wo_inv name a i v :
  ainv name a -> 0 <= i < two32 -> line v -> ainv name (commit_wo a i v).1.
Proof.
  intros Ha Hi Hv. unfold commit_wo. destruct (Z.ltb_spec (instance_h a) i) as [Hlt|]; [|done].
  destruct Ha as [(rs & Hrs & Hdn & Hd & Ea) Hme Hnh Hna Hva Hh Hlh Hk]. cbn [fst].
  set (d' := disk a ++ record_text (RDone i v)). simpl. split; simpl; try done.
  - exists (rs ++ [RDone i v]). split; [apply Forall_app; split; [done|]; constructor; [by simpl|done]|].
    split; [apply Forall_app; split; [done|by repeat constructor]|].
    split; [by rewrite log_text_snoc, <- Hd|].
    rewrite foldl_snoc. change (blank name _) with (set_disk (blank name (disk a)) d').
    rewrite fold_set_disk, <- Ea. simpl. by rewrite Hnh, Hna, Hme.
  - by rewrite Hme.
  - by rewrite Hme.
  - intros _. by rewrite lookup_insert_eq.
  - intros j w. destruct (decide (i = j)) as [<-|Hne]; [lia|]. rewrite lookup_insert_ne by done.
    intros Hj%Hk. lia.
Qed.

Lemma started_inv first name v a : started first name v a -> ainv name a.
Proof.
  intros (Hv & junk & E). unfold acceptor_new in E. change (log.logread _ junk) with (Ret (blank name [])) in E.
  simpl in E. assert (ainv name (blank name [])) as H0.
  { split; try done. by exists []. }
  destruct first; simpl in E; injection E as <-; [|done].
  pose proof (commit_wo_inv name (blank name []) 1 v H0 ltac:(lia) Hv) as H1. exact H1.
Qed.

Lemma astep_inv name a e a' : ainv name a -> astep a e a' -> ainv name a'.
Proof.
  intros Ha [Hok Hs]. destruct e as [i v|src arg r|src arg r|src arg].
  - destruct Hok. subst. by apply commit_wo_inv.
  - by subst.
  - by subst.
  - destruct Hs as (up & st & E). unfold decidereq in E.
    destruct (Z.eqb_spec (paxos_protocol.da_instance arg) (u32 (instance_h a + 1))) as [Ei|].
    + res_inv. pose proof (ai_v_a _ _ Ha) as Hva. rewrite Hva in E.
      pose proof (commit_wo_inv name a (paxos_protocol.da_instance arg) [] Ha) as H1.
      destruct (commit_wo a _ []) as [a1 up1]. injection E as <- _ _.
      apply H1; [rewrite Ei; apply u32_range|apply not_elem_of_nil].
    + destruct (_ <=? _); [|done]. by injection E as <- _ _.
Qed.

Lemma ainv_reachable first name v tr a : reachable (started first name v) astep tr a -> ainv name a.
Proof.
  apply (reachable_invariant _ _ (fun _ => ainv name)); [apply started_inv|]. intros ? ? ? ?. apply astep_inv.
Qed.

Lemma recover name a first v junk :
  ainv name a -> first = false \/ instance_h a <> 0 -> acceptor_new first name v (disk a) junk = Ret a.
Proof.
  intros Ha Hf. destruct (ai_log _ _ Ha) as (rs & Hrs & Hdn & Hd & Ea). unfold acceptor_new.
  change (Acceptor name (Prop_t 0 name) (Prop_t 0 name) [] 0 ∅ (disk a)) with (blank name (disk a)).
  rewrite (logread_records rs) by done. rewrite <- Ea. rsimpl.
  destruct (Z.eqb_spec (instance_h a) 0), first; try done. by destruct Hf.
Qed.


Lemma commit_keeps a i v j w :
  values a !! j = Some w -> (forall k u, values a !! k = Some u -> k <= instance_h a) ->
  values (commit_wo a i v).1 !! j = Some w /\ instance_h a <= instance_h (commit_wo a i v).1.
Proof.
  intros Hj Hk. unfold commit_wo. destruct (Z.ltb_spec (instance_h a) i); simpl; [|by split].
  split; [|lia]. rewrite lookup_insert_ne; [done|]. apply Hk in Hj. lia.
Qed.

(** What an acceptor has decided stays decided: the value of an instance is
    never changed by a later step, and the highest instance never goes back. *)
Theorem decided_stable first name v tr a e a' j w :
  reachable (started first name v) astep tr a -> astep a e a' -> values a !! j = Some w ->
  values a' !! j = Some w /\ instance_h a <= instance_h a'.
Proof.
  intros Hr [_ Hs] Hj. apply ainv_reachable in Hr. pose proof (ai_keys _ _ Hr) as Hk.
  destruct e as [i u|src arg r|src arg r|src arg]; [subst; by apply commit_keeps|by subst|by subst|].
  destruct Hs as (up & st & E). unfold decidereq in E. destruct (_ =? _).
  - res_inv. pose proof (commit_keeps a (paxos_protocol.da_instance arg) (v_a a) j w Hj Hk) as H1.
    destruct (commit_wo a _ _) as [a1 up1]. by injection E as <- _ _.
  - destruct (_ <=? _); [|done]. by injection E as <- _ _.
Qed.

(** ** State transfer *)

Lemma print_line x : newline ∉ print_unsigned x.
Proof. intros H%(proj1 (Forall_forall _ _) (dec_digits_all 10 x)). done. Qed.

Lemma word_line w : word w -> newline ∉ w.
Proof. intros [_ Hw] H%(proj1 (Forall_forall _ _) Hw). done. Qed.

Lemma record_line r : record_ok r -> exists l, record_text r = l ++ [newline] /\ line l.
Proof.
  unfold line. destruct r as [i v|p|p v]; simpl; unfold line; intros Hr.
  - exists (S! "done" ++ [space] ++ print_unsigned i ++ [space] ++ v). split; [by rewrite <- !app_assoc|].
    pose proof (print_line i). rewrite !elem_of_app. set_unfold. naive_solver.
  - exists (S! "propseen" ++ [space] ++ print_unsigned (n p) ++ [space] ++ m p). split; [by rewrite <- !app_assoc|].
    pose proof (print_line (n p)). pose proof (word_line _ (proj2 Hr)). rewrite !elem_of_app. set_unfold. naive_solver.
  - exists (S! "accepted" ++ [space] ++ print_unsigned (n p) ++ [space] ++ m p ++ [space] ++ v).
    split; [by rewrite <- !app_assoc|]. destruct Hr as [[_ Hm] Hv].
    pose proof (print_line (n p)). pose proof (word_line _ Hm). rewrite !elem_of_app. set_unfold. naive_solver.
Qed.

Lemma dump_lines_text rs : forall fuel, Forall record_ok rs -> (length (log_text rs) < fuel)%nat ->
  log.dump_lines fuel (Istream (log_text rs) true) = log_text rs.
Proof.
  induction rs as [|r rs IH]; intros fuel Hok Hf; [by destruct fuel|].
  inversion Hok as [|? ? Hr Hrs]; subst. destruct (record_line r Hr) as (l & E & Hline).
  change (log_text (r :: rs)) with (record_text r ++ log_text rs) in *. rewrite E, <- app_assoc in *.
  destruct fuel as [|fuel]; [lia|]. cbn [log.dump_lines app]. rewrite read_line_app by done. cbn [good negb].
  rewrite IH; [done|done|]. rewrite !length_app in Hf. simpl in Hf. lia.
Qed.

Lemma restore_records name a b junk :
  ainv name a -> exists rs, Forall is_done rs /\ a = foldl apply_record (blank name (disk a)) rs /\
    Paxos.restore b (Paxos.dump a) junk = Ret (foldl apply_record (set_disk b (disk a)) rs).
Proof.
  intros Ha. destruct (ai_log _ _ Ha) as (rs & Hrs & Hdn & Hd & Ea). exists rs. split; [done|]. split; [done|].
  unfold Paxos.restore, Paxos.dump, log.dump, log.restore. rewrite Hd, dump_lines_text by (done || lia).
  by apply logread_records.
Qed.

(** Records determine the instances they mention, whatever the state before. *)
Lemma apply_same rs : forall a b, instance_h a = instance_h b \/ rs <> [] ->
  Forall is_done rs ->
  (forall i v, values a !! i = Some v -> values b !! i = Some v) ->
  instance_h (foldl apply_record a rs) = instance_h (foldl apply_record b rs) /\
  forall i v, values (foldl apply_record a rs) !! i = Some v -> values (foldl apply_record b rs) !! i = Some v.
Proof.
  induction rs as [|r rs IH]; intros a b Hh Hr Hv; [by destruct Hh|].
  inversion Hr as [|? ? Hd Hrs]; subst. destruct r as [i w|?|?]; [|done|done]. simpl. apply IH; [by left|done|].
  intros j u. simpl. destruct (decide (i = j)) as [<-|Hne]; [by rewrite !lookup_insert_eq|].
  rewrite !lookup_insert_ne by done. apply Hv.
Qed.

(** A node that restores the log another one dumped knows every decision of
    that node, and is at the same instance, whatever it knew before. *)
Theorem log_transfer first name v tr a b junk :
  reachable (started first name v) astep tr a ->
  exists b', Paxos.restore b (Paxos.dump a) junk = Ret b' /\
    (instance_h a <> 0 -> instance_h b' = instance_h a) /\
    forall i w, values a !! i = Some w -> values b' !! i = Some w.
Proof.
  intros Hr. apply ainv_reachable in Hr. destruct (restore_records name a b junk Hr) as (rs & Hdn & Ea & Eb).
  eexists; split; [exact Eb|]. destruct (decide (rs = [])) as [->|Hne].
  - simpl in Ea. rewrite Ea. split; [done|]. intros i w. simpl. by rewrite lookup_empty.
  - destruct (apply_same rs (blank name (disk a)) (set_disk b (disk a))) as [H1 H2]; [by right|done| |].
    { intros i w. simpl. by rewrite lookup_empty. }
    rewrite <- Ea in H1, H2. split; [done|exact H2].
Qed.

(** ** Quorums and ballots *)

Lemma isamember_iff x l : isamember x l = true <-> x ∈ l.
Proof.
  unfold isamember. rewrite existsb_exists. split.
  - intros (y & Hy & E). unfold str_eqb in E. bool_prop. subst. by apply list_elem_of_In.
  - intros Hx. exists x. split; [by apply list_elem_of_In|]. unfold str_eqb. by rewrite bool_decide_eq_true_2.
Qed.

Lemma filter_disjoint {A} (P Q : A -> Prop) `{!forall x, Decision (P x), !forall x, Decision (Q x)} l :
  (forall x, x ∈ l -> P x -> Q x -> False) -> (length (filter P l) + length (filter Q l) <= length l)%nat.
Proof.
  induction l as [|x l IH]; intros Hd; [done|]. rewrite !filter_cons.
  assert (length (filter P l) + length (filter Q l) <= length l)%nat by (apply IH; set_solver).
  pose proof (Hd x (list_elem_of_here x l)) as Hx. repeat case_decide; simpl; try lia. by destruct Hx.
Qed.

Lemma majority_spec l1 l2 :
  majority l1 l2 = true <-> (length l1 < 2 * length (filter (fun x => isamember x l2 = true) l1))%nat.
Proof.
  unfold majority. rewrite Z.leb_le, shiftr_div by lia. change (2 ^ 1) with 2.
  pose proof (Z.div_mod (Z.of_nat (length l1)) 2). pose proof (Z.mod_pos_bound (Z.of_nat (length l1)) 2). lia.
Qed.

Lemma majorities_meet nodes a b :
  majority nodes a = true -> majority nodes b = true -> exists x, x ∈ nodes /\ x ∈ a /\ x ∈ b.
Proof.
  rewrite !majority_spec. intros Ha Hb.
  destruct (decide (Exists (fun x => isamember x a = true /\ isamember x b = true) nodes)) as [He|Hn].
  - apply Exists_exists in He as (x & Hx & H1 & H2). rewrite isamember_iff in H1, H2. eauto.
  - exfalso. apply not_Exists_Forall in Hn; [|apply _]. rewrite Forall_forall in Hn.
    pose proof (filter_disjoint (fun x => isamember x a = true) (fun x => isamember x b = true) nodes) as H.
    assert (length (filter (fun x => isamember x a = true) nodes) +
            length (filter (fun x => isamember x b = true) nodes) <= length nodes)%nat; [|lia].
    apply H. intros x Hx H1 H2. by apply (Hn x Hx).
Qed.

(** What a successful run did: majorities answered both phases. *)
Lemma run_success {W} pp ap dp (p p' : proposer) acc inst nodes v (w w' : W) :
  run_with pp ap dp p acc inst nodes v w = Ret (p', true, w') ->
  let '(ok, prepared, u, w1) := pp (my_n p') inst nodes w in
  let chosen := if bool_decide (u = []) then v else u in
  ok = true /\ majority nodes prepared = true /\
  majority nodes (ap (my_n p') inst prepared chosen w1).1 = true /\
  w' = dp inst (ap (my_n p') inst prepared chosen w1).1 chosen (ap (my_n p') inst prepared chosen w1).2.
Proof.
  intros R. unfold run_with in R. destruct (stable p); [|done]. cbn [negb] in R.
  set (q := setn (set_stable p false) acc) in R.
  destruct (pp (my_n q) inst nodes w) as [[[ok prepared] u] w1] eqn:P.
  assert (p' = set_stable q true) as -> by (by res_inv; destruct x; res_inv).
  change (my_n (set_stable q true)) with (my_n q). rewrite P. cbv zeta.
  destruct ok; [|done]. destruct (majority nodes prepared) eqn:M; [|done].
  res_inv. destruct x as [r x]. res_inv.
  destruct (ap (my_n q) inst prepared _ w1) as [acs w2] eqn:A.
  destruct (majority nodes acs) eqn:M2; res_inv; by simplify_eq.
Qed.


(** C30: ballots: [operator>] is a strict total order on proposals, and [setn]
    takes a number above the proposer's last one and above every proposal the
    acceptor has seen, as long as the numbers fit. *)
Theorem ballots_increase :
  (forall a, prop_gt a a = false) /\
  (forall a b c, prop_gt a b = true -> prop_gt b c = true -> prop_gt a c = true) /\
  (forall a b, prop_gt a b = false -> prop_gt b a = false -> a = b) /\
  (forall p acc, 0 <= n (my_n p) < two32 - 1 -> 0 <= n (n_h acc) < two32 - 1 ->
    prop_gt (my_n (setn p acc)) (my_n p) = true /\ prop_gt (my_n (setn p acc)) (n_h acc) = true /\
    0 <= n (my_n (setn p acc)) < two32).
Proof.
  unfold prop_gt, str_gtb. split; [|split; [|split]].
  - intros a. rewrite Z.ltb_irrefl, Z.eqb_refl, str_ltb_irrefl. done.
  - intros a b c. rewrite !orb_true_iff, !andb_true_iff, !Z.ltb_lt, !Z.eqb_eq.
    intros [?|[? ?]] [?|[? ?]]; [left; lia|left; lia|left; lia|right]. split; [lia|by eapply str_ltb_trans].
  - intros [na ma] [nb mb]. simpl. rewrite !orb_false_iff, !andb_false_iff, !Z.ltb_ge, !Z.eqb_neq.
    intros [? [?|?]] [? [?|?]]; [lia|lia|lia|]. f_equal; [lia|by apply str_ltb_total].
  - intros p acc Hp Ha. unfold setn. cbn [my_n n m]. rewrite !u32_small by lia.
    destruct (Z.ltb_spec (n (my_n p) + 1) (n (n_h acc) + 1)); cbn [n m];
      rewrite !orb_true_iff, !Z.ltb_lt; repeat split; (left; lia) || lia.
Qed.

(** With the phases the source has, a run never succeeds: it moves on to the next
    ballot and leaves the proposer ready for another run. *)
Theorem run_unfilled p acc inst nodes v :
  stable p = true ->
  run p acc inst nodes v = Ret (set_stable (setn (set_stable p false) acc) true, false).
Proof. intros Hs. unfold run, run_with. by rewrite Hs. Qed.
