(* ===== verification/Group.v ===== *)
(** * Views and replicas: [handle.cc], [config.cc] and [rsm.cc]

    [handle_mgr] shares one RPC client per node among the handles that name it.
    [config] turns the values Paxos decides into views; [rsm] follows the views
    and keeps track of the primary.  An operation that calls up or out returns
    what it calls with; a remote call is an argument, its answer. *)

From S2P Require Import Prelude Directory Protocols Paxos.
Import paxos_protocol.

(** ** handle.cc *)
Module handle.

Record hinfo := Hinfo { cl : option Z; refcnt : Z; del : bool; hm : str }.

(** The [hinfo] objects, and the map from node names to them. *)
Record handle_mgr := Mgr { objs : gmap positive hinfo; hmap : gmap str positive; next : positive }.

Definition mgr_new : handle_mgr := Mgr ∅ ∅ 1.

Definition set_obj (g : handle_mgr) (p : positive) (h : hinfo) : handle_mgr :=
  Mgr (<[p := h]> (objs g)) (hmap g) (next g).

(** [get_handle]: the object, [None] for [NULL]. *)
Definition get_handle (g : handle_mgr) (x : str) : res (handle_mgr * option positive) :=
  match hmap g !! x with
  | None =>
      let p := next g in
      Ret (Mgr (<[p := Hinfo None 1 false x]> (objs g)) (<[x := p]> (hmap g)) (Pos.succ p), Some p)
  | Some p =>
      match objs g !! p with
      | None => Undef
      | Some h =>
          if negb (del h) then Ret (set_obj g p (Hinfo (cl h) (refcnt h + 1) (del h) (hm h)), Some p)
          else Ret (g, None)
      end
  end.

Definition delete_handle_wo (g : handle_mgr) (x : str) : res handle_mgr :=
  match hmap g !! x with
  | None => Ret g
  | Some p =>
      match objs g !! p with
      | None => Undef
      | Some h =>
          if refcnt h =? 0 then Ret (Mgr (delete p (objs g)) (delete x (hmap g)) (next g))
          else Ret (set_obj g p (Hinfo (cl h) (refcnt h) true (hm h)))
      end
  end.

Definition delete_handle (g : handle_mgr) (x : str) : res handle_mgr := delete_handle_wo g x.

(** [done_handle], called by the destructor of a handle. *)
Definition done_handle (g : handle_mgr) (p : positive) : res handle_mgr :=
  match objs g !! p with
  | None => Undef
  | Some h =>
      let r := refcnt h - 1 in
      let g := set_obj g p (Hinfo (cl h) r (del h) (hm h)) in
      if (r =? 0) && del h then delete_handle_wo g (hm h) else Ret g
  end.

(** [safebind]: [fresh] is the client it makes, [ret] what its [bind] returns. *)
Definition safebind (g : handle_mgr) (p : option positive) (fresh ret : Z) : res (handle_mgr * option Z) :=
  match p with
  | None => Ret (g, None)
  | Some p =>
      match objs g !! p with
      | None => Undef
      | Some h =>
          if del h then Ret (g, None)
          else match cl h with
          | Some c => Ret (g, Some c)
          | None =>
              if ret <? 0 then Ret (set_obj g p (Hinfo None (refcnt h) true (hm h)), None)
              else Ret (set_obj g p (Hinfo (Some fresh) (refcnt h) (del h) (hm h)), Some fresh)
          end
      end
  end.
End handle.

(** ** config.cc *)
Module config.

Record config := Config {
  acc : acceptor; pro : proposer; myvid : Z; first : str; cme : str; mems : list str }.

Definition set_acc (c : config) (a : acceptor) : config := Config a (pro c) (myvid c) (first c) (cme c) (mems c).
Definition set_pro (c : config) (p : proposer) : config := Config (acc c) p (myvid c) (first c) (cme c) (mems c).
Definition set_view (c : config) (vid : Z) (ms : list str) : config :=
  Config (acc c) (pro c) vid (first c) (cme c) ms.

(** [while (ist >> m)]: every turn reads a character. *)
Fixpoint members_loop (fuel : nat) (i : istream) : list str :=
  match fuel with
  | O => []
  | S fuel =>
      let '(w, i) := read_word i in
      if good i then w :: members_loop fuel i else []
  end.
Definition members (value : str) : list str := members_loop (S (length value)) (Istream value true).

Definition value (ms : list str) : str := mjoin ((fun x => x ++ [space]) <$> ms).

Definition get_view_wo (c : config) (instance : Z) : list str := members (Paxos.value (acc c) instance).
Definition get_view (c : config) (instance : Z) : list str := get_view_wo c instance.

Definition reconstruct (c : config) : config :=
  if 0 <? instance_h (acc c) then
    let vid := instance_h (acc c) in set_view c vid (get_view_wo c vid)
  else c.

(** The constructor, on the log file found on disk. *)
Definition config_new (first me file : str) (junk : Z) : res config :=
  a ← acceptor_new (str_eqb me first) me me file junk;
  Ret (reconstruct (Config a (proposer_new me) 0 first me [])).

Definition restore (c : config) (s : str) (junk : Z) : res config :=
  a ← Paxos.restore (acc c) s junk;
  Ret (reconstruct (set_acc c a)).

Definition dump (c : config) : str := Paxos.dump (acc c).

(** [paxos_commit]: the handles it deletes, and the view it announces. *)
Definition paxos_commit (c : config) (instance : Z) (v : str) : config * list str * Z :=
  let newmem := members v in
  let gone := filter (fun x => isamember x newmem = false /\ cme c <> x) (mems c) in
  (set_view c instance newmem, gone, instance).

Definition ismember (c : config) (x : str) (vid : Z) : bool := isamember x (get_view_wo c vid).

Definition add (c : config) (new_m : str) (vid : Z) : res (config * bool) :=
  if negb (vid =? myvid c) then Ret (c, false) else
  let v := value (mems c ++ [new_m]) in
  '(p, r) ← run (pro c) (acc c) (s32 (myvid c + 1)) (mems c) v;
  Ret (set_pro c p, r).

Definition remove_wo (c : config) (x : str) : res (config * bool) :=
  let v := value (filter (fun y => y <> x) (mems c)) in
  '(p, r) ← run (pro c) (acc c) (s32 (myvid c + 1)) (mems c) v;
  Ret (set_pro c p, r).

(** [heartbeat_t]. *)
Inductive heartbeat_t := HB_OK | HB_VIEWERR | HB_FAILURE.
#[global] Instance heartbeat_eq_dec : EqDecision heartbeat_t.
Proof. solve_decision. Defined.

(** [doheartbeat]: [ret] is what the call returned, [timeout_failure] when no
    client could be bound.  The handle of a restarted node is deleted. *)
Definition doheartbeat (ret : Z) : heartbeat_t * bool :=
  if negb (ret =? OK) then
    if (ret =? -4) || (ret =? -5) then (HB_OK, true)
    else if ret <? 0 then (HB_FAILURE, false) else (HB_VIEWERR, false)
  else (HB_OK, false).

(** The node with the smallest id, starting from [m]. *)
Fixpoint smallest (x : str) (cmems : list str) : str :=
  match cmems with
  | [] => x
  | y :: cmems => smallest (if str_gtb x y then y else x) cmems
  end.

(** One turn of [heartbeater]: [beat] is what calling each node returns; the node
    it would remove. *)
Definition heartbeat_turn (c : config) (beat : str -> Z) : option str :=
  let cmems := get_view_wo c (myvid c) in
  if negb (isamember (cme c) cmems) then None else
  let x := smallest (cme c) cmems in
  if str_eqb x (cme c) then
    find (fun y => negb (str_eqb y (cme c)) && negb (bool_decide ((doheartbeat (beat y)).1 = HB_OK))) cmems
  else if bool_decide ((doheartbeat (beat x)).1 = HB_OK) then None else Some x.

(** The nodes a turn calls, and those of them whose handle [doheartbeat] deletes. *)
Fixpoint pinged (me : str) (beat : str -> Z) (cmems : list str) : list str :=
  match cmems with
  | [] => []
  | y :: cmems =>
      if str_eqb y me then pinged me beat cmems
      else y :: (if bool_decide ((doheartbeat (beat y)).1 = HB_OK) then pinged me beat cmems else [])
  end.
Definition heartbeat_deletes (c : config) (beat : str -> Z) : list str :=
  let cmems := get_view_wo c (myvid c) in
  if negb (isamember (cme c) cmems) then [] else
  let x := smallest (cme c) cmems in
  filter (fun y => (doheartbeat (beat y)).2 = true) (if str_eqb x (cme c) then pinged (cme c) beat cmems else [x]).

(** The mutex is released during the calls: [c'] is the state found afterwards,
    and nothing is removed when the view has changed. *)
Definition heartbeater (c c' : config) (beat : str -> Z) : res config :=
  match heartbeat_turn c beat with
  | Some x => if myvid c =? myvid c' then '(c', _) ← remove_wo c' x; Ret c' else Ret c'
  | None => Ret c'
  end.

(** [heartbeat], the handler: status and the value returned. *)
Definition heartbeat (c : config) (vid : Z) : res (Z * Z) :=
  let r := s32 (myvid c) in
  if vid =? myvid c then Ret (OK, r)
  else if isrunning (pro c) then
    _ ← VERIFY ((vid =? u32 (myvid c + 1)) || (u32 (vid + 1) =? myvid c));
    Ret (OK, r)
  else Ret (ERR, r).
End config.

(** ** rsm.cc *)
Module rsm.
Import config.

Record rsm := Rsm {
  cfg : config;
  myvs : viewstamp;
  last_myvs : viewstamp;
  primary : str;
  insync : bool;
  inviewchange : bool;
  vid_commit : Z;
  vid_insync : Z;
  partitioned : bool;
  dopartition : bool;
  rbreak1 : bool;
  rbreak2 : bool;
  reachable_ : bool }.                 (* of [rsmrpc] *)

Definition set_cfg (r : rsm) (c : config) : rsm :=
  Rsm c (myvs r) (last_myvs r) (primary r) (insync r) (inviewchange r) (vid_commit r) (vid_insync r)
    (partitioned r) (dopartition r) (rbreak1 r) (rbreak2 r) (reachable_ r).
Definition set_commit (r : rsm) (vid : Z) (p : str) : rsm :=
  Rsm (cfg r) (myvs r) (last_myvs r) p (insync r) true vid (vid_insync r)
    (partitioned r) (dopartition r) (rbreak1 r) (rbreak2 r) (reachable_ r).
Definition set_partition (r : rsm) (part dop reach : bool) : rsm :=
  Rsm (cfg r) (myvs r) (last_myvs r) (primary r) (insync r) (inviewchange r) (vid_commit r) (vid_insync r)
    part dop (rbreak1 r) (rbreak2 r) reach.

(** [set_primary]: the primary stays while it is a member; otherwise the first
    member of the previous view that is still one. *)
Definition set_primary (r : rsm) (vid : Z) : res str :=
  let c := get_view (cfg r) vid in
  let p := get_view (cfg r) (u32 (vid - 1)) in
  _ ← VERIFY (negb (bool_decide (c = [])));
  if isamember (primary r) c then Ret (primary r) else
  _ ← VERIFY (negb (bool_decide (p = [])));
  match find (fun x => isamember x c) p with
  | Some x => Ret x
  | None => Abort
  end.

(** [commit_change_wo]; at breakpoint 2 a member exits. *)
Definition commit_change_wo (r : rsm) (vid : Z) : res rsm :=
  if vid <=? vid_commit r then Ret r else
  p ← set_primary r vid;
  let r := set_commit r vid p in
  _ ← VERIFY (negb (ismember (cfg r) (cme (cfg r)) vid && rbreak2 r));
  Ret r.
Definition commit_change (r : rsm) (vid : Z) : res rsm := commit_change_wo r vid.

Definition rsm_new (first me file : str) (junk vid_insync : Z) : res rsm :=
  c ← config_new first me file junk;
  let r := Rsm c (Viewstamp 0 1) (Viewstamp 0 0) first false true 0 vid_insync false false false false true in
  if str_eqb first me then commit_change r 1 else Ret r.

(** A value decided by Paxos, carried up through the three layers:
    [acceptor::commit], [config::paxos_commit], [rsm::commit_change].  The second
    result is the handles that were deleted on the way. *)
Definition decided (r : rsm) (instance : Z) (v : str) : res (rsm * list str) :=
  let c := cfg r in
  let '(a, up) := commit (acc c) instance v in
  let c := set_acc c a in
  if up then
    let '(c, gone, vid) := paxos_commit c instance v in
    r ← commit_change (set_cfg r c) vid;
    Ret (r, gone)
  else Ret (set_cfg r c, []).

(** [join]: [answer] is the log the primary sent, [None] when it could not be
    reached or refused. *)
Definition join (r : rsm) (answer : option str) (junk : Z) : res (rsm * bool) :=
  match answer with
  | None => Ret (r, false)
  | Some s => c ← restore (cfg r) s junk; Ret (set_cfg r c, true)
  end.

Definition set_sync (r : rsm) (sync : bool) (vi : Z) : rsm :=
  Rsm (cfg r) (myvs r) (last_myvs r) (primary r) sync (inviewchange r) (vid_commit r) vi
    (partitioned r) (dopartition r) (rbreak1 r) (rbreak2 r) (reachable_ r).

(** [sync_with_backups] releases the mutex: [changed] is the view committed
    meanwhile, if any.  Waiting for the backups is left to be filled in. *)
Definition sync_with_backups (r : rsm) (changed : option Z) : res (rsm * bool) :=
  r ← (match changed with Some vid => commit_change r vid | None => Ret r end);
  let r := set_sync r true (vid_insync r) in
  Ret (set_sync r false (vid_insync r), true).

(** Left to be filled in: they answer [true]. *)
Definition sync_with_primary (r : rsm) : res (rsm * bool) := Ret (r, true).
Definition statetransfer (r : rsm) (x : str) : rsm * bool := (r, true).
Definition statetransferdone (r : rsm) (x : str) : rsm * bool := (r, true).

(** One turn of [recovery]'s loop: while not a member, try to join; then
    synchronise.  The second result: does the thread go to sleep? *)
Definition recovery_turn (r : rsm) (answer : option str) (changed : option Z) (junk : Z) : res (rsm * bool) :=
  if negb (ismember (cfg r) (cme (cfg r)) (vid_commit r)) then
    '(r, joined) ← join r answer junk;
    if (joined : bool) then r ← commit_change_wo r (myvid (cfg r)); Ret (r, false)
    else Ret (r, false)
  else
    let r := set_sync r (insync r) (vid_commit r) in
    '(r, ok) ← (if str_eqb (primary r) (cme (cfg r)) then sync_with_backups r changed else sync_with_primary r);
    if negb (vid_insync r =? vid_commit r) then Ret (r, false) else
    Ret (if (ok : bool) then
           Rsm (cfg r) (Viewstamp (vid_commit r) 1) (last_myvs r) (primary r) (insync r) false (vid_commit r) (vid_insync r)
             (partitioned r) (dopartition r) (rbreak1 r) (rbreak2 r) (reachable_ r)
         else r, true).

(** [joinreq], the handler: status and the log returned. *)
Definition joinreq (r : rsm) (x : str) (log : str) : res (rsm * Z * str) :=
  if ismember (cfg r) x (vid_commit r) then Ret (r, rsm_protocol.OK, dump (cfg r))
  else if negb (str_eqb (cme (cfg r)) (primary r)) then Ret (r, rsm_protocol.BUSY, log)
  else
    '(c, _) ← add (cfg r) x (vid_commit r);
    let r := set_cfg r c in
    if ismember c x (myvid c) then Ret (r, rsm_protocol.OK, dump c)
    else Ret (r, rsm_protocol.BUSY, log).

Definition client_members (r : rsm) : list str := get_view (cfg r) (vid_commit r) ++ [primary r].

Definition amiprimary (r : rsm) : bool := str_eqb (primary r) (cme (cfg r)) && negb (inviewchange r).

(** Requests of clients and replicas, left to be filled in: they answer OK. *)
Definition client_invoke (r : rsm) (procno : Z) (req out : str) : rsm * Z * str := (r, 0, out).
Definition invoke (r : rsm) (proc : Z) (vs : viewstamp) (req : str) (dummy : Z) : rsm * Z * Z := (r, rsm_protocol.OK, dummy).
Definition transferreq (r : rsm) (src : str) (last : viewstamp) (vid : Z) (out : rsm_protocol.transferres)
  : rsm * Z * rsm_protocol.transferres := (r, rsm_protocol.OK, out).
Definition transferdonereq (r : rsm) (x : str) (vid : Z) : rsm * Z := (r, rsm_protocol.OK).

(** [net_repair_wo]: the nodes whose client is made (un)reachable. *)
Definition net_repair_wo (r : rsm) (heal : bool) : rsm * list str :=
  (set_partition r (partitioned r) (dopartition r) heal,
   filter (fun x => x <> cme (cfg r)) (get_view (cfg r) (vid_commit r))).

Definition test_net_repairreq (r : rsm) (heal : bool) : rsm * Z :=
  if heal then
    let '(r, _) := net_repair_wo r true in
    (set_partition r false (dopartition r) (reachable_ r), 0)
  else (set_partition r false true (reachable_ r), 0).

Definition partition1 (r : rsm) : rsm :=
  if dopartition r then
    let '(r, _) := net_repair_wo r false in set_partition r true false (reachable_ r)
  else r.

Definition breakpoint1 (r : rsm) : res unit := VERIFY (negb (rbreak1 r)).

Definition breakpointreq (r : rsm) (b : Z) : rsm * Z :=
  let upd b1 b2 c := Rsm c (myvs r) (last_myvs r) (primary r) (insync r) (inviewchange r) (vid_commit r) (vid_insync r)
    (partitioned r) (dopartition r) b1 b2 (reachable_ r) in
  if b =? 1 then (upd true (rbreak2 r) (cfg r), 0)
  else if b =? 2 then (upd (rbreak1 r) true (cfg r), 0)
  else if (b =? 3) || (b =? 4) then (upd (rbreak1 r) (rbreak2 r) (set_pro (cfg r) (breakpoint (pro (cfg r)) b)), 0)
  else (r, 1).
End rsm.
