(* ===== verification/GroupThms.v ===== *)
(** * Handles, views and the primary *)

From S2P Require Import Prelude Directory Protocols Paxos PaxosThms Group.

(** ** Handles *)
Module handles.
Import handle.

(** The handle objects alive, by the [hinfo] they point to. *)
Record hsys := Hsys { mgr : handle_mgr; live : list positive }.

Inductive hstep : hsys -> unit -> hsys -> Prop :=
  | hs_open s x g p : get_handle (mgr s) x = Ret (g, Some p) -> hstep s tt (Hsys g (p :: live s))
  | hs_refused s x g : get_handle (mgr s) x = Ret (g, None) -> hstep s tt (Hsys g (live s))
  | hs_close s p l1 l2 g : live s = l1 ++ p :: l2 -> done_handle (mgr s) p = Ret g -> hstep s tt (Hsys g (l1 ++ l2))
  | hs_delete s x g : delete_handle (mgr s) x = Ret g -> hstep s tt (Hsys g (live s))
  | hs_bind s p fresh ret g c :
      p ∈ live s -> safebind (mgr s) (Some p) fresh ret = Ret (g, c) -> hstep s tt (Hsys g (live s)).

Definition hinit (s : hsys) : Prop := s = Hsys mgr_new [].
Definition handle_reachable : list unit -> hsys -> Prop := reachable hinit hstep.

Record hinv (s : hsys) : Prop := {
  hi_map : forall x p, hmap (mgr s) !! x = Some p -> exists h, objs (mgr s) !! p = Some h /\ hm h = x;
  hi_obj : forall p h, objs (mgr s) !! p = Some h ->
    hmap (mgr s) !! hm h = Some p /\ refcnt h = count p (live s) /\ (del h = true -> refcnt h <> 0);
  hi_live : forall p, p ∈ live s -> is_Some (objs (mgr s) !! p);
  hi_next : forall p, is_Some (objs (mgr s) !! p) -> (p < next (mgr s))%positive }.

(** A change of one object that keeps its name. *)
Lemma hinv_set s p h h' l :
  hinv s -> objs (mgr s) !! p = Some h -> hm h' = hm h -> (del h' = true -> refcnt h' <> 0) ->
  refcnt h' = count p l -> (forall q, q <> p -> count q l = count q (live s)) ->
  (forall q, q ∈ l -> q ∈ live s \/ q = p) ->
  hinv (Hsys (set_obj (mgr s) p h') l).
Proof.
  intros [Hm Ho Hl Hn] Hp Hh Hd Hr Hc Hsub. split; simpl.
  - intros x q Hx. destruct (Hm x q Hx) as (h0 & Hq & <-). destruct (decide (p = q)) as [<-|Hne].
    + exists h'. rewrite lookup_insert_eq. split; [done|]. congruence.
    + exists h0. by rewrite lookup_insert_ne.
  - intros q h0. destruct (decide (p = q)) as [<-|Hne].
    + rewrite lookup_insert_eq. intros [= <-]. rewrite Hh. split; [by apply (Ho p h)|done].
    + rewrite lookup_insert_ne by done. intros Hq. destruct (Ho q h0 Hq) as (H1 & H2 & H3).
      rewrite Hc by done. done.
  - intros q Hq. destruct (decide (p = q)) as [<-|Hne]; [by rewrite lookup_insert_eq|].
    rewrite lookup_insert_ne by done. destruct (Hsub q Hq); [by apply Hl|congruence].
  - intros q. destruct (decide (p = q)) as [<-|Hne]; [intros _; apply Hn; by exists h|].
    rewrite lookup_insert_ne by done. apply Hn.
Qed.

Lemma hinv_drop s p h l :
  hinv s -> objs (mgr s) !! p = Some h -> p ∉ l -> (forall q, q <> p -> count q l = count q (live s)) ->
  (forall q, q ∈ l -> q ∈ live s) ->
  hinv (Hsys (Mgr (delete p (objs (mgr s))) (delete (hm h) (hmap (mgr s))) (next (mgr s))) l).
Proof.
  intros [Hm Ho Hl Hn] Hp Hnl Hc Hsub. destruct (Ho p h Hp) as (Hmp & _ & _). split; simpl.
  - intros x q Hx. apply lookup_delete_Some in Hx as [Hne Hx]. destruct (Hm x q Hx) as (h0 & Hq & <-).
    exists h0. rewrite lookup_delete_ne; [done|]. intros <-. by simplify_eq.
  - intros q h0 Hq. apply lookup_delete_Some in Hq as [Hne Hq]. destruct (Ho q h0 Hq) as (H1 & H2 & H3).
    rewrite Hc by done. split; [|done]. rewrite lookup_delete_ne; [done|]. intros E. rewrite E in Hmp. by simplify_eq.
  - intros q Hq. rewrite lookup_delete_ne by (intros ->; done). by apply Hl, Hsub.
  - intros q [h0 Hq]. apply lookup_delete_Some in Hq as [_ Hq]. apply Hn. by exists h0.
Qed.

Lemma delete_hinv s x :
  hinv s -> exists g, delete_handle_wo (mgr s) x = Ret g /\ hinv (Hsys g (live s)).
Proof.
  intros Hi. unfold delete_handle_wo. destruct (hmap (mgr s) !! x) as [p|] eqn:Hx; [|exists (mgr s); by destruct s].
  destruct (hi_map _ Hi x p Hx) as (h & Hp & <-). rewrite Hp. destruct (hi_obj _ Hi p h Hp) as (_ & Hr & _).
  destruct (Z.eqb_spec (refcnt h) 0) as [Hz|Hz].
  - eexists; split; [done|]. apply hinv_drop; [done|done| |done|done]. apply count_zero. congruence.
  - eexists; split; [done|]. by eapply hinv_set; [done|exact Hp|..]; [| | | |left].
Qed.

Lemma done_hinv s p l1 l2 :
  hinv s -> live s = l1 ++ p :: l2 -> exists g, done_handle (mgr s) p = Ret g /\ hinv (Hsys g (l1 ++ l2)).
Proof.
  intros Hi Hl. destruct (hi_live _ Hi p) as [h Hp]; [rewrite Hl; set_solver|].
  destruct (hi_obj _ Hi p h Hp) as (Hm & Hr & _).
  assert (forall q, count q (live s) = count q (l1 ++ l2) + (if decide (p = q) then 1 else 0)) as Hc.
  { intros q. rewrite Hl, !count_app, count_cons. lia. }
  assert (forall q, q <> p -> count q (l1 ++ l2) = count q (live s)) as Hc'.
  { intros q Hq. rewrite Hc, decide_False by done. lia. }
  rewrite Hc, decide_True in Hr by done.
  unfold done_handle. rewrite Hp. destruct ((refcnt h - 1 =? 0) && del h) eqn:E.
  - bool_prop. unfold delete_handle_wo, set_obj. cbn [hmap objs next]. rewrite Hm, lookup_insert_eq. cbn [refcnt].
    destruct (Z.eqb_spec (refcnt h - 1) 0); [|lia]. eexists; split; [done|]. rewrite delete_insert_eq.
    apply hinv_drop; [done|done|apply count_zero; lia|done|]. rewrite Hl. set_solver.
  - eexists; split; [done|]. eapply hinv_set; [done|exact Hp|done| |simpl; lia|done|].
    + simpl. intros Hd. rewrite Hd, andb_true_r in E. bool_prop. done.
    + intros q Hq. left. rewrite Hl. set_solver.
Qed.

Lemma get_hinv s x :
  hinv s -> exists g r, get_handle (mgr s) x = Ret (g, r) /\
    hinv (Hsys g (match r with Some p => p :: live s | None => live s end)).
Proof.
  intros Hi. unfold get_handle. destruct (hmap (mgr s) !! x) as [p|] eqn:Hx.
  - destruct (hi_map _ Hi x p Hx) as (h & Hp & <-). rewrite Hp. destruct (hi_obj _ Hi p h Hp) as (_ & Hr & Hd).
    destruct (del h) eqn:Ed; cbn [negb]; do 2 eexists; (split; [done|]); [by destruct s|].
    eapply hinv_set; [done|exact Hp|done|done| | |set_solver].
    + simpl. rewrite count_cons, decide_True by done. lia.
    + intros q Hq. rewrite count_cons, decide_False by done. lia.
  - do 2 eexists; split; [done|]. destruct Hi as [Hm Ho Hl Hn].
    assert (objs (mgr s) !! next (mgr s) = None) as Hf.
    { destruct (objs (mgr s) !! next (mgr s)) eqn:E; [|done].
      assert (next (mgr s) < next (mgr s))%positive by (apply Hn; by rewrite E). lia. }
    assert (next (mgr s) ∉ live s) as Hnl by (intros H%Hl; rewrite Hf in H; by destruct H).
    split; cbn [mgr live objs hmap next].
    + intros y q. destruct (decide (x = y)) as [<-|Hne].
      * rewrite lookup_insert_eq. intros [= <-]. eexists. by rewrite lookup_insert_eq.
      * rewrite lookup_insert_ne by done. intros Hy. destruct (Hm y q Hy) as (h & Hq & <-).
        exists h. rewrite lookup_insert_ne; [done|]. intros <-. by rewrite Hf in Hq.
    + intros q h. rewrite count_cons. destruct (decide (next (mgr s) = q)) as [<-|Hne].
      * rewrite lookup_insert_eq. intros [= <-]. simpl. rewrite lookup_insert_eq, count_fresh by done. done.
      * rewrite lookup_insert_ne by done. intros Hq. destruct (Ho q h Hq) as (H1 & H2 & H3).
        split; [rewrite lookup_insert_ne; [done|congruence]|]. split; [lia|done].
    + intros q Hq. destruct (decide (next (mgr s) = q)) as [<-|Hne]; [by rewrite lookup_insert_eq|].
      rewrite lookup_insert_ne by done. apply Hl. set_solver.
    + intros q. destruct (decide (next (mgr s) = q)) as [<-|Hne]; [lia|].
      rewrite lookup_insert_ne by done. intros Hq. apply Hn in Hq. lia.
Qed.

Lemma bind_hinv s p fresh ret :
  hinv s -> p ∈ live s -> exists g c, safebind (mgr s) (Some p) fresh ret = Ret (g, c) /\ hinv (Hsys g (live s)).
Proof.
  intros Hi Hp. destruct (hi_live _ Hi p Hp) as [h Hh]. destruct (hi_obj _ Hi p h Hh) as (_ & Hr & Hd).
  assert (refcnt h <> 0) as Hnz.
  { intros Hz. rewrite Hz in Hr. symmetry in Hr. by apply count_zero in Hr. }
  unfold safebind. rewrite Hh. destruct (del h) eqn:Ed; [do 2 eexists; split; [done|by destruct s]|].
  destruct (cl h); [do 2 eexists; split; [done|by destruct s]|].
  destruct (ret <? 0); do 2 eexists; (split; [done|]);
    (eapply hinv_set; [done|exact Hh|done|done|done|done|by left]).
Qed.

Lemma hinv_reachable tr s : handle_reachable tr s -> hinv s.
Proof.
  apply (reachable_invariant _ _ (fun _ => hinv)); clear tr s.
  - intros ? ->. split; simpl.
    + intros x p. by rewrite lookup_empty.
    + intros p h. by rewrite lookup_empty.
    + intros p H. by apply not_elem_of_nil in H.
    + intros p [h H]. by rewrite lookup_empty in H.
  - intros tr1 s1 e s2 Hi Hs. destruct Hs as [s x g p E|s x g E|s p l1 l2 g Hl E|s x g E|s p fr ret g c Hp E].
    + destruct (get_hinv s x Hi) as (g' & r' & E' & Hg). rewrite E in E'. by injection E' as <- <-.
    + destruct (get_hinv s x Hi) as (g' & r' & E' & Hg). rewrite E in E'. by injection E' as <- <-.
    + destruct (done_hinv s p l1 l2 Hi Hl) as (g' & E' & Hg). rewrite E in E'. by injection E' as <-.
    + destruct (delete_hinv s x Hi) as (g' & E' & Hg). unfold delete_handle in E. rewrite E in E'. by injection E' as <-.
    + destruct (bind_hinv s p fr ret Hi Hp) as (g' & c' & E' & Hg). rewrite E in E'. by injection E' as <- _.
Qed.

(** C31: handles are used safely: whatever handles are opened, bound, deleted and
    closed, in any order, no operation touches a freed [hinfo]; its reference
    count is the number of live handles; and a deleted one is freed as soon as
    its last handle is closed. *)
Theorem handles_safe tr s :
  handle_reachable tr s ->
  (forall x, exists g r, get_handle (mgr s) x = Ret (g, r)) /\
  (forall x, exists g, delete_handle (mgr s) x = Ret g) /\
  (forall p, p ∈ live s ->
    (exists g, done_handle (mgr s) p = Ret g) /\
    (forall fresh ret, exists g c, safebind (mgr s) (Some p) fresh ret = Ret (g, c))) /\
  (forall p h, objs (mgr s) !! p = Some h -> refcnt h = count p (live s) /\ (del h = true -> p ∈ live s)).
Proof.
  intros Hi%hinv_reachable. split; [|split; [|split]].
  - intros x. destruct (get_hinv s x Hi) as (g & r & E & _). eauto.
  - intros x. destruct (delete_hinv s x Hi) as (g & E & _). eauto.
  - intros p Hp. split.
    + pose proof Hp as Hp'. apply list_elem_of_split in Hp' as (l1 & l2 & E).
      destruct (done_hinv s p l1 l2 Hi E) as (g & E' & _). eauto.
    + intros fr ret. destruct (bind_hinv s p fr ret Hi Hp) as (g & c & E & _). eauto.
  - intros p h Hh. destruct (hi_obj _ Hi p h Hh) as (_ & Hr & Hd). split; [done|]. intros Hdel.
    destruct (decide (p ∈ live s)) as [|Hn]; [done|]. exfalso. apply (Hd Hdel). rewrite Hr. by apply count_fresh.
Qed.
End handles.

(** ** Views *)
Module views.
Import config rsm.

Lemma read_members ms : forall fuel sp, Forall word ms -> (length ms < fuel)%nat ->
  sp = [] \/ sp = [space] ->
  members_loop fuel (Istream (sp ++ value ms) true) = ms.
Proof.
  induction ms as [|x ms IH]; intros fuel sp Hw Hf Hsp; (destruct fuel as [|fuel]; [lia|]).
  - by destruct Hsp as [->| ->].
  - inversion Hw; subst. simpl in Hf. cbn [members_loop].
    assert (read_word (Istream (sp ++ value (x :: ms)) true) = (x, Istream (space :: value ms) true)) as ->.
    { unfold value. cbn [fmap list_fmap mjoin list_join]. rewrite <- app_assoc. cbn [app].
      destruct Hsp as [->| ->]; cbn [app]; [by apply read_word_app|].
      rewrite read_word_space by done. by apply read_word_app. }
    cbn [good]. f_equal. apply (IH fuel [space]); [done|lia|by right].
Qed.

Lemma value_length ms : Forall word ms -> (length ms <= length (value ms))%nat.
Proof.
  induction 1 as [|x ms Hx Hms IH]; [done|]. change (value (x :: ms)) with ((x ++ [space]) ++ value ms).
  rewrite !length_app. simpl. lia.
Qed.

Lemma members_value_of ms : Forall word ms -> members (value ms) = ms.
Proof.
  intros Hw. apply (read_members ms _ []); [done| |by left]. pose proof (value_length ms Hw). lia.
Qed.

(** ** The primary *)

Lemma set_primary_member r vid p :
  set_primary r vid = Ret p -> p ∈ get_view (cfg r) vid.
Proof.
  unfold set_primary. intros E. res_inv. destruct (isamember (primary r) _) eqn:Em.
  - injection E as <-. by apply isamember_iff.
  - res_inv. destruct (find _ _) as [x'|] eqn:Ef; [|done]. injection E as <-.
    apply find_some in Ef as [_ Ef]. by apply isamember_iff.
Qed.

(** What a node does after it started: values are decided, nodes ask to join,
    heartbeats fail, the recovery thread of a member runs, testers set
    breakpoints and partitions. *)
Inductive revent :=
  | RDecided (instance : Z) (v : str)
  | RJoinreq (x log : str)
  | RHeartbeat (beat : str -> Z)
  | RRecovery (changed : option Z)
  | RBreakpoint (b : Z)
  | RRepair (heal : bool).

Definition rstep (r : rsm) (e : revent) (r' : rsm) : Prop :=
  match e with
  | RDecided i v => exists gone, decided r i v = Ret (r', gone)
  | RJoinreq x log => exists st out, joinreq r x log = Ret (r', st, out)
  | RHeartbeat beat => exists c, heartbeater (cfg r) (cfg r) beat = Ret c /\ r' = set_cfg r c
  | RRecovery changed =>
      ismember (cfg r) (cme (cfg r)) (vid_commit r) = true /\
      (forall vid, changed = Some vid -> vid <= instance_h (acc (cfg r))) /\
      exists sleep, recovery_turn r None changed 0 = Ret (r', sleep)
  | RBreakpoint b => r' = (breakpointreq r b).1
  | RRepair heal => r' = (test_net_repairreq r heal).1
  end.

Definition rstarted (first me : str) (r : rsm) : Prop := exists vi, rsm_new first me [] 0 vi = Ret r.

Record rinv (r : rsm) : Prop := {
  ri_keys : forall i v, values (acc (cfg r)) !! i = Some v -> i <= instance_h (acc (cfg r));
  ri_commit : 0 <= vid_commit r <= instance_h (acc (cfg r));
  ri_primary : 0 < vid_commit r -> primary r ∈ get_view (cfg r) (vid_commit r) }.

(** The part of the state the invariant is about. *)
Definition core (r : rsm) : gmap Z str * Z * Z * str :=
  (values (acc (cfg r)), instance_h (acc (cfg r)), vid_commit r, primary r).

Lemma rinv_core r r' : core r' = core r -> rinv r -> rinv r'.
Proof.
  unfold core. intros E [Hk Hc Hp]. injection E as Ev Ei Ec Ep. split.
  - rewrite Ev, Ei. done.
  - by rewrite Ec, Ei.
  - unfold get_view, get_view_wo, Paxos.value in *. by rewrite Ec, Ep, Ev.
Qed.

Lemma commit_change_inv r r' vid :
  rinv r -> vid <= instance_h (acc (cfg r)) -> commit_change_wo r vid = Ret r' ->
  rinv r' /\ cfg r' = cfg r /\ vid_commit r <= vid_commit r'.
Proof.
  intros Hi Hv E. unfold commit_change_wo in E. destruct (Z.leb_spec vid (vid_commit r)) as [|Hlt].
  - injection E as <-. split; [done|]. split; [done|lia].
  - res_inv. subst. apply set_primary_member in E0. destruct Hi as [Hk Hc Hp].
    split; [|split; [done|simpl; lia]]. split; simpl; [done|lia|done].
Qed.

Lemma decided_inv r r' i v gone : rinv r -> decided r i v = Ret (r', gone) -> rinv r' /\ vid_commit r <= vid_commit r'.
Proof.
  intros Hi E. unfold decided, commit, commit_wo in E.
  destruct (Z.ltb_spec (instance_h (acc (cfg r))) i) as [Hlt|].
  - cbn [paxos_commit] in E. res_inv. subst. unfold commit_change in E0.
    apply commit_change_inv in E0 as (H1 & H2 & H3); [done| |simpl; lia].
    destruct Hi as [Hk Hc Hp]. split; simpl.
    + intros j w. destruct (decide (i = j)) as [<-|Hne]; [lia|]. rewrite lookup_insert_ne by done.
      intros Hj%Hk. lia.
    + lia.
    + intros H0. specialize (Hp H0). unfold get_view, get_view_wo, Paxos.value in *. simpl.
      rewrite lookup_insert_ne by lia. done.
  - injection E as <- _. split; [|simpl; lia]. by apply (rinv_core r).
Qed.

(** Proposing changes nothing but the proposer. *)
Lemma add_acc c x vid c' b : add c x vid = Ret (c', b) -> acc c' = acc c /\ cme c' = cme c /\ myvid c' = myvid c.
Proof.
  unfold add. destruct (_ =? _); cbn [negb]; intros E; [|by injection E as <- _].
  res_inv. destruct x0 as [p r]. by injection E as <- _.
Qed.

Lemma remove_acc c x c' b : remove_wo c x = Ret (c', b) -> acc c' = acc c.
Proof. unfold remove_wo. intros E. res_inv. destruct x0 as [p r]. by injection E as <- _. Qed.

Lemma heartbeater_acc c beat c' : heartbeater c c beat = Ret c' -> acc c' = acc c.
Proof.
  unfold heartbeater. destruct (heartbeat_turn c beat); [|by intros [= <-]]. rewrite Z.eqb_refl.
  intros E. res_inv. destruct x as [c1 b]. injection E as <-. by eapply remove_acc.
Qed.

Lemma rinv_set_cfg r c : rinv r -> acc c = acc (cfg r) -> rinv (set_cfg r c).
Proof. intros Hi Ha. apply (rinv_core r); [|done]. unfold core. simpl. by rewrite Ha. Qed.

Lemma recovery_inv r changed r' sleep :
  rinv r -> ismember (cfg r) (cme (cfg r)) (vid_commit r) = true ->
  (forall vid, changed = Some vid -> vid <= instance_h (acc (cfg r))) ->
  recovery_turn r None changed 0 = Ret (r', sleep) -> rinv r' /\ vid_commit r <= vid_commit r'.
Proof.
  intros Hi Hm Hc E. unfold recovery_turn in E. rewrite Hm in E. cbn [negb] in E.
  apply res_bind_Ret_inv in E as ([x ok] & E0 & E).
  assert (rinv (set_sync r (insync r) (vid_commit r))) as Hi' by (by apply (rinv_core r)).
  assert (rinv x /\ vid_commit r <= vid_commit x) as [Hx Hle].
  { destruct (str_eqb _ _); [|by injection E0 as <- _]. unfold sync_with_backups in E0.
    apply res_bind_Ret_inv in E0 as (y & Ey & E0). injection E0 as <- _.
    destruct changed as [vid|]; [|injection Ey as <-; by split; [by apply (rinv_core r)|]].
    apply commit_change_inv in Ey as (H1 & _ & H2); [|done|by apply Hc]. split; [by apply (rinv_core y)|done]. }
  destruct (negb _); injection E as <- _; [done|]. destruct ok; [|done]. split; [by apply (rinv_core x)|done].
Qed.

Lemma rstep_inv r e r' : rinv r -> rstep r e r' -> rinv r' /\ vid_commit r <= vid_commit r'.
Proof.
  intros Hi Hs. destruct e as [i v|x l|beat|changed|b|heal]; simpl in Hs.
  - destruct Hs as [gone E]. by eapply decided_inv.
  - destruct Hs as (st & out & E). unfold joinreq in E. destruct (ismember _ _ _); [by injection E as <- _ _|].
    destruct (str_eqb _ _); cbn [negb] in E; [|by injection E as <- _ _].
    res_inv. destruct x0 as [c b]. apply add_acc in E0 as (Ha & _ & _).
    destruct (ismember c x (myvid c)); injection E as <- _ _; (split; [by apply rinv_set_cfg|done]).
  - destruct Hs as (c & E & ->). split; [|done]. apply rinv_set_cfg; [done|]. by eapply heartbeater_acc.
  - destruct Hs as (Hm & Hc & sleep & E). by eapply recovery_inv.
  - subst. unfold breakpointreq. repeat case_match; (split; [by apply (rinv_core r)|done]).
  - subst. unfold test_net_repairreq. destruct heal; (split; [by apply (rinv_core r)|done]).
Qed.

Lemma rinv_fresh a p first me vi :
  (forall i v, values a !! i = Some v -> i <= instance_h a) -> 0 <= instance_h a ->
  rinv (Rsm (reconstruct (Config a p 0 first me [])) (Viewstamp 0 1) (Viewstamp 0 0) first
    false true 0 vi false false false false true).
Proof. intros H1 H2. unfold reconstruct. destruct (0 <? _); split; simpl; done || lia. Qed.

Lemma rstarted_inv first me r : rstarted first me r -> rinv r.
Proof.
  intros [vi E]. unfold rsm_new, config_new, acceptor_new in E.
  change (log.logread _ 0) with (Ret (blank me [])) in E. cbn [mbind res_bind] in E. unfold str_eqb in E.
  destruct (decide (first = me)) as [->|Hne].
  - rewrite !bool_decide_eq_true_2 in E by done. simpl in E. unfold commit_change in E.
    apply commit_change_inv in E as (H1 & _ & _); [done|apply rinv_fresh; simpl; [|lia]|simpl; lia].
    intros i v. destruct (decide (1 = i)) as [<-|Hne]; [lia|]. by rewrite lookup_insert_ne, lookup_empty.
  - rewrite !bool_decide_eq_false_2 in E by congruence. simpl in E. injection E as <-.
    apply (rinv_fresh (blank me [])); simpl; [|lia]. intros i v. by rewrite lookup_empty.
Qed.

Lemma rinv_reachable first me tr r : reachable (rstarted first me) rstep tr r -> rinv r.
Proof.
  apply (reachable_invariant _ _ (fun _ => rinv)); [apply rstarted_inv|].
  intros ? r1 e r2 Hi Hs. by eapply rstep_inv.
Qed.


(** ** The next view always has a primary *)

(** The views [add] and [remove_wo] propose. *)
Definition next_view (ms ms' : list str) : Prop :=
  (exists x, ms' = ms ++ [x] /\ word x) \/ (exists x, ms' = filter (fun y => y <> x) ms).

Lemma decided_view r i v : instance_h (acc (cfg r)) < i ->
  let c := (paxos_commit (set_acc (cfg r) (commit (acc (cfg r)) i v).1) i v).1.1 in
  get_view c i = members v /\ forall j, j <> i -> get_view c j = get_view (cfg r) j.
Proof.
  intros Hi. unfold commit, commit_wo. destruct (Z.ltb_spec (instance_h (acc (cfg r))) i); [|lia]. simpl.
  unfold get_view, get_view_wo, Paxos.value. simpl. split; [by rewrite lookup_insert_eq|].
  intros j Hj. by rewrite lookup_insert_ne.
Qed.

Lemma next_view_words ms ms' : Forall word ms -> next_view ms ms' -> Forall word ms'.
Proof.
  intros Hw [(x & -> & Hx)|(x & ->)].
  - apply Forall_app. split; [done|]. by apply Forall_singleton.
  - apply Forall_forall. intros y Hy. apply list_elem_of_filter in Hy as [_ Hy].
    by apply (proj1 (Forall_forall _ _) Hw).
Qed.

Lemma next_view_meets ms ms' : ms <> [] -> next_view ms ms' -> ms' <> [] -> exists y, y ∈ ms /\ y ∈ ms'.
Proof.
  intros Hms [(x & -> & _)|(x & ->)] Hne.
  - destruct ms as [|y ms]; [done|]. exists y. set_solver.
  - destruct (filter _ ms) as [|y l] eqn:E; [done|]. exists y.
    assert (y ∈ filter (fun y => y <> x) ms) as Hy by (rewrite E; constructor).
    apply list_elem_of_filter in Hy as [_ Hy]. split; [done|constructor].
Qed.

Definition new_primary (old : str) (ms ms' : list str) : str :=
  if isamember old ms' then old else default [] (find (fun x => isamember x ms') ms).

Lemma set_primary_next r vid ms ms' :
  get_view (cfg r) vid = ms' -> get_view (cfg r) (u32 (vid - 1)) = ms -> next_view ms ms' -> ms <> [] -> ms' <> [] ->
  set_primary r vid = Ret (new_primary (primary r) ms ms').
Proof.
  intros Hv' Hv Hn Hms Hms'. unfold set_primary, new_primary. rewrite Hv, Hv'.
  rewrite !bool_decide_eq_false_2 by done. cbn [negb]. rsimpl. destruct (isamember (primary r) ms'); [done|]. rsimpl.
  destruct (find _ ms) eqn:Ef; [done|]. exfalso.
  destruct (next_view_meets ms ms' Hms Hn Hms') as (y & Hy & Hy').
  apply list_elem_of_In in Hy. pose proof (find_none _ _ Ef y Hy) as Hf. simpl in Hf.
  apply isamember_iff in Hy'. congruence.
Qed.

(** When the next view is the current one with a node added, or with a node
    removed and others left, deciding it always succeeds: the primary stays if it
    is still a member, and is otherwise the first member of the old view that is
    left. *)
Theorem view_change_succeeds first me tr r ms ms' :
  reachable (rstarted first me) rstep tr r ->
  let k := instance_h (acc (cfg r)) in
  0 < k < two32 - 1 -> vid_commit r = k -> get_view (cfg r) k = ms -> Forall word ms ->
  next_view ms ms' -> ms' <> [] -> rbreak2 r = false ->
  exists r' gone, decided r (k + 1) (value ms') = Ret (r', gone) /\
    vid_commit r' = k + 1 /\ get_view (cfg r') (k + 1) = ms' /\
    primary r' = new_primary (primary r) ms ms'.
Proof.
  intros Hr k Hk Hc Hv Hw Hn Hne Hb. apply rinv_reachable in Hr.
  pose proof (decided_view r (k + 1) (value ms') ltac:(lia)) as [Hv1 Hv2].
  unfold decided. destruct (commit (acc (cfg r)) (k + 1) (value ms')) as [a up] eqn:Ec.
  assert (up = true) as ->.
  { unfold commit, commit_wo in Ec. fold k in Ec. destruct (Z.ltb_spec k (k + 1)); [|lia]. by injection Ec. }
  cbn [fst] in Hv1, Hv2. destruct (paxos_commit _ _ _) as [[c gone] vid] eqn:Ep.
  assert (vid = k + 1) as -> by (by injection Ep). cbn [fst] in Hv1, Hv2.
  rewrite members_value_of in Hv1 by (by eapply next_view_words).
  unfold commit_change, commit_change_wo. cbn [vid_commit set_cfg]. rewrite Hc.
  destruct (Z.leb_spec (k + 1) k); [lia|].
  rewrite (set_primary_next (set_cfg r c) (k + 1) ms ms'); [|done| |done| |done].
  - rsimpl. simpl. rewrite Hb, andb_false_r. rsimpl. by do 2 eexists.
  - rewrite u32_small by lia. replace (k + 1 - 1) with k by lia. cbn [cfg set_cfg]. rewrite Hv2 by lia. done.
  - intros ->. assert (primary r ∈ get_view (cfg r) (vid_commit r)) as Hp by (apply (ri_primary _ Hr); lia).
    rewrite Hc, Hv in Hp. by apply not_elem_of_nil in Hp.
Qed.

(** ** Joining *)

(** A node that joins with the log of another is in that node's view: same
    number, same members. *)
Theorem join_same_view first name v tr a p first' me' (r : rsm) junk :
  reachable (started first name v) astep tr a -> 0 < instance_h a ->
  let sender := Config a p (instance_h a) first' me' (get_view (Config a p 0 first' me' []) (instance_h a)) in
  exists r', join r (Some (dump sender)) junk = Ret (r', true) /\
    myvid (cfg r') = myvid sender /\ mems (cfg r') = mems sender.
Proof.
  intros Hr Hh sender. apply ainv_reachable in Hr. destruct (restore_records name a (acc (cfg r)) junk Hr) as (rs & Hdn & Ea & Eb).
  destruct (decide (rs = [])) as [->|Hne]; [rewrite Ea in Hh; simpl in Hh; lia|].
  destruct (apply_same rs (blank name (disk a)) (set_disk (acc (cfg r)) (disk a))) as [H1 H2]; [by right|done| |].
  { intros i w. simpl. by rewrite lookup_empty. }
  rewrite <- Ea in H1, H2.
  unfold join, restore, dump. change (acc sender) with a. rewrite Eb. rsimpl. eexists; split; [done|].
  unfold reconstruct. cbn [acc set_acc]. rewrite <- H1. destruct (Z.ltb_spec 0 (instance_h a)); [|lia].
  cbn [cfg set_cfg set_view myvid mems]. split; [done|]. unfold sender, get_view, get_view_wo, Paxos.value.
  cbn [mems acc set_acc]. f_equal. destruct (ai_logged_high _ _ Hr Hh) as [w Hw]. by rewrite Hw, (H2 _ _ Hw).
Qed.

(** ** Heartbeats *)

Lemma smallest_in x l : smallest x l <> x -> smallest x l ∈ l.
Proof.
  revert x. induction l as [|y l IH]; intros x Hne; simpl in *; [done|].
  destruct (str_gtb x y).
  - destruct (decide (smallest y l = y)) as [E|E]; [rewrite E; constructor|]. constructor. by apply IH.
  - constructor. by apply IH.
Qed.

(** A node is only ever suspected when it is another member of the current
    view and did not answer its heartbeat; and when the smallest node finds a
    member that does not answer, it suspects one. *)
Theorem heartbeat_suspects c beat :
  (forall x, heartbeat_turn c beat = Some x ->
    x ∈ get_view c (myvid c) /\ x <> cme c /\ (doheartbeat (beat x)).1 <> HB_OK) /\
  (forall y, smallest (cme c) (get_view c (myvid c)) = cme c -> cme c ∈ get_view c (myvid c) ->
    y ∈ get_view c (myvid c) -> y <> cme c -> (doheartbeat (beat y)).1 <> HB_OK ->
    heartbeat_turn c beat <> None).
Proof.
  unfold heartbeat_turn, get_view. set (ms := get_view_wo c (myvid c)). split.
  - intros x. destruct (isamember (cme c) ms) eqn:Em; cbn [negb]; [|done]. unfold str_eqb.
    destruct (decide (smallest (cme c) ms = cme c)) as [E|E].
    + rewrite bool_decide_eq_true_2 by done. intros Ef. apply find_some in Ef as [Hin Hb]. bool_prop.
      split; [by apply list_elem_of_In|done].
    + rewrite bool_decide_eq_false_2 by done. case_bool_decide; [done|]. intros [= <-].
      split; [|done]. by apply smallest_in.
  - intros y Es Hme Hy Hne Hb. apply isamember_iff in Hme. rewrite Hme. cbn [negb]. unfold str_eqb at 1.
    rewrite bool_decide_eq_true_2 by done. intros Ef. apply list_elem_of_In in Hy.
    pose proof (find_none _ _ Ef y Hy) as Hf. simpl in Hf. unfold str_eqb in Hf.
    rewrite !bool_decide_eq_false_2 in Hf by done. done.
Qed.
End views.
