(* ===== verification/GroupExamples.v ===== *)
(** * Paxos, views and handles on concrete inputs *)

From S2P Require Import Prelude Directory Marshall MarshallSpec MarshallThms Protocols Paxos PaxosThms Group GroupThms.
Import config rsm handles views.

(** ** The structures of the protocols *)

(** Every structure the replicas exchange is read back as it was written:
    proposals, the arguments and results of the Paxos calls, view stamps, and the
    results of state transfer and join. *)
Theorem protocol_structs_roundtrip `{Allocator}
    (p : prop_t) (pa : paxos_protocol.preparearg) (pr : paxos_protocol.prepareres) (aa : paxos_protocol.acceptarg)
    (da : paxos_protocol.decidearg) (vs : viewstamp) (tr : rsm_protocol.transferres) (jr : rsm_protocol.joinres) :
  let trips {A} {MA : Marshal A} {SA : MarshalSpec A} (a : A) := valid a -> Z.of_nat (24 + length (enc a)) < PDU_LIMIT ->
    exists m u, put marshall_new a = Ret m /\ get_content m = Ret (enc a) /\
      get dflt (take_content (enc a)) = Ret (a, u) /\ okdone u = true in
  trips p /\ trips pa /\ trips pr /\ trips aa /\ trips da /\ trips vs /\ trips tr /\ trips jr.
Proof. cbv zeta. split_and!; intros Hv Hl; by apply roundtrip_any. Qed.

Module GroupExample.
#[local] Instance zero_alloc : Allocator := fun _ => Ascii.zero.

Definition n1 : str := S! "1".
Definition n2 : str := S! "2".

(** C25, witness. *)
Definition some_log : list record :=
  [RDone 1 (S! "1 "); RProp (Prop_t 3 n2); RAccept (Prop_t 3 n2) (S! "1 2 "); RDone 2 (S! "1 2 ")].

Lemma some_log_ok : Forall record_ok some_log.
Proof.
  assert (word n2) by (split; [done|repeat constructor]).
  repeat constructor; simpl; try lia; try done; apply (bool_decide_unpack _); vm_compute; exact I.
Qed.

Lemma log_replay_witness :
  log.logread (foldl log_record (blank n1 []) some_log) 0 =
  Ret (foldl apply_record (foldl log_record (blank n1 []) some_log) some_log).
Proof. apply (log_replay (blank n1 []) some_log 0 some_log_ok). reflexivity. Defined.

(** An acceptor that decides a second view. *)
Definition a1 : acceptor := match acceptor_new true n1 n1 [] 0 with Ret a => a | _ => blank n1 [] end.
Definition a2 : acceptor := (commit a1 2 (S! "1 2 ")).1.

Lemma line_of v : bool_decide (newline ∉ v) = true -> line v.
Proof. intros H. by apply bool_decide_eq_true in H. Qed.

Lemma a1_reachable : reachable (started true n1 n1) astep [] a1.
Proof. constructor. split; [by apply line_of; vm_compute|]. by exists 0. Qed.

Lemma a2_step : astep a1 (ACommit 2 (S! "1 2 ")) a2.
Proof. split; [split; [lia|by apply line_of; vm_compute]|reflexivity]. Qed.

Lemma a2_reachable : reachable (started true n1 n1) astep [ACommit 2 (S! "1 2 ")] a2.
Proof. apply (reach_step _ _ [] a1); [exact a1_reachable|exact a2_step]. Qed.


(** An instance. *)
Lemma decided_stable_witness : values a2 !! 1 = Some n1 /\ instance_h a1 <= instance_h a2.
Proof.
  apply (decided_stable true n1 n1 [] a1 (ACommit 2 (S! "1 2 ")) a2 1 n1 a1_reachable a2_step).
  vm_compute. reflexivity.
Defined.

(** An instance: a node that knows nothing. *)
Lemma log_transfer_witness :
  exists b', Paxos.restore (blank n2 []) (Paxos.dump a2) 0 = Ret b' /\
    (instance_h a2 <> 0 -> instance_h b' = instance_h a2) /\
    forall i w, values a2 !! i = Some w -> values b' !! i = Some w.
Proof. apply (log_transfer true n1 n1 [ACommit 2 (S! "1 2 ")] a2 (blank n2 []) 0 a2_reachable). Defined.

(** C29, witness: phases in which every node answers. *)
Definition all_prepare (my : prop_t) (inst : Z) (nodes : list str) (w : unit) : bool * list str * str * unit :=
  (true, nodes, [], w).
Definition all_accept (my : prop_t) (inst : Z) (nodes : list str) (v : str) (w : unit) : list str * unit := (nodes, w).
Definition all_decide (inst : Z) (nodes : list str) (v : str) (w : unit) : unit := w.
Definition ran (me : str) : proposer :=
  match run_with all_prepare all_accept all_decide (proposer_new me) a1 2 [n1; n2] n2 tt with
  | Ret (p, _, _) => p | _ => proposer_new me end.


(** C31, witness: a handle is opened and its node deleted meanwhile. *)
Definition g1 : handle.handle_mgr := match handle.get_handle handle.mgr_new n1 with Ret (g, _) => g | _ => handle.mgr_new end.
Definition g2 : handle.handle_mgr := match handle.delete_handle g1 n1 with Ret g => g | _ => g1 end.

Lemma handles_run : handle_reachable [tt; tt] (Hsys g2 [1%positive]).
Proof.
  apply (reach_step _ _ [tt] (Hsys g1 [1%positive])).
  - apply (reach_step _ _ [] (Hsys handle.mgr_new [])); [by constructor|].
    apply (hs_open (Hsys handle.mgr_new []) n1). vm_compute. reflexivity.
  - apply (hs_delete (Hsys g1 [1%positive]) n1). vm_compute. reflexivity.
Qed.

Lemma handles_safe_witness :
  (exists g, handle.done_handle g2 1%positive = Ret g) /\
  (forall fresh ret, exists g c, handle.safebind g2 (Some 1%positive) fresh ret = Ret (g, c)).
Proof.
  apply (proj1 (proj2 (proj2 (handles_safe [tt; tt] (Hsys g2 [1%positive]) handles_run)))).
  apply list_elem_of_here.
Defined.

(** A replica that starts the group, and decides to let node 2 in. *)
Definition r1 : rsm := match rsm_new n1 n1 [] 0 0 with Ret r => r | _ =>
  Rsm (Config a1 (proposer_new n1) 0 n1 n1 []) (Viewstamp 0 0) (Viewstamp 0 0) n1 false false 0 0 false false false false false end.
Definition r2 : rsm := match decided r1 2 (S! "1 2 ") with Ret (r, _) => r | _ => r1 end.

Lemma r1_reachable : reachable (rstarted n1 n1) rstep [] r1.
Proof. constructor. exists 0. vm_compute. reflexivity. Qed.


(** The theorem on view changes, applied. *)
Lemma view_change_succeeds_witness :
  exists r' gone, decided r1 2 (value [n1; n2]) = Ret (r', gone) /\
    vid_commit r' = 2 /\ get_view (cfg r') 2 = [n1; n2] /\ primary r' = new_primary (primary r1) [n1] [n1; n2].
Proof.
  apply (view_change_succeeds n1 n1 [] r1 [n1] [n1; n2] r1_reachable).
  - vm_compute. split; reflexivity.
  - vm_compute. reflexivity.
  - vm_compute. reflexivity.
  - apply Forall_singleton. split; [done|repeat constructor].
  - left. exists n2. split; [reflexivity|split; [done|repeat constructor]].
  - done.
  - vm_compute. reflexivity.
Defined.

(** An instance. *)
Lemma join_same_view_witness :
  exists r', join r1 (Some (dump (Config a2 (proposer_new n1) (instance_h a2) n1 n1
      (get_view (Config a2 (proposer_new n1) 0 n1 n1 []) (instance_h a2))))) 0 = Ret (r', true) /\
    myvid (cfg r') = instance_h a2 /\ mems (cfg r') = get_view (Config a2 (proposer_new n1) 0 n1 n1 []) (instance_h a2).
Proof.
  apply (join_same_view true n1 n1 [ACommit 2 (S! "1 2 ")] a2 (proposer_new n1) n1 n1 r1 0 a2_reachable).
  vm_compute. reflexivity.
Defined.

(** Replaying an instance after a proposal keeps the proposal's node name, which
    committing resets: the one difference between memory and log. *)
Theorem replay_keeps_proposer :
  let rs := [RProp (Prop_t 3 n2); RDone 2 (S! "1 2 ")] in
  (exists a, log.logread (foldl log_record (blank n1 []) rs) 0 = Ret a /\ m (n_h a) = n2) /\
  m (n_h (commit_wo (set_n_h (blank n1 []) (Prop_t 3 n2)) 2 (S! "1 2 ")).1) = n1.
Proof. split; [eexists; split; vm_compute; reflexivity|vm_compute; reflexivity]. Qed.

(** When the primary leaves, the next one is the first of the old view that
    stays, not the one with the lowest number. *)
Theorem primary_is_first_not_lowest :
  new_primary (S! "9") [S! "9"; S! "7"; S! "3"] [S! "7"; S! "3"] = S! "7".
Proof. vm_compute. reflexivity. Qed.
End GroupExample.
