(* ===== verification/GroupRpc.v ===== *)
(** * The replicas over RPC: [rsm.cc], [config.cc], [paxos.cc], [lock_smain.cc]
    and the test client [rsmtest_client.cc], [rsm_tester.cc]

    A node is a replica with two RPC servers: the one its acceptor opens, where
    the handlers of acceptor, configuration and state machine are registered, and
    one for the tester.  The theorems carry joining and the heartbeat, which
    [Group] describes with the answers of remote calls as arguments, over the
    client and the server of [RpcSystem]. *)

From S2P Require Import Prelude Directory Marshall MarshallSpec RpcStubs RpcServer RpcServerSpec.
From S2P Require Import RpcClient RpcClientSpec RpcSystem Protocols Paxos PaxosThms Group GroupThms GroupExamples LockServers.
Import paxos_protocol config rsm views.

Module numbers.
Definition client_invoke : Z := 0x9001.
Definition client_members : Z := 0x9002.
Definition invoke : Z := 0x10001.
Definition transferreq : Z := 0x10002.
Definition transferdonereq : Z := 0x10003.
Definition joinreq : Z := 0x10004.
Definition preparereq : Z := 0x11001.
Definition acceptreq : Z := 0x11002.
Definition decidereq : Z := 0x11003.
Definition heartbeat : Z := 0x11004.
Definition net_repair : Z := 0x12001.
Definition breakpoint : Z := 0x12002.
End numbers.

(** ** The handlers, on the state of the node *)

Definition prepare_meth (o : rsm) (src : str) (a : preparearg) (r : prepareres) : res (rsm * Z * prepareres) :=
  let '(x, ret, r) := preparereq (acc (cfg o)) src a r in Ret (set_cfg o (set_acc (cfg o) x), ret, r).

Definition accept_meth (o : rsm) (src : str) (a : acceptarg) (r : bool) : res (rsm * Z * bool) :=
  let '(x, ret, r) := acceptreq (acc (cfg o)) src a r in Ret (set_cfg o (set_acc (cfg o) x), ret, r).

(** [decidereq] with what [commit_wo] calls: the view change of the
    configuration, then of the state machine. *)
Definition decide_meth (o : rsm) (src : str) (a : decidearg) (r : sint) : res (rsm * Z * sint) :=
  '(x, up, ret) ← decidereq (acc (cfg o)) src a;
  let c := set_acc (cfg o) x in
  o ← (if (up : bool) then
         let '(c, _, vid) := paxos_commit c (da_instance a) (v_a (acc (cfg o))) in commit_change (set_cfg o c) vid
       else Ret (set_cfg o c));
  Ret (o, ret, r).

Definition heartbeat_meth (o : rsm) (x : str) (vid : uint) (r : sint) : res (rsm * Z * sint) :=
  '(ret, r) ← heartbeat (cfg o) (uint_val vid);
  Ret (o, ret, SInt r).

Definition client_invoke_meth (o : rsm) (procno : sint) (req r : str) : res (rsm * Z * str) :=
  Ret (client_invoke o (sint_val procno) req r).

Definition client_members_meth (o : rsm) (i : sint) (r : vector str) : res (rsm * Z * vector str) :=
  Ret (o, 0, Vector (client_members o)).

Definition invoke_meth (o : rsm) (proc : sint) (vs : viewstamp) (req : str) (dummy : sint) : res (rsm * Z * sint) :=
  let '(o, ret, d) := invoke o (sint_val proc) vs req (sint_val dummy) in Ret (o, ret, SInt d).

Definition transfer_meth (o : rsm) (src : str) (last : viewstamp) (vid : uint) (r : rsm_protocol.transferres)
  : res (rsm * Z * rsm_protocol.transferres) := Ret (transferreq o src last (uint_val vid) r).

Definition transferdone_meth (o : rsm) (x : str) (vid : uint) (r : sint) : res (rsm * Z * sint) :=
  let '(o, ret) := transferdonereq o x (uint_val vid) in Ret (o, ret, r).

Definition join_meth (o : rsm) (x : str) (last : viewstamp) (r : rsm_protocol.joinres)
  : res (rsm * Z * rsm_protocol.joinres) :=
  '(o, ret, log) ← joinreq o x (rsm_protocol.log r);
  Ret (o, ret, rsm_protocol.Joinres log).

Definition net_repair_meth (o : rsm) (heal r : sint) : res (rsm * Z * sint) :=
  let '(o, ret) := test_net_repairreq o (negb (sint_val heal =? 0)) in Ret (o, ret, SInt ret).

Definition breakpoint_meth (o : rsm) (b r : sint) : res (rsm * Z * sint) :=
  let '(o, ret) := breakpointreq o (sint_val b) in Ret (o, ret, SInt ret).

(** ** Starting a node *)
Section node.
Context `{AL : Allocator}.
(** What the result variables of the handlers hold: those without a constructor. *)
Context (ri : Z) (rb : bool) (rp : prepareres).

Fixpoint reg_all {St} (s : rpcs (St := St)) (l : list (Z * handler St)) : res (rpcs (St := St)) :=
  match l with
  | [] => Ret s
  | (proc, f) :: l => s ← reg1 s proc f; reg_all s l
  end.

(** The end of the constructor of [acceptor]. *)
Definition acceptor_procs : list (Z * handler rsm) :=
  [(numbers.preparereq, fn_2 rp prepare_meth);
   (numbers.acceptreq, fn_2 rb accept_meth);
   (numbers.decidereq, fn_2 (SInt ri) decide_meth)].

(** The constructor of [config]. *)
Definition config_procs : list (Z * handler rsm) := [(numbers.heartbeat, fn_2 (SInt ri) heartbeat_meth)].

(** The constructor of [rsm]: the server it gets from the configuration, and the
    one of the tester. *)
Definition rsm_procs : list (Z * handler rsm) :=
  [(numbers.client_invoke, fn_2 ([] : str) client_invoke_meth);
   (numbers.client_members, fn_1 (Vector []) client_members_meth);
   (numbers.invoke, fn_3 (SInt ri) invoke_meth);
   (numbers.transferreq, fn_3 (rsm_protocol.Transferres [] (Viewstamp 0 0)) transfer_meth);
   (numbers.transferdonereq, fn_2 (SInt ri) transferdone_meth);
   (numbers.joinreq, fn_2 (rsm_protocol.Joinres []) join_meth)].

Definition test_procs : list (Z * handler rsm) :=
  [(numbers.net_repair, fn_1 (SInt ri) net_repair_meth);
   (numbers.breakpoint, fn_1 (SInt ri) breakpoint_meth)].

(** The whole construction: [file] is the log found on disk, [junk] and [vi]
    uninitialised memory, [n1] and [n2] what [random()] returns to the two
    servers. *)
Definition rsm_start (first me file : str) (junk vi n1 n2 : Z)
  : res (rsm * rpcs (St := rsm) * rpcs (St := rsm)) :=
  r ← rsm_new first me file junk vi;
  pxs ← rpcs_new n1 0;
  pxs ← reg_all pxs acceptor_procs;
  pxs ← reg_all pxs config_procs;
  pxs ← reg_all pxs rsm_procs;
  testsvr ← rpcs_new n2 0;
  testsvr ← reg_all testsvr test_procs;
  Ret (r, pxs, testsvr).

(** [main] of [lock_smain.cc] up to its endless loop, compiled as it stands, with
    [RSM] defined: no lock server is made. *)
Definition lock_main (argv : list str) (file : str) (junk vi n1 n2 : Z)
  : res (rsm * rpcs (St := rsm) * rpcs (St := rsm)) :=
  match argv with
  | [_; first; me] => rsm_start first me file junk vi n1 n2
  | _ => Abort
  end.
End node.

(** ** The callers, over any transport *)
Section callers.
Context `{AL : Allocator} {S : Type} (call1 : transport S).

(** [rsm::join] once [safebind] has returned a client for the node. *)
Definition join_call (st : S) (r : rsm) (j0 : rsm_protocol.joinres) (junk : Z) : res (S * rsm * bool) :=
  '(st, ret, j) ← call_2 call1 st numbers.joinreq (cme (cfg r)) (last_myvs r) j0;
  '(r, ok) ← join r (if negb (ret =? rsm_protocol.OK) then None else Some (rsm_protocol.log j)) junk;
  Ret (st, r, ok).

(** What the call of [config::doheartbeat] returns. *)
Definition heartbeat_call (st : S) (c : config) (r : Z) : res (S * Z) :=
  '(st, ret, _) ← call_2 call1 st numbers.heartbeat (cme c) (UInt (myvid c)) (SInt r);
  Ret (st, ret).
End callers.

Module rsmtest_client.
Section stubs.
Context `{AL : Allocator} {S : Type} (call1 : transport S) (r : Z).

Definition net_repair (st : S) (heal : Z) : res (S * Z) :=
  '(st, ret, r) ← call_1 call1 st numbers.net_repair (SInt heal) (SInt r);
  _ ← VERIFY (ret =? 0);
  Ret (st, sint_val r).

Definition breakpoint (st : S) (b : Z) : res (S * Z) :=
  '(st, ret, r) ← call_1 call1 st numbers.breakpoint (SInt b) (SInt r);
  _ ← VERIFY (ret =? 0);
  Ret (st, sint_val r).

(** [main] of [rsm_tester.cc] once its client is made: what it prints. *)
Definition tester_main (st : S) (argv : list str) : res (S * option Z) :=
  match argv with
  | [_; _; command; arg] =>
      if bool_decide (command = S! "partition") then '(st, r) ← net_repair st (atoi arg); Ret (st, Some r)
      else if bool_decide (command = S! "breakpoint") then '(st, r) ← breakpoint st (atoi arg); Ret (st, Some r)
      else Ret (st, None)
  | _ => Abort
  end.
End stubs.
End rsmtest_client.

(** ** Registration *)
Section start.
Context `{AL : Allocator}.

Lemma reg_all_ok {St} (l : list (Z * handler St)) : forall s : rpcs (St := St),
  sys_init (Sys s []) -> NoDup l.*1 -> (forall p, p ∈ l.*1 -> procs_ s !! p = None) ->
  exists s', reg_all s l = Ret s' /\ sys_init (Sys s' []) /\ nonce_ s' = nonce_ s /\
    (forall p f, (p, f) ∈ l -> procs_ s' !! p = Some f) /\ (forall q, q ∉ l.*1 -> procs_ s' !! q = procs_ s !! q).
Proof.
  induction l as [|[p f] l IH]; intros s Hs Hnd Hp; [by exists s; split_and!; try done; set_solver|].
  apply NoDup_cons in Hnd as [Hpl Hnd]. change ((p, f) :: l).*1 with (p :: l.*1) in *.
  destruct (reg1_ok s p f Hs (Hp p ltac:(left))) as (s1 & E1 & H1 & N1 & P1).
  destruct (IH s1 H1 Hnd) as (s' & E & H' & N' & Hin & Hout).
  { intros q Hq. rewrite P1, lookup_insert_ne by set_solver. apply Hp. by right. }
  exists s'. split; [by simpl; rewrite E1|]. split_and!; [apply H'..|congruence| |].
  - intros q g [[= -> ->]|Hq]%elem_of_cons; [|by apply Hin]. rewrite (Hout p Hpl), P1. apply lookup_insert_eq.
  - intros q [Hq Hql]%not_elem_of_cons. rewrite (Hout q Hql), P1. by rewrite lookup_insert_ne.
Qed.

Context (ri : Z) (rb : bool) (rp : prepareres).

Definition node_procs : list (Z * handler rsm) := acceptor_procs ri rb rp ++ config_procs ri ++ rsm_procs ri.

Lemma node_procs_join : (numbers.joinreq, fn_2 (rsm_protocol.Joinres []) join_meth) ∈ node_procs.
Proof. unfold node_procs, acceptor_procs, config_procs, rsm_procs. cbn [app]. do 9 right. left. Qed.
Lemma node_procs_heartbeat : (numbers.heartbeat, fn_2 (SInt ri) heartbeat_meth) ∈ node_procs.
Proof. unfold node_procs, acceptor_procs, config_procs, rsm_procs. cbn [app]. do 3 right. left. Qed.

(** What a started node serves: every handler at its number, [bind], and nothing
    else. *)
Definition serves (s : rpcs (St := rsm)) (l : list (Z * handler rsm)) : Prop :=
  sys_init (Sys s []) /\ (forall p f, (p, f) ∈ l -> procs_ s !! p = Some f) /\
  (forall q, q ∉ l.*1 -> q <> rpc_const.bind -> procs_ s !! q = None) /\
  exists s0, nonce_ s0 = nonce_ s /\ procs_ s !! rpc_const.bind = Some (fn_1 (SInt 0) (rpcbind_meth s0)).

Lemma reg_all_app {St} (l l' : list (Z * handler St)) : forall s : rpcs (St := St),
  reg_all s (l ++ l') = (s ← reg_all s l; reg_all s l').
Proof.
  induction l as [|[p f] l IH]; intros s; [done|]. simpl. destruct (reg1 s p f); rsimpl; [apply IH|done|done].
Qed.

Lemma serves_new nonce count l :
  NoDup l.*1 -> rpc_const.bind ∉ l.*1 ->
  exists s, (s ← rpcs_new nonce count; reg_all s l) = Ret s /\ nonce_ s = nonce /\ serves s l.
Proof.
  intros Hnd Hb. destruct (rpcs_new_ok (St := rsm) nonce count) as (s1 & E1 & H1 & N1 & s0 & N0 & P1).
  destruct (reg_all_ok l s1 H1 Hnd) as (s & E & Hs & N & Hin & Hout).
  { intros p Hp. rewrite P1. apply lookup_singleton_ne. by intros <-. }
  exists s. rewrite E1. rsimpl. split; [done|]. split; [congruence|]. split_and!; [apply Hs..|done| |].
  - intros q Hq Hqb. rewrite (Hout q Hq), P1. by apply lookup_singleton_ne.
  - exists s0. split; [congruence|]. rewrite (Hout _ Hb), P1. apply lookup_singleton_eq.
Qed.

Lemma rsm_start_ok first me file junk vi n1 n2 r :
  rsm_new first me file junk vi = Ret r ->
  exists pxs testsvr, rsm_start ri rb rp first me file junk vi n1 n2 = Ret (r, pxs, testsvr) /\
    nonce_ pxs = n1 /\ nonce_ testsvr = n2 /\ serves pxs node_procs /\ serves testsvr (test_procs ri).
Proof.
  intros Hr. unfold rsm_start. rewrite Hr. rsimpl.
  destruct (serves_new n1 0 node_procs) as (pxs & E1 & N1 & S1);
    [by apply (bool_decide_unpack _); vm_compute|by apply (bool_decide_unpack _); vm_compute|].
  destruct (serves_new n2 0 (test_procs ri)) as (ts & E2 & N2 & S2);
    [by apply (bool_decide_unpack _); vm_compute|by apply (bool_decide_unpack _); vm_compute|].
  exists pxs, ts. split; [|done]. unfold node_procs in E1.
  destruct (rpcs_new n1 0) as [s0| |]; [|done|done]. rsimpl. revert E1. rsimpl. rewrite reg_all_app.
  destruct (reg_all s0 (acceptor_procs ri rb rp)) as [s1| |]; [|done|done]. rsimpl. rewrite reg_all_app.
  destruct (reg_all s1 (config_procs ri)) as [s2| |]; [|done|done]. rsimpl. intros ->. rsimpl.
  destruct (rpcs_new n2 0) as [t0| |]; [|done|done]. rsimpl. revert E2. rsimpl. intros ->. done.
Qed.
End start.

(** ** Calls between nodes *)

Lemma run_returns p a inst nodes v : exists p', run p a inst nodes v = Ret (p', false).
Proof.
  destruct (stable p) eqn:Hs; [eexists; by apply run_unfilled|]. exists p. unfold run, run_with. by rewrite Hs.
Qed.

Lemma add_returns c x vid : exists c', add c x vid = Ret (c', false) /\ acc c' = acc c /\ myvid c' = myvid c.
Proof.
  unfold add. destruct (negb _); [by exists c|].
  destruct (run_returns (pro c) (acc c) (s32 (myvid c + 1)) (mems c) (value (mems c ++ [x]))) as [p' ->].
  rsimpl. by eexists.
Qed.

(** Does the node let [x] in: a member of the view it committed, or, at the
    primary, of the view it knows? *)
Definition lets_in (o : rsm) (x : str) : bool :=
  ismember (cfg o) x (vid_commit o) || (str_eqb (cme (cfg o)) (primary o) && ismember (cfg o) x (myvid (cfg o))).

Lemma joinreq_returns o x log :
  exists o', joinreq o x log = Ret (o', if lets_in o x then rsm_protocol.OK else rsm_protocol.BUSY,
      if lets_in o x then dump (cfg o) else log) /\
    acc (cfg o') = acc (cfg o).
Proof.
  unfold joinreq, lets_in. destruct (ismember (cfg o) x (vid_commit o)); [by exists o|].
  destruct (str_eqb (cme (cfg o)) (primary o)); cbn [negb orb andb]; [|by exists o].
  destruct (add_returns (cfg o) x (vid_commit o)) as (c' & -> & Ha & Hv). rsimpl. rewrite Hv.
  assert (ismember c' x (myvid (cfg o)) = ismember (cfg o) x (myvid (cfg o))) as ->
    by (unfold ismember, get_view_wo, Paxos.value; by rewrite Ha).
  exists (set_cfg o c'). unfold dump. rewrite Ha. by destruct (ismember _ _ _).
Qed.

Section remote.
Context `{AL : Allocator} (create_time : conn -> Z * Z) (isdead : conn -> bool) (k : conn).
Context (ri : Z).

Let call := loopback (St := rsm) create_time isdead k.

Definition stamp_ok (v : viewstamp) : Prop := 0 <= vid v < two32 /\ 0 <= seqno v < two32.


(** The heartbeat of a node [c] at another one. *)
Lemma heartbeat_answer cl s o c ret r :
  linked create_time isdead k true cl s -> xid_ cl < two32 - 2 ->
  procs_ s !! numbers.heartbeat = Some (fn_2 (SInt ri) heartbeat_meth) ->
  0 <= myvid c < two32 -> Z.of_nat (32 + length (cme c)) < PDU_LIMIT ->
  heartbeat (cfg o) (myvid c) = Ret (ret, s32 (myvid (cfg o))) -> 0 <= ret < two31 ->
  exists cl' s', heartbeat_call call (cl, s, o) c r = Ret (cl', s', o, ret) /\ next_call create_time isdead k true cl s cl' s'.
Proof.
  intros Hl Hx Hp Hv Hme Eh Hret.
  destruct (rpc_call2_ok create_time isdead k (SInt ri) heartbeat_meth cl s o numbers.heartbeat
    (cme c) (UInt (myvid c)) (cme c) (UInt (myvid c)) (SInt r) o ret (SInt (s32 (myvid (cfg o))))) as (c' & s' & E & Hn);
    try done; try (simpl; unfold PDU_LIMIT in *; lia).
  - simpl. rewrite ?length_app. simpl. unfold PDU_LIMIT in *. lia.
  - unfold heartbeat_meth. simpl. by rewrite Eh.
  - simpl. unfold s32. pose proof (Z.mod_pos_bound (myvid (cfg o) + two31) two32). lia.
  - exists c', s'. split; [|done]. unfold heartbeat_call, call. by rewrite E.
Qed.

(** Every other member of the view answers: [peers x] is the client [c] has of
    node [x], that node's server and its state. *)
Definition all_answer (c : config) (peers : str -> rpcc * rpcs (St := rsm) * rsm) : Prop :=
  forall x, x ∈ get_view c (myvid c) -> x <> cme c ->
    linked create_time isdead k true (peers x).1.1 (peers x).1.2 /\ xid_ (peers x).1.1 < two32 - 2 /\
    procs_ (peers x).1.2 !! numbers.heartbeat = Some (fn_2 (SInt ri) heartbeat_meth).

(** What its heartbeat returns; a call that does not return times out. *)
Definition remote_beat (c : config) (peers : str -> rpcc * rpcs (St := rsm) * rsm) (x : str) : Z :=
  match heartbeat_call call (peers x) c ri with Ret (_, ret) => ret | _ => rpc_const.timeout_failure end.

Lemma remote_beat_same c peers x :
  all_answer c peers -> x ∈ get_view c (myvid c) -> x <> cme c ->
  0 <= myvid c < two32 -> Z.of_nat (32 + length (cme c)) < PDU_LIMIT ->
  (myvid (cfg (peers x).2) = myvid c -> remote_beat c peers x = OK) /\
  (myvid (cfg (peers x).2) <> myvid c -> isrunning (pro (cfg (peers x).2)) = false -> remote_beat c peers x = ERR).
Proof.
  intros Ha Hin Hne Hv Hme. destruct (Ha x Hin Hne) as (Hl & Hx & Hp). unfold remote_beat.
  destruct (peers x) as [[cl s] o]. cbn [fst snd] in *. split.
  - intros E. destruct (heartbeat_answer cl s o c OK ri Hl Hx Hp Hv Hme) as (? & ? & -> & _); [|done|done].
    unfold heartbeat. rewrite E. by rewrite Z.eqb_refl.
  - intros E Hrun. destruct (heartbeat_answer cl s o c ERR ri Hl Hx Hp Hv Hme) as (? & ? & -> & _); [|done|done].
    unfold heartbeat. rewrite (proj2 (Z.eqb_neq _ _)) by done. by rewrite Hrun.
Qed.

(** C36: heartbeats over the network: when every other member answers, a turn of
    the heartbeater suspects only a member of the view, other than the node
    itself, that is not in the same view; and the node with the smallest name does
    suspect one when one has fallen out of its view and is not running Paxos. *)
Theorem heartbeats_exact c peers :
  all_answer c peers -> 0 <= myvid c < two32 -> Z.of_nat (32 + length (cme c)) < PDU_LIMIT ->
  (forall x, heartbeat_turn c (remote_beat c peers) = Some x ->
    x ∈ get_view c (myvid c) /\ x <> cme c /\ myvid (cfg (peers x).2) <> myvid c) /\
  (forall y, smallest (cme c) (get_view c (myvid c)) = cme c -> cme c ∈ get_view c (myvid c) ->
    y ∈ get_view c (myvid c) -> y <> cme c -> myvid (cfg (peers y).2) <> myvid c ->
    isrunning (pro (cfg (peers y).2)) = false -> heartbeat_turn c (remote_beat c peers) <> None).
Proof.
  intros Ha Hv Hme. destruct (heartbeat_suspects c (remote_beat c peers)) as [H1 H2]. split.
  - intros x Hx. destruct (H1 x Hx) as (Hin & Hne & Hb). split_and!; [done|done|]. intros E. apply Hb.
    destruct (remote_beat_same c peers x Ha Hin Hne Hv Hme) as [-> _]; done.
  - intros y Hs Hin Hy Hne E Hrun. apply (H2 y); try done.
    destruct (remote_beat_same c peers y Ha Hy Hne Hv Hme) as [_ ->]; done.
Qed.

(** The tester's requests reach the replica; an unknown breakpoint makes the
    client abort. *)
Theorem tester_requests_arrive cl s o r heal b :
  linked create_time isdead k true cl s -> xid_ cl < two32 - 2 ->
  (forall p f, (p, f) ∈ test_procs ri -> procs_ s !! p = Some f) ->
  - two31 <= heal < two31 -> - two31 <= b < two31 ->
  (exists cl' s', rsmtest_client.net_repair call r (cl, s, o) heal =
     Ret (cl', s', (test_net_repairreq o (negb (heal =? 0))).1, 0) /\ next_call create_time isdead k true cl s cl' s') /\
  (1 <= b <= 4 -> exists cl' s', rsmtest_client.breakpoint call r (cl, s, o) b =
     Ret (cl', s', (breakpointreq o b).1, 0) /\ next_call create_time isdead k true cl s cl' s') /\
  (~ 1 <= b <= 4 -> rsmtest_client.breakpoint call r (cl, s, o) b = Abort).
Proof.
  intros Hl Hx Hs Hh Hb.
  assert (procs_ s !! numbers.net_repair = Some (fn_1 (SInt ri) net_repair_meth) /\
     procs_ s !! numbers.breakpoint = Some (fn_1 (SInt ri) breakpoint_meth)) as [Hp1 Hp2].
  { split; apply Hs; unfold test_procs; set_solver. }
  assert (exists cl' s', call_1 call (cl, s, o) numbers.net_repair (SInt heal) (SInt r) =
    Ret (cl', s', (test_net_repairreq o (negb (heal =? 0))).1, 0, SInt 0) /\ next_call create_time isdead k true cl s cl' s') as (c1 & s1 & E1 & N1).
  { eapply (rpc_call1_ok create_time isdead k (SInt ri) net_repair_meth); try done. 
    unfold net_repair_meth. simpl. by destruct (heal =? 0). }
  assert (exists cl' s', call_1 call (cl, s, o) numbers.breakpoint (SInt b) (SInt r) =
    Ret (cl', s', (breakpointreq o b).1, (breakpointreq o b).2, SInt (breakpointreq o b).2) /\ next_call create_time isdead k true cl s cl' s') as (c2 & s2 & E2 & N2).
  { assert (0 <= (breakpointreq o b).2 <= 1) as Hr.
    { unfold breakpointreq. destruct (b =? 1), (b =? 2), ((b =? 3) || (b =? 4)); simpl; lia. }
    eapply (rpc_call1_ok create_time isdead k (SInt ri) breakpoint_meth); try done; try (simpl; lia).
    unfold breakpoint_meth. simpl. by destruct (breakpointreq o b). }
  split_and!.
  - exists c1, s1. split; [|done]. unfold rsmtest_client.net_repair. by rewrite E1.
  - intros Hb4. exists c2, s2. split; [|done]. unfold rsmtest_client.breakpoint. rewrite E2. rsimpl.
    assert ((breakpointreq o b).2 = 0) as ->; [|done]. unfold breakpointreq.
    destruct (Z.eqb_spec b 1), (Z.eqb_spec b 2), (Z.eqb_spec b 3), (Z.eqb_spec b 4); simpl; lia.
  - intros Hb4. unfold rsmtest_client.breakpoint. rewrite E2. rsimpl.
    assert ((breakpointreq o b).2 = 1) as ->; [|done]. unfold breakpointreq.
    destruct (Z.eqb_spec b 1), (Z.eqb_spec b 2), (Z.eqb_spec b 3), (Z.eqb_spec b 4); simpl; lia.
Qed.

(** A client that connects to a server just started. *)
Lemma client_of_node s l o rnd lossy r :
  serves s l -> isdead k = false -> 0 <= nonce_ s < two32 ->
  exists c s', bind create_time isdead k (rpcc_new true rnd lossy, s, o) r = Ret (c, s', o, 0) /\
    linked create_time isdead k true c s' /\ xid_ c = 2 /\ forall p f, (p, f) ∈ l -> procs_ s' !! p = Some f.
Proof.
  intros (Hi & Hin & _ & sb & Hnb & Hb) Hk Hn.
  destruct (bind_ok create_time isdead k (rpcc_new true rnd lossy) s o r sb) as (c & s' & E & (Hl & Hx & _ & Hfix & _) & _);
    [by apply linked_start|done|done|congruence|done|].
  exists c, s'. split_and!; [done|done|done|]. unfold fixed in Hfix. injection Hfix as _ Hfix. by rewrite Hfix.
Qed.
End remote.

(** A decision announced by [decidereq] for the next instance is a decision
    carried up through the three layers. *)
Lemma decide_meth_decided o src a r :
  da_instance a = u32 (instance_h (acc (cfg o)) + 1) -> v_a (acc (cfg o)) = da_v a ->
  instance_h (acc (cfg o)) < da_instance a ->
  decide_meth o src a r = ('(o, _) ← decided o (da_instance a) (da_v a); Ret (o, OK, r)).
Proof.
  intros Ei Ev Hlt. unfold decide_meth, decidereq, decided, commit. rewrite <- Ei, Z.eqb_refl.
  rewrite VERIFY_true by (by apply bool_decide_eq_true_2). rsimpl. rewrite Ev. unfold commit_wo.
  rewrite (proj2 (Z.ltb_lt _ _)) by done. rsimpl.
  destruct (paxos_commit _ _ _) as [[c gone] vid].
  by match goal with |- context [commit_change ?x ?y] => destruct (commit_change x y) end.
Qed.

(** The lock server's program, compiled as it stands, serves no lock: its server
    has no handler for the calls of the lock protocol. *)
Theorem lock_program_has_no_locks `{Allocator} ri rb rp argv0 first me file junk vi n1 n2 r proc :
  rsm_new first me file junk vi = Ret r -> lock_protocol.acquire <= proc <= lock_protocol.stat ->
  exists pxs testsvr, lock_main ri rb rp [argv0; first; me] file junk vi n1 n2 = Ret (r, pxs, testsvr) /\
    procs_ pxs !! proc = None /\ procs_ testsvr !! proc = None.
Proof.
  intros Hr Hp. destruct (rsm_start_ok ri rb rp first me file junk vi n1 n2 r Hr) as (pxs & ts & E & _ & _ & S1 & S2).
  exists pxs, ts. split; [exact E|]. destruct S1 as (_ & _ & S1 & _), S2 as (_ & _ & S2 & _).
  unfold lock_protocol.acquire, lock_protocol.stat, rpc_const.bind in *.
  split; [apply S1|apply S2]; simpl; rewrite ?elem_of_cons, ?elem_of_nil;
    unfold numbers.preparereq, numbers.acceptreq, numbers.decidereq, numbers.heartbeat, numbers.client_invoke,
      numbers.client_members, numbers.invoke, numbers.transferreq, numbers.transferdonereq, numbers.joinreq,
      numbers.net_repair, numbers.breakpoint, rpc_const.bind; lia.
Qed.

(** ** Node 2 comes back and joins node 1 *)
Module GroupRpcExample.
Import GroupExample.
#[local] Instance zeros : Allocator := fun _ => Ascii.zero.

Definition created (_ : conn) : Z * Z := (0, 0).
Definition alive (_ : conn) : bool := false.
Definition rp0 : prepareres := Prepareres false false (Prop_t 0 []) [].

(** Node 2 after its restart, which knows no view. *)
Definition node2 : rsm :=
  match rsm_new n1 n2 [] 0 0 with Ret r => r | _ => r1 end.

Lemma node1_serves : exists c s, linked created alive 3 true c s /\ xid_ c = 2 /\
  forall p f, (p, f) ∈ node_procs 0 false rp0 -> procs_ s !! p = Some f.
Proof.
  destruct (rsm_start_ok 0 false rp0 n1 n1 [] 0 0 42 43 r1) as (pxs & ts & _ & N1 & _ & S1 & _); [vm_compute; reflexivity|].
  destruct (client_of_node created alive 3 pxs _ r2 7 0 0 S1 eq_refl) as (c & s & _ & Hl & Hx & Hp); [rewrite N1; done|].
  by exists c, s.
Qed.

Lemma r2_acceptor : reachable (started true n1 n1) astep [ACommit 2 (S! "1 2 ")] (acc (cfg r2)).
Proof. replace (acc (cfg r2)) with a2 by (vm_compute; reflexivity). exact a2_reachable. Qed.


(** C36, witness: node 1 asks node 2, which answers from the view it is in. *)
Lemma heartbeats_exact_witness :
  exists peers, (peers n2).2 = node2 /\ heartbeat_turn (cfg r2) (remote_beat created alive 3 0 (cfg r2) peers) <> None.
Proof.
  destruct node1_serves as (c & s & Hl & Hx & Hp). exists (fun _ => (c, s, node2)). split; [reflexivity|].
  refine (proj2 (heartbeats_exact created alive 3 0 (cfg r2) (fun _ => (c, s, node2)) _ _ _) n2 _ _ _ _ _ _).
  - intros x _ _. split; [exact Hl|]. split; [simpl; rewrite Hx; reflexivity|]. apply Hp, node_procs_heartbeat.
  - vm_compute. split; [discriminate|reflexivity].
  - vm_compute. reflexivity.
  - vm_compute. reflexivity.
  - vm_compute. left.
  - vm_compute. right. left.
  - vm_compute. discriminate.
  - vm_compute. discriminate.
  - vm_compute. reflexivity.
Defined.
End GroupRpcExample.
